(* ===== verification/_CoqProject ===== *)
-Q . S2P
Prelude.v
JsString.v
JsRegExp.v
JsNumber.v
Topics.v
Messages.v
Utf8.v
Adapter.v
AdapterSystem.v
AdapterSafety.v
AdapterSession.v
AdapterProperties.v
AdapterLife.v
AdapterBridge.v
MqttConnect.v
CertAuth.v
Service.v
ThingsCache.v
Things.v
ThingsSafety.v
ThingsRows.v
ThingsProperties.v
ThingsList.v
ThingsListProperties.v
Platform.v
GoCodec.v
Subtopics.v
GoAdapters.v
GoPlatform.v
WsSession.v
CoapMessage.v
CoapObserve.v
CoapSafety.v
CoapHistory.v
CoapLife.v
CoapProperties.v
ThingsEvents.v
Base64.v
RouteMap.v
LoraAdapter.v
LoraProperties.v
OpcuaAdapter.v
Authn.v
AuthnSystem.v
AuthnHistory.v
TokenCodec.v
AuthnProperties.v
Users.v
UsersSafety.v
UsersProperties.v
Tenancy.v
ConfigStore.v
ConfigCipher.v
Bootstrap.v
ConfigStoreSafety.v
BootstrapSafety.v
ThingsSdk.v
BootstrapSystem.v
BootstrapProperties.v
Interop.v
Startup.v
Branding.v
