(* ===== verification/Prelude.v ===== *)
(** * The messaging edge of the ADO backend

    The ADO backend is a fork of Mainflux, an IoT platform of Go services behind
    an nginx proxy.  Two of its parts are written in JavaScript, and both stand
    where untrusted devices come in:

    - the MQTT adapter, [mqtt/aedes/mqtt.js]: a Node service around the aedes
      broker.  It authenticates clients and authorises publications and
      subscriptions with the Things service (gRPC), bridges MQTT and NATS, and
      reports connections on a Redis stream;
    - the certificate checks, [docker/ssl/authorization.js]: njs code that nginx
      runs on MQTT, HTTP and WebSocket traffic when mutual TLS is on.  It reads
      the password out of the raw MQTT CONNECT packet and compares it with the
      common name of the client certificate.

    Around them, in Go: the Things service ([things/]), which answers their
    questions about access from PostgreSQL tables and two Redis caches; the HTTP,
    WebSocket and CoAP adapters, which publish on the same NATS subjects and, the
    last two, deliver what is published there; the LoRa and OPC-UA adapters, which
    follow the event stream of the Things service to publish for their devices; the
    users and authn services ([users/], [authn/]), which keep the accounts and the
    keys that requests to the Things service carry; the Bootstrap service
    ([bootstrap/]), which configures devices and connects their things through the
    SDK; and the message codec they all share ([message.pb.go]).

    ** The files

    - [Prelude]: literals, tactics and list lemmas every file uses.
    - [JsString], [JsRegExp], [JsNumber]: the part of the JavaScript language
      the sources use.  Strings are lists of code units; regular expressions run
      on the backtracking matcher of ECMA-262; numbers are IEEE doubles.
    - [Topics]: [parseTopic], the subtopic elements, content-type suffix and NATS
      subject of [authorizePublish], and the topic that the NATS subscriber
      builds.
    - [Messages]: property values and [Message] ([message.proto]), with the
      protobuf codec as the class [MessageCodec] and its law [MessageCodecOk].
    - [Utf8]: the encoding of well-formed text in Go strings, and its inverse.
    - [Adapter]: state and handlers of the adapter.  A [world] has the client
      objects (a store, because the handlers and the callbacks share and mutate
      them), the callbacks in flight by request id, the clock, and the trace of
      events in and effects out.  One definition per handler and per callback:
      [authorizePublish] and [onAuthorizePublish], [authorizeSubscribe] and
      [onAuthorizeSubscribe], [authenticate] and [onIdentify],
      [clientDisconnect], [clientError], [connectionError], [aedesError],
      [redisError], [onNatsMessage], [publishConnEvent] and [onPublish].
    - [AdapterSystem]: the transition system of the adapter.  JavaScript runs a
      handler to completion, so an interleaving is a sequence of events; replies
      may arrive in any order, or never.  [transition] has one rule per branch
      of the code.
    - [AdapterSafety]: the invariants of the reachable worlds, by rule induction.
    - [AdapterSession]: one client in a trace: its identifications
      ([authenticating], [identified_as]), its object as the trace leaves it
      ([client_at]), and what it asked for ([asked]).
    - [AdapterProperties], [AdapterLife], [AdapterBridge]: what the adapter
      guarantees, in one state, over time, and across the two brokers.
    - [MqttConnect]: [parsePackage] and [calcLen] of [authorization.js] against
      the wire format of a CONNECT packet.
    - [CertAuth]: [parseCert], [setKey] with the nginx guard
      [snippets/verify-ssl-client.conf], and the MQTT session [authenticate]
      with its upload handler.
    - [Service], [Startup]: the [config] object and the version endpoint of
      [startWs]; the libraries set up from the configuration.
    - [Branding]: the Grafana login page ([docker/grafana/branding/]).
    - [ThingsCache]: the caches of [things/redis/], as the class [Caches] with the
      laws [CachesOk], and their implementation on a Redis keyspace, which meets
      the laws.
    - [Things]: the tables of [things/postgres/] with their constraints, the
      operations of [things/service.go] on tables and caches, and the gRPC
      endpoints.  [serve] is one request.
    - [ThingsSafety], [ThingsRows], [ThingsProperties]: the invariant between tables
      and caches, the rows of one user, and what the service guarantees.
    - [ThingsList], [ThingsListProperties]: the other columns of the tables, the
      updates, views and paged listings with their queries ([retrieve_things] and
      its kin), the checks of listing requests; a [catalog] is the service with
      these columns, a [change] a request that changes it.
    - [Platform]: the adapter with its calls answered by the Things service while
      users change the tables; [pstep] is a step of either.
    - [GoCodec]: [Marshal] and [Unmarshal] of [message.pb.go], with buffers,
      indices and machine integers, and a panic as an outcome.
    - [Subtopics]: the subtopic parsers of the HTTP, WebSocket and CoAP adapters,
      compared with [Topics] through UTF-8.
    - [GoAdapters]: publishing through those three adapters.
    - [GoPlatform]: those three adapters with their access calls answered by the
      Things service.
    - [WsSession]: one WebSocket session: [broadcast], [listen], the NATS callback
      with [Send], and the goroutine that ends the subscription, each a program
      counter; [ws_step] runs one of them up to its next shared access.
    - [CoapMessage]: options of CoAP messages, the routes, and the decision that
      [observe] takes.
    - [CoapObserve]: the map of observers, the observers, and the goroutines that
      serve them (handlers, [handleMessage], [ping], [cancel], the NATS callbacks),
      with [step] as for WebSocket sessions.
    - [CoapSafety], [CoapHistory], [CoapLife]: the invariants of the reachable
      states, those of the history, and runs of one observer.
    - [CoapProperties]: what CoAP observation guarantees, and what it does not.
    - [ThingsEvents]: the decorator of the Things service that reports changes on a
      Redis stream ([things/redis/streams.go]), the encoding of its events, and the
      loop in which other adapters follow the stream ([handle_batch]).
    - [RouteMap]: the Redis route maps of the LoRa and OPC-UA adapters, and the pair
      of maps they stand for; [Base64]: the decoding of payloads.
    - [LoraAdapter], [LoraProperties]: the LoRa adapter ([lora/]): following the
      stream, publishing device messages; and what that guarantees.
    - [OpcuaAdapter]: the OPC-UA adapter ([opcua/]), the same with connections.
    - [Authn]: keys and tokens of the authn service ([authn/]): the JWT tokenizer with
      the validation flags of jwt-go, the repository, the service, its endpoints
      over HTTP and gRPC.  [authn_serve] is one request.
    - [AuthnSystem]: the specification, in which a token is a handle of a pass
      ([vault], [spec_serve]), the runs of the service ([areach]), and the
      simulation.  [AuthnHistory]: whom a token lets in, from the requests answered
      so far ([holds], [standing], [lets_in]).  [AuthnProperties]: what that gives.
    - [TokenCodec]: tokens that meet the interface, for the examples.
    - [Users]: accounts and passwords ([users/], [errors/]): addresses, wrapped
      errors, the repository, the service with the authn service behind it, the
      endpoints.  [users_serve] is one request.  [UsersSafety],
      [UsersProperties]: what a request changes, and what the service guarantees.
    - [Tenancy]: the Things service with its users identified by the authn service.
    - [ConfigStore]: the tables of the Bootstrap service ([bootstrap/postgres/]) and
      its queries ([ConfigRepository]); [ConfigCipher]: AES in feedback mode and
      hexadecimal, for devices that encrypt.
    - [Bootstrap]: the service, as actions that change a [world], may fail, and call
      the Things service through the class [Sdk]; its endpoints ([endpoint]), the
      answer for a device ([ReadConfig]) and the handlers of events ([bs_handle]).
    - [ThingsSdk]: that class on the Things service, its HTTP endpoints and the calls
      of [sdk/go/]; requests and answers may get lost ([fault]).
    - [ConfigStoreSafety], [BootstrapSafety], [BootstrapSystem]: the invariant of the
      tables, what a request changes, and the runs of the two services with the
      events between them ([bs_reach]); [BootstrapProperties]: what that gives.
    - [Interop]: a message from an HTTP request over the bytes on NATS to MQTT,
      with a codec on bytes that meets the interface of [ByteCodec].

    ** What the theorems show

    - Authorisation ([AdapterProperties]): in every reachable world, a message on
      NATS, a granted subscription and an accepted connection each have their
      grant earlier in the trace, for the channel the topic is attributed to and
      with the password that the asking client then had, which, if it is a key at
      all, is one this client had been identified with
      ([nats_publish_authorised]); and the transition rules are exactly the
      handlers.
    - End to end ([Platform]): with the Things service in place of an arbitrary
      environment, a message on NATS or a granted subscription means that the
      asking client had been identified with its key, and that the tables held a
      thing with this key connected to that channel ([published_connected],
      [subscribed_connected]); and a connected thing gets its message out
      ([connected_published]).
    - Caches ([ThingsProperties]): in orderly runs the caches change no answer
      ([caches_transparent]); and the four ways out of that which the code has: a
      changed key, a request between the halves of a disconnection, another
      spelling of a channel, and access by identifier after a removal.
    - Accounting: each request of aedes is answered once or still awaited
      ([requests_answered_once]); replies drain the calls in flight within a
      bound of two per call ([requests_drain]).
    - Sessions over time: a disconnection revokes the key, unless an
      identification is still in flight ([disconnect_revokes],
      [late_identify]).
    - Bridge: an adapter's own messages are never sent back to MQTT, and a
      foreign message is forwarded once, on a topic that leads back to the same
      channel, subtopic and content type, if these can stand in a topic.
    - Topics: the channel of a topic without reference to the regular
      expression; the NATS subject token by token; when the content type
      survives; the subtopics [control...] that are attributed to another id; where
      the four adapters agree on subtopics, and where they do not
      ([subjects_agree]).
    - Start-up: each library is set up from its own variables
      ([startup_variables]), and numerals are read as their values.
    - Go adapters: exactly when an HTTP or CoAP request publishes, and what, for any
      answer of the Things service and for its own ([go_published_connected]); and
      what is posted over HTTP reaches the MQTT clients ([http_reaches_mqtt]).
    - Listings ([ThingsListProperties]): pages, order and filters
      ([list_things_pages], [name_filter]); other users do not show
      ([others_invisible]); the listing of a channel agrees with access
      ([channel_listing_access]).
    - WebSocket: a session delivers in order, publishes the frames it reads, one
      by one, and never panics ([ws_delivery]); it
      ends when the client closes ([ws_close_ends]) and leaks its goroutines when
      the connection breaks in another way ([ws_leak]).
    - CoAP observation: registered clients were granted the channel of their path,
      or the access call failed without a status ([coap_observer_authorised]); an
      identifier has one live observer at most; option values have the types of
      their options ([coap_mux_typed]); notifications are the messages of the channel in
      order; the only panic is the send on a closed channel, and it can happen
      ([coap_only_panic], [coap_crash]); what goes wrong with an old ping loop,
      with bare acknowledgements, and with the sequence numbers.
    - LoRa and OPC-UA: the routes follow an orderly stream ([lora_routes]); what is
      published for a device ([lora_published]), and only for connected things by
      the OPC-UA adapter ([opcua_published_connected]); how a failing event loses
      others ([lora_read_lost], [opcua_read_lost]); and what other users can do to
      the routes of a device ([lora_foreign_removal], [lora_takeover],
      [opcua_node_replaced]).
    - Keys: the authn service answers every request as if tokens were handles of the
      passes handed out with them ([authn_refines]); a token lets in exactly whom
      the history says ([identify_history]); how long API keys live and which
      durations they can have ([api_key_lifetime], [key_duration]).
    - Accounts: who changes an account ([account_changes]), a session from
      registration to expiry ([account_session]), the addresses accepted
      ([isEmail_spec]); no recovery mail is ever sent ([no_recovery_mail]), a taken
      address is answered 200 ([register_taken]), and an account can be taken over
      with its address alone ([account_takeover]).
    - Tenants: a request to the Things service, an update of names and metadata
      included, touches the rows of the user its token lets in and no others
      ([tenant_isolation]).
    - Configurations: an active one is connected in the Things service, or the event
      that says otherwise is on its way ([active_connected]); requests keep to the
      rows of their user, but for the list of devices nobody had configured
      ([config_tenants]); a device is given what was added ([added_bootstrapped]),
      if it shows the external key, encrypted or plain ([secure_bootstrap]); what an
      update of channels does ([connections_updated]).  A removal under another
      form of an identifier is missed ([removal_in_other_form]), one disconnection
      makes the configurations of all users inactive for good
      ([disconnected_by_others]), a lost request deletes a thing
      ([lookup_failure_deletes]), and a user can remove the configuration of
      another ([config_removed_by_others]).
    - Codec: [Unmarshal] inverts [Marshal], and no input makes it panic or loop.
    - Certificates: when a proxied request is served: the certificate is verified,
      and its common name, up to the first [=], is the key presented, if the
      location needs one ([location_guard]); an allowed MQTT session had its
      password equal to the common name (or did not start with a CONNECT packet),
      read in the same way ([session_connect]); the decision is made once; the exact outcome on every CONNECT
      packet whose lengths the reader reads; and the packets it misreads.

    ** Orderly runs

    [caches_transparent] and the theorems of [Platform] are about runs that avoid
    the four ways out: [orderly] asks that a key is not changed, that identifiers
    of new things were not used before, that access is asked for, and revoked, by
    the printed form of identifiers, that Redis answers when a connection is
    revoked, and that requests do not come between the halves of a disconnection
    (each request of [serve] runs as a whole).  The
    theorems [update_key_keeps_old_key], [disconnect_race], [respelled_channel]
    and [removed_thing_by_id] show what happens otherwise.

    ** Bounds and fuel

    Nothing runs on fuel that could fall short.  The regular-expression matcher
    recurses on the expression and, inside a repetition, on the input; the loop
    over the remaining length runs at most four rounds, as the source's does; the
    loop over the length-prefixed fields runs its constant number of rounds;
    [toString16] has one round more than the binary logarithm of its argument,
    and [toString16_spec] shows that is enough.  [encode_length] has four bytes,
    the limit of the MQTT standard.  Code points read from njs byte strings are
    below 256.  In [GoCodec] a loop that ran out of rounds would be a [Panic], so
    [unmarshal_no_panic] and [unmarshal_marshal] also show that the rounds are
    enough: ten for a 64-bit number, eleven for reading one, one per byte and one
    more for the others.  Data shorter than 2^63 bytes is all that Go can hold.
    Goroutines take any number of steps in any order; [ws_close_ends] and
    [requests_drain] bound them where they end.

    ** What is outside the model

    aedes, NATS, Redis, PostgreSQL, gRPC, protobufjs and nginx are libraries or
    services: they appear as the events they deliver, the effects they receive,
    the codec class, the UUID class [Uuid] with its law, a keyspace, and tables
    with the constraints of the schema.  What the broker does with an answer is
    not modelled.  Passwords and payload are what aedes hands over (text after
    [toString], and bytes); text crosses gRPC unchanged.  [r.args] is the list of
    arguments, one value per name.  After a TypeError in an njs handler nginx
    drops the session; the model leaves it undecided.  The database always
    answers; Redis may not ([up]).  The widths of the
    columns of the Things service are not modelled.  [LIKE] is
    modelled as PostgreSQL documents it; lower case and JSON are parameters.  In
    the CoAP model tickers and sleeps are steps that may happen at any time,
    addresses are not looked into, and the queue of responses has no bound (in the
    code, 10000 entries; a full queue makes its senders wait).  The
    stream of events is not trimmed and the Redis of the route maps always
    answers; JSON text is a class with a round-trip law.  In the WebSocket model a
    write is an attempt: what a broken connection does with it is not
    modelled.

    ** Users and tokens

    A time is a number of nanoseconds; a request reads the clock once, and runs as a
    whole.  Runs of the authn service assume that nobody forges a signature
    ([genuine]: a token that verifies was handed out), that clocks do not go back,
    and that the identity provider returns printed UUIDs, which need not be new.
    Signing and the JSON of claims are the class [Jwt] with laws; bcrypt is
    [Bcrypt]; the columns of PostgreSQL, which round times and refuse long text, are
    [Columns].  The calls between these services are answered; decoding of HTTP
    bodies and the mail itself are outside.

    ** Configurations and things

    A request to the Bootstrap service runs as a whole, with its calls of the Things
    service; events are read one at a time, in order, from the moment the service
    joins the stream.  Go ranges over maps in any order ([ranges]).  In runs of the
    two services ([bs_reach]) the stream is up, identifiers are written as the
    database prints them and are segments of a path ([plain]); what other routes
    of the Things service answer is the class [OtherRoutes], of which the runs
    assume that a GET changes nothing.  Transactions are all or nothing; the
    connection that a failed update leaves open is not modelled.  The block cipher
    is the class [Aes]; the order of listings is that of the collation.

    ** Not modelled

    Of the Things service, logging, metrics and tracing around it and the JSON of
    its HTTP API; of the SDK, the calls of the command line.  Of the OPC-UA adapter, the sessions with OPC-UA servers, the node
    browser, which only reads, and the nodes read from a file at the start.  The decorator of
    the Bootstrap service reports on a stream that nothing here reads.  The readers,
    writers and transformers, the command line, the
    Erlang adapter and the Python tools are other programs on other paths.  The
    bundle of Grafana is minified third-party code.  The lines of the JavaScript
    and TypeScript files that no definition translates are comments, imports and
    logging set-up. *)

From Stdlib Require Export ZArith Lia Ascii.
From stdpp Require Export base tactics list gmap numbers option strings.

(** ** Code units and the literal notation *)

(** A JavaScript string is a sequence of code units, each a [Z] in
    [0 .. 65535].  Byte strings (what njs hands to a stream handler) use the
    units [0 .. 255]. *)
Abbreviation jsstr := (list Z).

(** [js "abc"] is the code-unit sequence of an ASCII literal of the source. *)
Fixpoint js (s : string) : jsstr :=
  match s with
  | EmptyString => []
  | String a s' => Z.of_N (N_of_ascii a) :: js s'
  end.

#[global] Arguments js : simpl never.

(** ** Automation shared by every file *)

(** Rewriting rules for the string and list operations of the model. *)
Create Rewrite HintDb jsdb.

(** Case analysis on every boolean or option scrutinee of the goal. *)
Ltac split_matches :=
  repeat (case_match; simplify_eq/=).

(** A closed decidable proposition, by evaluation. *)
Ltac vm_decide := apply (bool_decide_unpack _); vm_compute; exact I.

(** A closed equation, by evaluating both sides without reading them back. *)
Ltac vm_eq :=
  match goal with |- @eq ?A _ ?y => vm_cast_no_check (@eq_refl A y) end.

(** [Z] and [nat] boolean tests as propositions. *)
Ltac zbool :=
  repeat match goal with
  | H : (_ =? _)%Z = true |- _ => apply Z.eqb_eq in H
  | H : (_ =? _)%Z = false |- _ => apply Z.eqb_neq in H
  | H : (_ <? _)%Z = true |- _ => apply Z.ltb_lt in H
  | H : (_ <? _)%Z = false |- _ => apply Z.ltb_ge in H
  | H : (_ <=? _)%Z = true |- _ => apply Z.leb_le in H
  | H : (_ <=? _)%Z = false |- _ => apply Z.leb_gt in H
  | H : bool_decide _ = true |- _ => apply bool_decide_eq_true in H
  | H : bool_decide _ = false |- _ => apply bool_decide_eq_false in H
  | H : (_ && _)%bool = true |- _ => apply andb_true_iff in H as [? ?]
  | H : (_ || _)%bool = false |- _ => apply orb_false_iff in H as [? ?]
  end.

(** ** Lists *)

(** A list property that a computation can check on every byte. *)
Definition all_bytes (P : Z -> bool) : bool :=
  forallb P (seqZ 0 256).

Lemma all_bytes_spec (P : Z -> bool) :
  all_bytes P = true -> forall b, (0 <= b < 256)%Z -> P b = true.
Proof.
  unfold all_bytes. intros HP b Hb.
  rewrite forallb_forall in HP. apply HP.
  apply list_elem_of_In, elem_of_seqZ. lia.
Qed.

Lemma take_length_app_eq {A} (l k : list A) n :
  n = length l -> take n (l ++ k) = l.
Proof. intros ->. apply take_app_length. Qed.

Lemma drop_length_app_eq {A} (l k : list A) n :
  n = length l -> drop n (l ++ k) = k.
Proof. intros ->. apply drop_app_length. Qed.
