(* ===== verification/JsString.v ===== *)
(** * JavaScript strings and arrays

    The string and array methods the sources call, on sequences of code
    units: [split], [join], [replace], [includes], [startsWith],
    [codePointAt], [substring], [slice], [toUpperCase].  Every separator and
    every pattern of the sources is a single code unit, so these operations
    take one. *)

From S2P Require Import Prelude.

Local Open Scope Z_scope.

(** ** Code units named in the sources *)

Definition SLASH : Z := 47.
Definition DOT : Z := 46.
Definition COMMA : Z := 44.
Definition EQUALS : Z := 61.
Definition STAR : Z := 42.
Definition GT : Z := 62.
Definition UNDERSCORE : Z := 95.
Definition DASH : Z := 45.
Definition PLUS : Z := 43.

(** ** Operations *)

(** [String.prototype.split] with a one-unit separator. *)
Fixpoint split (sep : Z) (s : jsstr) : list jsstr :=
  match s with
  | [] => [[]]
  | c :: s' =>
      if c =? sep then [] :: split sep s'
      else match split sep s' with
           | p :: ps => (c :: p) :: ps
           | [] => [[c]]
           end
  end.

(** [Array.prototype.join] with a one-unit separator. *)
Fixpoint join (sep : Z) (ps : list jsstr) : jsstr :=
  match ps with
  | [] => []
  | [p] => p
  | p :: ps' => p ++ sep :: join sep ps'
  end.

(** [s.replace(c, d)] with string arguments: the first occurrence only. *)
Fixpoint replace_first (c d : Z) (s : jsstr) : jsstr :=
  match s with
  | [] => []
  | x :: s' => if x =? c then d :: s' else x :: replace_first c d s'
  end.

(** The units of [s] before the first [c] (all of [s] if there is none). *)
Fixpoint before (c : Z) (s : jsstr) : jsstr :=
  match s with
  | [] => []
  | x :: s' => if x =? c then [] else x :: before c s'
  end.

(** [s.replace(/c/g, d)]: every occurrence. *)
Definition replace_all (c d : Z) (s : jsstr) : jsstr :=
  (fun x => if x =? c then d else x) <$> s.

(** [s.includes(c)]. *)
Definition includes (s : jsstr) (c : Z) : bool := existsb (Z.eqb c) s.

(** What remains of [s] after the prefix [p]. *)
Fixpoint strip_prefix (p s : jsstr) : option jsstr :=
  match p, s with
  | [], _ => Some s
  | c :: p', d :: s' => if c =? d then strip_prefix p' s' else None
  | _ :: _, [] => None
  end.

(** [s.startsWith(p)]. *)
Definition startsWith (s p : jsstr) : bool :=
  match strip_prefix p s with Some _ => true | None => false end.

(** Equality of strings, [===] on two strings. *)
Definition str_eqb (s t : jsstr) : bool := bool_decide (s = t).

Definition is_lead (c : Z) : bool := (55296 <=? c) && (c <=? 56319).
Definition is_trail (c : Z) : bool := (56320 <=? c) && (c <=? 57343).

(** [s.codePointAt(pos)]; [None] is [undefined] (position out of range). *)
Definition codePointAt (s : jsstr) (pos : nat) : option Z :=
  match s !! pos with
  | None => None
  | Some first =>
      if is_lead first then
        match s !! S pos with
        | Some second =>
            if is_trail second
            then Some ((first - 55296) * 1024 + (second - 56320) + 65536)
            else Some first
        | None => Some first
        end
      else Some first
  end.

(** [s.substring(a, b)]: both bounds are clamped to the length, then put in
    order. *)
Definition substring (s : jsstr) (a b : nat) : jsstr :=
  let a' := Nat.min a (length s) in
  let b' := Nat.min b (length s) in
  let from := Nat.min a' b' in
  let to := Nat.max a' b' in
  take (to - from) (drop from s).

(** [l.slice(a, b)] and [l.slice(a)] for non-negative bounds. *)
Definition slice {A} (l : list A) (a b : nat) : list A := take (b - a) (drop a l).
Definition slice_from {A} (l : list A) (a : nat) : list A := drop a l.

(** [s.toUpperCase()] on the units the sources apply it to (a distinguished
    name in RFC 2253 form is printable ASCII: other bytes are escaped). *)
Definition upper_unit (c : Z) : Z := if (97 <=? c) && (c <=? 122) then c - 32 else c.
Definition toUpperCase (s : jsstr) : jsstr := upper_unit <$> s.

(** ** [split] and [join] *)

Lemma split_not_nil sep s : split sep s <> [].
Proof. destruct s as [|c s]; simpl; [done|]. repeat case_match; done. Qed.

Lemma split_free sep s : sep ∉ s -> split sep s = [s].
Proof.
  induction s as [|c s IH]; [done|]. intros Hn. simpl.
  destruct (Z.eqb_spec c sep) as [->|Hne]; [set_solver|].
  rewrite IH by set_solver. done.
Qed.

Lemma split_app sep a b : split sep (a ++ sep :: b) = split sep a ++ split sep b.
Proof.
  induction a as [|c a IH]; simpl.
  - by rewrite Z.eqb_refl.
  - rewrite IH. destruct (c =? sep); [done|].
    destruct (split sep a) eqn:E; [by apply split_not_nil in E|done].
Qed.

Lemma split_free_app sep a b : sep ∉ a -> split sep (a ++ sep :: b) = a :: split sep b.
Proof. intros Ha. by rewrite split_app, split_free. Qed.

Lemma split_elems_free sep s : Forall (fun p => sep ∉ p) (split sep s).
Proof.
  induction s as [|c s IH]; simpl.
  - by repeat constructor; set_solver.
  - destruct (Z.eqb_spec c sep) as [->|Hne].
    + constructor; [set_solver|done].
    + destruct (split sep s) as [|p ps]; [repeat constructor; set_solver|].
      inversion IH; subst. constructor; [set_solver|done].
Qed.

Lemma split_elems_subset sep s p c : p ∈ split sep s -> c ∈ p -> c ∈ s.
Proof.
  revert p. induction s as [|d s IH]; intros p; simpl.
  - by intros ->%list_elem_of_singleton.
  - destruct (Z.eqb_spec d sep) as [->|Hne].
    + intros [->|Hp]%elem_of_cons Hc; [by apply not_elem_of_nil in Hc|].
      right. by apply (IH p).
    + destruct (split sep s) as [|q qs] eqn:E; [by apply split_not_nil in E|].
      intros [->|Hp]%elem_of_cons Hc.
      * apply elem_of_cons in Hc as [->|Hc]; [by left|].
        right. apply (IH q); [by left|done].
      * right. apply (IH p); [by right|done].
Qed.

Lemma join_cons sep p ps : ps <> [] -> join sep (p :: ps) = p ++ sep :: join sep ps.
Proof. destruct ps; done. Qed.

Lemma join_split sep s : join sep (split sep s) = s.
Proof.
  induction s as [|c s IH]; [done|]. simpl.
  destruct (Z.eqb_spec c sep) as [->|Hne].
  - rewrite join_cons by apply split_not_nil. by rewrite IH.
  - destruct (split sep s) as [|p ps] eqn:E; [by apply split_not_nil in E|].
    destruct ps; simpl in *; by rewrite IH.
Qed.

Lemma split_join_concat sep ps :
  ps <> [] -> split sep (join sep ps) = concat (split sep <$> ps).
Proof.
  induction ps as [|p ps IH]; [done|]. intros _.
  destruct (decide (ps = [])) as [->|Hn].
  - simpl. by rewrite app_nil_r.
  - rewrite join_cons, split_app by done. simpl. by rewrite IH.
Qed.

Lemma split_join sep ps :
  ps <> [] -> Forall (fun p => sep ∉ p) ps -> split sep (join sep ps) = ps.
Proof.
  intros Hne Hall. rewrite split_join_concat by done. clear Hne.
  induction Hall as [|p ps Hp _ IH]; [done|].
  csimpl. by rewrite split_free, IH.
Qed.

Lemma join_app sep ps qs :
  ps <> [] -> qs <> [] -> join sep (ps ++ qs) = join sep ps ++ sep :: join sep qs.
Proof.
  intros Hp Hq. induction ps as [|p ps IH]; [done|]. clear Hp.
  destruct (decide (ps = [])) as [->|Hn].
  - simpl app. by rewrite join_cons.
  - change ((p :: ps) ++ qs) with (p :: (ps ++ qs)).
    rewrite join_cons by (by destruct ps). rewrite IH by done.
    rewrite (join_cons _ p ps) by done. by rewrite <- app_assoc.
Qed.

(** The empty parts a split produces are dropped by the [isEmpty] filter of
    the sources. *)
Definition nonempty_parts (ps : list jsstr) : list jsstr := filter (fun p => p <> []) ps.

Lemma nonempty_parts_app ps qs :
  nonempty_parts (ps ++ qs) = nonempty_parts ps ++ nonempty_parts qs.
Proof. apply filter_app. Qed.

Lemma nonempty_parts_id ps : Forall (fun p => p <> []) ps -> nonempty_parts ps = ps.
Proof.
  unfold nonempty_parts. induction 1 as [|p ps Hp _ IH]; [done|].
  rewrite filter_cons_True by done. by rewrite IH.
Qed.

Lemma nonempty_parts_Forall ps : Forall (fun p => p <> []) (nonempty_parts ps).
Proof. apply Forall_forall. intros p Hp. apply list_elem_of_filter in Hp as [? _]. done. Qed.

(** ** [replace] *)

Lemma replace_first_free c d s : c ∉ s -> replace_first c d s = s.
Proof.
  induction s as [|x s IH]; [done|]. intros Hn. simpl.
  destruct (Z.eqb_spec x c) as [->|?]; [set_solver|]. by rewrite IH by set_solver.
Qed.

Lemma replace_first_app c d a b :
  c ∉ a -> replace_first c d (a ++ c :: b) = a ++ d :: b.
Proof.
  induction a as [|x a IH]; simpl; intros Hn.
  - by rewrite Z.eqb_refl.
  - destruct (Z.eqb_spec x c) as [->|?]; [set_solver|]. by rewrite IH by set_solver.
Qed.

Lemma replace_first_length c d s : length (replace_first c d s) = length s.
Proof. induction s as [|x s IH]; [done|]. simpl. case_match; simpl; congruence. Qed.

Lemma elem_of_replace_first c d s x :
  x ∈ replace_first c d s -> x = d \/ x ∈ s.
Proof.
  induction s as [|y s IH]; simpl; [set_solver|].
  destruct (y =? c); set_solver.
Qed.

Lemma replace_all_join c d ps :
  c <> d -> Forall (fun p => c ∉ p) ps -> replace_all c d (join c ps) = join d ps.
Proof.
  intros Hcd. induction 1 as [|p ps Hp Hps IH]; [done|].
  assert (Hid : replace_all c d p = p).
  { clear -Hp. induction p as [|x p IH]; [done|]. simpl.
    destruct (Z.eqb_spec x c) as [->|?]; [set_solver|]. f_equal. apply IH. set_solver. }
  destruct (decide (ps = [])) as [->|Hn]; [done|].
  rewrite !join_cons by done. unfold replace_all in *.
  rewrite fmap_app, Hid, fmap_cons, Z.eqb_refl. simpl. by rewrite IH.
Qed.

(** ** Prefixes, membership and positions *)

Lemma strip_prefix_Some p s r : strip_prefix p s = Some r <-> s = p ++ r.
Proof.
  revert s. induction p as [|c p IH]; intros s; simpl; [naive_solver|].
  destruct s as [|d s]; [naive_solver|].
  destruct (Z.eqb_spec c d) as [->|Hne]; [rewrite IH|]; naive_solver.
Qed.

Lemma strip_prefix_app p r : strip_prefix p (p ++ r) = Some r.
Proof. by apply strip_prefix_Some. Qed.

Lemma startsWith_spec s p : startsWith s p = true <-> exists r, s = p ++ r.
Proof.
  unfold startsWith. destruct (strip_prefix p s) as [r|] eqn:E.
  - apply strip_prefix_Some in E. naive_solver.
  - split; [done|]. intros [r Hr]. apply strip_prefix_Some in Hr. congruence.
Qed.

Lemma includes_spec s c : includes s c = true <-> c ∈ s.
Proof.
  unfold includes. rewrite existsb_exists. split.
  - intros (x & Hx & ->%Z.eqb_eq). by apply list_elem_of_In.
  - intros Hc. exists c. split; [by apply list_elem_of_In|apply Z.eqb_refl].
Qed.

Lemma includes_false s c : includes s c = false <-> c ∉ s.
Proof. rewrite <- includes_spec. destruct (includes s c); naive_solver. Qed.

Lemma str_eqb_eq s t : str_eqb s t = true <-> s = t.
Proof. apply bool_decide_eq_true. Qed.

Lemma str_eqb_refl s : str_eqb s s = true.
Proof. by apply str_eqb_eq. Qed.

Lemma codePointAt_byte s pos b :
  s !! pos = Some b -> 0 <= b < 256 -> codePointAt s pos = Some b.
Proof.
  intros Hs Hb. unfold codePointAt. rewrite Hs.
  assert (is_lead b = false) as ->; [unfold is_lead|done].
  apply andb_false_iff. left. apply Z.leb_gt. lia.
Qed.

Lemma codePointAt_None s pos : codePointAt s pos = None <-> (length s <= pos)%nat.
Proof.
  unfold codePointAt. rewrite <- lookup_ge_None.
  destruct (s !! pos); [|done]. repeat case_match; naive_solver.
Qed.

Lemma substring_app a m b n :
  n = length m -> substring (a ++ m ++ b) (length a) (length a + n) = m.
Proof.
  intros ->. unfold substring. rewrite !length_app.
  replace (Nat.min (length a) _) with (length a) by lia.
  replace (Nat.min (length a + length m) _) with (length a + length m)%nat by lia.
  replace (Nat.min (length a) _) with (length a) by lia.
  replace (_ - _)%nat with (length m) by lia.
  rewrite drop_app_length. apply take_app_length.
Qed.

#[export] Hint Rewrite Z.eqb_refl str_eqb_refl strip_prefix_app : jsdb.
