(* ===== verification/JsRegExp.v ===== *)
(** * JavaScript regular expressions

    The backtracking matcher of ECMA-262 ([RepeatMatcher], [CharacterSet],
    assertions and capture groups) for the constructs the sources use: unit
    characters, the dot, greedy and lazy quantifiers on them, one level of
    capture groups, [^] and [$] without the multiline flag.  A matcher takes a
    continuation, as the standard defines it; a quantified character consumes
    one unit per round, so the repetition is structural on the input. *)

From S2P Require Import Prelude JsString.

Local Open Scope Z_scope.

(** ** Syntax *)

Inductive cls :=
| CUnit (c : Z)   (* a literal unit *)
| CDot.           (* [.]: any unit but a line terminator *)

Inductive regexp :=
| REmpty
| RBol                                                  (* [^] *)
| REol                                                  (* [$] *)
| RCls (k : cls)
| RQuant (k : cls) (min : nat) (max : option nat) (greedy : bool)
| RGroup (i : nat) (r : regexp)                         (* the [i]-th capture group *)
| RSeq (r1 r2 : regexp).

(** The line terminators of ECMA-262: LF, CR, LS, PS. *)
Definition is_line_terminator (c : Z) : bool :=
  (c =? 10) || (c =? 13) || (c =? 8232) || (c =? 8233).

Definition cls_matches (k : cls) (c : Z) : bool :=
  match k with
  | CUnit d => c =? d
  | CDot => negb (is_line_terminator c)
  end.

(** ** Matching *)

(** A match state: how many units were consumed, what is left, and the
    captures made so far (the latest first). *)
Record mstate := MState {
  ms_pos : nat;
  ms_rest : jsstr;
  ms_caps : list (nat * jsstr)
}.

Definition orelse {A} (x : option A) (y : option A) : option A :=
  match x with Some _ => x | None => y end.

(** [RepeatMatcher] on a one-unit atom. *)
Fixpoint repeat_cls (k : cls) (greedy : bool) (caps : list (nat * jsstr))
    (rest : jsstr) (pos : nat) (min : nat) (max : option nat)
    (cont : mstate -> option mstate) {struct rest} : option mstate :=
  match max with
  | Some O => cont (MState pos rest caps)
  | _ =>
      let more :=
        match rest with
        | c :: rest' =>
            if cls_matches k c
            then repeat_cls k greedy caps rest' (S pos) (Nat.pred min)
                   (Nat.pred <$> max) cont
            else None
        | [] => None
        end in
      match min with
      | S _ => more
      | O => if greedy
             then orelse more (cont (MState pos rest caps))
             else orelse (cont (MState pos rest caps)) more
      end
  end.

Fixpoint matcher (r : regexp) (x : mstate) (cont : mstate -> option mstate)
    {struct r} : option mstate :=
  match r with
  | REmpty => cont x
  | RBol => match ms_pos x with O => cont x | S _ => None end
  | REol => match ms_rest x with [] => cont x | _ :: _ => None end
  | RCls k =>
      match ms_rest x with
      | c :: rest' =>
          if cls_matches k c then cont (MState (S (ms_pos x)) rest' (ms_caps x)) else None
      | [] => None
      end
  | RQuant k min max greedy =>
      repeat_cls k greedy (ms_caps x) (ms_rest x) (ms_pos x) min max cont
  | RGroup i r' =>
      matcher r' x (fun y =>
        cont (MState (ms_pos y) (ms_rest y)
                ((i, take (ms_pos y - ms_pos x) (ms_rest x)) :: ms_caps y)))
  | RSeq r1 r2 => matcher r1 x (fun y => matcher r2 y cont)
  end.

(** [r.exec(s)] for a pattern with neither the [g] nor the [y] flag: the first
    position that matches; element 0 of the result is the whole match, element
    [i] the [i]-th group. *)
Definition capture (i : nat) (x : mstate) : option jsstr :=
  match list_find (fun p => fst p = i) (ms_caps x) with
  | Some (_, (_, s)) => Some s
  | None => None
  end.

Fixpoint exec_from (r : regexp) (ngroups : nat) (pos : nat) (s : jsstr)
    {struct s} : option (list (option jsstr)) :=
  match matcher r (MState pos s []) Some with
  | Some y =>
      Some (Some (take (ms_pos y - pos) s) :: ((fun i => capture i y) <$> seq 1 ngroups))
  | None => match s with [] => None | _ :: s' => exec_from r ngroups (S pos) s' end
  end.

Definition exec (r : regexp) (ngroups : nat) (s : jsstr) : option (list (option jsstr)) :=
  exec_from r ngroups 0 s.

(** ** Pattern building blocks *)

(** A run of literal units. *)
Fixpoint RLit (s : jsstr) : regexp :=
  match s with
  | [] => REmpty
  | c :: s' => RSeq (RCls (CUnit c)) (RLit s')
  end.

Definition RLazyPlus (k : cls) : regexp := RQuant k 1 None false.   (* [k+?] *)
Definition ROpt (k : cls) : regexp := RQuant k 0 (Some 1%nat) true. (* [k?] *)
Definition RStar (k : cls) : regexp := RQuant k 0 None true.        (* [k*] *)

(** ** Reference functions *)

(** A string without line terminators, which the dot can cross. *)
Definition lt_free (s : jsstr) : bool := forallb (fun c => negb (is_line_terminator c)) s.

(** The text before and after the first occurrence of [sep]. *)
Fixpoint cut (sep s : jsstr) : option (jsstr * jsstr) :=
  match strip_prefix sep s with
  | Some r => Some ([], r)
  | None =>
      match s with
      | [] => None
      | c :: s' =>
          match cut sep s' with
          | Some (a, r) => Some (c :: a, r)
          | None => None
          end
      end
  end.

(** ** The matcher on literals and quantified dots *)

Lemma orelse_None_r {A} (x : option A) : orelse x None = x.
Proof. by destruct x. Qed.

Lemma lt_free_app a b : lt_free (a ++ b) = lt_free a && lt_free b.
Proof. apply forallb_app. Qed.

Lemma lt_free_cons c s : lt_free (c :: s) = negb (is_line_terminator c) && lt_free s.
Proof. done. Qed.

Lemma matcher_lit p pos rest caps cont :
  matcher (RLit p) (MState pos rest caps) cont =
  match strip_prefix p rest with
  | Some r => cont (MState (pos + length p) r caps)
  | None => None
  end.
Proof.
  revert pos rest. induction p as [|c p IH]; intros pos rest; simpl.
  - by rewrite Nat.add_0_r.
  - destruct rest as [|d rest]; [done|]. simpl.
    rewrite (Z.eqb_sym d c). destruct (c =? d); [|done].
    rewrite IH. by replace (S pos + length p)%nat with (pos + S (length p))%nat by lia.
Qed.

(** [.*$] consumes everything, and only line terminators stop it. *)
Lemma matcher_dot_star_eol pos rest caps cont :
  matcher (RSeq (RStar CDot) REol) (MState pos rest caps) cont =
  if lt_free rest then cont (MState (pos + length rest) [] caps) else None.
Proof.
  revert pos. simpl. induction rest as [|c rest IH]; intros pos; simpl.
  - by rewrite Nat.add_0_r.
  - destruct (negb (is_line_terminator c)); simpl; [|done].
    rewrite IH, orelse_None_r.
    by replace (S pos + length rest)%nat with (pos + S (length rest))%nat by lia.
Qed.

(** A slash in front of [.*$] may be matched by the optional atom or by the
    dot: the outcome is the same. *)
Lemma matcher_opt_slash_tail pos rest caps cont :
  matcher (RSeq (ROpt (CUnit SLASH)) (RSeq (RStar CDot) REol)) (MState pos rest caps) cont =
  if lt_free rest then cont (MState (pos + length rest) [] caps) else None.
Proof.
  change (matcher (RSeq (ROpt (CUnit SLASH)) (RSeq (RStar CDot) REol)) (MState pos rest caps) cont)
    with (repeat_cls (CUnit SLASH) true caps rest pos 0 (Some 1%nat)
            (fun y => matcher (RSeq (RStar CDot) REol) y cont)).
  destruct rest as [|c rest].
  - cbn -[matcher]. by rewrite matcher_dot_star_eol.
  - cbn [repeat_cls cls_matches fmap option_fmap option_map].
    rewrite !matcher_dot_star_eol.
    destruct (Z.eqb_spec c SLASH) as [->|Hne]; [|done].
    assert (repeat_cls (CUnit SLASH) true caps rest (S pos) (Nat.pred 0) (Some (Nat.pred 1))
              (fun y => matcher (RSeq (RStar CDot) REol) y cont)
            = matcher (RSeq (RStar CDot) REol) (MState (S pos) rest caps) cont) as ->
      by by destruct rest.
    rewrite matcher_dot_star_eol, lt_free_cons.
    destruct (lt_free rest); simpl; [|done].
    rewrite <- Nat.add_succ_r. by destruct (cont _).
Qed.

(** [.+?] followed by a continuation that wants [sep] and then nothing but
    dot-crossable text finds the first occurrence of [sep]. *)
Lemma repeat_lazy_dot caps sep (F : nat -> jsstr -> option mstate) cont :
  lt_free sep = true ->
  (forall pos rest, cont (MState pos rest caps) =
     match strip_prefix sep rest with
     | Some r => if lt_free r then F pos r else None
     | None => None
     end) ->
  (forall pos r, is_Some (F pos r)) ->
  forall rest pos,
  repeat_cls CDot false caps rest pos 0 None cont =
  if lt_free rest then
    match cut sep rest with Some (a, r) => F (pos + length a)%nat r | None => None end
  else None.
Proof.
  intros Hsep Hcont HF. induction rest as [|c rest IH]; intros pos.
  - cbn [repeat_cls]. rewrite Hcont, orelse_None_r. simpl.
    destruct (strip_prefix sep []) as [r|] eqn:E; simpl; [|done].
    apply strip_prefix_Some in E. destruct sep; [|done]. simpl in E; subst.
    simpl. by rewrite Nat.add_0_r.
  - cbn [repeat_cls cls_matches]. rewrite Hcont. cbn [cut].
    destruct (strip_prefix sep (c :: rest)) as [r|] eqn:E.
    + apply strip_prefix_Some in E. rewrite E, lt_free_app, Hsep. simpl.
      destruct (lt_free r) eqn:Hr; simpl.
      * rewrite Nat.add_0_r. by destruct (HF pos r) as [y ->].
      * destruct (negb (is_line_terminator c)) eqn:Hc; [|done].
        rewrite IH. destruct (lt_free rest) eqn:Hrest; [|done].
        enough (lt_free (sep ++ r) = true) by (rewrite lt_free_app, Hr in *; by destruct (lt_free sep)).
        by rewrite <- E, lt_free_cons, Hc, Hrest.
    + simpl orelse. rewrite lt_free_cons.
      destruct (negb (is_line_terminator c)) eqn:Hc; simpl; [|done].
      rewrite IH. destruct (lt_free rest); [|done].
      destruct (cut sep rest) as [[a r]|]; [|done]. simpl.
      by rewrite Nat.add_succ_r.
Qed.

(** ** [cut] finds the first occurrence *)

Lemma cut_Some sep s a r : cut sep s = Some (a, r) -> s = a ++ sep ++ r.
Proof.
  revert a r. induction s as [|c s IH]; intros a r; cbn [cut].
  - destruct (strip_prefix sep []) as [r'|] eqn:E; [|done].
    intros [= <- <-]. by apply strip_prefix_Some in E.
  - destruct (strip_prefix sep (c :: s)) as [r'|] eqn:E.
    + intros [= <- <-]. by apply strip_prefix_Some in E.
    + destruct (cut sep s) as [[a' r']|]; [|done]. intros [= <- <-].
      simpl. f_equal. by apply IH.
Qed.

Lemma cut_first sep s a r a' r' :
  cut sep s = Some (a, r) -> s = a' ++ sep ++ r' -> (length a <= length a')%nat.
Proof.
  revert a r a'. induction s as [|c s IH]; intros a r a'; cbn [cut].
  - destruct (strip_prefix sep []) as [r''|]; [|done].
    intros [= <- <-] _. simpl. lia.
  - destruct (strip_prefix sep (c :: s)) as [r''|] eqn:E.
    + intros [= <- <-] _. simpl. lia.
    + destruct (cut sep s) as [[a'' r'']|] eqn:Ec; [|done]. intros [= <- <-] Hs.
      destruct a' as [|d a']; simpl in *.
      * rewrite (proj2 (strip_prefix_Some sep (c :: s) r') Hs) in E. done.
      * simplify_eq. apply le_n_S. by eapply IH.
Qed.

Lemma cut_None sep s : cut sep s = None <-> ~ exists a r, s = a ++ sep ++ r.
Proof.
  split.
  - intros Hc (a & r & Hs). revert a Hc Hs.
    induction s as [|c s IH]; intros a Hc Hs; cbn [cut] in Hc.
    + destruct (strip_prefix sep []) eqn:E; [done|]. destruct a; [|done].
      rewrite (proj2 (strip_prefix_Some sep [] r) Hs) in E. done.
    + destruct (strip_prefix sep (c :: s)) eqn:E; [done|].
      destruct (cut sep s) as [[??]|] eqn:Ec; [done|].
      destruct a as [|d a]; simpl in *.
      * rewrite (proj2 (strip_prefix_Some sep (c :: s) r) Hs) in E. done.
      * simplify_eq. by eapply IH.
  - intros Hn. destruct (cut sep s) as [[a r]|] eqn:E; [|done].
    destruct Hn. exists a, r. by apply cut_Some.
Qed.

(** If the separator starts with a unit that [a] lacks, [cut] skips [a]. *)
Lemma cut_free_prefix c sep a s :
  c ∉ a -> cut (c :: sep) (a ++ s) =
  match cut (c :: sep) s with Some (b, r) => Some (a ++ b, r) | None => None end.
Proof.
  induction a as [|d a IH]; intros Hn; simpl.
  - by destruct (cut (c :: sep) s) as [[??]|].
  - destruct (Z.eqb_spec c d) as [->|?]; [set_solver|].
    rewrite IH by set_solver. by destruct (cut (c :: sep) s) as [[??]|].
Qed.

Lemma cut_same_head c sep s :
  cut (c :: sep) (c :: s) =
  match strip_prefix sep s with
  | Some r => Some ([], r)
  | None => match cut (c :: sep) s with Some (a, r) => Some (c :: a, r) | None => None end
  end.
Proof. cbn [cut strip_prefix]. by rewrite Z.eqb_refl. Qed.

Lemma cut_here sep r : cut sep (sep ++ r) = Some ([], r).
Proof.
  destruct (sep ++ r) eqn:E; cbn [cut];
    by rewrite <- E, strip_prefix_app.
Qed.
