(* ===== verification/JsNumber.v ===== *)
(** * JavaScript numbers

    Numbers are IEEE 754 doubles ([spec_float] of the Standard Library with 53
    bits of precision and exponents up to 1024).  Here are the conversions the
    sources use: [Number(string)], comparison with [<], truthiness,
    [toString(16)] and [parseInt(_, 16)]. *)

From S2P Require Import Prelude JsString.
From Stdlib Require Import SpecFloat.

Local Open Scope Z_scope.

(** ** Doubles *)

Abbreviation number := spec_float.

Definition of_Z (z : Z) : number := binary_normalize 53 1024 z 0 false.

(** The double nearest to [m * 10 ^ e], for [m >= 0]; a negative exponent is
    one correctly rounded division of exact integers. *)
Definition of_decimal (m e : Z) : number :=
  match m with
  | Zpos p =>
      if 0 <=? e then of_Z (m * 10 ^ e)
      else match 10 ^ (- e) with
           | Zpos q => SFdiv 53 1024 (S754_finite false p 0) (S754_finite false q 0)
           | _ => S754_nan
           end
  | _ => S754_zero false
  end.

Definition num_neg (neg : bool) (x : number) : number := if neg then SFopp x else x.

(** [x < y]; false when either is NaN. *)
Definition js_lt (x y : number) : bool := SFltb x y.

(** ToBoolean. *)
Definition num_truthy (x : number) : bool :=
  match x with S754_zero _ | S754_nan => false | _ => true end.

(** ** Reading numbers *)

Definition is_digit (c : Z) : bool := (48 <=? c) && (c <=? 57).

(** WhiteSpace and LineTerminator of ECMA-262. *)
Definition is_space (c : Z) : bool :=
  existsb (Z.eqb c)
    [9; 10; 11; 12; 13; 32; 160; 5760; 8192; 8193; 8194; 8195; 8196; 8197; 8198;
     8199; 8200; 8201; 8202; 8232; 8233; 8239; 8287; 12288; 65279].

Fixpoint trim_start (s : jsstr) : jsstr :=
  match s with
  | c :: s' => if is_space c then trim_start s' else s
  | [] => []
  end.
Definition trim (s : jsstr) : jsstr := rev (trim_start (rev (trim_start s))).

(** The longest run of units that satisfy [f], and the rest. *)
Fixpoint span (f : Z -> bool) (s : jsstr) : jsstr * jsstr :=
  match s with
  | c :: s' =>
      if f c then let '(a, r) := span f s' in (c :: a, r) else ([], s)
  | [] => ([], [])
  end.

(** The value of a digit in bases up to 16. *)
Definition digit_value (c : Z) : Z :=
  if is_digit c then c - 48
  else if (97 <=? c) && (c <=? 102) then c - 87
  else c - 55.

Definition digits_value (base : Z) (s : jsstr) : Z :=
  fold_left (fun n c => n * base + digit_value c) s 0.

Definition is_hex (c : Z) : bool :=
  is_digit c || ((97 <=? c) && (c <=? 102)) || ((65 <=? c) && (c <=? 70)).

(** An optional sign. *)
Definition sign (s : jsstr) : bool * jsstr :=
  match s with
  | c :: s' => if c =? 45 then (true, s') else if c =? 43 then (false, s') else (false, s)
  | [] => (false, [])
  end.

(** ExponentPart or nothing, up to the end of the string. *)
Definition exponent (s : jsstr) : option Z :=
  match s with
  | [] => Some 0
  | c :: s' =>
      if (c =? 101) || (c =? 69) then
        let '(neg, r) := sign s' in
        match span is_digit r with
        | ((_ :: _) as ds, []) =>
            Some (if neg then - digits_value 10 ds else digits_value 10 ds)
        | _ => None
        end
      else None
  end.

(** StrUnsignedDecimalLiteral, without [Infinity]. *)
Definition unsigned_decimal (s : jsstr) : option number :=
  let '(ip, r) := span is_digit s in
  let '(fp, r') :=
    match r with
    | c :: r1 => if c =? DOT then span is_digit r1 else ([], r)
    | [] => ([], r)
    end in
  match ip ++ fp, exponent r' with
  | (_ :: _) as ds, Some e => Some (of_decimal (digits_value 10 ds) (e - Z.of_nat (length fp)))
  | _, _ => None
  end.

(** NonDecimalIntegerLiteral digits of a base. *)
Definition prefixed (base : Z) (ok : Z -> bool) (s : jsstr) : number :=
  match span ok s with
  | ((_ :: _) as ds, []) => of_Z (digits_value base ds)
  | _ => S754_nan
  end.

(** StrDecimalLiteral, up to the end of the string. *)
Definition signed_decimal (s : jsstr) : number :=
  let '(neg, u) := sign s in
  if str_eqb u (js "Infinity") then S754_infinity neg
  else default S754_nan (num_neg neg <$> unsigned_decimal u).

(** StringToNumber. *)
Definition StringToNumber (str : jsstr) : number :=
  match trim str with
  | [] => S754_zero false
  | 48 :: x :: r =>
      if (x =? 120) || (x =? 88) then prefixed 16 is_hex r
      else if (x =? 111) || (x =? 79) then prefixed 8 (fun c => (48 <=? c) && (c <=? 55)) r
      else if (x =? 98) || (x =? 66) then prefixed 2 (fun c => (48 <=? c) && (c <=? 49)) r
      else default S754_nan (unsigned_decimal (48 :: x :: r))
  | s => signed_decimal s
  end.

(** ** Hexadecimal *)

Definition hex_digit (d : Z) : Z := if d <? 10 then 48 + d else 87 + d.

Fixpoint hex_digits (fuel : nat) (n : Z) (acc : jsstr) : jsstr :=
  match fuel with
  | O => acc
  | S fuel' =>
      let acc' := hex_digit (n mod 16) :: acc in
      if n / 16 =? 0 then acc' else hex_digits fuel' (n / 16) acc'
  end.

(** [n.toString(16)] for an integer [n >= 0]. *)
Definition toString16 (n : Z) : jsstr := hex_digits (S (Z.to_nat (Z.log2 n))) n [].

(** [parseInt(s, 16)]; [None] is NaN. *)
Definition parseInt16 (s : jsstr) : option Z :=
  let '(neg, s1) := sign (trim_start s) in
  let s2 :=
    match s1 with
    | 48 :: x :: r => if (x =? 120) || (x =? 88) then r else s1
    | _ => s1
    end in
  match span is_hex s2 with
  | ((_ :: _) as ds, _) =>
      Some (if neg then - digits_value 16 ds else digits_value 16 ds)
  | _ => None
  end.

(** ** Round trip of the hexadecimal notation *)

Lemma digits_value_app base a b :
  digits_value base (a ++ b) = digits_value base a * base ^ Z.of_nat (length b) + digits_value base b.
Proof.
  unfold digits_value. rewrite fold_left_app. generalize (fold_left (fun n c => n * base + digit_value c) a 0).
  induction b as [|c b IH] using rev_ind; intros n.
  - simpl. lia.
  - rewrite !fold_left_app, length_app. simpl. rewrite IH.
    replace (Z.of_nat (length b + 1)) with (Z.of_nat (length b) + 1) by lia.
    rewrite Z.pow_add_r by lia. lia.
Qed.

Lemma hex_digit_spec d :
  0 <= d < 16 -> digit_value (hex_digit d) = d /\ is_hex (hex_digit d) = true.
Proof.
  intros Hd. unfold hex_digit.
  assert (Hc : existsb (fun e => d =? e) (seqZ 0 16) = true).
  { apply existsb_exists. exists d. split; [apply list_elem_of_In, elem_of_seqZ; lia|apply Z.eqb_refl]. }
  apply existsb_exists in Hc as (e & He & ->%Z.eqb_eq).
  revert e He Hd. enough (forall e, In e (seqZ 0 16) -> digit_value (if e <? 10 then 48 + e else 87 + e) = e
     /\ is_hex (if e <? 10 then 48 + e else 87 + e) = true) by eauto.
  apply List.Forall_forall. repeat constructor.
Qed.

Lemma hex_digits_spec fuel n acc :
  0 <= n -> n < 16 ^ Z.of_nat fuel -> fuel <> O ->
  exists ds, hex_digits fuel n acc = ds ++ acc /\ ds <> [] /\
    Forall (fun c => is_hex c = true) ds /\ digits_value 16 ds = n.
Proof.
  revert n acc. induction fuel as [|fuel IH]; intros n acc Hn Hlt Hf; [done|].
  cbn [hex_digits]. pose proof (Z.mod_pos_bound n 16 ltac:(lia)) as Hm.
  destruct (hex_digit_spec (n mod 16) Hm) as [Hv Hh].
  pose proof (Z.div_mod n 16 ltac:(lia)) as Hdm.
  destruct (Z.eqb_spec (n / 16) 0) as [Hz|Hz].
  - exists [hex_digit (n mod 16)]. split_and!; [done|done|by repeat constructor|].
    unfold digits_value. simpl. lia.
  - assert (Hlt' : n / 16 < 16 ^ Z.of_nat fuel).
    { apply Z.div_lt_upper_bound; [lia|].
      replace (Z.of_nat (S fuel)) with (1 + Z.of_nat fuel) in Hlt by lia.
      rewrite Z.pow_add_r in Hlt; lia. }
    destruct (IH (n / 16) (hex_digit (n mod 16) :: acc)) as (ds & -> & Hne & Hall & Hval).
    + apply Z.div_pos; lia.
    + done.
    + intros ->. change (16 ^ Z.of_nat 0) with 1 in Hlt'. pose proof (Z.div_pos n 16). lia.
    + exists (ds ++ [hex_digit (n mod 16)]). split_and!.
      * by rewrite <- app_assoc.
      * by destruct ds.
      * apply Forall_app. split; [done|by repeat constructor].
      * rewrite digits_value_app, Hval. unfold digits_value at 1. simpl. lia.
Qed.

Lemma toString16_spec n :
  0 <= n ->
  toString16 n <> [] /\ Forall (fun c => is_hex c = true) (toString16 n) /\
  digits_value 16 (toString16 n) = n.
Proof.
  intros Hn. unfold toString16.
  destruct (hex_digits_spec (S (Z.to_nat (Z.log2 n))) n []) as (ds & -> & ? & ? & ?); [done| |done|].
  - destruct (Z.eq_dec n 0) as [->|Hnz]; [done|].
    replace (Z.of_nat (S (Z.to_nat (Z.log2 n)))) with (Z.succ (Z.log2 n))
      by (pose proof (Z.log2_nonneg n); lia).
    eapply Z.lt_le_trans; [apply Z.log2_spec; lia|].
    apply Z.pow_le_mono_l. lia.
  - by rewrite app_nil_r.
Qed.

Lemma span_all f s : Forall (fun c => f c = true) s -> span f s = (s, []).
Proof. induction 1 as [|c s Hc _ IH]; [done|]. simpl. by rewrite Hc, IH. Qed.

(** No hexadecimal digit is a space, a sign or the [x] of a prefix. *)
Lemma is_hex_range c :
  is_hex c = true -> (48 <= c <= 57) \/ (65 <= c <= 70) \/ (97 <= c <= 102).
Proof. unfold is_hex, is_digit. lia. Qed.

Lemma trim_start_hex s : Forall (fun c => is_hex c = true) s -> trim_start s = s.
Proof.
  intros Hs. destruct s as [|c s]; [done|]. apply Forall_cons in Hs as [Hc _]. simpl.
  assert (is_space c = false) as ->; [|done].
  apply is_hex_range in Hc. apply not_true_is_false. unfold is_space.
  intros (x & Hx & ->%Z.eqb_eq)%existsb_exists. simpl in Hx. lia.
Qed.

Lemma sign_hex s : Forall (fun c => is_hex c = true) s -> sign s = (false, s).
Proof.
  intros Hs. destruct s as [|c s]; [done|]. apply Forall_cons in Hs as [Hc%is_hex_range _].
  unfold sign. destruct (Z.eqb_spec c 45); [lia|]. destruct (Z.eqb_spec c 43); [lia|done].
Qed.

Lemma parseInt16_hex s :
  s <> [] -> Forall (fun c => is_hex c = true) s -> parseInt16 s = Some (digits_value 16 s).
Proof.
  intros Hne Hs. unfold parseInt16. rewrite trim_start_hex, sign_hex by done.
  assert (match s with
          | 48 :: x :: r => if (x =? 120) || (x =? 88) then r else s
          | _ => s
          end = s) as ->.
  { destruct s as [|c [|x s]]; [done| |]; repeat (case_match; try done).
    apply Forall_cons in Hs as [_ [Hx%is_hex_range _]%Forall_cons].
    exfalso. subst. lia. }
  rewrite span_all by done. by destruct s.
Qed.

(** [parseInt(n.toString(16), 16)] is [n]. *)
Lemma parseInt_toString n : 0 <= n -> parseInt16 (toString16 n) = Some n.
Proof.
  intros Hn. destruct (toString16_spec n Hn) as (Hne & Hh & Hv).
  by rewrite parseInt16_hex, Hv.
Qed.

(** ** Small integers are exact *)

Lemma digits2_pos_pow p : 2 ^ (Zpos (digits2_pos p) - 1) <= Zpos p.
Proof.
  induction p as [p IH|p IH|]; cbn [digits2_pos]; [| |done];
    rewrite Pos2Z.inj_succ;
    replace (Z.succ (Zpos (digits2_pos p)) - 1) with (Z.succ (Zpos (digits2_pos p) - 1)) by lia;
    rewrite Z.pow_succ_r by lia; lia.
Qed.

Lemma digits2_pos_iter k p :
  digits2_pos (Pos.iter xO p k) = (digits2_pos p + k)%positive.
Proof.
  induction k as [|k IH] using Pos.peano_ind; [simpl; lia|].
  rewrite Pos.iter_succ. cbn [digits2_pos]. rewrite IH. lia.
Qed.

(** A mantissa of exactly 53 digits is not rounded. *)
Lemma binary_round_aux_53 m e :
  digits2_pos m = 53%positive -> -1074 <= e <= 971 ->
  binary_round_aux 53 1024 false (Zpos m) e loc_Exact = S754_finite false m e.
Proof.
  intros Hm He. unfold binary_round_aux.
  assert (Hs : forall m' , m' = Zpos m ->
    shr_fexp 53 1024 m' e loc_Exact = (Build_shr_record (Zpos m) false false, e)).
  { intros ? ->. unfold shr_fexp. cbn [Zdigits2]. rewrite Hm.
    assert (fexp 53 1024 (53 + e) - e = 0) as ->; [|done].
    unfold fexp, emin. lia. }
  rewrite Hs by done. cbn [shr_m loc_of_shr_record round_nearest_even].
  rewrite Hs by done. cbn [shr_m]. by destruct (Z.leb_spec e (1024 - 53)); [|lia].
Qed.

(** Positive integers below 2^53 are doubles, as they are. *)
Lemma of_Z_finite n :
  0 < n < 2 ^ 53 -> exists m e, of_Z n = S754_finite false m e.
Proof.
  intros Hn. destruct n as [|p|p]; [lia| |lia]. unfold of_Z. cbn [binary_normalize].
  unfold binary_round.
  pose proof (digits2_pos_pow p) as Hd. set (d := digits2_pos p) in *.
  assert (Hd53 : Zpos d <= 53).
  { destruct (Z.le_gt_cases (Zpos d) 53) as [|Hgt]; [done|].
    pose proof (Z.pow_le_mono_r 2 53 (Zpos d - 1) ltac:(lia) ltac:(lia)). lia. }
  assert (fexp 53 1024 (Zpos d + 0) = Zpos d - 53) as -> by (unfold fexp, emin; lia).
  unfold shl_align. rewrite Z.sub_0_r. destruct (Zpos d - 53) as [|k|k] eqn:Hk; [|lia|].
  - rewrite binary_round_aux_53; [by eauto| |lia]. fold d. lia.
  - rewrite binary_round_aux_53; [by eauto| |lia]. rewrite digits2_pos_iter. fold d. lia.
Qed.

Lemma of_Z_truthy n : 0 < n < 2 ^ 53 -> num_truthy (of_Z n) = true.
Proof. intros Hn. by destruct (of_Z_finite n Hn) as (m & e & ->). Qed.
