(* ===== verification/Topics.v ===== *)
(** * Topics, subtopics and content types of the MQTT adapter

    The string processing of [mqtt/aedes/mqtt.js]: [parseTopic], the subtopic
    elements of [authorizePublish], the content-type suffix, the NATS subject,
    and the reverse direction of the NATS subscription handler. *)

From S2P Require Import Prelude JsString JsRegExp.

Local Open Scope Z_scope.

(** ** Inbound: an MQTT topic *)

(** [/^channels\/(.+?)\/<word>\/?.*$/]. *)
Definition topic_regexp (word : jsstr) : regexp :=
  RSeq RBol
    (RSeq (RLit (js "channels/"))
      (RSeq (RGroup 1 (RLazyPlus CDot))
        (RSeq (RLit (SLASH :: word))
          (RSeq (ROpt (CUnit SLASH)) (RSeq (RStar CDot) REol))))).

Definition control_regexp : regexp := topic_regexp (js "control").
Definition messages_regexp : regexp := topic_regexp (js "messages").

(** [parseTopic]: the match array of the first pattern that matches. *)
Definition parseTopic (topic : jsstr) : option (list (option jsstr)) :=
  match exec control_regexp 1 topic with
  | Some _ => exec control_regexp 1 topic
  | None => exec messages_regexp 1 topic
  end.

(** [parts = packet.topic.split('/')]. *)
Definition topic_parts (topic : jsstr) : list jsstr := split SLASH topic.

Definition baseLength : nat := 3.

(** [parts.slice(baseLength-1, baseLength)[0]]. *)
Definition msgtopic (topic : jsstr) : option jsstr :=
  slice (topic_parts topic) (baseLength - 1) baseLength !! 0%nat.

(** [parts.slice(baseLength).join('.').split('.').filter(isEmpty)]. *)
Definition subtopic_elements (topic : jsstr) : list jsstr :=
  nonempty_parts (split DOT (join DOT (slice_from (topic_parts topic) baseLength))).

(** The guard of the loop over the elements. *)
Definition invalid_element (e : jsstr) : bool :=
  (1 <? length e)%nat && (includes e STAR || includes e GT).

(** [.replace('_', '/').replace('-', '+')]. *)
Definition decode_content_type (e : jsstr) : jsstr :=
  replace_first DASH PLUS (replace_first UNDERSCORE SLASH e).

(** [contentType] and [st]. *)
Definition split_content_type (elements : list jsstr) : jsstr * list jsstr :=
  let n := length elements in
  if (1 <? n)%nat && bool_decide (elements !! (n - 2)%nat = Some (js "ct"))
  then (decode_content_type (default [] (elements !! (n - 1)%nat)), slice elements 0 (n - 2))
  else ([], elements).

(** [channelTopic], the NATS subject of the message. *)
Definition baseTopic (channelId : jsstr) : jsstr := js "channel." ++ channelId.
Definition channelTopic (channelId : jsstr) (st : list jsstr) : jsstr :=
  match st with
  | [] => baseTopic channelId
  | _ :: _ => baseTopic channelId ++ DOT :: join DOT st
  end.

(** ** Outbound: the MQTT topic of a NATS message *)

(** [m.subtopic !== '' ? '/' + m.subtopic.replace(/\./g, '/') : '']. *)
Definition outbound_subtopic (subtopic : jsstr) : jsstr :=
  match subtopic with
  | [] => []
  | _ :: _ => SLASH :: replace_all DOT SLASH subtopic
  end.

(** [.replace('/', '_').replace('+', '-')]. *)
Definition encode_content_type (ct : jsstr) : jsstr :=
  replace_first PLUS DASH (replace_first SLASH UNDERSCORE ct).

(** [(m.contentType) ? ('/ct/' + ...) : '']. *)
Definition outbound_ct (ct : jsstr) : jsstr :=
  match ct with
  | [] => []
  | _ :: _ => js "/ct/" ++ encode_content_type ct
  end.

Definition outbound_topic (channel subtopic ct : jsstr) : jsstr :=
  js "channels/" ++ channel ++ js "/messages" ++ outbound_subtopic subtopic ++ outbound_ct ct.

(** ** Reference functions *)

(** What [exec] on [topic_regexp word] computes, without backtracking: the id
    is the shortest non-empty text between [channels/] and [/word]. *)
Definition topic_match (word topic : jsstr) : option (list (option jsstr)) :=
  match strip_prefix (js "channels/") topic with
  | Some (c :: tail) =>
      if lt_free topic then
        match cut (SLASH :: word) tail with
        | Some (a, _) => Some [Some topic; Some (c :: a)]
        | None => None
        end
      else None
  | _ => None
  end.

(** The channel a topic is attributed to: [parseTopic(topic)[1]]. *)
Definition channel_of (topic : jsstr) : option jsstr := 
  match parseTopic topic with Some ch => mjoin (ch !! 1%nat) | None => None end.

(** A topic in the documented shape. *)
Definition mqtt_topic (id word rest : jsstr) : jsstr :=
  js "channels/" ++ id ++ SLASH :: word ++ rest.

(** [/e1/e2/.../en]. *)
Definition slashed (es : list jsstr) : jsstr := concat ((fun e => SLASH :: e) <$> es).

(** The elements the content-type suffix adds to an outbound topic. *)
Definition ct_elements (ct : jsstr) : list jsstr :=
  match ct with
  | [] => []
  | _ :: _ => [js "ct"; encode_content_type ct]
  end.

(** The last two elements read as a content type. *)
Definition ends_in_ct (es : list jsstr) : bool :=
  (1 <? length es)%nat && bool_decide (es !! (length es - 2)%nat = Some (js "ct")).

(** Subtopic elements that a NATS message may carry and an MQTT client may
    publish to: what [http], [ws] and [coap] produce. *)
Definition element_ok (e : jsstr) : Prop :=
  e <> [] /\ (SLASH ∉ e) /\ (DOT ∉ e) /\ lt_free e = true /\
  invalid_element e = false /\ startsWith e (js "control") = false.

(** ** The regular expressions compute [topic_match] *)

Lemma matcher_topic_tail word pos rest caps :
  matcher (RSeq (RLit (SLASH :: word)) (RSeq (ROpt (CUnit SLASH)) (RSeq (RStar CDot) REol)))
    (MState pos rest caps) Some =
  match strip_prefix (SLASH :: word) rest with
  | Some r =>
      if lt_free r
      then Some (MState (pos + length (SLASH :: word) + length r) [] caps)
      else None
  | None => None
  end.
Proof.
  change (matcher (RSeq (RLit (SLASH :: word)) ?r) ?x ?k)
    with (matcher (RLit (SLASH :: word)) x (fun y => matcher r y k)).
  rewrite matcher_lit. destruct (strip_prefix _ _) as [r|]; [|done].
  by rewrite matcher_opt_slash_tail.
Qed.

Lemma exec_from_bol r ngroups pos s : exec_from (RSeq RBol r) ngroups (S pos) s = None.
Proof. revert pos. induction s as [|c s IH]; intros pos; simpl; [done|]. apply IH. Qed.

(** The lazy group and what follows it, after the prefix [channels/]. *)
Lemma matcher_topic_group word c tail n :
  lt_free word = true ->
  matcher (RSeq (RGroup 1 (RLazyPlus CDot))
             (RSeq (RLit (SLASH :: word)) (RSeq (ROpt (CUnit SLASH)) (RSeq (RStar CDot) REol))))
    (MState n (c :: tail) []) Some =
  if negb (is_line_terminator c) && lt_free tail then
    match cut (SLASH :: word) tail with
    | Some (a, _) => Some (MState (n + S (length tail)) [] [(1%nat, c :: a)])
    | None => None
    end
  else None.
Proof.
  intros Hw.
  set (T := RSeq (RLit (SLASH :: word)) (RSeq (ROpt (CUnit SLASH)) (RSeq (RStar CDot) REol))).
  set (cont := fun y => matcher T (MState (ms_pos y) (ms_rest y)
                 ((1%nat, take (ms_pos y - n) (c :: tail)) :: ms_caps y)) Some).
  change (matcher _ _ _) with
    (if negb (is_line_terminator c)
     then repeat_cls CDot false [] tail (S n) 0 None cont else None).
  destruct (negb (is_line_terminator c)); simpl andb; [|done].
  rewrite (repeat_lazy_dot [] (SLASH :: word)
    (fun pos r => Some (MState (pos + length (SLASH :: word) + length r) []
                          [(1%nat, take (pos - n) (c :: tail))]))); [|by simpl| |done].
  - destruct (lt_free tail); [|done].
    destruct (cut (SLASH :: word) tail) as [[a r]|] eqn:E; [|done].
    apply cut_Some in E as ->. f_equal. f_equal.
    + rewrite !length_app. simpl. lia.
    + replace (S n + length a - n)%nat with (S (length a)) by lia.
      simpl take. by rewrite take_app_length.
  - intros pos rest. subst cont T. cbn [ms_pos ms_rest ms_caps].
    by rewrite matcher_topic_tail.
Qed.

(** The engine on [topic_regexp word] computes [topic_match word]. *)
Lemma exec_topic_regexp word topic :
  lt_free word = true -> exec (topic_regexp word) 1 topic = topic_match word topic.
Proof.
  intros Hw. unfold exec, topic_match.
  assert (Hgo : matcher (topic_regexp word) (MState 0 topic []) Some =
    match strip_prefix (js "channels/") topic with
    | Some (c :: tail) =>
        if lt_free topic then
          match cut (SLASH :: word) tail with
          | Some (a, _) => Some (MState (length topic) [] [(1%nat, c :: a)])
          | None => None
          end
        else None
    | _ => None
    end).
  { unfold topic_regexp.
    change (matcher (RSeq RBol (RSeq (RLit ?p) ?r)) (MState 0 topic []) Some)
      with (matcher (RLit p) (MState 0 topic []) (fun y => matcher r y Some)).
    rewrite matcher_lit. destruct (strip_prefix _ topic) as [[|c tail]|] eqn:E; [done| |done].
    apply strip_prefix_Some in E as ->.
    rewrite matcher_topic_group, lt_free_app by done. by rewrite length_app. }
  assert (Hunf : forall r s, exec_from r 1 0 s = match matcher r (MState 0 s []) Some with
     | Some y => Some (Some (take (ms_pos y - 0) s) :: ((fun i => capture i y) <$> seq 1 1))
     | None => match s with [] => None | _ :: s' => exec_from r 1 1 s' end end) by (by destruct s).
  rewrite Hunf, Hgo.
  assert (Hrest : match topic with [] => None | _ :: s' => exec_from (topic_regexp word) 1 1 s' end = None)
    by (destruct topic; [done|apply exec_from_bol]).
  rewrite Hrest.
  destruct (strip_prefix _ topic) as [[|c tail]|]; [done| |done].
  destruct (lt_free topic); [|done].
  destruct (cut _ tail) as [[a r]|]; [|done].
  simpl. rewrite Nat.sub_0_r. by rewrite firstn_all.
Qed.

Lemma parseTopic_match topic :
  parseTopic topic =
  orelse (topic_match (js "control") topic) (topic_match (js "messages") topic).
Proof.
  unfold parseTopic, control_regexp, messages_regexp.
  rewrite !exec_topic_regexp by done. by destruct (topic_match (js "control") topic).
Qed.

(** ** Topics in the documented shape *)

Lemma js_free c s : forallb (fun d => negb (d =? c)) (js s) = true -> c ∉ js s.
Proof.
  intros Hall Hin. rewrite forallb_forall in Hall.
  apply list_elem_of_In, Hall in Hin. by rewrite Z.eqb_refl in Hin.
Qed.

Lemma topic_match_cut word c a w rest :
  lt_free (mqtt_topic (c :: a) w rest) = true -> SLASH ∉ a ->
  topic_match word (mqtt_topic (c :: a) w rest) =
  match cut (SLASH :: word) (SLASH :: w ++ rest) with
  | Some (b, _) => Some [Some (mqtt_topic (c :: a) w rest); Some (c :: a ++ b)]
  | None => None
  end.
Proof.
  intros Hlt Ha. unfold topic_match. rewrite Hlt. unfold mqtt_topic.
  rewrite strip_prefix_app.
  change ((c :: a) ++ ?x) with (c :: (a ++ x)). cbv iota. rewrite cut_free_prefix by done.
  by destruct (cut _ _) as [[??]|].
Qed.

(** The shape of [channel_of] on a messages topic: nothing but an occurrence
    of [/control] in the rest can take the topic away from its channel. *)
Lemma channel_of_messages id rest :
  id <> [] -> SLASH ∉ id -> lt_free (mqtt_topic id (js "messages") rest) = true ->
  channel_of (mqtt_topic id (js "messages") rest) =
  match cut (SLASH :: js "control") rest with
  | Some (b, _) => Some (id ++ js "/messages" ++ b)
  | None => Some id
  end.
Proof.
  intros Hne Hid Hlt. destruct id as [|c a]; [done|].
  assert (Ha : SLASH ∉ a) by set_solver.
  unfold channel_of. rewrite parseTopic_match, !topic_match_cut by done.
  change (SLASH :: js "messages" ++ rest) with (js "/messages" ++ rest).
  rewrite (cut_here (js "/messages")).
  assert (cut (SLASH :: js "control") (js "/messages" ++ rest) =
    match cut (SLASH :: js "control") rest with
    | Some (b, r) => Some (js "/messages" ++ b, r) | None => None end) as ->.
  { change (js "/messages" ++ rest) with (SLASH :: (js "messages" ++ rest)).
    change (cut (SLASH :: js "control") (SLASH :: (js "messages" ++ rest))) with
      (match cut (SLASH :: js "control") (js "messages" ++ rest) with
       | Some (b, r) => Some (SLASH :: b, r) | None => None end).
    rewrite cut_free_prefix by (by apply js_free). by destruct (cut _ rest) as [[??]|]. }
  destruct (cut _ rest) as [[b r]|]; simpl; [done|]. by rewrite app_nil_r.
Qed.

Lemma channel_of_control id rest :
  id <> [] -> SLASH ∉ id -> lt_free (mqtt_topic id (js "control") rest) = true ->
  channel_of (mqtt_topic id (js "control") rest) = Some id.
Proof.
  intros Hne Hid Hlt. destruct id as [|c a]; [done|].
  assert (Ha : SLASH ∉ a) by set_solver.
  unfold channel_of. rewrite parseTopic_match, !topic_match_cut by done.
  change (SLASH :: js "control" ++ rest) with ((SLASH :: js "control") ++ rest).
  rewrite cut_here. simpl. by rewrite app_nil_r.
Qed.

(** ** Elements *)

Lemma topic_parts_mqtt id word es :
  SLASH ∉ id -> SLASH ∉ word -> Forall (fun e => SLASH ∉ e) es ->
  topic_parts (mqtt_topic id word (slashed es)) = js "channels" :: id :: word :: es.
Proof.
  intros Hid Hw Hes. unfold topic_parts, mqtt_topic.
  change (js "channels/" ++ ?x) with (js "channels" ++ SLASH :: x).
  rewrite split_free_app by (by apply js_free).
  rewrite split_free_app by done. do 2 f_equal. revert word Hw.
  induction Hes as [|e es He _ IH]; intros word Hw.
  - unfold slashed. simpl. by rewrite app_nil_r, split_free.
  - unfold slashed. csimpl. rewrite split_free_app by done. f_equal. by apply IH.
Qed.

Lemma subtopic_elements_mqtt id word es :
  SLASH ∉ id -> SLASH ∉ word -> Forall (fun e => SLASH ∉ e) es ->
  subtopic_elements (mqtt_topic id word (slashed es)) =
  nonempty_parts (concat (split DOT <$> es)).
Proof.
  intros Hid Hw Hes. unfold subtopic_elements. rewrite topic_parts_mqtt by done.
  unfold slice_from. simpl drop. destruct es as [|e es]; [done|].
  by rewrite split_join_concat.
Qed.

Lemma concat_split_free es : Forall (fun e => DOT ∉ e) es -> concat (split DOT <$> es) = es.
Proof. induction 1 as [|e es He _ IH]; csimpl; [done|]. by rewrite split_free, IH. Qed.

Lemma subtopic_elements_ok id word es :
  SLASH ∉ id -> SLASH ∉ word -> Forall element_ok es ->
  subtopic_elements (mqtt_topic id word (slashed es)) = es.
Proof.
  intros Hid Hw Hes.
  rewrite subtopic_elements_mqtt; [|done..|by eapply Forall_impl; [exact Hes|intros e He; apply He]].
  rewrite concat_split_free by (eapply Forall_impl; [exact Hes|intros e He; apply He]).
  apply nonempty_parts_id. eapply Forall_impl; [exact Hes|intros e He; apply He].
Qed.

(** A word without slashes that starts a slash-separated text starts its first
    segment. *)
Lemma strip_prefix_segment w e t r :
  SLASH ∉ w -> t = [] \/ head t = Some SLASH -> strip_prefix w (e ++ t) = Some r ->
  startsWith e w = true.
Proof.
  intros Hw Ht Hs. apply strip_prefix_Some in Hs. apply startsWith_spec.
  apply app_eq_inv in Hs as [(k & -> & Hk)|(k & -> & Hk)]; [by exists k|].
  destruct k as [|x k]; [exists []; by rewrite !app_nil_r|].
  destruct Ht as [->|Ht]; [done|]. subst t. simpl in Ht. simplify_eq. set_solver.
Qed.

Lemma cut_control_slashed es :
  Forall (fun e => (SLASH ∉ e) /\ startsWith e (js "control") = false) es ->
  cut (SLASH :: js "control") (slashed es) = None.
Proof.
  induction 1 as [|e es [He Hst] _ IH]; [done|].
  change (slashed (e :: es)) with (SLASH :: (e ++ slashed es)). rewrite cut_same_head.
  destruct (strip_prefix _ _) as [r|] eqn:E.
  - apply strip_prefix_segment in E; [congruence|by apply js_free|].
    destruct es; [by left|by right].
  - by rewrite cut_free_prefix, IH.
Qed.

(** ** Content types *)

Lemma replace_first_inverse c d s :
  d ∉ before c s -> replace_first d c (replace_first c d s) = s.
Proof.
  induction s as [|x s IH]; [done|]. simpl.
  destruct (Z.eqb_spec x c) as [->|Hne]; simpl; intros Hn.
  - by rewrite Z.eqb_refl.
  - destruct (Z.eqb_spec x d) as [->|?]; [set_solver|]. by rewrite IH by set_solver.
Qed.

(** When the replacement already occurs before the first [c], undoing it hits
    the wrong place. *)
Lemma replace_first_not_inverse c d s :
  c <> d -> d ∈ before c s -> replace_first d c (replace_first c d s) <> s.
Proof.
  intros Hcd. induction s as [|x s IH]; simpl; [set_solver|].
  destruct (Z.eqb_spec x c) as [->|Hne]; simpl; intros Hin; [set_solver|].
  destruct (Z.eqb_spec x d) as [->|?]; [congruence|].
  intros [= Heq]. apply elem_of_cons in Hin as [->|Hin]; [done|]. by apply IH.
Qed.

Lemma replace_first_comm a b c d s :
  a <> c -> a <> d -> b <> c ->
  replace_first a b (replace_first c d s) = replace_first c d (replace_first a b s).
Proof.
  intros Hac Had Hbc. induction s as [|x s IH]; [done|]. simpl.
  destruct (Z.eqb_spec x c) as [->|Hxc].
  - destruct (Z.eqb_spec c a) as [->|_]; [done|]. simpl.
    rewrite Z.eqb_refl. destruct (Z.eqb_spec d a) as [->|_]; [done|]. done.
  - destruct (Z.eqb_spec x a) as [->|Hxa]; simpl.
    + rewrite Z.eqb_refl. destruct (Z.eqb_spec b c) as [->|_]; done.
    + destruct (Z.eqb_spec x a) as [->|_]; [done|].
      destruct (Z.eqb_spec x c) as [->|_]; [done|]. by rewrite IH.
Qed.

Lemma decode_encode_comm ct :
  decode_content_type (encode_content_type ct) =
  replace_first DASH PLUS (replace_first PLUS DASH
    (replace_first UNDERSCORE SLASH (replace_first SLASH UNDERSCORE ct))).
Proof.
  unfold decode_content_type, encode_content_type.
  by rewrite (replace_first_comm UNDERSCORE SLASH PLUS DASH) by done.
Qed.

(** Undoing a replacement touches only the two units concerned. *)
Lemma replace_there_and_back c d s :
  Forall2 (fun x y => x = y \/ ((x = c \/ x = d) /\ (y = c \/ y = d)))
    (replace_first d c (replace_first c d s)) s.
Proof.
  assert (Hone : forall c d s, Forall2 (fun x y => x = y \/ (x = d /\ y = c)) (replace_first c d s) s).
  { clear. intros c d s. induction s as [|x s IH]; simpl; [done|].
    destruct (Z.eqb_spec x c) as [->|?].
    - constructor; [by right|]. clear. induction s; constructor; auto.
    - constructor; auto. }
  eapply Forall2_trans; [|apply (Hone d c)|apply (Hone c d)].
  intros x y z [->|[-> ->]] [->|[? ->]]; naive_solver.
Qed.

(** ** Outbound topics *)

Lemma outbound_subtopic_join es :
  Forall element_ok es -> outbound_subtopic (join DOT es) = slashed es.
Proof.
  intros Hes. destruct es as [|e es]; [done|].
  assert (Hd : Forall (fun e => DOT ∉ e) (e :: es))
    by (eapply Forall_impl; [exact Hes|intros ? H; apply H]).
  unfold outbound_subtopic. destruct (join DOT (e :: es)) as [|x s] eqn:E.
  - exfalso. inversion Hes as [|?? He _]; subst. destruct He as [Hne _].
    destruct es; simpl in E; [done|]. by destruct e.
  - rewrite <- E, replace_all_join by done. clear.
    revert e. induction es as [|e' es IH]; intros e.
    + unfold slashed. csimpl. by rewrite app_nil_r.
    + change (slashed (e :: e' :: es)) with (SLASH :: e ++ slashed (e' :: es)).
      by rewrite <- IH, join_cons.
Qed.

Lemma outbound_topic_shape ch es ct :
  Forall element_ok es ->
  outbound_topic ch (join DOT es) ct = mqtt_topic ch (js "messages") (slashed (es ++ ct_elements ct)).
Proof.
  intros Hes. unfold outbound_topic, mqtt_topic. rewrite outbound_subtopic_join by done.
  unfold slashed. rewrite fmap_app, concat_app.
  assert (outbound_ct ct = concat ((fun e => SLASH :: e) <$> ct_elements ct)) as ->; [|done].
  destruct ct as [|c ct]; [done|]. unfold outbound_ct, ct_elements. csimpl.
  by rewrite app_nil_r.
Qed.

Lemma split_content_type_app es e :
  split_content_type (es ++ [js "ct"; e]) = (decode_content_type e, es).
Proof.
  unfold split_content_type. rewrite length_app. simpl length.
  replace (length es + 2 - 2)%nat with (length es) by lia.
  replace (length es + 2 - 1)%nat with (S (length es)) by lia.
  assert ((1 <? length es + 2) = true)%nat as -> by (apply Nat.ltb_lt; lia).
  rewrite list_lookup_middle by done. rewrite bool_decide_true by done. simpl.
  rewrite lookup_app_r by lia.
  replace (S (length es) - length es)%nat with 1%nat by lia. simpl.
  unfold slice. by rewrite drop_0, Nat.sub_0_r, take_app_length.
Qed.

Lemma split_content_type_plain es : ends_in_ct es = false -> split_content_type es = ([], es).
Proof. unfold split_content_type, ends_in_ct. by intros ->. Qed.

Lemma lt_free_mqtt id rest :
  lt_free id = true -> lt_free rest = true -> lt_free (mqtt_topic id (js "messages") rest) = true.
Proof.
  intros Hid Hr. unfold mqtt_topic.
  change (SLASH :: js "messages" ++ rest) with (js "/messages" ++ rest).
  by rewrite !lt_free_app, Hid, Hr.
Qed.

Lemma lt_free_slashed es : Forall (fun e => lt_free e = true) es -> lt_free (slashed es) = true.
Proof.
  induction 1 as [|e es He _ IH]; [done|].
  change (slashed (e :: es)) with ((SLASH :: e) ++ slashed es).
  by rewrite lt_free_app, lt_free_cons, He, IH.
Qed.

Lemma existsb_invalid_ok es : Forall element_ok es -> existsb invalid_element es = false.
Proof.
  induction 1 as [|e es He _ IH]; [done|]. simpl. rewrite IH.
  destruct He as (_&_&_&_&->&_). done.
Qed.

(** ** Characterisation of [parseTopic] *)

Lemma topic_match_iff word topic m :
  topic_match word topic = Some m <->
  lt_free topic = true /\
  exists id rest, id <> [] /\ topic = mqtt_topic id word rest /\ m = [Some topic; Some id] /\
    forall id' rest', id' <> [] -> topic = mqtt_topic id' word rest' -> (length id <= length id')%nat.
Proof.
  unfold topic_match. split.
  - destruct (strip_prefix _ topic) as [[|c tail]|] eqn:E; [done| |done].
    apply strip_prefix_Some in E. destruct (lt_free topic); [|done].
    destruct (cut _ tail) as [[a r]|] eqn:Ec; [|done]. intros [= <-]. split; [done|].
    exists (c :: a), r. split_and!; [done| |done|].
    + rewrite E. apply cut_Some in Ec as ->. done.
    + intros [|c' a'] r' Hne Heq; [done|]. rewrite E in Heq. unfold mqtt_topic in Heq.
      apply app_inv_head in Heq. injection Heq as _ Heq. simpl. apply le_n_S.
      by eapply cut_first.
  - intros (Hlt & id & rest & Hne & -> & -> & Hmin). rewrite Hlt.
    destruct id as [|c a]; [done|].
    unfold mqtt_topic at 1. rewrite strip_prefix_app.
    change ((c :: a) ++ ?x) with (c :: (a ++ x)). cbv iota.
    destruct (cut _ _) as [[b r]|] eqn:Ec.
    + do 4 f_equal. pose proof (cut_first _ _ _ _ a rest Ec eq_refl) as Hle.
      apply cut_Some in Ec. do 2 f_equal.
      assert (length a <= length b)%nat as Hge.
      { enough (length (c :: a) <= length (c :: b))%nat by (simpl in *; lia).
        apply (Hmin (c :: b) r); [done|]. unfold mqtt_topic. simpl. by rewrite Ec. }
      assert (length a = length b) as Hl by lia.
      by apply app_inj_1 in Ec as [-> _].
    + exfalso. rewrite cut_None in Ec. apply Ec. by exists a, rest.
Qed.

Lemma topic_match_is_Some word topic :
  is_Some (topic_match word topic) <->
  lt_free topic = true /\ exists id rest, id <> [] /\ topic = mqtt_topic id word rest.
Proof.
  split.
  - intros [m (Hlt & id & rest & Hne & Ht & _)%topic_match_iff]. eauto.
  - intros (Hlt & [|c a] & rest & Hne & ->); [done|]. unfold topic_match. rewrite Hlt.
    unfold mqtt_topic at 1. rewrite strip_prefix_app.
    change ((c :: a) ++ ?x) with (c :: (a ++ x)). cbv iota.
    destruct (cut _ _) as [[b r]|] eqn:Ec; [by eexists|].
    rewrite cut_None in Ec. destruct Ec. by exists a, rest.
Qed.

Lemma topic_match_unique word topic id rest :
  lt_free topic = true -> id <> [] -> topic = mqtt_topic id word rest ->
  (forall id' rest', id' <> [] -> topic = mqtt_topic id' word rest' -> (length id <= length id')%nat) ->
  topic_match word topic = Some [Some topic; Some id].
Proof. intros. apply topic_match_iff. split; [done|]. by exists id, rest. Qed.

(** C8: [parseTopic(topic)[1]] without any reference to the regular-expression
    engine: the shortest non-empty text between [channels/] and [/control],
    or, when the topic has no [/control] there, between [channels/] and
    [/messages]; and there is none when the topic contains a line
    terminator. *)
Theorem channel_of_spec topic id :
  channel_of topic = Some id <->
  lt_free topic = true /\ id <> [] /\
  exists word rest,
    topic = mqtt_topic id word rest /\
    (forall id' rest', id' <> [] -> topic = mqtt_topic id' word rest' -> (length id <= length id')%nat) /\
    (word = js "control" \/
     (word = js "messages" /\
      ~ exists id' rest', id' <> [] /\ topic = mqtt_topic id' (js "control") rest')).
Proof.
  unfold channel_of. rewrite parseTopic_match. split.
  - destruct (topic_match (js "control") topic) as [m|] eqn:E.
    + apply topic_match_iff in E as (Hlt & id0 & rest & Hne & Ht & -> & Hmin).
      simpl. intros [= <-]. split_and!; [done..|]. exists (js "control"), rest. auto.
    + destruct (topic_match (js "messages") topic) as [m|] eqn:E'; [|done].
      apply topic_match_iff in E' as (Hlt & id0 & rest & Hne & Ht & -> & Hmin).
      simpl. intros [= <-]. split_and!; [done..|].
      exists (js "messages"), rest. split_and!; [done..|]. right. split; [done|].
      intros Hex. destruct (proj2 (topic_match_is_Some (js "control") topic)); [done|congruence].
  - intros (Hlt & Hne & word & rest & Ht & Hmin & [->|[-> Hno]]).
    + by rewrite (topic_match_unique (js "control") topic id rest).
    + destruct (topic_match (js "control") topic) as [m|] eqn:E.
      * destruct Hno. apply (proj1 (topic_match_is_Some (js "control") topic)). by eexists.
      * by rewrite (topic_match_unique (js "messages") topic id rest).
Qed.

(** On a documented messages topic [channels/<id>/messages<rest>] the
    adapter finds the documented channel id exactly when [/control] does not
    occur in the rest; otherwise part of the subtopic ends up in the id. *)
Theorem messages_topic_channel id rest :
  id <> [] -> (SLASH ∉ id) -> lt_free (mqtt_topic id (js "messages") rest) = true ->
  channel_of (mqtt_topic id (js "messages") rest) = Some id <->
  ~ exists a r, rest = a ++ js "/control" ++ r.
Proof.
  intros Hne Hid Hlt. rewrite channel_of_messages by done.
  change (js "/control") with (SLASH :: js "control"). rewrite <- cut_None.
  destruct (cut _ rest) as [[b r]|]; [|done].
  split; [|done]. intros Heq%(inj Some). apply (f_equal length) in Heq.
  rewrite !length_app in Heq. change (length (js "/messages")) with 9%nat in Heq. lia.
Qed.

Lemma messages_topic_channel_witness :
  channel_of (js "channels/42/messages/temp/room1") = Some (js "42").
Proof.
  change (js "channels/42/messages/temp/room1")
    with (mqtt_topic (js "42") (js "messages") (js "/temp/room1")).
  apply messages_topic_channel; [done|by apply js_free|done|].
  rewrite <- (cut_None (js "/control")). done.
Defined.

(** A message on the subtopic [control...] of a channel is attributed to
    the channel id [<id>/messages], whatever follows. *)
Theorem control_subtopic_misrouted id rest :
  id <> [] -> (SLASH ∉ id) -> lt_free id = true -> lt_free rest = true ->
  channel_of (mqtt_topic id (js "messages") (js "/control" ++ rest)) = Some (id ++ js "/messages").
Proof.
  intros Hne Hid Hlt Hr. rewrite channel_of_messages; [|done..|by rewrite lt_free_mqtt].
  change (SLASH :: js "control") with (js "/control"). rewrite cut_here.
  by rewrite app_nil_r.
Qed.

Lemma control_subtopic_misrouted_witness :
  channel_of (js "channels/42/messages/controller/state") = Some (js "42/messages").
Proof.
  change (js "channels/42/messages/controller/state")
    with (mqtt_topic (js "42") (js "messages") (js "/control" ++ js "ler/state")).
  apply (control_subtopic_misrouted (js "42")); [done|by apply js_free|done..].
Defined.

(** The content type survives the trip through the topic suffix (encoded by
    the NATS handler, decoded by [authorizePublish]) exactly when no
    underscore precedes its first slash and no dash precedes its first plus
    sign: each of the four replacements touches one occurrence only. *)
Theorem content_type_roundtrip ct :
  decode_content_type (encode_content_type ct) = ct <->
  (UNDERSCORE ∉ before SLASH ct) /\ (DASH ∉ before PLUS ct).
Proof.
  rewrite decode_encode_comm. split.
  - intros Heq.
    assert (H1 : replace_first UNDERSCORE SLASH (replace_first SLASH UNDERSCORE ct) = ct).
    { pose proof (replace_there_and_back SLASH UNDERSCORE ct) as H1.
      pose proof (replace_there_and_back PLUS DASH
        (replace_first UNDERSCORE SLASH (replace_first SLASH UNDERSCORE ct))) as H2.
      rewrite Heq in H2. revert H1 H2. generalize (replace_first UNDERSCORE SLASH (replace_first SLASH UNDERSCORE ct)).
      clear. intros s H1. induction H1 as [|x y s t Hxy _ IH]; [done|].
      intros H2. inversion H2 as [|? ? ? ? Hyx Ht]; subst. f_equal; [|by apply IH].
      destruct Hxy as [->|Hxy]; [done|]. destruct Hyx as [->|Hyx]; [done|].
      exfalso. clear -Hxy Hyx. unfold SLASH, UNDERSCORE, PLUS, DASH in *. lia. }
    rewrite H1 in Heq. split; intros Hin.
    + by eapply (replace_first_not_inverse SLASH UNDERSCORE ct).
    + by eapply (replace_first_not_inverse PLUS DASH ct).
  - intros [Hu Hd]. by rewrite (replace_first_inverse SLASH), (replace_first_inverse PLUS).
Qed.

(** [application/octet-stream] comes back as [application/octet+stream]. *)
Example octet_stream_altered :
  decode_content_type (encode_content_type (js "application/octet-stream"))
  = js "application/octet+stream".
Proof. reflexivity. Qed.

(** ** The two directions together *)

Lemma element_ok_ct : element_ok (js "ct").
Proof. unfold element_ok. split_and!; first [done | by apply js_free]. Qed.

Lemma ct_elements_ok ct :
  (ct <> [] -> element_ok (encode_content_type ct)) -> Forall element_ok (ct_elements ct).
Proof.
  intros Hok. destruct ct as [|c ct]; [constructor|].
  constructor; [apply element_ok_ct|constructor; [by apply Hok|constructor]].
Qed.

Lemma msgtopic_mqtt id word es :
  SLASH ∉ id -> SLASH ∉ word -> Forall (fun e => SLASH ∉ e) es ->
  msgtopic (mqtt_topic id word (slashed es)) = Some word.
Proof. intros Hid Hw Hes. unfold msgtopic. by rewrite topic_parts_mqtt. Qed.

Lemma elements_ok_slash es : Forall element_ok es -> Forall (fun e => SLASH ∉ e) es.
Proof. intros Hes. eapply Forall_impl; [exact Hes|intros e He; apply He]. Qed.

Lemma channel_of_ok id es :
  id <> [] -> (SLASH ∉ id) -> lt_free id = true -> Forall element_ok es ->
  channel_of (mqtt_topic id (js "messages") (slashed es)) = Some id.
Proof.
  intros Hne Hid Hlt Hes. rewrite channel_of_messages; [|done..|].
  - rewrite cut_control_slashed; [done|].
    eapply Forall_impl; [exact Hes|]. intros e (_&He&_&_&_&Hst). done.
  - apply lt_free_mqtt; [done|]. apply lt_free_slashed.
    eapply Forall_impl; [exact Hes|]. intros e (_&_&_&He&_). done.
Qed.

(** The content type can be carried by the topic: absent (and the subtopic does
    not itself end like a content-type suffix), or encoded as one legal element
    and recoverable. *)
Definition ct_carried (es : list jsstr) (ct : jsstr) : Prop :=
  (ct = [] /\ ends_in_ct es = false) \/
  (ct <> [] /\ element_ok (encode_content_type ct) /\
   (UNDERSCORE ∉ before SLASH ct) /\ (DASH ∉ before PLUS ct)).

(** What the NATS handler publishes on MQTT for a message of another
    protocol is, when an MQTT client publishes it back, attributed to the same
    channel, accepted, and read with the same subtopic and content type. *)
Lemma outbound_inbound ch es ct :
  ch <> [] -> (SLASH ∉ ch) -> lt_free ch = true -> Forall element_ok es -> ct_carried es ct ->
  let t := outbound_topic ch (join DOT es) ct in
  channel_of t = Some ch /\
  msgtopic t = Some (js "messages") /\
  existsb invalid_element (subtopic_elements t) = false /\
  split_content_type (subtopic_elements t) = (ct, es).
Proof.
  intros Hne Hch Hlt Hes Hct t. subst t. rewrite outbound_topic_shape by done.
  assert (Hall : Forall element_ok (es ++ ct_elements ct)).
  { apply Forall_app. split; [done|]. apply ct_elements_ok.
    destruct Hct as [[-> _]|(_&He&_)]; [done|]. done. }
  rewrite channel_of_ok, subtopic_elements_ok by first [done | by apply js_free].
  rewrite msgtopic_mqtt by first [done | by apply js_free | by apply elements_ok_slash].
  rewrite existsb_invalid_ok by done. split_and!; [done..|].
  destruct Hct as [[-> Hend]|(Hctne & He & Hu & Hd)].
  - simpl ct_elements. rewrite app_nil_r. by apply split_content_type_plain.
  - destruct ct as [|c ct]; [done|]. simpl ct_elements. rewrite split_content_type_app.
    f_equal. rewrite decode_encode_comm.
    by rewrite (replace_first_inverse SLASH), (replace_first_inverse PLUS).
Qed.

(** ** The NATS subject *)

(** A NATS token: non-empty, without a dot, a wildcard only as a whole. *)
Definition token_ok (e : jsstr) : Prop :=
  e <> [] /\ (DOT ∉ e) /\ (e = [STAR] \/ e = [GT] \/ ((STAR ∉ e) /\ (GT ∉ e))).

Lemma element_wildcards e :
  invalid_element e = false -> e = [STAR] \/ e = [GT] \/ ((STAR ∉ e) /\ (GT ∉ e)).
Proof.
  unfold invalid_element. intros [Hl|Hi]%andb_false_iff.
  - apply Nat.ltb_ge in Hl. destruct e as [|c [|d e]]; [set_solver| |simpl in Hl; lia].
    destruct (decide (c = STAR)) as [->|]; [by left|].
    destruct (decide (c = GT)) as [->|]; [by right; left|]. set_solver.
  - apply orb_false_iff in Hi as [H1%includes_false H2%includes_false]. auto.
Qed.

Lemma elements_token_ok topic :
  existsb invalid_element (subtopic_elements topic) = false ->
  Forall token_ok (subtopic_elements topic).
Proof.
  intros Hel. apply Forall_forall. intros e He.
  assert (Hi : invalid_element e = false).
  { apply not_true_iff_false. intros Hi. apply not_true_iff_false in Hel. apply Hel.
    apply existsb_exists. exists e. by rewrite <- list_elem_of_In. }
  unfold subtopic_elements, nonempty_parts in He. apply list_elem_of_filter in He as [Hne He].
  split_and!; [done| |by apply element_wildcards].
  by apply (proj1 (Forall_forall _ _) (split_elems_free DOT _) e He).
Qed.

Lemma split_content_type_Forall (P : jsstr -> Prop) es :
  Forall P es -> Forall P (snd (split_content_type es)).
Proof.
  intros Hes. unfold split_content_type. destruct (_ && _); simpl; [|done].
  unfold slice. by apply Forall_take, Forall_drop.
Qed.

(** The subject of an accepted publication consists of the token [channel],
    the tokens of the channel id, and the subtopic tokens that the message also
    carries: each is non-empty, holds no dot, and is a wildcard only as a whole
    token, never in part. *)
Theorem subject_tokens topic ch :
  existsb invalid_element (subtopic_elements topic) = false ->
  let st := snd (split_content_type (subtopic_elements topic)) in
  split DOT (channelTopic ch st) = js "channel" :: split DOT ch ++ st /\ Forall token_ok st.
Proof.
  intros Hel st.
  assert (Hok : Forall token_ok st) by (by apply split_content_type_Forall, elements_token_ok).
  split; [|done]. clear Hel. clearbody st.
  assert (Hbase : split DOT (baseTopic ch) = js "channel" :: split DOT ch).
  { unfold baseTopic. change (js "channel." ++ ch) with (js "channel" ++ DOT :: ch).
    apply split_free_app. by apply js_free. }
  destruct st as [|e st]; cbn [channelTopic].
  - by rewrite Hbase, app_nil_r.
  - rewrite split_app, Hbase. rewrite split_join; [done..|].
    eapply Forall_impl; [exact Hok|]. by intros x (_&?&_).
Qed.

Lemma subject_tokens_witness :
  split DOT (channelTopic (js "42") [js "temp"; js ">"]) =
  [js "channel"; js "42"; js "temp"; js ">"].
Proof.
  exact (proj1 (subject_tokens (js "channels/42/messages/temp//>/ct/text_plain") (js "42") eq_refl)).
Defined.
