(* ===== verification/Messages.v ===== *)
(** * Values and messages

    JavaScript values that a property of the adapter's objects may hold, the
    [Message] of [message.proto], and the protobuf codec as an interface: the
    codec itself ([protobufjs], generated from the schema at start-up) is not
    code of the repository. *)

From S2P Require Import Prelude JsString.

Local Open Scope Z_scope.

(** ** Property values *)

Inductive jsval :=
| Undefined
| Null
| Str (s : jsstr).

#[export] Instance jsval_eq_dec : EqDecision jsval.
Proof. solve_decision. Defined.

Definition truthy (v : jsval) : bool :=
  match v with Str (_ :: _) => true | _ => false end.

(** [v || w]. *)
Definition js_or (v w : jsval) : jsval := if truthy v then v else w.

Definition of_option (o : option jsstr) : jsval :=
  match o with Some s => Str s | None => Undefined end.

(** ** [Message] (message.proto) *)

(** The argument of [Message.encode]: properties may be missing. *)
Record msg_obj := MsgObj {
  mo_publisher : jsval;
  mo_devname : jsval;
  mo_channel : jsstr;
  mo_topic : jsval;
  mo_subtopic : jsstr;
  mo_contentType : jsstr;
  mo_protocol : jsstr;
  mo_payload : list Z
}.

(** The result of [Message.decode]: absent fields have the proto3 default. *)
Record Message := MkMessage {
  m_channel : jsstr;
  m_topic : jsstr;
  m_subtopic : jsstr;
  m_publisher : jsstr;
  m_devname : jsstr;
  m_protocol : jsstr;
  m_contentType : jsstr;
  m_payload : list Z
}.

#[export] Instance Message_eq_dec : EqDecision Message.
Proof. solve_decision. Defined.

Definition proto_default (v : jsval) : jsstr :=
  match v with Str s => s | _ => [] end.

(** What a receiver sees of an encoded object. *)
Definition message_of (o : msg_obj) : Message := {|
  m_channel := mo_channel o;
  m_topic := proto_default (mo_topic o);
  m_subtopic := mo_subtopic o;
  m_publisher := proto_default (mo_publisher o);
  m_devname := proto_default (mo_devname o);
  m_protocol := mo_protocol o;
  m_contentType := mo_contentType o;
  m_payload := mo_payload o
|}.

(** The range of a code unit. *)
Definition is_unit (c : Z) : bool := (0 <=? c) && (c <? 65536).

(** Strings with a UTF-8 encoding: no surrogate without its partner. *)
Fixpoint well_formed (s : jsstr) : bool :=
  match s with
  | [] => true
  | c :: s' =>
      if is_lead c then
        match s' with
        | d :: s'' => is_trail d && well_formed s''
        | [] => false
        end
      else is_unit c && negb (is_trail c) && well_formed s'
  end.

Definition wf_message (m : Message) : bool :=
  well_formed (m_channel m) && well_formed (m_topic m) && well_formed (m_subtopic m)
  && well_formed (m_publisher m) && well_formed (m_devname m)
  && well_formed (m_protocol m) && well_formed (m_contentType m).

(** ** The codec interface *)

(** [wire] is the type of encoded messages; [decode] returns [None] when it
    throws. *)
Class MessageCodec := {
  wire : Type;
  encode : msg_obj -> wire;
  decode : wire -> option Message
}.

(** Documented behaviour of protobuf: decoding an encoded object gives its
    fields back. *)
Class MessageCodecOk (C : MessageCodec) : Prop :=
  decode_encode : forall o, wf_message (message_of o) = true ->
    decode (encode o) = Some (message_of o).

(** A concrete codec that meets the interface, to evaluate the model on: a
    message is its own encoding, and a text that is not well formed does not
    decode. *)
Definition record_codec : MessageCodec := {|
  wire := Message;
  encode := message_of;
  decode m := if wf_message m then Some m else None
|}.

#[export] Instance record_codec_ok : MessageCodecOk record_codec.
Proof. intros o Ho. simpl. by rewrite Ho. Qed.
