(* ===== verification/Utf8.v ===== *)
(** * UTF-8

    How the text of JavaScript strings crosses to Go, where strings are bytes:
    the encoding of code units, which commutes with splitting and joining at ASCII
    separators, and its inverse on well-formed text. *)

From S2P Require Import Prelude JsString Messages.

Local Open Scope Z_scope.

(** ** Encoding *)

Definition point2 (p : Z) : list Z := [192 + p / 64; 128 + p mod 64].
Definition point3 (p : Z) : list Z := [224 + p / 4096; 128 + p / 64 mod 64; 128 + p mod 64].
Definition point4 (p : Z) : list Z :=
  [240 + p / 262144; 128 + p / 4096 mod 64; 128 + p / 64 mod 64; 128 + p mod 64].

(** The code point of a surrogate pair. *)
Definition pair_point (c d : Z) : Z := 65536 + (c - 55296) * 1024 + (d - 56320).

Definition unit_bytes (c : Z) : list Z :=
  if c <? 128 then [c] else if c <? 2048 then point2 c else point3 c.

(** A surrogate without its partner is encoded like any other unit; the texts
    that reach the adapters have none. *)
Fixpoint utf8 (s : jsstr) : list Z :=
  match s with
  | [] => []
  | c :: s' =>
      match s' with
      | d :: s'' =>
          if is_lead c && is_trail d then point4 (pair_point c d) ++ utf8 s''
          else unit_bytes c ++ utf8 s'
      | [] => unit_bytes c
      end
  end.

(** ** Decoding *)

Definition continues (b : Z) : bool := (128 <=? b) && (b <? 192).

(** The surrogate pair of a code point from 65536 on. *)
Definition pair_units (p : Z) : jsstr := [55296 + (p - 65536) / 1024; 56320 + (p - 65536) mod 1024].

Fixpoint from_utf8 (s : list Z) : option jsstr :=
  match s with
  | [] => Some []
  | b1 :: s1 =>
      if b1 <? 128 then cons b1 <$> from_utf8 s1
      else
        match s1 with
        | [] => None
        | b2 :: s2 =>
            if b1 <? 192 then None
            else if negb (continues b2) then None
            else if b1 <? 224 then cons ((b1 - 192) * 64 + (b2 - 128)) <$> from_utf8 s2
            else
              match s2 with
              | [] => None
              | b3 :: s3 =>
                  if negb (continues b3) then None
                  else if b1 <? 240 then
                    cons ((b1 - 224) * 4096 + (b2 - 128) * 64 + (b3 - 128)) <$> from_utf8 s3
                  else
                    match s3 with
                    | [] => None
                    | b4 :: s4 =>
                        if negb (continues b4) then None
                        else
                          app (pair_units ((b1 - 240) * 262144 + (b2 - 128) * 4096
                                           + (b3 - 128) * 64 + (b4 - 128))) <$> from_utf8 s4
                    end
              end
        end
  end.

(** ** UTF-8 and the ASCII separators *)

(** Every unit from 128 on is encoded in bytes from 128 on. *)
Lemma point4_high c d x : is_lead c && is_trail d = true -> x ∈ point4 (pair_point c d) -> 128 <= x.
Proof.
  unfold is_lead, is_trail, point4. intros Hcd Hx.
  assert (Hp : 0 <= pair_point c d) by (unfold pair_point; lia).
  pose proof (Z.div_pos _ 262144 Hp ltac:(lia)).
  pose proof (Z.mod_pos_bound (pair_point c d) 64 ltac:(lia)).
  pose proof (Z.mod_pos_bound (pair_point c d / 64) 64 ltac:(lia)).
  pose proof (Z.mod_pos_bound (pair_point c d / 4096) 64 ltac:(lia)).
  rewrite !elem_of_cons, elem_of_nil in Hx. lia.
Qed.

Lemma unit_bytes_high c x : x ∈ unit_bytes c -> x < 128 -> unit_bytes c = [c] /\ x = c.
Proof.
  unfold unit_bytes. destruct (Z.ltb_spec c 128).
  - rewrite list_elem_of_singleton. done.
  - intros Hx Hlt. exfalso. pose proof (Z.mod_pos_bound c 64 ltac:(lia)).
    pose proof (Z.mod_pos_bound (c / 64) 64 ltac:(lia)).
    pose proof (Z.div_pos c 64 ltac:(lia) ltac:(lia)). pose proof (Z.div_pos c 4096 ltac:(lia) ltac:(lia)).
    destruct (c <? 2048); unfold point2, point3 in Hx; rewrite !elem_of_cons, elem_of_nil in Hx; lia.
Qed.

Lemma unit_bytes_ascii x : x < 128 -> unit_bytes x = [x].
Proof. intros Hx. unfold unit_bytes. by destruct (Z.ltb_spec x 128); [|lia]. Qed.

(** Recursion as [utf8] does it. *)
Lemma utf8_ind (P : jsstr -> Prop) :
  P [] -> (forall c, P [c]) ->
  (forall c d s, is_lead c && is_trail d = true -> P s -> P (c :: d :: s)) ->
  (forall c d s, is_lead c && is_trail d = false -> P (d :: s) -> P (c :: d :: s)) ->
  forall s, P s.
Proof.
  intros H0 H1 H2 H3 s. induction s as [s IH] using (induction_ltof1 _ (@length Z)). unfold ltof in IH.
  destruct s as [|c [|d s]]; [done..|]. destruct (is_lead c && is_trail d) eqn:E.
  - apply H2; [done|]. apply IH. simpl. lia.
  - apply H3; [done|]. apply IH. simpl. lia.
Qed.

Lemma utf8_pair c d s :
  is_lead c && is_trail d = true -> utf8 (c :: d :: s) = point4 (pair_point c d) ++ utf8 s.
Proof. intros E. simpl. by rewrite E. Qed.

Lemma utf8_unit c d s :
  is_lead c && is_trail d = false -> utf8 (c :: d :: s) = unit_bytes c ++ utf8 (d :: s).
Proof. intros E. simpl. by rewrite E. Qed.

Lemma elem_of_utf8 x s : x < 128 -> x ∈ utf8 s -> x ∈ s.
Proof.
  intros Hx. induction s as [|c|c d s E IH|c d s E IH] using utf8_ind.
  - done.
  - simpl. intros [_ ->]%unit_bytes_high; [by left|done].
  - rewrite utf8_pair by done. intros [Hp|Hs]%elem_of_app; [|set_solver].
    apply point4_high in Hp; [lia|done].
  - rewrite utf8_unit by done. intros [[_ ->]%unit_bytes_high|Hs]%elem_of_app; set_solver.
Qed.

Lemma utf8_app_ascii p x q : x < 128 -> utf8 (p ++ x :: q) = utf8 p ++ x :: utf8 q.
Proof.
  intros Hx.
  assert (Hsep : forall q, utf8 (x :: q) = x :: utf8 q).
  { intros [|d r]; [simpl; by rewrite unit_bytes_ascii|]. rewrite utf8_unit; [by rewrite unit_bytes_ascii|].
    unfold is_lead. lia. }
  induction p as [|c|c d s E IH|c d s E IH] using utf8_ind.
  - apply Hsep.
  - simpl app at 1. rewrite utf8_unit, Hsep; [done|]. unfold is_trail. lia.
  - simpl app at 1. rewrite !utf8_pair by done. by rewrite IH, app_assoc.
  - simpl app at 1 in IH. simpl app at 1. rewrite !utf8_unit by done. by rewrite IH, app_assoc.
Qed.

Lemma utf8_cons_ascii x q : x < 128 -> utf8 (x :: q) = x :: utf8 q.
Proof. exact (utf8_app_ascii [] x q). Qed.

Lemma utf8_join x ps : x < 128 -> utf8 (join x ps) = join x (utf8 <$> ps).
Proof.
  intros Hx. induction ps as [|p ps IH]; [done|]. destruct (decide (ps = [])) as [->|Hn]; [done|].
  rewrite fmap_cons, !join_cons by (by destruct ps). by rewrite utf8_app_ascii, IH.
Qed.

Lemma utf8_free x ps : x < 128 -> Forall (fun p => x ∉ p) ps -> Forall (fun p => x ∉ p) (utf8 <$> ps).
Proof.
  intros Hx Hps. apply Forall_fmap. eapply Forall_impl; [exact Hps|]. intros p Hp Hin.
  by apply Hp, elem_of_utf8.
Qed.

Lemma utf8_split x s : x < 128 -> split x (utf8 s) = utf8 <$> split x s.
Proof.
  intros Hx. rewrite <- (join_split x s) at 1. rewrite utf8_join by done.
  apply split_join; [|by apply utf8_free, split_elems_free].
  pose proof (split_not_nil x s). by destruct (split x s).
Qed.

Lemma utf8_replace_all x y s :
  x < 128 -> y < 128 -> x <> y -> replace_all x y (utf8 s) = utf8 (replace_all x y s).
Proof.
  intros Hx Hy Hxy. rewrite <- (join_split x s). rewrite utf8_join by done.
  rewrite !replace_all_join by (done || (by apply split_elems_free) || (by apply utf8_free, split_elems_free)).
  by rewrite utf8_join.
Qed.

Lemma unit_bytes_not_nil c : unit_bytes c <> [].
Proof. unfold unit_bytes. by destruct (c <? 128), (c <? 2048). Qed.

Lemma utf8_nil s : utf8 s = [] <-> s = [].
Proof.
  split; [|by intros ->]. destruct s as [|c [|d s]]; [done|..]; simpl; intros H; exfalso.
  - by apply (unit_bytes_not_nil c).
  - destruct (is_lead c && is_trail d); [done|]. by apply app_eq_nil in H as [?%unit_bytes_not_nil _].
Qed.

(** ** Round trip *)

Lemma continues_low p : continues (128 + p mod 64) = true.
Proof. unfold continues. pose proof (Z.mod_pos_bound p 64 ltac:(lia)). lia. Qed.

Lemma digits2 p : p / 64 * 64 + p mod 64 = p.
Proof. pose proof (Z.div_mod p 64). lia. Qed.

Lemma digits3 p : p / 4096 * 4096 + p / 64 mod 64 * 64 + p mod 64 = p.
Proof.
  pose proof (digits2 p). pose proof (digits2 (p / 64)) as H2.
  rewrite Z.div_div in H2 by lia. change (64 * 64) with 4096 in H2. lia.
Qed.

Lemma digits4 p : p / 262144 * 262144 + p / 4096 mod 64 * 4096 + p / 64 mod 64 * 64 + p mod 64 = p.
Proof.
  pose proof (digits3 p). pose proof (digits2 (p / 4096)) as H2.
  rewrite Z.div_div in H2 by lia. change (4096 * 64) with 262144 in H2. lia.
Qed.

Lemma from_utf8_unit c s :
  is_unit c = true -> from_utf8 (unit_bytes c ++ s) = cons c <$> from_utf8 s.
Proof.
  unfold is_unit, unit_bytes. intros Hc. destruct (Z.ltb_spec c 128) as [H1|H1].
  { simpl. by destruct (Z.ltb_spec c 128); [|lia]. }
  destruct (Z.ltb_spec c 2048) as [H2|H2]; unfold point2, point3; cbn [app from_utf8];
    rewrite ?continues_low; cbn [negb].
  - assert (2 <= c / 64 < 32) by (split; [apply Z.div_le_lower_bound|apply Z.div_lt_upper_bound]; lia).
    destruct (Z.ltb_spec (192 + c / 64) 128); [lia|]. destruct (Z.ltb_spec (192 + c / 64) 192); [lia|].
    destruct (Z.ltb_spec (192 + c / 64) 224); [|lia].
    replace ((192 + c / 64 - 192) * 64 + (128 + c mod 64 - 128)) with c by (pose proof (digits2 c); lia).
    done.
  - assert (0 <= c / 4096 < 16) by (split; [apply Z.div_pos|apply Z.div_lt_upper_bound]; lia).
    destruct (Z.ltb_spec (224 + c / 4096) 128); [lia|]. destruct (Z.ltb_spec (224 + c / 4096) 192); [lia|].
    destruct (Z.ltb_spec (224 + c / 4096) 224); [lia|]. destruct (Z.ltb_spec (224 + c / 4096) 240); [|lia].
    replace ((224 + c / 4096 - 224) * 4096 + (128 + c / 64 mod 64 - 128) * 64 + (128 + c mod 64 - 128))
      with c by (pose proof (digits3 c); lia).
    done.
Qed.

Lemma pair_units_point c d : is_lead c && is_trail d = true -> pair_units (pair_point c d) = [c; d].
Proof.
  unfold is_lead, is_trail, pair_units, pair_point. intros H.
  replace (65536 + (c - 55296) * 1024 + (d - 56320) - 65536) with (d - 56320 + (c - 55296) * 1024) by lia.
  rewrite Z.div_add, Z.mod_add, Z.div_small, Z.mod_small by lia. f_equal; [lia|f_equal; lia].
Qed.

Lemma from_utf8_pair c d s :
  is_lead c && is_trail d = true ->
  from_utf8 (point4 (pair_point c d) ++ s) = app [c; d] <$> from_utf8 s.
Proof.
  intros H. rewrite <- (pair_units_point c d H). unfold point4. cbn [app from_utf8].
  rewrite !continues_low. cbn [negb]. set (p := pair_point c d).
  assert (65536 <= p) by (subst p; unfold is_lead, is_trail, pair_point in *; lia).
  assert (0 <= p / 262144) by (apply Z.div_pos; lia).
  destruct (Z.ltb_spec (240 + p / 262144) 128); [lia|]. destruct (Z.ltb_spec (240 + p / 262144) 192); [lia|].
  destruct (Z.ltb_spec (240 + p / 262144) 224); [lia|]. destruct (Z.ltb_spec (240 + p / 262144) 240); [lia|].
  replace ((240 + p / 262144 - 240) * 262144 + (128 + p / 4096 mod 64 - 128) * 4096
           + (128 + p / 64 mod 64 - 128) * 64 + (128 + p mod 64 - 128)) with p
    by (pose proof (digits4 p); lia).
  done.
Qed.

Lemma surrogate_unit c d : is_lead c && is_trail d = true -> is_unit c = true /\ is_unit d = true.
Proof. unfold is_lead, is_trail, is_unit. lia. Qed.

Lemma from_utf8_utf8 s : Forall (fun c => is_unit c = true) s -> from_utf8 (utf8 s) = Some s.
Proof.
  induction s as [|c|c d s E IH|c d s E IH] using utf8_ind; intros Hs; [done|..];
    apply Forall_cons in Hs as [Hc Hs].
  - simpl. rewrite <- (app_nil_r (unit_bytes c)). by rewrite from_utf8_unit.
  - apply Forall_cons in Hs as [Hd Hs]. by rewrite utf8_pair, from_utf8_pair, IH.
  - by rewrite utf8_unit, from_utf8_unit, IH.
Qed.

Lemma well_formed_units s : well_formed s = true -> Forall (fun c => is_unit c = true) s.
Proof.
  induction s as [|c|c d s E IH|c d s E IH] using utf8_ind; simpl.
  - constructor.
  - destruct (is_lead c); [done|]. intros [[Hc _]%andb_true_iff _]%andb_true_iff. by constructor.
  - pose proof (surrogate_unit _ _ E). apply andb_true_iff in E as [-> Ht].
    intros [_ Hs]%andb_true_iff. constructor; [tauto|]. constructor; [tauto|]. by apply IH.
  - destruct (is_lead c) eqn:El.
    + simpl in E. by rewrite E.
    + intros [[Hc _]%andb_true_iff Hs]%andb_true_iff. constructor; [done|]. by apply IH.
Qed.

Lemma utf8_round_trip s : well_formed s = true -> from_utf8 (utf8 s) = Some s.
Proof. intros Hs. by apply from_utf8_utf8, well_formed_units. Qed.
