(* ===== verification/Adapter.v ===== *)
(** * The MQTT adapter: state and handlers

    The event handlers of [mqtt/aedes/mqtt.js] as functions on an explicit
    world: the client objects (shared between the handlers and the callbacks
    in flight, hence a store of references), the callbacks waiting for an
    asynchronous reply, the clock, and the trace of what went in and out. *)

From S2P Require Import Prelude JsString JsRegExp Topics Messages.

Local Open Scope Z_scope.

(** ** Data *)

(** The properties of an aedes client object that the handlers touch. *)
Record client := Client {
  c_id : jsval;
  c_thingId : jsval;
  c_password : jsval
}.

Definition new_client (id : jsval) : client := Client id Undefined Undefined.

(** An [Error]: the message and the [responseCode] that [authenticate] adds. *)
Record error := MkError { e_message : jsstr; e_responseCode : option Z }.
Definition newError (msg : jsstr) : error := MkError msg None.

(** A published packet and a subscription, as aedes passes them. *)
Record packet := Packet { p_topic : jsstr; p_payload : list Z }.
Record subscription := Subscription { s_topic : jsstr; s_qos : Z }.

(** The packet object given to [aedes.publish]. *)
Record out_packet := OutPacket {
  op_cmd : jsstr;
  op_qos : Z;
  op_topic : jsstr;
  op_payload : list Z;
  op_retain : bool
}.

(** Reply of a gRPC call ([ThingID.value]) or of a Redis command. *)
Inductive reply := ReplyErr (e : error) | ReplyOk (value : jsstr).

Section Adapter.
Context {C : MessageCodec}.

(** [config.instance_id]. *)
Variable instance_id : jsstr.

(** ** Callbacks in flight *)

(** The closures of the source with the variables they capture.  [cb] stands
    for the continuation aedes passed to the handler. *)
Inductive closure :=
| OnAuthorizePublish (cl : nat) (channelId : jsstr) (mtopic : jsval) (st : list jsstr)
    (contentType : jsstr) (subject : jsstr) (pkt : packet) (cb : nat)
| OnAuthorizeSubscribe (sub : subscription) (cb : nat)
| OnIdentify (cl : nat) (pass : jsstr) (cb : nat)
| OnPublish.

(** What the environment delivers. *)
Inductive event :=
| EvClient (cl : nat) (id : jsval)                 (* aedes creates a client object *)
| EvAuthenticate (cl : nat) (username password : option jsstr) (cb : nat)
| EvPublish (cl : nat) (pkt : packet) (cb : nat)
| EvSubscribe (cl : nat) (sub : subscription) (cb : nat)
| EvDisconnect (cl : nat)
| EvClientError (cl : nat) (e : error)
| EvConnectionError (cl : nat) (e : error)
| EvError (e : error)
| EvRedisError (e : error)
| EvNats (msg : wire)
| EvReply (rid : nat) (r : reply)
| EvTick (now : Z).

Inductive log_arg :=
| LText (fmt : jsstr) (args : list jsval)
| LError (e : error)
| LErrorBytes (w : wire).

(** What the handlers do to the outside. *)
Inductive effect :=
| CallIdentify (rid : nat) (value : jsstr)
| CallCanAccess (rid : nat) (token : jsval) (chanID : jsstr)
| CallXadd (rid : nat) (thing_id : jsval) (timestamp : Z) (event_type instance : jsstr)
| NatsPublish (subject : jsstr) (msg : wire)
| AedesPublish (p : out_packet)
| CbPublish (cb : nat) (err : option error)
| CbSubscribe (cb : nat) (err : option error) (sub : option subscription)
| CbAck (cb : nat) (err : option error) (ok : bool)
| LogWarn (l : log_arg)
| LogInfo (l : log_arg).

Inductive entry := In (ev : event) | Out (e : effect).

Record world := World {
  clients : gmap nat client;
  pending : gmap nat closure;
  next_rpc : nat;
  clock : Z;                     (* milliseconds, what [Date] reads *)
  trace : list entry             (* newest first *)
}.

Definition init_world : world := World ∅ ∅ 0 0 [].

(** ** The handler monad *)

(** A handler runs to completion or throws; what it did before throwing
    stays done. *)
Inductive outcome (A : Type) :=
| Done (a : A) (w : world)
| Thrown (w : world).
#[global] Arguments Done {A}.
#[global] Arguments Thrown {A}.

Definition M (A : Type) : Type := world -> outcome A.

Definition ret {A} (a : A) : M A := fun w => Done a w.
Definition bind {A B} (m : M A) (k : A -> M B) : M B := fun w =>
  match m w with
  | Done a w' => k a w'
  | Thrown w' => Thrown w'
  end.
Definition throw {A} : M A := fun w => Thrown w.

Definition final {A} (o : outcome A) : world :=
  match o with Done _ w => w | Thrown w => w end.

Definition record_entry (x : entry) (w : world) : world :=
  World (clients w) (pending w) (next_rpc w) (clock w) (x :: trace w).

Definition emit (e : effect) : M unit := fun w => Done tt (record_entry (Out e) w).

Definition get_client (cl : nat) : M client := fun w =>
  Done (default (new_client Undefined) (clients w !! cl)) w.

Definition set_client (cl : nat) (c : client) : M unit := fun w =>
  Done tt (World (<[cl := c]> (clients w)) (pending w) (next_rpc w) (clock w) (trace w)).

Definition read_clock : M Z := fun w => Done (clock w) w.

(** Start an asynchronous call: a fresh request id, the effect, the callback. *)
Definition call (mk : nat -> effect) (k : closure) : M unit := fun w =>
  let rid := next_rpc w in
  Done tt (World (clients w) (<[rid := k]> (pending w)) (S rid) (clock w)
             (Out (mk rid) :: trace w)).

End Adapter.

Declare Scope handler_scope.
Delimit Scope handler_scope with handler.
Notation "'let*' x := m 'in' k" := (bind m (fun x => k))
  (at level 10, x name, m at level 100, k at level 200) : handler_scope.
Notation "m ;; k" := (bind m (fun _ => k))
  (at level 100, k at level 200, right associativity) : handler_scope.

Section Handlers.
Context {C : MessageCodec}.
Variable instance_id : jsstr.
Local Open Scope handler_scope.

Definition warn (l : log_arg) : M unit := emit (LogWarn l).

(** [Math.round((new Date()).getTime() / 1000)]: exact on every time value,
    whose quotient by 1000 is never close enough to a half for the rounding of
    the division to matter. *)
Definition seconds (ms : Z) : Z := (ms + 500) / 1000.

Definition publishConnEvent (id : jsval) (type : jsstr) : M unit :=
  let* now := read_clock in
  call (fun rid => CallXadd rid id (seconds now) type instance_id) OnPublish.

Definition onPublish (r : reply) : M unit :=
  match r with
  | ReplyErr e => warn (LText (js "event publish failed: %s") [Str (e_message e)])
  | ReplyOk _ => ret tt
  end.

Definition onAuthorizePublish (cl : nat) (channelId : jsstr) (mtopic : jsval)
    (st : list jsstr) (contentType subject : jsstr) (pkt : packet) (cb : nat)
    (r : reply) : M unit :=
  match r with
  | ReplyOk _ =>
      let* c := get_client cl in
      let msg := encode {|
        mo_publisher := c_thingId c;
        mo_devname := c_id c;
        mo_channel := channelId;
        mo_topic := mtopic;
        mo_subtopic := join DOT st;
        mo_contentType := contentType;
        mo_protocol := js "mqtt";
        mo_payload := p_payload pkt |} in
      warn (LErrorBytes msg) ;;
      emit (NatsPublish subject msg) ;;
      emit (CbPublish cb None)
  | ReplyErr e =>
      warn (LText (js "unauthorized publish: %s") [Str (e_message e)]) ;;
      emit (CbPublish cb (Some e))
  end.

Definition authorizePublish (cl : nat) (pkt : packet) (cb : nat) : M unit :=
  match parseTopic (p_topic pkt) with
  | None =>
      let err := newError (js "unknown topic") in
      warn (LError err) ;;
      emit (CbPublish cb (Some err))
  | Some channel =>
      let* c := get_client cl in
      let channelId := default [] (mjoin (channel !! 1%nat)) in
      let elements := subtopic_elements (p_topic pkt) in
      if existsb invalid_element elements then
        let err := newError (js "invalid subtopic") in
        warn (LError err) ;;
        emit (CbPublish cb (Some err))
      else
        let contentType := fst (split_content_type elements) in
        let st := snd (split_content_type elements) in
        call (fun rid => CallCanAccess rid (c_password c) channelId)
          (OnAuthorizePublish cl channelId (of_option (msgtopic (p_topic pkt))) st
             contentType (channelTopic channelId st) pkt cb)
  end.

Definition onAuthorizeSubscribe (sub : subscription) (cb : nat) (r : reply) : M unit :=
  match r with
  | ReplyOk _ => emit (CbSubscribe cb None (Some sub))
  | ReplyErr e =>
      warn (LText (js "unauthorized subscribe: %s") [Str (e_message e)]) ;;
      emit (CbSubscribe cb (Some e) None)
  end.

Definition authorizeSubscribe (cl : nat) (sub : subscription) (cb : nat) : M unit :=
  match parseTopic (s_topic sub) with
  | None =>
      warn (LText (js "unknown topic") []) ;;
      emit (CbSubscribe cb (Some (newError (js "unknown topic"))) None)
  | Some channel =>
      let* c := get_client cl in
      let channelId := default [] (mjoin (channel !! 1%nat)) in
      call (fun rid => CallCanAccess rid (c_password c) channelId)
        (OnAuthorizeSubscribe sub cb)
  end.

Definition onIdentify (cl : nat) (pass : jsstr) (cb : nat) (r : reply) : M unit :=
  match r with
  | ReplyOk value =>
      let* c := get_client cl in
      let thingId := Str value in
      set_client cl (Client (js_or (c_id c) thingId) thingId (Str pass)) ;;
      emit (CbAck cb None true) ;;
      publishConnEvent thingId (js "connect")
  | ReplyErr e =>
      warn (LText (js "failed to authenticate client with key %s") [Str pass]) ;;
      emit (CbAck cb (Some (MkError (e_message e) (Some 4))) false)
  end.

Definition authenticate (cl : nat) (username password : option jsstr) (cb : nat) : M unit :=
  let pass := default [] password in
  call (fun rid => CallIdentify rid pass) (OnIdentify cl pass cb).

Definition clientDisconnect (cl : nat) : M unit :=
  let* c := get_client cl in
  emit (LogInfo (LText (js "disconnect client %s") [c_id c])) ;;
  set_client cl (Client (c_id c) (c_thingId c) Null) ;;
  publishConnEvent (c_thingId c) (js "disconnect").

Definition clientError (cl : nat) (e : error) : M unit :=
  let* c := get_client cl in
  warn (LText (js "client error: client: %s, error: %s") [c_id c; Str (e_message e)]).

Definition connectionError (cl : nat) (e : error) : M unit :=
  let* c := get_client cl in
  warn (LText (js "connection error: client: %s, error: %s") [c_id c; Str (e_message e)]).

Definition aedesError (e : error) : M unit :=
  warn (LText (js "aedes error: %s") [Str (e_message e)]).

Definition redisError (e : error) : M unit :=
  warn (LText (js "error on redis connection: %s") [Str (e_message e)]).

(** The subscriber of [channel.>]. *)
Definition onNatsMessage (msg : wire) : M unit :=
  match decode msg with
  | None => throw
  | Some m =>
      if bool_decide (m_protocol m <> js "mqtt") then
        emit (AedesPublish {|
          op_cmd := js "publish";
          op_qos := 2;
          op_topic := outbound_topic (m_channel m) (m_subtopic m) (m_contentType m);
          op_payload := m_payload m;
          op_retain := false |})
      else ret tt
  end.

(** A reply runs its callback, once. *)
Definition run_closure (k : closure) (r : reply) : M unit :=
  match k with
  | OnAuthorizePublish cl channelId mtopic st ct subject pkt cb =>
      onAuthorizePublish cl channelId mtopic st ct subject pkt cb r
  | OnAuthorizeSubscribe sub cb => onAuthorizeSubscribe sub cb r
  | OnIdentify cl pass cb => onIdentify cl pass cb r
  | OnPublish => onPublish r
  end.

Definition onReply (rid : nat) (r : reply) : M unit := fun w =>
  match pending w !! rid with
  | None => Done tt w
  | Some k =>
      run_closure k r
        (World (clients w) (delete rid (pending w)) (next_rpc w) (clock w) (trace w))
  end.

Definition dispatch (ev : event) : M unit :=
  match ev with
  | EvClient cl id => set_client cl (new_client id)
  | EvAuthenticate cl username password cb => authenticate cl username password cb
  | EvPublish cl pkt cb => authorizePublish cl pkt cb
  | EvSubscribe cl sub cb => authorizeSubscribe cl sub cb
  | EvDisconnect cl => clientDisconnect cl
  | EvClientError cl e => clientError cl e
  | EvConnectionError cl e => connectionError cl e
  | EvError e => aedesError e
  | EvRedisError e => redisError e
  | EvNats msg => onNatsMessage msg
  | EvReply rid r => onReply rid r
  | EvTick now => fun w =>
      Done tt (World (clients w) (pending w) (next_rpc w) now (trace w))
  end.

(** The event is recorded, then handled. *)
Definition handle (ev : event) (w : world) : outcome unit :=
  dispatch ev (record_entry (In ev) w).

End Handlers.
