(* ===== verification/AdapterSystem.v ===== *)
(** * The MQTT adapter as a transition system

    aedes, NATS, gRPC and Redis deliver events one at a time (JavaScript runs
    each handler to completion); [step] delivers one event the environment may
    deliver, [reachable] closes it from the start-up world.  [transition]
    states, one constructor per branch of the handlers, what a step does; the
    handlers refine it, and the invariants are proved on it by rule
    induction. *)

From S2P Require Import Prelude JsString JsRegExp Topics Messages Adapter.

Local Open Scope Z_scope.

Section System.
Context {C : MessageCodec}.
Variable instance_id : jsstr.

(** ** Requests and answers *)

(** The continuation an event brings along. *)
Definition request_of (x : entry) : list nat :=
  match x with
  | In (EvAuthenticate _ _ _ cb) | In (EvPublish _ _ cb) | In (EvSubscribe _ _ cb) => [cb]
  | _ => []
  end.

(** The continuation an effect calls. *)
Definition answer_of (x : entry) : list nat :=
  match x with
  | Out (CbPublish cb _) | Out (CbSubscribe cb _ _) | Out (CbAck cb _ _) => [cb]
  | _ => []
  end.

Definition requests (t : list entry) : list nat := t ≫= request_of.
Definition answers (t : list entry) : list nat := t ≫= answer_of.

(** The continuation a callback in flight will call. *)
Definition awaited_by (k : closure) : list nat :=
  match k with
  | OnAuthorizePublish _ _ _ _ _ _ _ cb | OnAuthorizeSubscribe _ cb | OnIdentify _ _ cb => [cb]
  | OnPublish => []
  end.

Definition awaited (p : gmap nat closure) : list nat :=
  map_to_list p ≫= fun x => awaited_by (snd x).

(** ** Steps *)

(** What the environment may deliver: handlers are called with client objects
    that exist and with fresh continuations; a reply belongs to a call in
    flight. *)
Definition ok_event (w : world) (ev : event) : Prop :=
  match ev with
  | EvClient cl _ => clients w !! cl = None
  | EvAuthenticate cl _ _ cb | EvPublish cl _ cb | EvSubscribe cl _ cb =>
      is_Some (clients w !! cl) /\ (cb ∉ requests (trace w))
  | EvDisconnect cl | EvClientError cl _ | EvConnectionError cl _ => is_Some (clients w !! cl)
  | EvReply rid _ => is_Some (pending w !! rid)
  | EvError _ | EvRedisError _ | EvNats _ | EvTick _ => True
  end.

Definition step (w : world) (ev : event) (w' : world) : Prop :=
  ok_event w ev /\ w' = final (handle instance_id ev w).

Inductive reachable : world -> Prop :=
| reach_init : reachable init_world
| reach_step w ev w' : reachable w -> step w ev w' -> reachable w'.

(** ** The branches of the handlers *)

(** The world after [es] (newest first) went out in response to [ev]. *)
Definition react (w : world) (ev : event) (es : list effect) : world :=
  World (clients w) (pending w) (next_rpc w) (clock w) ((Out <$> es) ++ In ev :: trace w).

(** The same, with a new call whose callback is [k]; the call is the last
    effect. *)
Definition start_call (w : world) (mk : nat -> effect) (k : closure) : world :=
  World (clients w) (<[next_rpc w := k]> (pending w)) (S (next_rpc w)) (clock w)
    (Out (mk (next_rpc w)) :: trace w).

(** The same, with the call [rid] answered. *)
Definition finish_call (w : world) (rid : nat) : world :=
  World (clients w) (delete rid (pending w)) (next_rpc w) (clock w) (trace w).

Definition with_client (w : world) (cl : nat) (c : client) : world :=
  World (<[cl := c]> (clients w)) (pending w) (next_rpc w) (clock w) (trace w).

Definition conn_event (w : world) (thing : jsval) (type : jsstr) : world :=
  start_call w (fun rid => CallXadd rid thing (seconds (clock w)) type instance_id) OnPublish.

Definition the_client (w : world) (cl : nat) : client :=
  default (new_client Undefined) (clients w !! cl).

(** The object [authorizePublish] encodes once access is granted. *)
Definition published_obj (c : client) (channelId : jsstr) (mtopic : jsval)
    (st : list jsstr) (contentType : jsstr) (pkt : packet) : msg_obj := {|
  mo_publisher := c_thingId c;
  mo_devname := c_id c;
  mo_channel := channelId;
  mo_topic := mtopic;
  mo_subtopic := join DOT st;
  mo_contentType := contentType;
  mo_protocol := js "mqtt";
  mo_payload := p_payload pkt
|}.

Definition elements_rejected (topic : jsstr) : bool :=
  existsb invalid_element (subtopic_elements topic).

Definition pub_closure (cl : nat) (ch : jsstr) (pkt : packet) (cb : nat) : closure :=
  let split := split_content_type (subtopic_elements (p_topic pkt)) in
  OnAuthorizePublish cl ch (of_option (msgtopic (p_topic pkt))) (snd split) (fst split)
    (channelTopic ch (snd split)) pkt cb.

(** The line logged for an error event. *)
Definition error_log (w : world) (ev : event) : option log_arg :=
  match ev with
  | EvClientError cl e =>
      Some (LText (js "client error: client: %s, error: %s")
              [c_id (the_client w cl); Str (e_message e)])
  | EvConnectionError cl e =>
      Some (LText (js "connection error: client: %s, error: %s")
              [c_id (the_client w cl); Str (e_message e)])
  | EvError e => Some (LText (js "aedes error: %s") [Str (e_message e)])
  | EvRedisError e => Some (LText (js "error on redis connection: %s") [Str (e_message e)])
  | _ => None
  end.

Inductive transition (w : world) : event -> world -> Prop :=
| tr_client cl id :
    transition w (EvClient cl id) (with_client (react w (EvClient cl id) []) cl (new_client id))
| tr_authenticate cl u p cb :
    let ev := EvAuthenticate cl u p cb in
    transition w ev (start_call (react w ev []) (fun rid => CallIdentify rid (default [] p))
                       (OnIdentify cl (default [] p) cb))
| tr_publish_bad cl pkt cb e :
    let ev := EvPublish cl pkt cb in
    (channel_of (p_topic pkt) = None /\ e = newError (js "unknown topic")) \/
    (is_Some (channel_of (p_topic pkt)) /\ elements_rejected (p_topic pkt) = true /\
     e = newError (js "invalid subtopic")) ->
    transition w ev (react w ev [CbPublish cb (Some e); LogWarn (LError e)])
| tr_publish cl pkt cb ch :
    let ev := EvPublish cl pkt cb in
    channel_of (p_topic pkt) = Some ch -> elements_rejected (p_topic pkt) = false ->
    transition w ev (start_call (react w ev [])
      (fun rid => CallCanAccess rid (c_password (the_client w cl)) ch) (pub_closure cl ch pkt cb))
| tr_subscribe_bad cl sub cb :
    let ev := EvSubscribe cl sub cb in
    channel_of (s_topic sub) = None ->
    transition w ev (react w ev [CbSubscribe cb (Some (newError (js "unknown topic"))) None;
                                 LogWarn (LText (js "unknown topic") [])])
| tr_subscribe cl sub cb ch :
    let ev := EvSubscribe cl sub cb in
    channel_of (s_topic sub) = Some ch ->
    transition w ev (start_call (react w ev [])
      (fun rid => CallCanAccess rid (c_password (the_client w cl)) ch) (OnAuthorizeSubscribe sub cb))
| tr_disconnect cl :
    let ev := EvDisconnect cl in let c := the_client w cl in
    transition w ev
      (conn_event (with_client
         (react w ev [LogInfo (LText (js "disconnect client %s") [c_id c])])
         cl (Client (c_id c) (c_thingId c) Null)) (c_thingId c) (js "disconnect"))
| tr_logged ev l :
    error_log w ev = Some l ->
    transition w ev (react w ev [LogWarn l])
| tr_nats_forward m msg :
    decode msg = Some m -> m_protocol m <> js "mqtt" ->
    transition w (EvNats msg) (react w (EvNats msg) [AedesPublish {|
      op_cmd := js "publish"; op_qos := 2;
      op_topic := outbound_topic (m_channel m) (m_subtopic m) (m_contentType m);
      op_payload := m_payload m; op_retain := false |}])
| tr_nats_drop msg :
    decode msg = None \/ (exists m, decode msg = Some m /\ m_protocol m = js "mqtt") ->
    transition w (EvNats msg) (react w (EvNats msg) [])
| tr_reply_publish_ok rid v cl ch mt st ct subject pkt cb :
    let ev := EvReply rid (ReplyOk v) in
    let msg := encode (published_obj (the_client w cl) ch mt st ct pkt) in
    pending w !! rid = Some (OnAuthorizePublish cl ch mt st ct subject pkt cb) ->
    transition w ev (finish_call
      (react w ev [CbPublish cb None; NatsPublish subject msg; LogWarn (LErrorBytes msg)]) rid)
| tr_reply_publish_err rid e cl ch mt st ct subject pkt cb :
    let ev := EvReply rid (ReplyErr e) in
    pending w !! rid = Some (OnAuthorizePublish cl ch mt st ct subject pkt cb) ->
    transition w ev (finish_call
      (react w ev [CbPublish cb (Some e);
                   LogWarn (LText (js "unauthorized publish: %s") [Str (e_message e)])]) rid)
| tr_reply_subscribe_ok rid v sub cb :
    let ev := EvReply rid (ReplyOk v) in
    pending w !! rid = Some (OnAuthorizeSubscribe sub cb) ->
    transition w ev (finish_call (react w ev [CbSubscribe cb None (Some sub)]) rid)
| tr_reply_subscribe_err rid e sub cb :
    let ev := EvReply rid (ReplyErr e) in
    pending w !! rid = Some (OnAuthorizeSubscribe sub cb) ->
    transition w ev (finish_call
      (react w ev [CbSubscribe cb (Some e) None;
                   LogWarn (LText (js "unauthorized subscribe: %s") [Str (e_message e)])]) rid)
| tr_reply_identify_ok rid v cl pass cb :
    let ev := EvReply rid (ReplyOk v) in let c := the_client w cl in
    pending w !! rid = Some (OnIdentify cl pass cb) ->
    transition w ev
      (conn_event (with_client (finish_call (react w ev [CbAck cb None true]) rid)
         cl (Client (js_or (c_id c) (Str v)) (Str v) (Str pass))) (Str v) (js "connect"))
| tr_reply_identify_err rid e cl pass cb :
    let ev := EvReply rid (ReplyErr e) in
    pending w !! rid = Some (OnIdentify cl pass cb) ->
    transition w ev (finish_call
      (react w ev [CbAck cb (Some (MkError (e_message e) (Some 4))) false;
                   LogWarn (LText (js "failed to authenticate client with key %s") [Str pass])]) rid)
| tr_reply_event_ok rid v :
    let ev := EvReply rid (ReplyOk v) in
    pending w !! rid = Some OnPublish ->
    transition w ev (finish_call (react w ev []) rid)
| tr_reply_event_err rid e :
    let ev := EvReply rid (ReplyErr e) in
    pending w !! rid = Some OnPublish ->
    transition w ev (finish_call
      (react w ev [LogWarn (LText (js "event publish failed: %s") [Str (e_message e)])]) rid)
| tr_tick now :
    transition w (EvTick now)
      (World (clients w) (pending w) (next_rpc w) now (In (EvTick now) :: trace w)).

(** ** The handlers refine the transitions *)

Lemma parseTopic_channel topic :
  match parseTopic topic with
  | Some channel => channel_of topic = Some (default [] (mjoin (channel !! 1%nat)))
  | None => channel_of topic = None
  end.
Proof.
  unfold channel_of. rewrite parseTopic_match.
  destruct (topic_match (js "control") topic) as [m|] eqn:E; simpl.
  - apply topic_match_iff in E as (_ & id & rest & _ & _ & -> & _). done.
  - destruct (topic_match (js "messages") topic) as [m|] eqn:E'; simpl; [|done].
    apply topic_match_iff in E' as (_ & id & rest & _ & _ & -> & _). done.
Qed.

Lemma handle_transition w ev :
  ok_event w ev -> transition w ev (final (handle instance_id ev w)).
Proof.
  destruct ev as [cl id|cl u p cb|cl pkt cb|cl sub cb|cl|cl e|cl e|e|e|msg|rid r|now];
    intros Hok; unfold handle.
  - apply (tr_client w cl id).
  - apply (tr_authenticate w cl u p cb).
  - cbn [dispatch]. unfold authorizePublish.
    pose proof (parseTopic_channel (p_topic pkt)) as Hch.
    destruct (parseTopic (p_topic pkt)) as [channel|].
    + cbv beta iota zeta delta [bind get_client].
      change (existsb invalid_element (subtopic_elements (p_topic pkt)))
        with (elements_rejected (p_topic pkt)).
      destruct (elements_rejected (p_topic pkt)) eqn:Hel.
      * apply (tr_publish_bad w cl pkt cb (newError (js "invalid subtopic"))). right. eauto.
      * by apply (tr_publish w cl pkt cb).
    + apply (tr_publish_bad w cl pkt cb (newError (js "unknown topic"))). auto.
  - cbn [dispatch]. unfold authorizeSubscribe.
    pose proof (parseTopic_channel (s_topic sub)) as Hch.
    destruct (parseTopic (s_topic sub)) as [channel|].
    + by apply (tr_subscribe w cl sub cb).
    + by apply (tr_subscribe_bad w cl sub cb).
  - apply (tr_disconnect w cl).
  - by apply (tr_logged w (EvClientError cl e)).
  - by apply (tr_logged w (EvConnectionError cl e)).
  - by apply (tr_logged w (EvError e)).
  - by apply (tr_logged w (EvRedisError e)).
  - cbn [dispatch]. unfold onNatsMessage. destruct (decode msg) as [m|] eqn:Hd.
    + case_bool_decide as Hp.
      * by apply (tr_nats_forward w m).
      * apply (tr_nats_drop w msg). right. exists m. split; [done|].
        destruct (decide (m_protocol m = js "mqtt")); done.
    + apply (tr_nats_drop w msg). by left.
  - cbn [dispatch]. unfold onReply. destruct Hok as [k Hk].
    cbn [pending record_entry]. rewrite Hk.
    destruct k as [cl ch mt st ct subject pkt cb|sub cb|cl pass cb|], r as [e|v]; cbn [run_closure].
    + by apply (tr_reply_publish_err w rid e cl ch mt st ct subject pkt cb).
    + by apply (tr_reply_publish_ok w rid v cl ch mt st ct subject pkt cb).
    + by apply (tr_reply_subscribe_err w rid e sub cb).
    + by apply (tr_reply_subscribe_ok w rid v sub cb).
    + by apply (tr_reply_identify_err w rid e cl pass cb).
    + by apply (tr_reply_identify_ok w rid v cl pass cb).
    + by apply (tr_reply_event_err w rid e).
    + by apply (tr_reply_event_ok w rid v).
  - apply (tr_tick w now).
Qed.

(** The branches exclude each other. *)
Lemma transition_functional w ev w1 w2 :
  transition w ev w1 -> transition w ev w2 -> w1 = w2.
Proof.
  intros H1 H2. destruct ev; inversion H1; inversion H2; subst; simplify_eq/=; try done;
    repeat match goal with
    | x := _ : event |- _ => subst x
    | x := _ : wire |- _ => subst x
    | H : _ \/ _ |- _ => destruct H
    | H : is_Some _ |- _ => destruct H
    | H : exists _, _ |- _ => destruct H
    | H : _ /\ _ |- _ => destruct H
    end; congruence.
Qed.

(** ** Executable runs *)

#[global] Instance ok_event_dec w ev : Decision (ok_event w ev).
Proof. destruct ev; apply _. Defined.

(** Deliver events in order; [None] if one of them may not be delivered. *)
Fixpoint run (w : world) (evs : list event) : option world :=
  match evs with
  | [] => Some w
  | ev :: evs' =>
      if decide (ok_event w ev) then run (final (handle instance_id ev w)) evs' else None
  end.

Lemma run_reachable w evs w' : reachable w -> run w evs = Some w' -> reachable w'.
Proof.
  revert w. induction evs as [|ev evs IH]; intros w Hr; simpl; [by intros [= <-]|].
  destruct (decide (ok_event w ev)) as [Hok|]; [|done]. apply IH.
  by eapply reach_step.
Qed.

End System.
