(* ===== verification/AdapterSafety.v ===== *)
(** * Safety of the MQTT adapter

    Invariants of every reachable world: requests are answered at most once,
    calls are unique, and every outward effect that opens something (a message
    on NATS, a granted subscription, an accepted connection, a connect event,
    an access request in a client's name) has its justification earlier in the
    trace. *)

From S2P Require Import Prelude JsString JsRegExp Topics Messages Adapter AdapterSystem.

Local Open Scope Z_scope.

(** ** Tactics for transitions *)

(** Reduce a goal about the world after a transition to its fields. *)
Ltac world_simpl :=
  cbn [react start_call finish_call with_client conn_event
       clients pending next_rpc clock trace fmap list_fmap app] in *.

Ltac in_trace := world_simpl; rewrite ?elem_of_cons; eauto 12.

(** Case analysis on the branch taken. *)
Ltac branches H :=
  inversion H; subst;
  repeat match goal with ev := _ : event |- _ => subst ev end;
  repeat match goal with c := _ : client |- _ => subst c end;
  repeat match goal with m := _ : wire |- _ => subst m end.

Section Safety.
Context {C : MessageCodec}.
Variable instance_id : jsstr.

Local Abbreviation reachable := (reachable instance_id).
Local Abbreviation transition := (transition instance_id).

(** ** Trace predicates *)

(** Request ids of the calls made and of the replies received. *)
Definition call_of (x : entry) : list nat :=
  match x with
  | Out (CallIdentify rid _) | Out (CallCanAccess rid _ _) | Out (CallXadd rid _ _ _ _) => [rid]
  | _ => []
  end.
Definition reply_of (x : entry) : list nat :=
  match x with In (EvReply rid _) => [rid] | _ => [] end.

Definition calls (t : list entry) : list nat := t ≫= call_of.
Definition replies (t : list entry) : list nat := t ≫= reply_of.

(** The Things service granted [ch] to the holder of [token]. *)
Definition granted (t : list entry) (token : jsval) (ch : jsstr) : Prop :=
  exists rid v, Out (CallCanAccess rid token ch) ∈ t /\ In (EvReply rid (ReplyOk v)) ∈ t.

(** The Things service identified the key [p] as thing [v]. *)
Definition identified (t : list entry) (p v : jsstr) : Prop :=
  exists rid, Out (CallIdentify rid p) ∈ t /\ In (EvReply rid (ReplyOk v)) ∈ t.

(** What the trace says about a client object: its password was identified as
    its thing, and its thing id came from an identification. *)
Definition client_ok (t : list entry) (c : client) : Prop :=
  (forall p, c_password c = Str p -> exists v, c_thingId c = Str v /\ identified t p v) /\
  (forall v, c_thingId c = Str v -> exists p, identified t p v).

(** Every effect of the trace satisfies [P] of what came before it. *)
Fixpoint justified (P : list entry -> effect -> Prop) (t : list entry) : Prop :=
  match t with
  | [] => True
  | Out e :: t' => P t' e /\ justified P t'
  | In _ :: t' => justified P t'
  end.

(** What must precede an effect. *)
Definition justification (t : list entry) (e : effect) : Prop :=
  match e with
  | NatsPublish subject msg =>
      exists cl pkt cb ch token c,
        In (EvPublish cl pkt cb) ∈ t /\ channel_of (p_topic pkt) = Some ch /\
        elements_rejected (p_topic pkt) = false /\ granted t token ch /\ client_ok t c /\
        let '(ct, st) := split_content_type (subtopic_elements (p_topic pkt)) in
        subject = channelTopic ch st /\
        msg = encode (published_obj c ch (of_option (msgtopic (p_topic pkt))) st ct pkt)
  | CbPublish cb None =>
      exists cl pkt ch token,
        In (EvPublish cl pkt cb) ∈ t /\ channel_of (p_topic pkt) = Some ch /\ granted t token ch
  | CbSubscribe cb None (Some sub) =>
      exists cl ch token,
        In (EvSubscribe cl sub cb) ∈ t /\ channel_of (s_topic sub) = Some ch /\ granted t token ch
  | CbAck cb None ok =>
      ok = true /\ exists cl u p v,
        In (EvAuthenticate cl u p cb) ∈ t /\ identified t (default [] p) v
  | CallCanAccess _ (Str p) _ => exists v, identified t p v
  | CallXadd _ thing _ type _ =>
      type = js "disconnect" \/
      (type = js "connect" /\ exists v p cb,
         thing = Str v /\ identified t p v /\ head t = Some (Out (CbAck cb None true)))
  | _ => True
  end.

(** What the trace says about a callback in flight. *)
Definition called (k : closure) (rid : nat) (t : list entry) : Prop :=
  match k with
  | OnAuthorizePublish cl ch mt st ct subject pkt cb =>
      k = pub_closure cl ch pkt cb /\ channel_of (p_topic pkt) = Some ch /\
      elements_rejected (p_topic pkt) = false /\ In (EvPublish cl pkt cb) ∈ t /\
      exists token, Out (CallCanAccess rid token ch) ∈ t
  | OnAuthorizeSubscribe sub cb =>
      exists cl ch token, channel_of (s_topic sub) = Some ch /\
        In (EvSubscribe cl sub cb) ∈ t /\ Out (CallCanAccess rid token ch) ∈ t
  | OnIdentify cl pass cb =>
      Out (CallIdentify rid pass) ∈ t /\
      exists u p, pass = default [] p /\ In (EvAuthenticate cl u p cb) ∈ t
  | OnPublish => True
  end.

(** ** Rule induction *)

Lemma reachable_transition_ind (P : world -> Prop) :
  P init_world ->
  (forall w ev w', reachable w -> P w -> ok_event w ev -> transition w ev w' -> P w') ->
  forall w, reachable w -> P w.
Proof.
  intros H0 Hs w Hr. induction Hr as [|w ev w' Hr IH Hst]; [done|].
  destruct Hst as [Hok ->]. eapply Hs; eauto using handle_transition.
Qed.

(** ** Growth of the trace *)

Lemma transition_grows w ev w' :
  transition w ev w' -> exists es, trace w' = (Out <$> es) ++ In ev :: trace w.
Proof.
  intros Htr. branches Htr; world_simpl;
    first [by exists [] | by eexists [_] | by eexists [_; _] | by eexists [_; _; _]].
Qed.

Lemma transition_trace_incl w ev w' :
  transition w ev w' -> trace w ⊆ trace w'.
Proof.
  intros [es ->]%transition_grows x Hx. apply elem_of_app. right. by right.
Qed.

Lemma granted_mono t t' token ch : t ⊆ t' -> granted t token ch -> granted t' token ch.
Proof. intros Ht (rid & v & H1 & H2). exists rid, v. auto. Qed.

Lemma identified_mono t t' p v : t ⊆ t' -> identified t p v -> identified t' p v.
Proof. intros Ht (rid & H1 & H2). exists rid. auto. Qed.

Lemma client_ok_mono t t' c : t ⊆ t' -> client_ok t c -> client_ok t' c.
Proof.
  intros Ht [H1 H2]. split.
  - intros p Hp. destruct (H1 p Hp) as (v & Hv & Hi). eauto using identified_mono.
  - intros v Hv. destruct (H2 v Hv) as (p & Hi). eauto using identified_mono.
Qed.

Lemma called_mono k rid t t' : t ⊆ t' -> called k rid t -> called k rid t'.
Proof.
  intros Ht. destruct k; simpl; [|naive_solver..].
  intros (?&?&?&?&token&?). split_and!; [auto..|]. exists token. auto.
Qed.

(** ** Identifiers of calls *)

Record ids_ok (w : world) : Prop := {
  ids_pending : forall rid k, pending w !! rid = Some k ->
    (rid < next_rpc w)%nat /\ rid ∈ calls (trace w) /\ rid ∉ replies (trace w);
  ids_calls : forall rid, rid ∈ calls (trace w) -> (rid < next_rpc w)%nat;
  ids_replies : forall rid, rid ∈ replies (trace w) -> rid ∈ calls (trace w);
  ids_calls_nodup : NoDup (calls (trace w));
  ids_replies_nodup : NoDup (replies (trace w))
}.

Lemma calls_app t1 t2 : calls (t1 ++ t2) = calls t1 ++ calls t2.
Proof. apply bind_app. Qed.
Lemma replies_app t1 t2 : replies (t1 ++ t2) = replies t1 ++ replies t2.
Proof. apply bind_app. Qed.
Lemma replies_out es : replies (Out <$> es) = [].
Proof. induction es as [|e es IH]; [done|]. exact IH. Qed.

Lemma calls_react w ev es :
  calls (Out <$> es) = [] -> calls (trace (react w ev es)) = calls (trace w).
Proof. intros He. world_simpl. by rewrite calls_app, He. Qed.
Lemma replies_react w ev es :
  replies (trace (react w ev es)) = reply_of (In ev) ++ replies (trace w).
Proof. world_simpl. by rewrite replies_app, replies_out. Qed.

Lemma ids_init : ids_ok init_world.
Proof. split; simpl; first [done | constructor | set_solver]. Qed.

Lemma ids_react w ev es :
  ids_ok w -> calls (Out <$> es) = [] -> reply_of (In ev) = [] -> ids_ok (react w ev es).
Proof.
  intros [H1 H2 H3 H4 H5] He Hr.
  split; rewrite ?calls_react, ?replies_react, ?Hr by done; auto.
Qed.

Lemma ids_finish w rid r es :
  ids_ok w -> is_Some (pending w !! rid) -> calls (Out <$> es) = [] ->
  ids_ok (finish_call (react w (EvReply rid r) es) rid).
Proof.
  intros [H1 H2 H3 H4 H5] [k0 Hk0] He. destruct (H1 _ _ Hk0) as (Hlt & Hc & Hn).
  assert (Hcalls : calls (trace (finish_call (react w (EvReply rid r) es) rid)) = calls (trace w))
    by (by apply calls_react).
  assert (Hreplies : replies (trace (finish_call (react w (EvReply rid r) es) rid)) = rid :: replies (trace w))
    by (by apply replies_react).
  split; rewrite ?Hcalls, ?Hreplies.
  - intros rid' k Hk. cbn [pending finish_call react] in Hk.
    apply lookup_delete_Some in Hk as [Hne Hk].
    rewrite not_elem_of_cons. destruct (H1 _ _ Hk) as (?&?&?). auto.
  - done.
  - intros rid' [->|?]%elem_of_cons; auto.
  - done.
  - by constructor.
Qed.

Lemma ids_client w cl c : ids_ok w -> ids_ok (with_client w cl c).
Proof. by intros [H1 H2 H3 H4 H5]. Qed.

Lemma ids_start w mk k :
  ids_ok w -> call_of (Out (mk (next_rpc w))) = [next_rpc w] -> ids_ok (start_call w mk k).
Proof.
  intros [H1 H2 H3 H4 H5] Hmk.
  assert (Hcalls : calls (trace (start_call w mk k)) = next_rpc w :: calls (trace w)).
  { change (calls (trace (start_call w mk k)))
      with (call_of (Out (mk (next_rpc w))) ++ calls (trace w)). by rewrite Hmk. }
  assert (Hreplies : replies (trace (start_call w mk k)) = replies (trace w)) by done.
  assert (Hfresh : next_rpc w ∉ calls (trace w)) by (intros ?%H2; lia).
  split; rewrite ?Hcalls, ?Hreplies.
  - intros rid' k'. rewrite elem_of_cons. world_simpl.
    intros [[<- _]|[Hne Hk]]%lookup_insert_Some.
    + split_and!; [lia|by left|]. intros ?%H3. done.
    + destruct (H1 _ _ Hk) as (?&?&?). split_and!; [lia|by right|done].
  - world_simpl. intros rid' [->|?%H2]%elem_of_cons; lia.
  - intros rid' ?%H3. by right.
  - by constructor.
  - done.
Qed.

Lemma ids_transition w ev w' : ids_ok w -> transition w ev w' -> ids_ok w'.
Proof.
  intros Hw Htr. branches Htr; unfold conn_event;
    repeat first [apply ids_start; [|done] | apply ids_client];
    first [ by apply ids_react | by apply ids_finish; [|eexists|] | idtac ].
  - destruct ev; try done; by apply ids_react.
  - by destruct (ids_react w (EvTick now) [] Hw eq_refl eq_refl).
Qed.

Lemma ids_reachable w : reachable w -> ids_ok w.
Proof. apply (reachable_transition_ind ids_ok); eauto using ids_init, ids_transition. Qed.

(** ** Justifications *)

Record just_ok (w : world) : Prop := {
  just_pending : forall rid k, pending w !! rid = Some k -> called k rid (trace w);
  just_clients : forall cl c, clients w !! cl = Some c -> client_ok (trace w) c;
  just_trace : justified justification (trace w)
}.

Lemma just_init : just_ok init_world.
Proof. split; simpl; done. Qed.

Lemma just_react w ev es :
  just_ok w -> justified justification ((Out <$> es) ++ In ev :: trace w) ->
  just_ok (react w ev es).
Proof.
  intros [H1 H2 H3] Hj. assert (trace w ⊆ trace (react w ev es)) as Hincl.
  { intros x Hx. world_simpl. apply elem_of_app. right. by right. }
  split; [|intros cl c Hc|done].
  - intros rid k Hk. eapply called_mono; [exact Hincl|by apply H1].
  - eapply client_ok_mono; [exact Hincl|by eapply H2].
Qed.

Lemma just_finish w rid : just_ok w -> just_ok (finish_call w rid).
Proof.
  intros [H1 H2 H3]. split; world_simpl; [|done..].
  intros rid' k [_ Hk]%lookup_delete_Some. by apply H1.
Qed.

Lemma just_client w cl c :
  just_ok w -> client_ok (trace w) c -> just_ok (with_client w cl c).
Proof.
  intros [H1 H2 H3] Hc. split; world_simpl; [done| |done].
  intros cl' c' [[_ <-]|[_ Hc']]%lookup_insert_Some; [done|by apply (H2 cl')].
Qed.

Lemma just_start w mk k :
  just_ok w -> justification (trace w) (mk (next_rpc w)) ->
  called k (next_rpc w) (Out (mk (next_rpc w)) :: trace w) ->
  just_ok (start_call w mk k).
Proof.
  intros [H1 H2 H3] Hj Hk. split; world_simpl; [| |done].
  - intros rid k' [[<- <-]|[_ Hk']]%lookup_insert_Some; [done|].
    eapply called_mono; [|by apply H1]. intros x Hx. by right.
  - intros cl c Hc. eapply client_ok_mono; [|by eapply H2]. intros x Hx. by right.
Qed.

Lemma the_client_ok w cl : just_ok w -> client_ok (trace w) (the_client w cl).
Proof.
  intros [_ H2 _]. unfold the_client. destruct (clients w !! cl) as [c|] eqn:Hc; simpl.
  - by eapply H2.
  - by split.
Qed.

(** The token of an access request is the password of the client object. *)
Lemma token_justified w t cl rid ch :
  just_ok w -> trace w ⊆ t ->
  justification t (CallCanAccess rid (c_password (the_client w cl)) ch).
Proof.
  intros Hw Ht. destruct (the_client_ok w cl Hw) as [H _]. simpl.
  destruct (c_password (the_client w cl)) as [| |p]; [done..|].
  destruct (H p eq_refl) as (v & _ & Hi). eauto using identified_mono.
Qed.

Lemma granted_here rid v token ch t :
  Out (CallCanAccess rid token ch) ∈ t -> granted (In (EvReply rid (ReplyOk v)) :: t) token ch.
Proof. intros Ht. exists rid, v. split; [by right|by left]. Qed.

(** What the trace says about the callback that a reply runs. *)
Tactic Notation "in_flight" constr(Hw) "as" simple_intropattern(pat) :=
  match goal with
  | H : pending _ !! _ = Some _ |- _ =>
      let Hk := fresh in
      pose proof (just_pending _ Hw _ _ H) as Hk; simpl in Hk; destruct Hk as pat
  end.

Lemma just_transition w ev w' : just_ok w -> transition w ev w' -> just_ok w'.
Proof.
  intros Hw Htr. pose proof (just_trace w Hw) as Hj.
  branches Htr; unfold conn_event.
  - apply just_client; [by apply just_react|by split].
  - apply just_start; [by apply just_react|done|].
    split; [in_trace|]. exists u, p. split; [done|in_trace].
  - by apply just_react.
  - apply just_start; [by apply just_react|apply token_justified; [done|set_solver]|].
    split_and!; [done..|in_trace|eexists; in_trace].
  - by apply just_react.
  - apply just_start; [by apply just_react|apply token_justified; [done|set_solver]|].
    exists cl, ch. eexists. split_and!; [done|in_trace..].
  - apply just_start; [|by left|done]. apply just_client; [by apply just_react|].
    destruct (the_client_ok w cl Hw) as [_ H2]. split; [done|]. simpl. intros v Hv.
    destruct (H2 v Hv) as [p Hi]. exists p. eapply identified_mono; [|done].
    world_simpl. set_solver.
  - destruct ev; try done; by apply just_react.
  - by apply just_react.
  - by apply just_react.
  - in_flight Hw as (Hk & Hch & Hel & Hin & token & Hcall).
    injection Hk as -> -> -> ->.
    apply just_finish, just_react; [done|].
    assert (Hg : granted (In (EvReply rid (ReplyOk v)) :: trace w) token ch)
      by (by eapply granted_here).
    split; [|split; [|done]].
    + exists cl, pkt, ch, token. split_and!; [in_trace|done|].
      eapply granted_mono; [|exact Hg]. set_solver.
    + exists cl, pkt, cb, ch, token, (the_client w cl). split_and!; [in_trace|done..| | |].
      * eapply granted_mono; [|exact Hg]. set_solver.
      * eapply client_ok_mono; [|by apply the_client_ok]. set_solver.
      * by destruct (split_content_type _).
  - by apply just_finish, just_react.
  - in_flight Hw as (cl & ch & token & Hch & Hin & Hcall).
    apply just_finish, just_react; [done|]. split; [|done].
    exists cl, ch, token. split_and!; [in_trace|done|by eapply granted_here].
  - by apply just_finish, just_react.
  - in_flight Hw as (Hcall & u & p & -> & Hin).
    assert (Hid : identified (In (EvReply rid (ReplyOk v)) :: trace w) (default [] p) v)
      by (exists rid; split; in_trace).
    apply just_start; [|right|done].
    + apply just_client.
      * apply just_finish, just_react; [done|]. split; [|done].
        split; [done|]. exists cl, u, p, v. split; [in_trace|done].
      * assert (Hid' : identified (trace (finish_call (react w (EvReply rid (ReplyOk v))
          [CbAck cb None true]) rid)) (default [] p) v)
          by (eapply identified_mono; [|exact Hid]; world_simpl; set_solver).
        split; intros x [= <-]; eauto.
    + split; [done|]. exists v, (default [] p), cb. split_and!; [done| |done].
      eapply identified_mono; [|exact Hid]. world_simpl. set_solver.
  - by apply just_finish, just_react.
  - by apply just_finish, just_react.
  - by apply just_finish, just_react.
  - by destruct (just_react w (EvTick now) [] Hw Hj).
Qed.

Lemma just_reachable w : reachable w -> just_ok w.
Proof. apply (reachable_transition_ind just_ok); eauto using just_init, just_transition. Qed.

(** ** Every request has exactly one answer, given or awaited *)

Definition answers_ok (w : world) : Prop :=
  requests (trace w) ≡ₚ answers (trace w) ++ awaited (pending w) /\ NoDup (requests (trace w)).

Lemma awaited_insert p i k :
  p !! i = None -> awaited (<[i := k]> p) ≡ₚ awaited_by k ++ awaited p.
Proof. intros Hi. unfold awaited. by rewrite map_to_list_insert. Qed.

Lemma awaited_delete p i k :
  p !! i = Some k -> awaited p ≡ₚ awaited_by k ++ awaited (delete i p).
Proof. intros Hi. unfold awaited. by rewrite <- (map_to_list_delete p i k). Qed.

Lemma requests_app t1 t2 : requests (t1 ++ t2) = requests t1 ++ requests t2.
Proof. apply bind_app. Qed.
Lemma answers_app t1 t2 : answers (t1 ++ t2) = answers t1 ++ answers t2.
Proof. apply bind_app. Qed.
Lemma requests_out es : requests (Out <$> es) = [].
Proof. induction es as [|e es IH]; [done|]. exact IH. Qed.

Lemma answers_combine t ev es p p' :
  requests t ≡ₚ answers t ++ awaited p ->
  request_of (In ev) ++ awaited p ≡ₚ answers (Out <$> es) ++ awaited p' ->
  requests ((Out <$> es) ++ In ev :: t) ≡ₚ answers ((Out <$> es) ++ In ev :: t) ++ awaited p'.
Proof.
  intros Ht Hp. rewrite requests_app, answers_app, requests_out.
  change (requests (In ev :: t)) with (request_of (In ev) ++ requests t).
  change (answers (In ev :: t)) with (answers t).
  rewrite Ht, app_nil_l, (Permutation_app_comm (answers t)), app_assoc, Hp.
  rewrite <- !app_assoc. f_equiv. apply Permutation_app_comm.
Qed.

Lemma requests_step w ev w' :
  transition w ev w' -> requests (trace w') = request_of (In ev) ++ requests (trace w).
Proof.
  intros [es ->]%transition_grows. by rewrite requests_app, requests_out.
Qed.

Lemma answers_transition w ev w' :
  ids_ok w -> answers_ok w -> ok_event w ev -> transition w ev w' -> answers_ok w'.
Proof.
  intros Hids [Hperm Hnd] Hok Htr. split.
  - assert (Hfresh : pending w !! next_rpc w = None).
    { destruct (pending w !! next_rpc w) eqn:E; [|done]. apply (ids_pending w Hids) in E. lia. }
    branches Htr; unfold conn_event, start_call, finish_call, react, with_client; cbn [trace pending next_rpc];
    match goal with
    | |- context [Out ?a :: (Out <$> ?es) ++ In ?ev :: ?t] =>
        change (Out a :: (Out <$> es) ++ In ev :: t) with ((Out <$> (a :: es)) ++ In ev :: t)
    | |- context [requests (In ?ev :: ?t)] => change (In ev :: t) with ((Out <$> []) ++ In ev :: t)
    | _ => idtac
    end; (eapply answers_combine; [exact Hperm|]); simpl.
    all: try done.
    all: try (rewrite awaited_insert by done; done).
    all: try (erewrite (awaited_delete (pending w)) by done; done).
    + destruct ev; done.
    + rewrite awaited_insert by (by rewrite lookup_delete_None; right).
      by erewrite (awaited_delete (pending w)) by done.
  - rewrite (requests_step _ _ _ Htr).
    destruct ev; simpl; try done; constructor; try done; by destruct Hok.
Qed.

Lemma answers_reachable w : reachable w -> answers_ok w.
Proof.
  apply (reachable_transition_ind answers_ok).
  - split; simpl; [done|constructor].
  - eauto using answers_transition, ids_reachable.
Qed.

(** ** Reading the invariants back from the trace *)

Lemma justified_split P t2 e t1 : justified P (t2 ++ Out e :: t1) -> P t1 e.
Proof. induction t2 as [|[ev|e'] t2 IH]; simpl; [by intros []|done|intros []; auto]. Qed.

Lemma reachable_justified w t2 e t1 :
  reachable w -> trace w = t2 ++ Out e :: t1 -> justification t1 e.
Proof.
  intros Hr Ht. apply (justified_split justification t2). rewrite <- Ht.
  apply just_trace, just_reachable, Hr.
Qed.

Lemma justified_elem w t2 t1 e :
  reachable w -> trace w = t2 ++ t1 -> Out e ∈ t1 ->
  exists t0, t0 ⊆ t1 /\ justification t0 e.
Proof.
  intros Hr Ht He. apply list_elem_of_split in He as (ta & tb & ->).
  exists tb. split; [set_solver|]. eapply (reachable_justified w (t2 ++ ta)); [done|].
  by rewrite <- app_assoc.
Qed.

(** A granted string token had been identified. *)
Lemma granted_identified w t2 t1 p ch :
  reachable w -> trace w = t2 ++ t1 -> granted t1 (Str p) ch -> exists v, identified t1 p v.
Proof.
  intros Hr Ht (rid & v & Hc & _).
  destruct (justified_elem w t2 t1 _ Hr Ht Hc) as (t0 & Hincl & v' & Hi).
  exists v'. by eapply identified_mono.
Qed.

End Safety.
