(* ===== verification/AdapterSession.v ===== *)
(** * The client behind a request of the MQTT adapter

    The handlers share client objects with the callbacks in flight.  Here a
    client is read off the trace instead: [client_at] says what the events so far
    made of it.  The objects in the store agree with that reading in every
    reachable world, so a message on NATS and a granted subscription are traced
    back to the client that asked, with the key this client was identified with. *)

From S2P Require Import Prelude JsString JsRegExp Topics Messages Adapter AdapterSystem AdapterSafety.

Section Session.
Context {C : MessageCodec}.
Variable instance_id : jsstr.

Local Abbreviation reachable := (reachable instance_id).
Local Abbreviation transition := (transition instance_id).

(** ** Clients, read off the trace *)

(** The client that authenticates by the call [rid], and the key it presented. *)
Fixpoint authenticating (t : list entry) (rid : nat) : option (nat * jsstr) :=
  match t with
  | [] => None
  | x :: t' =>
      match x, t' with
      | Out (CallIdentify rid' key), In (EvAuthenticate cl _ p _) :: _ =>
          if decide (rid' = rid /\ key = default [] p) then Some (cl, key) else authenticating t' rid
      | _, _ => authenticating t' rid
      end
  end.

(** What the events of the trace made of the client object [cl]. *)
Fixpoint client_at (t : list entry) (cl : nat) : client :=
  match t with
  | [] => new_client Undefined
  | x :: t' =>
      let c := client_at t' cl in
      match x with
      | In (EvClient cl' id) => if decide (cl' = cl) then new_client id else c
      | In (EvDisconnect cl') => if decide (cl' = cl) then Client (c_id c) (c_thingId c) Null else c
      | In (EvReply rid (ReplyOk v)) =>
          match authenticating t' rid with
          | Some (cl', key) =>
              if decide (cl' = cl) then Client (js_or (c_id c) (Str v)) (Str v) (Str key) else c
          | None => c
          end
      | _ => c
      end
  end.

(** The client [cl] presented [key], and the Things service identified it as the
    thing [v]. *)
Definition identified_as (t : list entry) (cl : nat) (key v : jsstr) : Prop :=
  exists rid u p cb t2 t1,
    t = t2 ++ Out (CallIdentify rid key) :: In (EvAuthenticate cl u p cb) :: t1 /\
    key = default [] p /\ In (EvReply rid (ReplyOk v)) ∈ t2.

Lemma identified_as_mono t t' cl key v : identified_as t cl key v -> identified_as (t' ++ t) cl key v.
Proof.
  intros (rid & u & p & cb & t2 & t1 & -> & Hk & Hr). exists rid, u, p, cb, (t' ++ t2), t1.
  rewrite <- app_assoc. split_and!; [done..|]. apply elem_of_app. by right.
Qed.

Lemma identified_as_cons x t cl key v : identified_as t cl key v -> identified_as (x :: t) cl key v.
Proof. apply (identified_as_mono t [x]). Qed.

Lemma identified_as_identified t cl key v : identified_as t cl key v -> identified t key v.
Proof.
  intros (rid & u & p & cb & t2 & t1 & -> & _ & Hr). exists rid.
  split; apply elem_of_app; [right; left|by left].
Qed.

Lemma authenticating_split t rid cl key :
  authenticating t rid = Some (cl, key) ->
  exists u p cb t2 t1,
    t = t2 ++ Out (CallIdentify rid key) :: In (EvAuthenticate cl u p cb) :: t1 /\ key = default [] p.
Proof.
  induction t as [|x t IH]; [done|]. intros H.
  assert (authenticating t rid = Some (cl, key) \/ exists u p cb t1,
    x = Out (CallIdentify rid key) /\ t = In (EvAuthenticate cl u p cb) :: t1 /\ key = default [] p)
    as [H'|(u & p & cb & t1 & -> & -> & Hk)].
  { simpl in H. destruct x as [ev|e]; [by left|]. destruct e; try by left.
    destruct t as [|[[]|] t]; try by left. case_decide as Hd; [|by left].
    destruct Hd as [-> ->]. right. naive_solver. }
  - destruct (IH H') as (u & p & cb & t2 & t1 & -> & Hk). by exists u, p, cb, (x :: t2), t1.
  - by exists u, p, cb, [], t1.
Qed.

Lemma authenticating_call t rid x : authenticating t rid = Some x -> rid ∈ calls t.
Proof.
  destruct x as [cl key]. intros (u & p & cb & t2 & t1 & -> & _)%authenticating_split.
  rewrite calls_app. apply elem_of_app. right. by left.
Qed.

(** A key that a client has was identified as its thing, for this client. *)
Lemma client_at_password t cl key :
  c_password (client_at t cl) = Str key ->
  exists v, c_thingId (client_at t cl) = Str v /\ identified_as t cl key v.
Proof.
  induction t as [|x t IH]; [done|].
  assert (Hk : c_password (client_at t cl) = Str key ->
    exists v, c_thingId (client_at t cl) = Str v /\ identified_as (x :: t) cl key v).
  { intros H. destruct (IH H) as (v & ? & ?). eauto using identified_as_cons. }
  destruct x as [ev|e]; [|exact Hk].
  destruct ev; try exact Hk; simpl.
  - by case_decide.
  - by case_decide.
  - destruct r as [|v]; [exact Hk|]. destruct (authenticating t rid) as [[cl' key']|] eqn:Ha; [|exact Hk].
    case_decide; [|exact Hk]. subst cl'. simpl. intros [= ->]. exists v. split; [done|].
    apply authenticating_split in Ha as (u & p & cb & t2 & t1 & -> & Hp).
    exists rid, u, p, cb, (In (EvReply rid (ReplyOk v)) :: t2), t1. split_and!; [done..|]. by left.
Qed.

(** So was the thing id that a client has. *)
Lemma client_at_thing t cl v :
  c_thingId (client_at t cl) = Str v -> exists key, identified_as t cl key v.
Proof.
  induction t as [|x t IH]; [done|].
  assert (Hk : c_thingId (client_at t cl) = Str v -> exists key, identified_as (x :: t) cl key v).
  { intros H. destruct (IH H) as (key & ?). eauto using identified_as_cons. }
  destruct x as [ev|e]; [|exact Hk].
  destruct ev; try exact Hk; simpl.
  - by case_decide.
  - by case_decide.
  - destruct r as [|v']; [exact Hk|]. destruct (authenticating t rid) as [[cl' key']|] eqn:Ha; [|exact Hk].
    case_decide; [|exact Hk]. subst cl'. simpl. intros [= ->]. exists key'.
    apply authenticating_split in Ha as (u & p & cb & t2 & t1 & -> & Hp).
    exists rid, u, p, cb, (In (EvReply rid (ReplyOk v)) :: t2), t1. split_and!; [done..|]. by left.
Qed.

(** ** The store agrees with the trace *)

(** The call [rid] asked for access to [ch] with the password that [cl] had when
    it made the request [ev], after [t0]. *)
Definition asked (t : list entry) (rid cl : nat) (ch : jsstr) (ev : event) (t2 t0 : list entry) : Prop :=
  t = t2 ++ Out (CallCanAccess rid (c_password (client_at t0 cl)) ch) :: In ev :: t0.

(** A callback in flight belongs to the request that the trace shows. *)
Definition traced (t : list entry) (rid : nat) (k : closure) : Prop :=
  match k with
  | OnIdentify cl pass cb => authenticating t rid = Some (cl, pass)
  | OnAuthorizePublish cl ch mt st ct subject pkt cb =>
      authenticating t rid = None /\ exists t2 t0, asked t rid cl ch (EvPublish cl pkt cb) t2 t0
  | OnAuthorizeSubscribe sub cb =>
      authenticating t rid = None /\
      exists cl ch t2 t0, channel_of (s_topic sub) = Some ch /\ asked t rid cl ch (EvSubscribe cl sub cb) t2 t0
  | OnPublish => authenticating t rid = None
  end.

(** What a message on NATS and a granted subscription go back to. *)
Definition client_justification (t : list entry) (e : effect) : Prop :=
  match e with
  | NatsPublish subject msg =>
      exists cl pkt cb ch rid v t2 t0,
        asked t rid cl ch (EvPublish cl pkt cb) t2 t0 /\ In (EvReply rid (ReplyOk v)) ∈ t2 /\
        channel_of (p_topic pkt) = Some ch /\ elements_rejected (p_topic pkt) = false /\
        let '(ct, st) := split_content_type (subtopic_elements (p_topic pkt)) in
        subject = channelTopic ch st /\
        msg = encode (published_obj (client_at t cl) ch (of_option (msgtopic (p_topic pkt))) st ct pkt)
  | CbSubscribe cb None (Some sub) =>
      exists cl ch rid v t2 t0,
        asked t rid cl ch (EvSubscribe cl sub cb) t2 t0 /\ In (EvReply rid (ReplyOk v)) ∈ t2 /\
        channel_of (s_topic sub) = Some ch
  | _ => True
  end.

Lemma client_at_out es t cl : client_at ((Out <$> es) ++ t) cl = client_at t cl.
Proof. induction es as [|e es IH]; [done|]. exact IH. Qed.

Lemma authenticating_skip x t rid : (rid ∉ call_of x) -> authenticating (x :: t) rid = authenticating t rid.
Proof.
  intros Hx. destruct x as [|[]]; try done. destruct t as [|[[]|] t]; try done. simpl.
  rewrite decide_False; [done|]. intros [-> _]. apply Hx. by left.
Qed.

Lemma authenticating_skips t' t rid : (rid ∉ calls t') -> authenticating (t' ++ t) rid = authenticating t rid.
Proof.
  induction t' as [|x t' IH]; [done|].
  change (calls (x :: t')) with (call_of x ++ calls t'). rewrite not_elem_of_app. intros [Hx Ht].
  simpl app. rewrite authenticating_skip by done. by apply IH.
Qed.

Lemma asked_mono t t' rid cl ch ev t2 t0 :
  asked t rid cl ch ev t2 t0 -> asked (t' ++ t) rid cl ch ev (t' ++ t2) t0.
Proof. unfold asked. intros ->. by rewrite <- app_assoc. Qed.

Lemma traced_mono t t' rid k : (rid ∉ calls t') -> traced t rid k -> traced (t' ++ t) rid k.
Proof.
  intros Hrid. destruct k; simpl; rewrite authenticating_skips by done; [| |done..].
  - intros (? & t2 & t0 & H). split; [done|]. eexists _, _. by apply asked_mono.
  - intros (? & c & ch & t2 & t0 & ? & H). split; [done|]. exists c, ch. eexists _, _.
    split; [done|]. by apply asked_mono.
Qed.

Lemma the_client_with w cl c cl' :
  the_client (with_client w cl c) cl' = if decide (cl = cl') then c else the_client w cl'.
Proof.
  unfold the_client. cbn [with_client clients]. case_decide as Hd.
  - subst. by rewrite lookup_insert_eq.
  - by rewrite lookup_insert_ne.
Qed.

(** The pieces a transition is made of, on the callbacks in flight. *)
Record in_flight (w : world) : Prop := {
  fl_pending : forall rid k, pending w !! rid = Some k -> (rid < next_rpc w)%nat /\ traced (trace w) rid k;
  fl_calls : forall rid, rid ∈ calls (trace w) -> (rid < next_rpc w)%nat
}.

Lemma in_flight_react w ev es : in_flight w -> calls (Out <$> es) = [] -> in_flight (react w ev es).
Proof.
  intros [H1 H2] Hes.
  assert (Ht : trace (react w ev es) = ((Out <$> es) ++ [In ev]) ++ trace w)
    by (rewrite <- app_assoc; reflexivity).
  assert (Hc : calls ((Out <$> es) ++ [In ev]) = []) by (rewrite calls_app, Hes; reflexivity).
  split; rewrite Ht.
  - intros rid k [Hlt Hk]%H1. split; [done|]. apply traced_mono; [|done]. rewrite Hc. apply not_elem_of_nil.
  - intros rid. rewrite calls_app, Hc. apply H2.
Qed.

Lemma in_flight_finish w rid : in_flight w -> in_flight (finish_call w rid).
Proof.
  intros [H1 H2]. split; [|exact H2]. cbn [pending finish_call].
  intros rid' k [_ Hk]%lookup_delete_Some. by apply H1.
Qed.

Lemma in_flight_client w cl c : in_flight w -> in_flight (with_client w cl c).
Proof. by intros [H1 H2]. Qed.

Lemma in_flight_start w mk k :
  in_flight w -> call_of (Out (mk (next_rpc w))) = [next_rpc w] ->
  traced (trace (start_call w mk k)) (next_rpc w) k -> in_flight (start_call w mk k).
Proof.
  intros [H1 H2] Hmk Hk.
  assert (Hc : calls (trace (start_call w mk k)) = next_rpc w :: calls (trace w)).
  { change (calls (trace (start_call w mk k))) with (call_of (Out (mk (next_rpc w))) ++ calls (trace w)).
    by rewrite Hmk. }
  split.
  - cbn [pending start_call next_rpc]. intros rid k' [[<- <-]|[Hne Hk']]%lookup_insert_Some; [split; [lia|done]|].
    destruct (H1 _ _ Hk') as [Hlt Ht]. split; [lia|].
    change (trace (start_call w mk k)) with ([Out (mk (next_rpc w))] ++ trace w).
    apply traced_mono; [|done]. change (calls [Out (mk (next_rpc w))]) with (call_of (Out (mk (next_rpc w))) ++ []).
    rewrite Hmk. simpl. rewrite list_elem_of_singleton. lia.
  - cbn [next_rpc start_call]. intros rid. rewrite Hc, elem_of_cons. intros [->|?%H2]; lia.
Qed.

(** A new call that is no identification authenticates nobody. *)
Lemma fresh_call w mk k :
  in_flight w -> match mk (next_rpc w) with CallIdentify _ _ => False | _ => True end ->
  authenticating (trace (start_call w mk k)) (next_rpc w) = None.
Proof.
  intros [_ H2] Hmk. cbn [trace start_call].
  assert (authenticating (trace w) (next_rpc w) = None) as Hn.
  { destruct (authenticating _ _) eqn:Ha; [|done]. apply authenticating_call, H2 in Ha. lia. }
  by destruct (mk (next_rpc w)).
Qed.

Lemma in_flight_conn_event w thing type : in_flight w -> in_flight (conn_event instance_id w thing type).
Proof. intros Hw. apply in_flight_start; [done..|]. by apply fresh_call. Qed.

Lemma in_flight_transition w ev w' :
  (forall cl, the_client w cl = client_at (trace w) cl) ->
  in_flight w -> transition w ev w' -> in_flight w'.
Proof.
  intros Hc Hw Htr.
  branches Htr; repeat first [apply in_flight_conn_event | apply in_flight_client | apply in_flight_finish];
    try (by apply in_flight_react).
  - apply in_flight_start; [by apply in_flight_react|done|]. simpl. rewrite decide_True; [done|done].
  - apply in_flight_start; [by apply in_flight_react|done|]. split; [apply fresh_call; [by apply in_flight_react|done]|].
    exists [], (trace w). unfold asked. by rewrite <- Hc.
  - apply in_flight_start; [by apply in_flight_react|done|]. split; [apply fresh_call; [by apply in_flight_react|done]|].
    exists cl, ch, [], (trace w). split; [done|]. unfold asked. by rewrite <- Hc.
  - destruct (in_flight_react w (EvTick now) [] Hw eq_refl) as [H1 H2]. by split.
Qed.

(** ** The invariant *)

Record session_ok (w : world) : Prop := {
  so_clients : forall cl, the_client w cl = client_at (trace w) cl;
  so_flight : in_flight w;
  so_trace : justified client_justification (trace w)
}.

Lemma clients_transition w ev w' :
  session_ok w -> transition w ev w' -> forall cl, the_client w' cl = client_at (trace w') cl.
Proof.
  intros [Hc Hf _] Htr cl0. pose proof (fun rid k H => proj2 (fl_pending w Hf rid k H)) as Hp.
  assert (Hr : forall es, the_client (react w ev es) cl0 = client_at (trace w) cl0) by (intros; apply Hc).
  assert (Hn : forall rid k, pending w !! rid = Some k ->
      match k with OnIdentify _ _ _ => True | _ => authenticating (trace w) rid = None end).
  { intros rid k Hk. specialize (Hp rid k Hk). destruct k; simpl in Hp; tauto. }
  branches Htr; try exact (Hr []);
    try (match goal with H : pending w !! _ = Some _ |- _ => pose proof (Hn _ _ H) as Ha; simpl in Ha end;
         world_simpl; simpl client_at; rewrite Ha; exact (Hr [])).
  - rewrite the_client_with. simpl. case_decide; [done|]. exact (Hr []).
  - change (the_client (with_client w cl (Client (c_id (the_client w cl)) (c_thingId (the_client w cl)) Null)) cl0
      = client_at (In (EvDisconnect cl) :: trace w) cl0).
    rewrite the_client_with. simpl. case_decide as Hd; [subst; by rewrite Hc|apply Hc].
  - destruct ev; try done; exact (Hr []).
  - change (the_client (with_client w cl (Client (js_or (c_id (the_client w cl)) (Str v)) (Str v) (Str pass))) cl0
      = client_at (In (EvReply rid (ReplyOk v)) :: trace w) cl0).
    rewrite the_client_with. simpl.
    match goal with H : pending w !! _ = Some _ |- _ => pose proof (Hp _ _ H) as Ha; simpl in Ha; rewrite Ha end.
    case_decide as Hd; [subst; by rewrite Hc|apply Hc].
Qed.


(** A call in flight, seen after the reply [ev] and the effects [es]. *)
Lemma asked_answered t rid cl ch req t2 t0 v es :
  asked t rid cl ch req t2 t0 ->
  let ev := EvReply rid (ReplyOk v) in
  asked ((Out <$> es) ++ In ev :: t) rid cl ch req ((Out <$> es) ++ In ev :: t2) t0 /\
  In ev ∈ (Out <$> es) ++ In ev :: t2.
Proof.
  unfold asked. intros ->. split; [by rewrite <- app_assoc|]. apply elem_of_app. right. by left.
Qed.

Lemma trace_transition w ev w' :
  reachable w -> session_ok w -> transition w ev w' -> justified client_justification (trace w').
Proof.
  intros Hr [Hc Hf Hj] Htr.
  branches Htr; unfold conn_event; world_simpl; simpl justified; try exact Hj; try (by split_and!);
    match goal with H : pending w !! _ = Some _ |- _ =>
      pose proof (proj2 (fl_pending w Hf _ _ H)) as Ht;
      pose proof (just_pending _ (just_reachable _ _ Hr) _ _ H) as Hk end.
  - destruct Ht as (Hn & t2 & t0 & Ha). destruct Hk as (Hk & Hch & Hel & _). injection Hk as -> -> -> ->.
    destruct (asked_answered _ _ _ _ _ _ _ v [LogWarn (LErrorBytes (encode
      (published_obj (the_client w cl) ch (of_option (msgtopic (p_topic pkt)))
        (snd (split_content_type (subtopic_elements (p_topic pkt))))
        (fst (split_content_type (subtopic_elements (p_topic pkt)))) pkt)))] Ha) as [Ha' Hin].
    split; [done|]. split; [|done]. exists cl, pkt, cb, ch, rid, v. eexists _, _.
    split_and!; [exact Ha'|exact Hin|done..|]. simpl. rewrite Hn, Hc.
    by destruct (split_content_type _) as [ct st].
  - destruct Ht as (_ & cl & ch & t2 & t0 & Hch & Ha).
    destruct (asked_answered _ _ _ _ _ _ _ v [] Ha) as [Ha' Hin].
    split; [|done]. exists cl, ch, rid, v. eexists _, _. by split_and!.
Qed.

Lemma session_reachable w : reachable w -> session_ok w.
Proof.
  apply (reachable_transition_ind instance_id session_ok).
  - split; [done| |done]. split; [intros rid k; simpl; by rewrite lookup_empty|]. intros rid H. by apply elem_of_nil in H.
  - intros w0 ev w' Hr Hs _ Htr. pose proof Hs as [Hc Hf _]. split.
    + by eapply clients_transition.
    + by eapply in_flight_transition.
    + by eapply trace_transition.
Qed.

(** Every message on NATS and every granted subscription goes back to the
    request of a client. *)
Lemma client_justified w t2 e t1 :
  reachable w -> trace w = t2 ++ Out e :: t1 -> client_justification t1 e.
Proof.
  intros Hr Ht. apply (justified_split client_justification t2). rewrite <- Ht.
  apply so_trace, session_reachable, Hr.
Qed.

End Session.
