(* ===== verification/AdapterProperties.v ===== *)
(** * What the MQTT adapter guarantees

    The properties of the adapter, read off the invariants, each with a
    concrete run of the handlers on which its hypotheses hold. *)

From S2P Require Import Prelude JsString JsRegExp Topics Messages Adapter AdapterSystem AdapterSafety AdapterSession.

Local Open Scope Z_scope.

(** ** A sample session

    Thing [t1] connects with key [k1] and publishes a reading on channel
    [42]; another client subscribes. *)
Definition sample_packet : packet :=
  Packet (js "channels/42/messages/temp/ct/application_senml-json") [123; 125].
Definition sample_subscription : subscription := Subscription (js "channels/42/messages/#") 1.

Definition sample_connect : list (@event record_codec) := [
  @EvClient record_codec 0 (Str (js "dev1"));
  @EvAuthenticate record_codec 0 None (Some (js "k1")) 10;
  @EvReply record_codec 0 (ReplyOk (js "t1"))
].
Definition sample_publish : list (@event record_codec) := [
  @EvPublish record_codec 0 sample_packet 11;
  @EvReply record_codec 2 (ReplyOk (js "t1"))
].
Definition sample_subscribe : list (@event record_codec) := [
  @EvSubscribe record_codec 0 sample_subscription 12;
  @EvReply record_codec 2 (ReplyOk (js "t1"))
].

Definition after (evs : list (@event record_codec)) : world :=
  default init_world (@run record_codec (js "mqtt-1") init_world evs).

Definition runs (evs : list (@event record_codec)) : bool :=
  match @run record_codec (js "mqtt-1") init_world evs with Some _ => true | None => false end.

Lemma after_reachable evs : runs evs = true -> reachable (js "mqtt-1") (after evs).
Proof.
  unfold runs, after. destruct (run _ _ evs) as [w|] eqn:Hw; [|done].
  intros _. eapply run_reachable; [constructor|exact Hw].
Qed.

Section Properties.
Context {C : MessageCodec}.
Variable instance_id : jsstr.

Local Abbreviation reachable := (reachable instance_id).

(** C1: a message goes out on NATS only after a client [cl] asked to publish it:
    the request was followed by the access call for exactly the channel its topic
    is attributed to, with the password that [cl] had at that moment, and this
    call was granted.  A password is a key that [cl] itself had presented and that
    the Things service had identified; a client without one (not identified yet,
    or disconnected) presents no key, and leaves it to the Things service to
    refuse it.  The subject lies under the channel, and the message carries
    the channel, the subtopic and content type read from the topic, the payload,
    the protocol tag, and the ids of [cl] as they are by then; a thing id among
    them was the answer to an identification of [cl]. *)
Theorem nats_publish_authorised w t2 subject msg t1 :
  reachable w -> trace w = t2 ++ Out (NatsPublish subject msg) :: t1 ->
  exists cl pkt cb ch rid v ta t0,
    let password := c_password (client_at t0 cl) in
    let publisher := client_at t1 cl in
    t1 = ta ++ Out (CallCanAccess rid password ch) :: In (EvPublish cl pkt cb) :: t0 /\
    In (EvReply rid (ReplyOk v)) ∈ ta /\
    channel_of (p_topic pkt) = Some ch /\ elements_rejected (p_topic pkt) = false /\
    (forall key, password = Str key -> exists u, identified_as t0 cl key u) /\
    (forall u, c_thingId publisher = Str u -> exists key, identified_as t1 cl key u) /\
    let '(ct, st) := split_content_type (subtopic_elements (p_topic pkt)) in
    subject = channelTopic ch st /\
    msg = encode (published_obj publisher ch (of_option (msgtopic (p_topic pkt))) st ct pkt).
Proof.
  intros Hr Ht. destruct (client_justified _ _ _ _ _ Hr Ht)
    as (cl & pkt & cb & ch & rid & v & ta & t0 & Ha & Hin & Hch & Hel & Hmsg).
  exists cl, pkt, cb, ch, rid, v, ta, t0. cbv zeta. split_and!; [exact Ha|done..| | |done].
  - intros key Hk. destruct (client_at_password _ _ _ Hk) as (u & _ & Hi). by exists u.
  - apply client_at_thing.
Qed.

(** A subscription is granted only after the Things service granted the
    channel its topic filter is attributed to, to the token presented for it. *)
Theorem subscription_authorised w t2 cb sub t1 :
  reachable w -> trace w = t2 ++ Out (CbSubscribe cb None (Some sub)) :: t1 ->
  exists cl ch token,
    In (EvSubscribe cl sub cb) ∈ t1 /\ channel_of (s_topic sub) = Some ch /\
    granted t1 token ch /\ (forall p, token = Str p -> exists v, identified t1 p v).
Proof.
  intros Hr Ht. destruct (reachable_justified _ _ _ _ _ Hr Ht) as (cl & ch & token & Hin & Hch & Hg).
  exists cl, ch, token. split_and!; [done..|]. intros p ->.
  eapply (granted_identified _ w (t2 ++ [Out (CbSubscribe cb None (Some sub))])); [done| |exact Hg].
  by rewrite <- app_assoc.
Qed.

(** A connection is accepted only after the Things service identified the
    password the client presented (the empty key if it presented none), and it
    is accepted with the flag [true]. *)
Theorem connection_authenticated w t2 cb ok t1 :
  reachable w -> trace w = t2 ++ Out (CbAck cb None ok) :: t1 ->
  ok = true /\ exists cl u p v,
    In (EvAuthenticate cl u p cb) ∈ t1 /\ identified t1 (default [] p) v.
Proof. intros Hr Ht. exact (reachable_justified _ _ _ _ _ Hr Ht). Qed.

(** Every connection event on the event stream is a disconnect event, or a
    connect event for a thing id that an identification returned, emitted
    right after the connection was accepted. *)
Theorem connect_event_after_ack w t2 rid thing ts type inst t1 :
  reachable w -> trace w = t2 ++ Out (CallXadd rid thing ts type inst) :: t1 ->
  type = js "disconnect" \/
  (type = js "connect" /\ exists v p cb,
     thing = Str v /\ identified t1 p v /\ head t1 = Some (Out (CbAck cb None true))).
Proof. intros Hr Ht. exact (reachable_justified _ _ _ _ _ Hr Ht). Qed.

(** C7: In every reachable world the requests of aedes are, up to order, the
    answers given and the answers still awaited from callbacks in flight: no
    request is answered twice, none is forgotten, and no answer is invented. *)
Theorem requests_answered_once w :
  reachable w ->
  NoDup (requests (trace w)) /\
  requests (trace w) ≡ₚ answers (trace w) ++ awaited (pending w).
Proof. intros Hr. by destruct (answers_reachable _ w Hr). Qed.

(** Asynchronous calls have distinct identifiers, a reply is delivered only
    for a call that was made, and at most once. *)
Theorem replies_match_calls w :
  reachable w ->
  NoDup (calls (trace w)) /\ NoDup (replies (trace w)) /\ replies (trace w) ⊆ calls (trace w).
Proof. intros Hr. destruct (ids_reachable _ w Hr). split_and!; [done..|]. intros x. auto. Qed.

(** The transition rules are exact: for an event the environment may deliver,
    the world after the handler is the one and only world that the rules allow,
    so the rules neither miss a branch of the handlers nor add one. *)
Theorem transition_exact w ev w' :
  ok_event w ev ->
  (transition instance_id w ev w' <-> w' = final (handle instance_id ev w)).
Proof.
  intros Hok. pose proof (handle_transition instance_id w ev Hok) as Htr.
  split; [|by intros ->]. intros H. by eapply transition_functional.
Qed.

(** Handlers do not throw, with one exception: the NATS subscriber on bytes
    that are not a [Message]. *)
Theorem handle_throws_iff w ev :
  (exists w', handle instance_id ev w = Thrown w') <->
  exists msg, ev = EvNats msg /\ decode msg = None.
Proof.
  split.
  - intros [w' Hw]. destruct ev as [cl id|cl u p cb|cl pkt cb|cl sub cb|cl|cl e|cl e|e|e|msg|rid r|now];
      try discriminate; unfold handle in Hw; cbn [dispatch] in Hw.
    + unfold authorizePublish in Hw. destruct (parseTopic _); [|discriminate].
      cbv beta iota zeta delta [bind get_client] in Hw. destruct (existsb _ _); discriminate.
    + unfold authorizeSubscribe in Hw. destruct (parseTopic _); discriminate.
    + exists msg. split; [done|]. unfold onNatsMessage in Hw.
      destruct (decode msg) as [m|]; [|done]. case_bool_decide; discriminate.
    + unfold onReply in Hw. destruct (_ !! rid) as [k|]; [|discriminate].
      destruct k, r; discriminate.
  - intros (msg & -> & Hd). unfold handle. cbn [dispatch]. unfold onNatsMessage.
    rewrite Hd. by eexists.
Qed.

End Properties.

(** ** Witnesses *)

Lemma trace_at {C : MessageCodec} (w : world) n e :
  trace w !! n = Some (Out e) -> trace w = take n (trace w) ++ Out e :: drop (S n) (trace w).
Proof. intros H. by rewrite (take_drop_middle _ _ _ H). Qed.

Definition sample_message : @wire record_codec := {|
  m_channel := js "42"; m_topic := js "messages"; m_subtopic := js "temp";
  m_publisher := js "t1"; m_devname := js "dev1"; m_protocol := js "mqtt";
  m_contentType := js "application/senml+json"; m_payload := [123; 125] |}.

Lemma sample_published :
  trace (after (sample_connect ++ sample_publish)) !! 1%nat
  = Some (Out (NatsPublish (js "channel.42.temp") sample_message)).
Proof. vm_eq. Qed.

Lemma sample_subscribed :
  trace (after (sample_connect ++ sample_subscribe)) !! 0%nat
  = Some (Out (CbSubscribe 12 None (Some sample_subscription))).
Proof. vm_eq. Qed.

Lemma sample_connected :
  trace (after sample_connect) !! 1%nat = Some (Out (CbAck 10 None true)) /\
  trace (after sample_connect) !! 0%nat
  = Some (Out (CallXadd 1 (Str (js "t1")) 0 (js "connect") (js "mqtt-1"))).
Proof. split; vm_eq. Qed.

Lemma sample_publish_reachable :
  reachable (js "mqtt-1") (after (sample_connect ++ sample_publish)).
Proof. apply after_reachable. vm_compute. reflexivity. Qed.
Lemma sample_subscribe_reachable :
  reachable (js "mqtt-1") (after (sample_connect ++ sample_subscribe)).
Proof. apply after_reachable. vm_compute. reflexivity. Qed.
Lemma sample_connect_reachable : reachable (js "mqtt-1") (after sample_connect).
Proof. apply after_reachable. vm_compute. reflexivity. Qed.

Lemma nats_publish_authorised_witness :
  exists cl pkt cb ch rid v ta t0 t1,
    t1 = ta ++ Out (CallCanAccess rid (c_password (client_at t0 cl)) ch) :: In (EvPublish cl pkt cb) :: t0 /\
    In (EvReply rid (ReplyOk v)) ∈ ta /\
    exists t2, trace (after (sample_connect ++ sample_publish))
      = t2 ++ Out (NatsPublish (js "channel.42.temp") sample_message) :: t1.
Proof.
  pose proof (trace_at _ _ _ sample_published) as Ht.
  destruct (nats_publish_authorised (js "mqtt-1") _ _ _ _ _ sample_publish_reachable Ht)
    as (cl & pkt & cb & ch & rid & v & ta & t0 & Ha & Hin & _).
  exists cl, pkt, cb, ch, rid, v, ta, t0. eexists. split; [exact Ha|]. split; [exact Hin|].
  eexists. exact Ht.
Defined.

(** The password of the client of the sample session is the key of its thing,
    until it disconnects; another client has none. *)
Example sample_password :
  c_password (client_at (trace (after sample_connect)) 0) = Str (js "k1") /\
  c_password (client_at (trace (after (sample_connect ++ [EvDisconnect 0]))) 0) = Null /\
  c_password (client_at (trace (after (sample_connect ++ [EvDisconnect 0]))) 1) = Undefined.
Proof. split_and!; vm_eq. Qed.

Lemma subscription_authorised_witness :
  exists ch token t1, granted t1 token ch /\
    exists t2, trace (after (sample_connect ++ sample_subscribe))
      = t2 ++ Out (CbSubscribe 12 None (Some sample_subscription)) :: t1.
Proof.
  pose proof (trace_at _ _ _ sample_subscribed) as Ht.
  destruct (subscription_authorised (js "mqtt-1") _ _ _ _ _ sample_subscribe_reachable Ht)
    as (cl & ch & token & _ & _ & Hg & _).
  exists ch, token. eexists. split; [exact Hg|]. eexists. exact Ht.
Defined.

Lemma connection_authenticated_witness :
  exists p v (t1 : list (@entry record_codec)), identified t1 p v /\
    exists t2, trace (after sample_connect) = t2 ++ Out (CbAck 10 None true) :: t1.
Proof.
  pose proof (trace_at _ _ _ (proj1 sample_connected)) as Ht.
  destruct (connection_authenticated (js "mqtt-1") _ _ _ _ _ sample_connect_reachable Ht)
    as (_ & cl & u & p & v & _ & Hi).
  exists (default [] p), v. eexists. split; [exact Hi|]. eexists. exact Ht.
Defined.

Lemma connect_event_after_ack_witness :
  exists v p cb (t1 : list (@entry record_codec)), Str (js "t1") = Str v /\ identified t1 p v /\
    head t1 = Some (Out (CbAck cb None true)).
Proof.
  pose proof (trace_at _ _ _ (proj2 sample_connected)) as Ht.
  destruct (connect_event_after_ack (js "mqtt-1") _ _ _ _ _ _ _ _ sample_connect_reachable Ht)
    as [Hty|(_ & v & p & cb & Hv & Hi & Hh)]; [vm_compute in Hty; discriminate|].
  exists v, p, cb. eexists. split; [exact Hv|]. split; [exact Hi|exact Hh].
Defined.

Lemma requests_answered_once_witness :
  NoDup (requests (trace (after (sample_connect ++ sample_publish)))).
Proof. exact (proj1 (requests_answered_once (js "mqtt-1") _ sample_publish_reachable)). Defined.

Lemma replies_match_calls_witness :
  NoDup (calls (trace (after (sample_connect ++ sample_publish)))).
Proof. exact (proj1 (replies_match_calls (js "mqtt-1") _ sample_publish_reachable)). Defined.

Lemma transition_exact_witness :
  transition (js "mqtt-1") init_world (@EvClient record_codec 0 (Str (js "dev1")))
    (final (handle (js "mqtt-1") (@EvClient record_codec 0 (Str (js "dev1"))) init_world)).
Proof. by apply (proj2 (transition_exact (js "mqtt-1") init_world (@EvClient record_codec 0 (Str (js "dev1"))) _ eq_refl)). Defined.
