(* ===== verification/AdapterLife.v ===== *)
(** * Sessions of the MQTT adapter over time

    Progress (every request is answered once its calls are), and what a
    disconnection does to the credentials of a client object, including the
    race with an identification still in flight. *)

From S2P Require Import Prelude JsString JsRegExp Topics Messages Adapter AdapterSystem AdapterSafety AdapterProperties.

Local Open Scope Z_scope.

Section Life.
Context {C : MessageCodec}.
Variable instance_id : jsstr.

Local Abbreviation reachable := (reachable instance_id).
Local Abbreviation run := (run instance_id).
Local Abbreviation after_event ev w := (final (handle instance_id ev w)).

Lemma reachable_event w ev : reachable w -> ok_event w ev -> reachable (after_event ev w).
Proof. intros Hr Hok. by apply (reach_step _ w ev). Qed.

Lemma run_app w evs1 evs2 w1 :
  run w evs1 = Some w1 -> run w (evs1 ++ evs2) = run w1 evs2.
Proof.
  revert w. induction evs1 as [|ev evs1 IH]; intros w; simpl; [by intros [= ->]|].
  destruct (decide (ok_event w ev)); [apply IH|done].
Qed.

(** ** Progress *)

(** The replies a callback needs: an accepted identification starts one more
    call, the connect event. *)
Definition weight (k : closure) : nat :=
  match k with OnIdentify _ _ _ => 2 | _ => 1 end.

Definition load (p : gmap nat closure) : nat :=
  sum_list_with (fun x => weight (snd x)) (map_to_list p).

Lemma load_insert p i k : p !! i = None -> load (<[i := k]> p) = (weight k + load p)%nat.
Proof. intros Hi. unfold load. by rewrite map_to_list_insert. Qed.

Lemma load_delete p i k : p !! i = Some k -> load p = (weight k + load (delete i p))%nat.
Proof.
  intros Hi. rewrite <- (load_insert (delete i p) i k) by apply lookup_delete_eq.
  by rewrite insert_delete_id.
Qed.

Lemma weight_bounds k : (1 <= weight k <= 2)%nat.
Proof. destruct k; simpl; lia. Qed.

Lemma load_size p : (size p <= load p <= 2 * size p)%nat.
Proof.
  induction p as [|i k p Hi IH] using map_ind; [done|].
  rewrite load_insert, map_size_insert_None by done. pose proof (weight_bounds k). lia.
Qed.

Lemma load_empty p : load p = 0%nat -> p = ∅.
Proof. intros Hp. apply map_size_empty_inv. pose proof (load_size p). lia. Qed.

Lemma pending_fresh w : reachable w -> pending w !! next_rpc w = None.
Proof.
  intros Hr. destruct (pending w !! next_rpc w) eqn:E; [|done].
  apply (ids_pending w (ids_reachable _ w Hr)) in E. lia.
Qed.

(** A reply runs one callback, and the work left decreases. *)
Lemma reply_load w rid r :
  reachable w -> is_Some (pending w !! rid) ->
  (load (pending (after_event (EvReply rid r) w)) < load (pending w))%nat.
Proof.
  intros Hr Hrid. pose proof (pending_fresh w Hr) as Hfresh.
  pose proof (handle_transition instance_id w (EvReply rid r) Hrid) as Htr.
  destruct Hrid as [k Hk]. rewrite (load_delete _ _ _ Hk).
  remember (after_event (EvReply rid r) w) as w' eqn:Hw. clear Hw.
  inversion Htr; subst; try done; unfold conn_event;
    cbn [pending start_call finish_call with_client react next_rpc] in *;
    simplify_eq; simpl; try lia.
  rewrite load_insert by (rewrite lookup_delete_None; by right). simpl. lia.
Qed.

Definition deliver (choose : nat -> reply) (rids : list nat) : list event :=
  (fun rid => EvReply rid (choose rid)) <$> rids.

Lemma deliver_load choose rids w w' :
  reachable w -> run w (deliver choose rids) = Some w' ->
  (length rids + load (pending w') <= load (pending w))%nat.
Proof.
  revert w. induction rids as [|rid rids IH]; intros w Hr; [by intros [= <-]|].
  change (deliver choose (rid :: rids)) with (EvReply rid (choose rid) :: deliver choose rids).
  cbn [AdapterSystem.run]. destruct (decide _) as [Hok|]; [|done]. intros Hw.
  apply IH in Hw; [|by apply reachable_event].
  pose proof (reply_load w rid (choose rid) Hr Hok). simpl. lia.
Qed.

Lemma deliver_requests choose rids w w' :
  run w (deliver choose rids) = Some w' -> requests (trace w') = requests (trace w).
Proof.
  revert w. induction rids as [|rid rids IH]; intros w; [by intros [= <-]|].
  change (deliver choose (rid :: rids)) with (EvReply rid (choose rid) :: deliver choose rids).
  cbn [AdapterSystem.run]. destruct (decide _) as [Hok|]; [|done]. intros Hw.
  rewrite (IH _ Hw). exact (requests_step _ _ _ _ (handle_transition _ _ _ Hok)).
Qed.

Lemma deliver_all choose w :
  reachable w -> exists rids w', run w (deliver choose rids) = Some w' /\ pending w' = ∅.
Proof.
  remember (load (pending w)) as n eqn:Hn. revert w Hn.
  induction (lt_wf n) as [n _ IH]. intros w -> Hr.
  destruct (map_choose_or_empty (pending w)) as [(rid & k & Hk)|He].
  - assert (Hok : ok_event w (EvReply rid (choose rid))) by (by eexists).
    destruct (IH _ (reply_load w rid (choose rid) Hr Hok) _ eq_refl) as (rids & w' & Hw & He);
      [by apply reachable_event|].
    exists (rid :: rids), w'. split; [|done].
    change (deliver choose (rid :: rids)) with (EvReply rid (choose rid) :: deliver choose rids).
    cbn [AdapterSystem.run]. by destruct (decide _).
  - by exists [], w.
Qed.

(** C38: whatever the replies are, the calls in flight can all be answered, after
    which every request of aedes has exactly one answer; and no order of
    delivery needs more than two replies per call in flight. *)
Theorem requests_drain choose w :
  reachable w ->
  (exists rids w', run w (deliver choose rids) = Some w' /\ pending w' = ∅ /\
     answers (trace w') ≡ₚ requests (trace w)) /\
  (forall rids w', run w (deliver choose rids) = Some w' ->
     (length rids <= 2 * size (pending w))%nat).
Proof.
  intros Hr. split.
  - destruct (deliver_all choose w Hr) as (rids & w' & Hw & He). exists rids, w'.
    split_and!; [done..|].
    destruct (answers_reachable _ w' (run_reachable _ _ _ _ Hr Hw)) as [Hp _].
    rewrite (deliver_requests _ _ _ _ Hw), He in Hp. unfold awaited in Hp.
    rewrite map_to_list_empty in Hp. simpl in Hp. rewrite app_nil_r in Hp. done.
  - intros rids w' Hw. pose proof (deliver_load _ _ _ _ Hr Hw).
    pose proof (load_size (pending w)). lia.
Qed.

(** ** Disconnection *)

(** The client object [cl] holds no password and none is on its way. *)
Definition logged_out (cl : nat) (w : world) : Prop :=
  (exists c, clients w !! cl = Some c /\ c_password c = Null) /\
  forall rid pass cb, pending w !! rid <> Some (OnIdentify cl pass cb).

Definition authenticates (cl : nat) (ev : event) : bool :=
  match ev with EvAuthenticate cl' _ _ _ => bool_decide (cl' = cl) | _ => false end.

Lemma logged_out_finish cl w rid : logged_out cl w -> logged_out cl (finish_call w rid).
Proof.
  intros [Hc Hp]. split; [done|]. cbn [pending finish_call].
  intros rid' pass cb [_ Hk]%lookup_delete_Some. by eapply Hp.
Qed.

Lemma logged_out_start cl w mk k :
  logged_out cl w -> (forall pass cb, k <> OnIdentify cl pass cb) ->
  logged_out cl (start_call w mk k).
Proof.
  intros [Hc Hp] Hk. split; [done|]. cbn [pending start_call].
  intros rid' pass cb [[_ H]|[_ H]]%lookup_insert_Some; [by eapply Hk|by eapply Hp].
Qed.

Lemma logged_out_client cl cl' w c :
  logged_out cl w -> (cl' = cl -> c_password c = Null) -> logged_out cl (with_client w cl' c).
Proof.
  intros [(c0 & Hc & Hn) Hp] Hcl. split; [|done]. cbn [clients with_client].
  destruct (decide (cl' = cl)) as [->|Hne].
  - exists c. rewrite lookup_insert_eq. auto.
  - exists c0. by rewrite lookup_insert_ne.
Qed.

Lemma logged_out_event cl w ev :
  logged_out cl w -> ok_event w ev -> authenticates cl ev = false ->
  logged_out cl (after_event ev w).
Proof.
  intros Hl Hok Ha. pose proof (handle_transition instance_id w ev Hok) as Htr.
  remember (after_event ev w) as w' eqn:Hw. clear Hw.
  assert (Hreact : forall es, logged_out cl (react w ev es)) by (intros es; exact Hl).
  inversion Htr; subst; unfold conn_event;
    repeat first [apply logged_out_start; [|done] | apply logged_out_finish]; try by apply Hreact.
  - apply logged_out_client; [by apply Hreact|]. intros ->. destruct Hl as [(c & Hc & _) _].
    simpl in Hok. congruence.
  - apply logged_out_start; [by apply Hreact|]. intros pass cb' [= -> _ _].
    simpl in Ha. by rewrite bool_decide_eq_true_2 in Ha.
  - by apply logged_out_client; [by apply Hreact|].
  - apply logged_out_client; [by apply logged_out_finish, Hreact|]. intros ->.
    destruct Hl as [_ Hp]. by destruct (Hp _ _ _ H).
  - exact Hl.
Qed.

Lemma logged_out_run cl evs w w' :
  logged_out cl w -> forallb (fun ev => negb (authenticates cl ev)) evs = true ->
  run w evs = Some w' -> logged_out cl w'.
Proof.
  revert w. induction evs as [|ev evs IH]; intros w Hl; simpl; [by intros _ [= <-]|].
  intros [Ha%negb_true_iff Hall]%andb_true_iff.
  destruct (decide (ok_event w ev)); [|done]. apply IH; [by apply logged_out_event|done].
Qed.

Lemma disconnect_world w cl :
  after_event (EvDisconnect cl) w =
  let c := the_client w cl in
  conn_event instance_id
    (with_client (react w (EvDisconnect cl) [LogInfo (LText (js "disconnect client %s") [c_id c])])
       cl (Client (c_id c) (c_thingId c) Null)) (c_thingId c) (js "disconnect").
Proof. reflexivity. Qed.

Lemma identify_world w rid v cl pass cb :
  pending w !! rid = Some (OnIdentify cl pass cb) ->
  after_event (EvReply rid (ReplyOk v)) w =
  let c := the_client w cl in
  conn_event instance_id
    (with_client (finish_call (react w (EvReply rid (ReplyOk v)) [CbAck cb None true]) rid)
       cl (Client (js_or (c_id c) (Str v)) (Str v) (Str pass))) (Str v) (js "connect").
Proof.
  intros Hk. unfold handle. cbn [dispatch]. unfold onReply. cbn [pending record_entry].
  rewrite Hk. reflexivity.
Qed.

(** Once a client disconnects with no identification in flight, every later
    access request in its name carries no key, until aedes authenticates the
    object again. *)
Theorem disconnect_revokes cl evs w w' ev rid token ch :
  is_Some (clients w !! cl) ->
  (forall rid pass cb, pending w !! rid <> Some (OnIdentify cl pass cb)) ->
  forallb (fun ev => negb (authenticates cl ev)) evs = true ->
  run (after_event (EvDisconnect cl) w) evs = Some w' ->
  ((exists pkt cb, ev = EvPublish cl pkt cb) \/ (exists sub cb, ev = EvSubscribe cl sub cb)) ->
  ok_event w' ev ->
  head (trace (after_event ev w')) = Some (Out (CallCanAccess rid token ch)) ->
  token = Null.
Proof.
  intros Hcl Hp Hall Hrun Hev Hok Hhead.
  assert (Hl : logged_out cl (after_event (EvDisconnect cl) w)).
  { rewrite disconnect_world. apply logged_out_start; [|done]. split; [|done]. cbn [clients with_client].
    eexists. by rewrite lookup_insert_eq. }
  destruct (logged_out_run cl evs _ w' Hl Hall Hrun) as [(c & Hc & Hn) _].
  pose proof (handle_transition instance_id w' ev Hok) as Htr.
  remember (after_event ev w') as w2 eqn:Hw2. clear Hw2.
  assert (Hpass : c_password (the_client w' cl) = Null) by (unfold the_client; by rewrite Hc).
  inversion Htr; subst; simplify_eq/=; try done; destruct Hev as [(?&?&?)|(?&?&?)]; simplify_eq/=;
    congruence.
Qed.

(** When the identification is still in flight, the disconnection does not
    last: the reply, if positive, puts the key back, acknowledges the connection,
    and the connect event follows the disconnect event on the stream. *)
Theorem late_identify w cl c rid pass cb v :
  reachable w ->
  clients w !! cl = Some c -> pending w !! rid = Some (OnIdentify cl pass cb) ->
  exists w' r1 r2 info,
    run w [EvDisconnect cl; EvReply rid (ReplyOk v)] = Some w' /\
    clients w' !! cl = Some (Client (js_or (c_id c) (Str v)) (Str v) (Str pass)) /\
    trace w' =
      [Out (CallXadd r2 (Str v) (seconds (clock w)) (js "connect") instance_id);
       Out (CbAck cb None true);
       In (EvReply rid (ReplyOk v));
       Out (CallXadd r1 (c_thingId c) (seconds (clock w)) (js "disconnect") instance_id);
       Out (LogInfo info);
       In (EvDisconnect cl)] ++ trace w.
Proof.
  intros Hr Hc Hk. pose proof (pending_fresh w Hr) as Hfresh.
  assert (Hne : next_rpc w <> rid) by congruence.
  cbn [AdapterSystem.run]. rewrite decide_True by (simpl; by rewrite Hc).
  rewrite disconnect_world. set (w1 := conn_event _ _ _ _).
  assert (Hk1 : pending w1 !! rid = Some (OnIdentify cl pass cb)).
  { subst w1. cbn [pending conn_event start_call with_client react].
    by rewrite lookup_insert_ne. }
  assert (Hc1 : the_client w1 cl = Client (c_id c) (c_thingId c) Null).
  { subst w1. unfold the_client. cbn [clients conn_event start_call with_client react].
    by rewrite lookup_insert_eq, Hc. }
  rewrite decide_True by (by eexists). rewrite (identify_world w1 rid v cl pass cb Hk1), Hc1.
  do 4 eexists. split; [reflexivity|]. split.
  - cbn [clients conn_event start_call with_client finish_call react]. by rewrite lookup_insert_eq.
  - subst w1. cbn [conn_event start_call trace with_client finish_call react clock fmap list_fmap app next_rpc].
    unfold the_client. rewrite Hc. reflexivity.
Qed.

End Life.

(** ** Witnesses *)

(** A connection, a publication and a subscription that await their replies. *)
Definition sample_waiting : list (@event record_codec) :=
  sample_connect ++
  [@EvPublish record_codec 0 sample_packet 11; @EvSubscribe record_codec 0 sample_subscription 12;
   @EvAuthenticate record_codec 0 None (Some (js "k1")) 13].

Lemma sample_waiting_reachable : reachable (js "mqtt-1") (after sample_waiting).
Proof. apply after_reachable. vm_compute. reflexivity. Qed.

Lemma requests_drain_witness :
  exists rids w', run (js "mqtt-1") (after sample_waiting)
      (deliver (fun _ => ReplyOk (js "t1")) rids) = Some w' /\
    pending w' = ∅ /\ answers (trace w') ≡ₚ [13; 12; 11; 10]%nat.
Proof.
  exact (proj1 (requests_drain (js "mqtt-1") (fun _ => ReplyOk (js "t1")) _ sample_waiting_reachable)).
Defined.

(** The thing disconnects; a late publication of the same client object. *)
Definition sample_late : @event record_codec := @EvPublish record_codec 0 sample_packet 11.

Lemma sample_late_call :
  head (trace (final (handle (js "mqtt-1") sample_late
     (final (handle (js "mqtt-1") (@EvDisconnect record_codec 0) (after sample_connect))))))
  = Some (Out (CallCanAccess 3 Null (js "42"))).
Proof. vm_eq. Qed.

Lemma sample_connect_idle rid pass cb :
  pending (after sample_connect) !! rid <> Some (OnIdentify 0 pass cb).
Proof.
  intros H. assert (Hm : pending (after sample_connect) = {[1%nat := OnPublish]}) by vm_eq.
  rewrite Hm in H. by apply lookup_singleton_Some in H as [_ H].
Qed.

Lemma disconnect_revokes_witness :
  exists token, head (trace (final (handle (js "mqtt-1") sample_late
      (final (handle (js "mqtt-1") (@EvDisconnect record_codec 0) (after sample_connect))))))
    = Some (Out (CallCanAccess 3 token (js "42"))) /\ token = Null.
Proof.
  exists Null. split; [exact sample_late_call|].
  refine (disconnect_revokes (js "mqtt-1") 0%nat [] (after sample_connect) _ sample_late 3%nat _ _
    _ sample_connect_idle eq_refl eq_refl _ _ sample_late_call).
  - apply (bool_decide_unpack _). vm_compute. exact I.
  - left. by eexists _, _.
  - apply (bool_decide_unpack _). vm_compute. exact I.
Defined.

Definition sample_authenticating : list (@event record_codec) :=
  [@EvClient record_codec 0 (Str (js "dev1"));
   @EvAuthenticate record_codec 0 None (Some (js "k1")) 10].

Lemma sample_authenticating_world :
  runs sample_authenticating = true /\
  clients (after sample_authenticating) !! 0%nat = Some (new_client (Str (js "dev1"))) /\
  pending (after sample_authenticating) !! 0%nat = Some (OnIdentify 0 (js "k1") 10).
Proof. split_and!; vm_eq. Qed.

Lemma late_identify_witness :
  exists w' r1 r2 info t,
    run (js "mqtt-1") (after sample_authenticating)
      [@EvDisconnect record_codec 0; @EvReply record_codec 0 (ReplyOk (js "t1"))] = Some w' /\
    clients w' !! 0%nat = Some (Client (Str (js "dev1")) (Str (js "t1")) (Str (js "k1"))) /\
    trace w' =
      [Out (CallXadd r2 (Str (js "t1")) 0 (js "connect") (js "mqtt-1"));
       Out (CbAck 10 None true);
       In (EvReply 0 (ReplyOk (js "t1")));
       Out (CallXadd r1 Undefined 0 (js "disconnect") (js "mqtt-1"));
       Out (LogInfo info);
       In (EvDisconnect 0)] ++ t.
Proof.
  destruct sample_authenticating_world as (Hr & Hc & Hk).
  destruct (late_identify (js "mqtt-1") _ _ _ _ _ _ (js "t1") (after_reachable _ Hr) Hc Hk)
    as (w' & r1 & r2 & info & Hrun & Hcl & Ht).
  exists w', r1, r2, info. eexists. split; [exact Hrun|]. split; [exact Hcl|exact Ht].
Defined.
