(* ===== verification/AdapterBridge.v ===== *)
(** * The bridge between MQTT and NATS

    Loop freedom: no adapter forwards back to MQTT what an adapter published on
    NATS, because the published messages decode, with protocol [mqtt].  The
    codec is used through its interface only; its law asks for strings with a
    UTF-8 encoding, so the well-formedness of the texts that come in is carried
    through the string operations. *)

From S2P Require Import Prelude JsString JsRegExp Topics Messages Adapter AdapterSystem AdapterSafety AdapterProperties.

Local Open Scope Z_scope.

(** ** Well-formed text *)

(** Units that are no surrogates. *)
Definition plain (c : Z) : bool := is_unit c && negb (is_lead c) && negb (is_trail c).

Lemma well_formed_app_plain c a b :
  plain c = true -> well_formed (a ++ c :: b) = well_formed a && well_formed b.
Proof.
  intros Hc. assert (Hl : is_unit c = true /\ is_lead c = false /\ is_trail c = false).
  { unfold plain in Hc. by destruct (is_unit c), (is_lead c), (is_trail c). }
  destruct Hl as (Hu & Hl & Ht). remember (length a) as n eqn:Hn. revert a Hn.
  induction (lt_wf n) as [n _ IH]. intros [|x [|y a]] Hn; simpl in *.
  - by rewrite Hl, Ht, Hu.
  - rewrite Hl, Ht, Hu. destruct (is_lead x); [done|]. by destruct (is_unit x), (is_trail x).
  - destruct (is_lead x).
    + rewrite (IH (length a)) by lia. by rewrite andb_assoc.
    + change (is_unit x && negb (is_trail x) && well_formed ((y :: a) ++ c :: b)
              = is_unit x && negb (is_trail x) && well_formed (y :: a) && well_formed b).
      rewrite (IH (length (y :: a))) by (simpl; lia). by rewrite andb_assoc.
Qed.

Lemma well_formed_split c s :
  plain c = true -> well_formed s = true -> Forall (fun p => well_formed p = true) (split c s).
Proof.
  intros Hc Hs. rewrite <- (join_split c s) in Hs.
  induction (split c s) as [|p ps IH]; [constructor|].
  destruct (decide (ps = [])) as [->|Hne]; [by repeat constructor|].
  rewrite join_cons, well_formed_app_plain in Hs by done.
  apply andb_true_iff in Hs as [Hp Hps]. constructor; auto.
Qed.

Lemma well_formed_join c ps :
  plain c = true -> Forall (fun p => well_formed p = true) ps -> well_formed (join c ps) = true.
Proof.
  intros Hc. induction 1 as [|p ps Hp _ IH]; [done|].
  destruct (decide (ps = [])) as [->|Hne]; [done|].
  by rewrite join_cons, well_formed_app_plain, Hp by done.
Qed.

Lemma well_formed_replace_first c d s :
  plain c = true -> plain d = true -> well_formed (replace_first c d s) = well_formed s.
Proof.
  intros Hc Hd. destruct (decide (c ∈ s)) as [Hin|Hn].
  - apply list_elem_of_split_l in Hin as (a & b & -> & Ha).
    by rewrite replace_first_app, !well_formed_app_plain.
  - by rewrite replace_first_free.
Qed.

Lemma well_formed_channel topic ch :
  well_formed topic = true -> channel_of topic = Some ch -> well_formed ch = true.
Proof.
  intros Hwf Hch. unfold channel_of in Hch. rewrite parseTopic_match in Hch.
  assert (Hm : exists word m, topic_match word topic = Some m /\ mjoin (m !! 1%nat) = Some ch).
  { destruct (topic_match (js "control") topic) eqn:E; [by eauto|].
    destruct (topic_match (js "messages") topic) eqn:E'; [by eauto|done]. }
  destruct Hm as (word & m & (_ & id & rest & _ & -> & -> & _)%topic_match_iff & [= <-]).
  unfold mqtt_topic in Hwf.
  change (js "channels/" ++ ?x) with (js "channels" ++ SLASH :: x) in Hwf.
  rewrite !well_formed_app_plain in Hwf by done.
  by apply andb_true_iff in Hwf as [_ [? _]%andb_true_iff].
Qed.

Lemma well_formed_elements topic :
  well_formed topic = true -> Forall (fun p => well_formed p = true) (subtopic_elements topic).
Proof.
  intros Hwf. apply Forall_forall. unfold subtopic_elements, nonempty_parts.
  intros e [_ He]%list_elem_of_filter. revert e He. apply Forall_forall.
  apply well_formed_split; [done|]. apply well_formed_join; [done|].
  by apply Forall_drop, well_formed_split.
Qed.

Lemma well_formed_msgtopic topic :
  well_formed topic = true -> well_formed (proto_default (of_option (msgtopic topic))) = true.
Proof.
  intros Hwf. destruct (msgtopic topic) as [t|] eqn:Ht; [|done]. simpl.
  apply (well_formed_split SLASH) in Hwf; [|done]. unfold msgtopic in Ht.
  apply (Forall_lookup_1 _ _ 0%nat _ (Forall_take _ _ _ (Forall_drop _ _ _ Hwf)) Ht).
Qed.

Lemma well_formed_content_type es :
  Forall (fun p => well_formed p = true) es ->
  well_formed (fst (split_content_type es)) = true /\
  well_formed (join DOT (snd (split_content_type es))) = true.
Proof.
  intros Hes. split; [|apply well_formed_join; [done|by apply split_content_type_Forall]].
  unfold split_content_type. destruct (_ && _); [simpl|done].
  unfold decode_content_type. rewrite !well_formed_replace_first by done.
  destruct (es !! _) as [e|] eqn:He; [|done]. simpl.
  exact (Forall_lookup_1 _ _ _ _ Hes He).
Qed.

(** ** Published messages *)

Section Bridge.
Context {C : MessageCodec} {HC : MessageCodecOk C}.
Variable instance_id : jsstr.

Local Abbreviation reachable := (reachable instance_id).
Local Abbreviation transition := (transition instance_id).

(** The texts an event brings in are well formed: aedes and gRPC decode them
    from UTF-8. *)
Definition text (v : jsval) : bool := well_formed (proto_default v).

Definition texts_in (ev : event) : bool :=
  match ev with
  | EvClient _ id => text id
  | EvPublish _ pkt _ => well_formed (p_topic pkt)
  | EvReply _ (ReplyOk v) => well_formed v
  | _ => true
  end.

Definition input_texts (t : list entry) : Prop :=
  forall ev, In ev ∈ t -> texts_in ev = true.

Definition client_text (c : client) : Prop := text (c_id c) = true /\ text (c_thingId c) = true.

(** Messages an adapter may put on NATS. *)
Definition own_message (msg : wire) : Prop :=
  exists o, msg = encode o /\ wf_message (message_of o) = true /\ mo_protocol o = js "mqtt".

Record texts_ok (w : world) : Prop := {
  texts_clients : forall cl c, clients w !! cl = Some c -> client_text c;
  texts_trace : forall subject msg, Out (NatsPublish subject msg) ∈ trace w -> own_message msg
}.

Lemma texts_react w ev es :
  texts_ok w -> (forall subject msg, NatsPublish subject msg ∈ es -> own_message msg) ->
  texts_ok (react w ev es).
Proof.
  intros [H1 H2] Hes. split; [done|]. cbn [trace react]. intros subject msg.
  rewrite elem_of_app, elem_of_cons. intros [(e & [= <-] & He)%list_elem_of_fmap|[?|?]]; [|done|]; eauto.
Qed.

Lemma texts_start w mk k :
  texts_ok w -> (forall subject msg, mk (next_rpc w) <> NatsPublish subject msg) ->
  texts_ok (start_call w mk k).
Proof.
  intros [H1 H2] Hmk. split; [done|]. cbn [trace start_call]. intros subject msg.
  rewrite elem_of_cons. intros [[= Heq]|?]; [by destruct (Hmk subject msg)|eauto].
Qed.

Lemma texts_client w cl c : texts_ok w -> client_text c -> texts_ok (with_client w cl c).
Proof.
  intros [H1 H2] Hc. split; [|done]. cbn [clients with_client].
  intros cl' c' [[_ <-]|[_ H]]%lookup_insert_Some; eauto.
Qed.

Lemma texts_finish w rid : texts_ok w -> texts_ok (finish_call w rid).
Proof. by intros [H1 H2]. Qed.

Lemma the_client_text w cl : texts_ok w -> client_text (the_client w cl).
Proof.
  intros [H1 _]. unfold the_client. destruct (clients w !! cl) eqn:E; [by eapply H1|done].
Qed.

Lemma js_or_text v s : text v = true -> well_formed s = true -> text (js_or v (Str s)) = true.
Proof. intros Hv Hs. unfold js_or. by destruct (truthy v). Qed.

(** The message of a callback in flight is well formed. *)
Lemma published_own w cl ch pkt :
  texts_ok w -> well_formed (p_topic pkt) = true -> channel_of (p_topic pkt) = Some ch ->
  let split := split_content_type (subtopic_elements (p_topic pkt)) in
  own_message (encode (published_obj (the_client w cl) ch (of_option (msgtopic (p_topic pkt)))
                         (snd split) (fst split) pkt)).
Proof.
  intros Hw Hwf Hch split. eexists. split; [reflexivity|]. split; [|done].
  destruct (the_client_text w cl Hw) as [Hid Hth].
  destruct (well_formed_content_type _ (well_formed_elements _ Hwf)) as [Hct Hst].
  unfold wf_message. cbn.
  rewrite (well_formed_channel _ _ Hwf Hch), well_formed_msgtopic by done.
  fold (text (c_id (the_client w cl))) (text (c_thingId (the_client w cl))).
  subst split. by rewrite Hst, Hct, Hid, Hth.
Qed.

(** The effects are listed, and none of them is a NATS message. *)
Ltac no_publish :=
  intros ? ?; rewrite ?elem_of_cons; intros Hx;
  repeat (destruct Hx as [Hx|Hx]; [discriminate Hx|]); by apply elem_of_nil in Hx.

Lemma texts_transition w ev w' :
  just_ok w -> input_texts (In ev :: trace w) -> texts_ok w -> transition w ev w' -> texts_ok w'.
Proof.
  intros Hj Hin Hw Htr. pose proof (Hin ev ltac:(by left)) as Hev.
  inversion Htr; subst; unfold conn_event;
    repeat first [apply texts_start; [|done] | apply texts_finish];
    try (apply texts_react; [done|no_publish]).
  - apply texts_client; [apply texts_react; [done|]; no_publish|].
    by split.
  - apply texts_client; [apply texts_react; [done|no_publish]|by apply the_client_text].
  - destruct (just_pending _ Hj _ _ H) as (Hk & Hch & _ & Hpub & _).
    injection Hk as -> -> -> ->. apply texts_react; [done|].
    intros subject msg'. rewrite !elem_of_cons. intros [?|[[= -> ->]|[?|?%elem_of_nil]]]; try done.
    apply published_own; [done| |done]. apply (Hin (EvPublish cl pkt cb)). by right.
  - apply texts_client.
    + apply texts_finish, texts_react; [done|no_publish].
    + split; [|done]. apply js_or_text; [|done]. by apply the_client_text.
  - destruct (texts_react w (EvTick now) [] Hw ltac:(no_publish)) as [H1 H2]. by split.
Qed.

Lemma texts_reachable w : reachable w -> input_texts (trace w) -> texts_ok w.
Proof.
  intros Hr. pattern w. revert w Hr. apply reachable_transition_ind.
  - intros _. split; [done|]. intros ?? ?%elem_of_nil. done.
  - intros w ev w' Hr IH Hok Htr Hin.
    assert (Hsub : In ev :: trace w ⊆ trace w').
    { destruct (transition_grows _ _ _ _ Htr) as [es ->]. intros x Hx. apply elem_of_app. by right. }
    eapply texts_transition; [by apply (just_reachable instance_id)| |apply IH|exact Htr].
    + intros e He. apply Hin, Hsub, He.
    + intros e He. apply Hin, Hsub. by right.
Qed.

(** What any adapter publishes on NATS, every adapter (itself included)
    receives without throwing and without any effect: it is not forwarded back
    to MQTT, whatever the codec, provided the texts that came in had a UTF-8
    encoding. *)
Theorem own_messages_dropped w subject msg instance_id' w' :
  reachable w -> input_texts (trace w) ->
  Out (NatsPublish subject msg) ∈ trace w ->
  handle instance_id' (EvNats msg) w' = Done tt (record_entry (In (EvNats msg)) w').
Proof.
  intros Hr Hin Hpub.
  destruct (texts_trace _ (texts_reachable w Hr Hin) _ _ Hpub) as (o & -> & Hwf & Hp).
  unfold handle. cbn [dispatch]. unfold onNatsMessage. rewrite decode_encode by done.
  cbn [message_of m_protocol]. by rewrite Hp, bool_decide_eq_false_2 by (intros H; by apply H).
Qed.

(** C14: a message of another protocol on NATS becomes exactly one MQTT packet (QoS 2,
    not retained, same payload); and a client that publishes the packet back is
    asked for access to the same channel, and will publish under the same channel
    subject, with the same subtopic and content type.  This is so when the channel
    id is not empty and has no slash and no line terminator; when each element of
    the subtopic is plain ([element_ok]: not empty, no slash, dot or line
    terminator, no wildcard unless it stands alone, and not beginning with
    [control]); and when the content type survives in the topic ([ct_carried]):
    its encoding is a plain element too, with no underscore before the slash and
    no dash before the plus, or there is none and the subtopic does not end like
    one ([octet_stream_altered]: [application/octet-stream] does not survive). *)
Theorem foreign_message_forwarded o es w :
  wf_message (message_of o) = true -> mo_protocol o <> js "mqtt" ->
  mo_channel o <> [] -> (SLASH ∉ mo_channel o) -> lt_free (mo_channel o) = true ->
  mo_subtopic o = join DOT es -> Forall element_ok es -> ct_carried es (mo_contentType o) ->
  exists p,
    handle instance_id (EvNats (encode o)) w =
      Done tt (react w (EvNats (encode o)) [AedesPublish p]) /\
    op_qos p = 2 /\ op_retain p = false /\ op_payload p = mo_payload o /\
    forall w1 cl cb, let pkt := Packet (op_topic p) (op_payload p) in
      handle instance_id (EvPublish cl pkt cb) w1 =
        Done tt (start_call (react w1 (EvPublish cl pkt cb) [])
          (fun rid => CallCanAccess rid (c_password (the_client w1 cl)) (mo_channel o))
          (OnAuthorizePublish cl (mo_channel o) (Str (js "messages")) es (mo_contentType o)
             (channelTopic (mo_channel o) es) pkt cb)).
Proof.
  intros Hwf Hp Hne Hsl Hlt Hst Hes Hct.
  destruct (outbound_inbound _ es _ Hne Hsl Hlt Hes Hct) as (Hch & Hmt & Hel & Hsplit).
  eexists. split.
  - unfold handle. cbn [dispatch]. unfold onNatsMessage. rewrite decode_encode by done.
    rewrite bool_decide_eq_true_2 by done. reflexivity.
  - cbn [op_qos op_retain op_payload op_topic message_of m_channel m_subtopic m_contentType m_payload].
    split_and!; [done..|]. intros w1 cl cb. unfold handle. cbn [dispatch].
    unfold authorizePublish. cbn [p_topic]. rewrite Hst.
    pose proof (parseTopic_channel (outbound_topic (mo_channel o) (join DOT es) (mo_contentType o))) as Hpt.
    destruct (parseTopic _) as [channel|]; [|congruence].
    rewrite Hch in Hpt. injection Hpt as <-. cbv beta iota delta [bind get_client].
    rewrite Hel, Hmt, Hsplit. reflexivity.
Qed.

End Bridge.

(** ** Witnesses *)

Local Abbreviation sample_run := (sample_connect ++ sample_publish).

Definition entry_texts (x : @entry record_codec) : bool :=
  match x with In ev => texts_in ev | Out _ => true end.

Lemma texts_check t : forallb entry_texts t = true -> input_texts t.
Proof.
  rewrite forallb_forall. intros H ev Hin. apply (H (In ev)). by apply list_elem_of_In.
Qed.

Lemma sample_run_texts : input_texts (trace (after sample_run)).
Proof. apply texts_check. vm_compute. reflexivity. Qed.

Lemma sample_run_published :
  Out (NatsPublish (js "channel.42.temp") sample_message) ∈ trace (after sample_run).
Proof. exact (list_elem_of_lookup_2 _ 1%nat _ sample_published). Qed.

Lemma own_messages_dropped_witness :
  handle (js "mqtt-2") (@EvNats record_codec sample_message) init_world =
  Done tt (record_entry (In (@EvNats record_codec sample_message)) init_world).
Proof.
  exact (own_messages_dropped (js "mqtt-1") (after sample_run) (js "channel.42.temp") sample_message
    (js "mqtt-2") init_world sample_publish_reachable sample_run_texts sample_run_published).
Defined.

Definition sample_foreign : msg_obj := {|
  mo_publisher := Str (js "t9"); mo_devname := Undefined; mo_channel := js "42"; mo_topic := Undefined;
  mo_subtopic := js "temp.room1"; mo_contentType := js "application/senml+json";
  mo_protocol := js "http"; mo_payload := [91; 93] |}.

Lemma foreign_message_forwarded_witness :
  exists p, @handle record_codec (js "mqtt-1") (EvNats (@encode record_codec sample_foreign)) init_world =
    Done tt (react init_world (EvNats (@encode record_codec sample_foreign)) [AedesPublish p])
  /\ op_qos p = 2.
Proof.
  destruct (@foreign_message_forwarded record_codec record_codec_ok (js "mqtt-1") sample_foreign
    [js "temp"; js "room1"] init_world) as (p & H & Hq & _).
  - vm_compute. reflexivity.
  - vm_compute. discriminate.
  - vm_compute. discriminate.
  - vm_decide.
  - vm_compute. reflexivity.
  - vm_compute. reflexivity.
  - vm_decide.
  - right. vm_decide.
  - exists p. split; [exact H|exact Hq].
Defined.
