(* ===== verification/MqttConnect.v ===== *)
(** * The CONNECT packet reader of the nginx proxy

    [parsePackage] and [calcLen] of [docker/ssl/authorization.js], which take
    the password out of the first MQTT packet of a TLS connection, and the wire
    format of a CONNECT packet (MQTT 3.1.1, as the comment of the source lays
    it out) to compare them with. *)

From S2P Require Import Prelude JsString JsNumber.

Local Open Scope Z_scope.

(** ** The reader *)

(** What the stream code does to its session. *)
Inductive session_effect :=
| SAllow
| SDeny
| SOff              (* [s.off('upload')] *)
| SError (msg : jsstr).

#[export] Instance session_effect_eq_dec : EqDecision session_effect.
Proof. solve_decision. Defined.

(** A call of njs code: the session effects in order, and the value returned,
    [None] if a TypeError was thrown. *)
Definition njs (A : Type) : Type := list session_effect * option A.

(** [calcLen]: [msb] and [lsb] are hexadecimal strings. *)
Definition calcLen (msb lsb : jsstr) : option Z :=
  let lsb' := if js_lt (StringToNumber lsb) (of_Z 2) then js "0" ++ lsb else lsb in
  parseInt16 (msb ++ lsb').

(** The loop over the bytes of the remaining length: [fuel] is the number of
    rounds left before [remaining_len] reaches 5. *)
Fixpoint len_size_loop (data : jsstr) (fuel remaining_len len_size : nat) : nat :=
  match fuel with
  | O => len_size
  | S fuel' =>
      match codePointAt data remaining_len with
      | Some b =>
          if 128 <? b then len_size_loop data fuel' (S remaining_len) (S len_size) else len_size
      | None => len_size
      end
  end.

Definition len_size (data : jsstr) : nat := len_size_loop data 4 1 1.

(** Positions: [None] is NaN, which reads position 0. *)
Definition pos_add (shift : option nat) (len : option Z) : option nat :=
  match shift, len with
  | Some p, Some n => Some (p + Z.to_nat n)%nat
  | _, _ => None
  end.

Definition hex_at (data : jsstr) (pos : option nat) : option jsstr :=
  toString16 <$> codePointAt data (default 0%nat pos).

Definition len_bytes_num : Z := 2.

(** The loop over the length-prefixed fields: [n] rounds are left.  The result
    is the position after the last length and that length; [None] when
    [undefined.toString] throws. *)
Fixpoint fields_loop (data : jsstr) (n : nat) (shift : option nat) (len : option Z) :
    option (option nat * option Z) :=
  match n with
  | O => Some (shift, len)
  | S n' =>
      match hex_at data shift, hex_at data (pos_add shift (Some 1)) with
      | Some len_msb, Some len_lsb =>
          let len := calcLen len_msb len_lsb in
          let shift := pos_add shift (Some len_bytes_num) in
          let shift := match n' with O => shift | S _ => pos_add shift len end in
          fields_loop data n' shift len
      | _, _ => None
      end
  end.

Definition flags_pos (data : jsstr) : nat := 1 + len_size data + 2 + 4 + 1.

(** [undefined < 192] and [196 <= undefined] are both false. *)
Definition flags_lt_192 (flags : option Z) : bool :=
  match flags with Some f => f <? 192 | None => false end.
Definition shift_flags (flags : option Z) : nat :=
  match flags with Some f => if 196 <=? f then 5 else 3 | None => 3 end.

Definition parsePackage (data : jsstr) : njs jsstr :=
  let flags_pos := flags_pos data in
  let flags := codePointAt data flags_pos in
  if flags_lt_192 flags then
    ([SError (js "MQTT username or password not provided")], Some [])
  else
    let shift := Some (flags_pos + 1 + 2)%nat in
    match fields_loop data (shift_flags flags) shift None with
    | None => ([], None)
    | Some (shift, len) =>
        ([], Some (substring data (default 0%nat shift) (default 0%nat (pos_add shift len))))
    end.

(** ** The wire format *)

Record connect := Connect {
  cp_clean : bool;
  cp_will : option (jsstr * jsstr * Z * bool);   (* topic, message, QoS, retain *)
  cp_keepalive : Z;
  cp_client_id : jsstr;
  cp_username : jsstr;
  cp_password : jsstr
}.

(** Two length bytes, most significant first, then the field. *)
Definition field (s : jsstr) : jsstr :=
  let n := Z.of_nat (length s) in n / 256 :: n mod 256 :: s.

Definition connect_flags (c : connect) : Z :=
  192
  + match cp_will c with
    | Some (_, _, qos, retain) => 4 + 8 * qos + (if retain then 32 else 0)
    | None => 0
    end
  + (if cp_clean c then 2 else 0).

Definition will_fields (c : connect) : list jsstr :=
  match cp_will c with Some (t, m, _, _) => [t; m] | None => [] end.

(** The payload fields before the password. *)
Definition fields_before (c : connect) : list jsstr :=
  cp_client_id c :: will_fields c ++ [cp_username c].

Definition variable_part (c : connect) : jsstr :=
  [0; 4] ++ js "MQTT" ++ [4; connect_flags c; cp_keepalive c / 256; cp_keepalive c mod 256]
  ++ concat (field <$> fields_before c) ++ field (cp_password c).

(** The remaining length: base 128, least significant first, the top bit marks
    a continuation; at most four bytes. *)
Fixpoint encode_length (fuel : nat) (n : Z) : jsstr :=
  match fuel with
  | O => []
  | S fuel' =>
      if n / 128 =? 0 then [n mod 128] else (n mod 128 + 128) :: encode_length fuel' (n / 128)
  end.

(** A CONNECT packet, possibly followed by more data in the same chunk. *)
Definition connect_packet (c : connect) (more : jsstr) : jsstr :=
  16 :: encode_length 4 (Z.of_nat (length (variable_part c))) ++ variable_part c ++ more.

Definition byte (b : Z) : Prop := 0 <= b < 256.

Definition connect_wf (c : connect) : Prop :=
  Forall (fun f => Forall byte f /\ Z.of_nat (length f) < 65536) (fields_before c ++ [cp_password c]) /\
  0 <= cp_keepalive c < 65536 /\
  match cp_will c with Some (_, _, qos, _) => 0 <= qos <= 2 | None => True end /\
  Z.of_nat (length (variable_part c)) < 128 ^ 4.

(** Lengths that [calcLen] reads back: the low byte is written with one
    hexadecimal digit, and not padded, exactly from 2 to 15. *)
Definition length_readable (n : Z) : Prop := n < 256 \/ n mod 256 < 2 \/ 16 <= n mod 256.

(** ** [calcLen] *)

Definition padded (lsb : Z) : jsstr :=
  let h := toString16 lsb in
  if js_lt (StringToNumber h) (of_Z 2) then js "0" ++ h else h.

Definition padded_ok (l : Z) : bool :=
  forallb is_hex (padded l) && negb (bool_decide (padded l = []))
  && (digits_value 16 (padded l) =? l)
  && bool_decide (length (padded l) = if (2 <=? l) && (l <=? 15) then 1%nat else 2%nat).

Lemma padded_all : all_bytes padded_ok = true.
Proof. vm_compute. reflexivity. Qed.

Lemma calcLen_bytes m l :
  0 <= m -> 0 <= l < 256 ->
  calcLen (toString16 m) (toString16 l) =
  Some (if (2 <=? l) && (l <=? 15) then m * 16 + l else m * 256 + l).
Proof.
  intros Hm Hl. pose proof (all_bytes_spec _ padded_all l Hl) as Hp.
  unfold padded_ok in Hp. zbool.
  destruct (toString16_spec m Hm) as (Hne & Hh & Hv).
  change (calcLen (toString16 m) (toString16 l)) with (parseInt16 (toString16 m ++ padded l)).
  rewrite parseInt16_hex.
  - rewrite digits_value_app, Hv.
    repeat match goal with H : _ = _ |- _ => rewrite H; clear H end.
    destruct ((2 <=? l) && (l <=? 15)); f_equal; lia.
  - by destruct (toString16 m).
  - apply Forall_app. split; [done|]. apply Forall_forall. intros x Hx.
    match goal with H : forallb _ _ = true |- _ => rewrite forallb_forall in H; apply H end.
    by apply list_elem_of_In.
Qed.

(** The length that the reader computes for a field of length [n]. *)
Definition read_length (n : Z) : Z :=
  if (2 <=? n mod 256) && (n mod 256 <=? 15) then n / 256 * 16 + n mod 256 else n.

Lemma read_length_readable n : 0 <= n -> length_readable n -> read_length n = n.
Proof.
  intros Hn Hr. unfold read_length. pose proof (Z.div_mod n 256 ltac:(lia)).
  destruct ((2 <=? n mod 256) && (n mod 256 <=? 15)) eqn:E; [|done].
  zbool. destruct Hr as [Hr|[Hr|Hr]]; [|lia..].
  rewrite Z.div_small by lia. lia.
Qed.

(** ** Reading one field *)

Lemma hex_at_byte data p b :
  data !! p = Some b -> byte b -> hex_at data (Some p) = Some (toString16 b).
Proof. intros Hd Hb. unfold hex_at. simpl. by rewrite (codePointAt_byte _ _ b). Qed.

Lemma field_bytes n : 0 <= n < 65536 -> byte (n / 256) /\ byte (n mod 256).
Proof.
  intros Hn. split; [|apply Z.mod_pos_bound; lia].
  split; [apply Z.div_pos; lia|apply Z.div_lt_upper_bound; lia].
Qed.

Lemma read_field pre f post :
  Z.of_nat (length f) < 65536 ->
  let data := pre ++ field f ++ post in
  let p := Some (length pre) in
  exists m l, hex_at data p = Some m /\ hex_at data (pos_add p (Some 1)) = Some l /\
    calcLen m l = Some (read_length (Z.of_nat (length f))).
Proof.
  intros Hf data p. set (n := Z.of_nat (length f)) in *.
  destruct (field_bytes n ltac:(lia)) as [Hm Hl].
  exists (toString16 (n / 256)), (toString16 (n mod 256)). subst data p.
  change (field f ++ post) with (n / 256 :: n mod 256 :: f ++ post). split_and!.
  - apply hex_at_byte; [|done]. by rewrite list_lookup_middle.
  - apply hex_at_byte; [|done]. rewrite lookup_app_r by lia.
    by replace (length pre + Z.to_nat 1 - length pre)%nat with 1%nat by lia.
  - rewrite calcLen_bytes by (unfold byte in *; lia). f_equal. unfold read_length.
    pose proof (Z.div_mod n 256 ltac:(lia)). destruct (_ && _); lia.
Qed.

(** ** The loop over the fields *)

Lemma length_field f : length (field f) = S (S (length f)).
Proof. done. Qed.

Lemma fields_loop_spec fs g pre post len :
  Forall (fun f => Z.of_nat (length f) < 65536 /\ length_readable (Z.of_nat (length f))) fs ->
  Z.of_nat (length g) < 65536 ->
  fields_loop (pre ++ concat (field <$> fs) ++ field g ++ post) (S (length fs))
    (Some (length pre)) len =
  Some (Some (length pre + length (concat (field <$> fs)) + 2)%nat,
        Some (read_length (Z.of_nat (length g)))).
Proof.
  intros Hfs Hg. revert pre len. induction Hfs as [|f fs [Hf Hr] _ IH]; intros pre len.
  - destruct (read_field pre g post Hg) as (m & l & Hm & Hl & Hc).
    cbn [fields_loop length]. simpl concat. rewrite app_nil_l, Hm, Hl, Hc. simpl.
    change (Z.to_nat len_bytes_num) with 2%nat. do 3 f_equal. lia.
  - change (concat (field <$> f :: fs)) with (field f ++ concat (field <$> fs)).
    set (rest := concat (field <$> fs) ++ field g ++ post).
    destruct (read_field pre f rest Hf) as (m & l & Hm & Hl & Hc).
    cbn [fields_loop]. rewrite <- app_assoc. fold rest.
    rewrite Hm, Hl, Hc, read_length_readable by (done || lia).
    assert (pos_add (pos_add (Some (length pre)) (Some len_bytes_num)) (Some (Z.of_nat (length f)))
      = Some (length (pre ++ field f))) as ->.
    { simpl. change (Z.to_nat len_bytes_num) with 2%nat.
      rewrite length_app, length_field, Nat2Z.id. f_equal. lia. }
    unfold rest. rewrite app_assoc. cbn [length].
    rewrite IH, !length_app. do 3 f_equal. lia.
Qed.

(** ** The remaining length *)

Lemma encode_length_spec fuel n :
  0 <= n -> n < 128 ^ Z.of_nat fuel -> fuel <> O ->
  exists conts last, encode_length fuel n = conts ++ [last] /\
    Forall (fun b => 128 <= b < 256) conts /\ 0 <= last < 128 /\ (length conts < fuel)%nat.
Proof.
  revert n. induction fuel as [|fuel IH]; intros n Hn Hlt Hf; [done|].
  cbn [encode_length]. pose proof (Z.mod_pos_bound n 128 ltac:(lia)) as Hm.
  destruct (Z.eqb_spec (n / 128) 0) as [Hz|Hz].
  - exists [], (n mod 128). split_and!; [done|constructor|lia..|simpl; lia].
  - assert (Hlt' : n / 128 < 128 ^ Z.of_nat fuel).
    { apply Z.div_lt_upper_bound; [lia|].
      replace (Z.of_nat (S fuel)) with (1 + Z.of_nat fuel) in Hlt by lia.
      rewrite Z.pow_add_r in Hlt; lia. }
    destruct (IH (n / 128)) as (conts & last & -> & Hc & Hl & Hlen).
    + apply Z.div_pos; lia.
    + done.
    + intros ->. change (128 ^ Z.of_nat 0) with 1 in Hlt'. pose proof (Z.div_pos n 128). lia.
    + exists (n mod 128 + 128 :: conts), last. split_and!; [done| |lia..|simpl; lia].
      constructor; [lia|done].
Qed.

Lemma len_size_loop_spec pre conts last rest fuel s :
  Forall (fun b => 128 < b < 256) conts -> 0 <= last <= 128 -> (length conts < fuel)%nat ->
  len_size_loop (pre ++ conts ++ last :: rest) fuel (length pre) s = (s + length conts)%nat.
Proof.
  intros Hc Hl. revert pre fuel s.
  induction Hc as [|b conts Hb _ IH]; intros pre fuel s Hf; (destruct fuel as [|fuel]; [simpl in Hf; lia|]).
  - cbn [len_size_loop]. simpl app. rewrite (codePointAt_byte _ _ last).
    + destruct (Z.ltb_spec 128 last); [lia|]. simpl. lia.
    + by rewrite list_lookup_middle.
    + lia.
  - cbn [len_size_loop]. rewrite (codePointAt_byte _ _ b).
    + destruct (Z.ltb_spec 128 b); [|lia].
      assert (pre ++ (b :: conts) ++ last :: rest = (pre ++ [b]) ++ conts ++ last :: rest) as ->
        by (by rewrite <- app_assoc).
      replace (S (length pre)) with (length (pre ++ [b])) by (rewrite length_app; simpl; lia).
      rewrite IH by (simpl in Hf; lia). simpl. lia.
    + by apply list_lookup_middle.
    + lia.
Qed.

Lemma len_size_connect conts last rest :
  Forall (fun b => 128 < b < 256) conts -> 0 <= last < 128 -> (length conts < 4)%nat ->
  len_size (16 :: conts ++ last :: rest) = S (length conts).
Proof.
  intros Hc Hl Hlen. unfold len_size.
  change (16 :: conts ++ last :: rest) with ([16] ++ conts ++ last :: rest).
  by rewrite (len_size_loop_spec [16]) by (done || lia).
Qed.

(** ** The whole packet *)

Lemma connect_flags_range c :
  connect_wf c -> 192 <= connect_flags c < 256 /\
  shift_flags (Some (connect_flags c)) = S (length (fields_before c)).
Proof.
  intros (_ & _ & Hq & _). unfold connect_flags, shift_flags, fields_before, will_fields.
  destruct (cp_will c) as [[[[t m] qos] [|]]|], (cp_clean c); simpl length.
  all: match goal with |- _ /\ (if 196 <=? ?f then _ else _) = _ =>
         split; [lia|]; destruct (Z.leb_spec 196 f); first [done | lia] end.
Qed.

(** What precedes the flags byte, for [k] bytes of remaining length. *)
Definition fixed_part (lb : jsstr) : jsstr := 16 :: lb ++ [0; 4] ++ js "MQTT" ++ [4].

Lemma length_fixed_part lb : length (fixed_part lb) = (1 + length lb + 2 + 4 + 1)%nat.
Proof. unfold fixed_part. simpl. rewrite !length_app. simpl. lia. Qed.

Lemma connect_packet_split c more :
  let lb := encode_length 4 (Z.of_nat (length (variable_part c))) in
  connect_packet c more =
  fixed_part lb ++ connect_flags c :: cp_keepalive c / 256 :: cp_keepalive c mod 256 ::
  concat (field <$> fields_before c) ++ field (cp_password c) ++ more.
Proof.
  intros lb. unfold connect_packet, fixed_part. fold lb. unfold variable_part.
  rewrite <- !app_assoc. simpl. by rewrite <- !app_assoc.
Qed.

(** The size the reader computes for the remaining length is right when none
    of its bytes is exactly 128. *)
Lemma len_size_ok n rest :
  0 <= n -> n < 128 ^ 4 -> 128 ∉ encode_length 4 n ->
  len_size (16 :: encode_length 4 n ++ rest) = length (encode_length 4 n).
Proof.
  intros Hn Hlt Hlb.
  destruct (encode_length_spec 4 n) as (conts & last & E & Hc & Hl & Hk); [done..|].
  rewrite E in *. rewrite <- app_assoc, length_app.
  change ([last] ++ rest) with (last :: rest).
  rewrite len_size_connect; [simpl; lia| |done|done].
  apply Forall_forall. intros b Hb. rewrite Forall_forall in Hc. specialize (Hc b Hb).
  assert (b <> 128); [|lia]. intros ->. apply Hlb, elem_of_app. by left.
Qed.

(** When no byte of the remaining length is exactly 128, the reader finds the
    flags byte and the fields, up to the reading of their lengths. *)
Lemma parsePackage_packet c more :
  connect_wf c ->
  Forall (fun f => length_readable (Z.of_nat (length f))) (fields_before c) ->
  128 ∉ encode_length 4 (Z.of_nat (length (variable_part c))) ->
  exists before_password,
    connect_packet c more = before_password ++ cp_password c ++ more /\
    let p := length before_password in
    parsePackage (connect_packet c more) =
    ([], Some (substring (connect_packet c more) p
                 (p + Z.to_nat (read_length (Z.of_nat (length (cp_password c))))))).
Proof.
  intros Hwf Hr Hlb. pose proof Hwf as (Hf & Hka & _ & Hlen).
  destruct (connect_flags_range c Hwf) as [Hfl Hsh].
  set (lb := encode_length 4 (Z.of_nat (length (variable_part c)))) in *.
  set (n := Z.of_nat (length (cp_password c))).
  pose proof (connect_packet_split c more) as Hsplit. fold lb in Hsplit. cbv zeta in Hsplit.
  set (fs := concat (field <$> fields_before c)) in *.
  set (head := fixed_part lb ++ [connect_flags c; cp_keepalive c / 256; cp_keepalive c mod 256]).
  assert (Hdata : connect_packet c more = head ++ fs ++ field (cp_password c) ++ more)
    by (rewrite Hsplit; unfold head; by rewrite <- app_assoc).
  exists (head ++ fs ++ [n / 256; n mod 256]). split.
  { rewrite Hdata, <- !app_assoc. done. }
  assert (Hsize : len_size (connect_packet c more) = length lb)
    by (apply len_size_ok; [lia|done|done]).
  unfold parsePackage, flags_pos. rewrite Hsize, <- (length_fixed_part lb).
  assert (Hflags : codePointAt (connect_packet c more) (length (fixed_part lb)) = Some (connect_flags c)).
  { apply codePointAt_byte; [|lia]. rewrite Hsplit. by apply list_lookup_middle. }
  rewrite Hflags, Hsh. simpl flags_lt_192.
  destruct (Z.ltb_spec (connect_flags c) 192); [lia|].
  apply Forall_app in Hf as [Hf Hp]. apply Forall_singleton in Hp as [_ Hp].
  replace (length (fixed_part lb) + 1 + 2)%nat with (length head)
    by (unfold head; rewrite length_app; simpl; lia).
  assert (Hfs : Forall (fun f => Z.of_nat (length f) < 65536 /\ length_readable (Z.of_nat (length f)))
    (fields_before c)).
  { apply Forall_and. split; [|done]. eapply Forall_impl; [exact Hf|]. by intros f [_ ?]. }
  rewrite Hdata at 1. unfold fs at 1. rewrite (fields_loop_spec _ _ _ _ _ Hfs Hp).
  fold fs. cbv zeta.
  replace (length (head ++ fs ++ [n / 256; n mod 256])) with (length head + length fs + 2)%nat; [done|].
  clearbody fs head. rewrite !length_app. cbn [length]. lia.
Qed.

Lemma substring_take pre s post k :
  (k <= length s)%nat ->
  substring (pre ++ s ++ post) (length pre) (length pre + k) = take k s.
Proof.
  intros Hk. rewrite <- (take_drop k s) at 1. rewrite <- app_assoc.
  apply substring_app. by rewrite length_take_le.
Qed.

Lemma parsePackage_reads c more :
  connect_wf c ->
  Forall (fun f => length_readable (Z.of_nat (length f))) (fields_before c ++ [cp_password c]) ->
  128 ∉ encode_length 4 (Z.of_nat (length (variable_part c))) ->
  parsePackage (connect_packet c more) = ([], Some (cp_password c)).
Proof.
  intros Hwf Hr Hlb. apply Forall_app in Hr as [Hr [Hp _]%Forall_cons].
  destruct (parsePackage_packet c more Hwf Hr Hlb) as (pre & Hd & ->).
  rewrite Hd, read_length_readable by (done || lia).
  by rewrite Nat2Z.id, substring_take, firstn_all.
Qed.

(** A CONNECT packet with credentials whose remaining length is a multiple of
    128 (and at least 128) is read as one without credentials: the loop stops at
    a continuation byte that equals 128. *)
Lemma parsePackage_multiple_of_128 c more :
  connect_wf c ->
  let n := Z.of_nat (length (variable_part c)) in
  128 <= n -> n mod 128 = 0 ->
  parsePackage (connect_packet c more) =
  ([SError (js "MQTT username or password not provided")], Some []).
Proof.
  intros (_ & _ & _ & Hlen) n Hge Hmod. fold n in Hlen.
  assert (Hflags : exists f, codePointAt (connect_packet c more) (flags_pos (connect_packet c more)) = Some f
    /\ f < 192); [|destruct Hflags as (f & Hf & Hlt); unfold parsePackage;
                    rewrite Hf; cbn [flags_lt_192]; by rewrite (proj2 (Z.ltb_lt _ _) Hlt)].
  destruct (encode_length_spec 3 (n / 128)) as (conts & last & E & Hc & Hl & Hk).
  { apply Z.div_pos; lia. }
  { apply Z.div_lt_upper_bound; lia. }
  { done. }
  assert (Hlb : encode_length 4 n = 128 :: conts ++ [last]).
  { cbn [encode_length]. cbn [encode_length] in E. rewrite E, Hmod.
    assert (1 <= n / 128) by (apply Z.div_le_lower_bound; lia).
    destruct (Z.eqb_spec (n / 128) 0); [lia|done]. }
  unfold connect_packet. fold n. rewrite Hlb.
  assert (Hpos : forall rest, flags_pos (16 :: (128 :: rest)) = 9%nat).
  { intros rest. unfold flags_pos, len_size. cbn [len_size_loop].
    by rewrite (codePointAt_byte _ 1 128) by (done || lia). }
  change (16 :: (128 :: conts ++ [last]) ++ ?x) with (16 :: (128 :: ((conts ++ [last]) ++ x))).
  rewrite Hpos.
  destruct conts as [|x [|y [|z conts]]]; [exists 4|exists 84|exists 84|simpl in Hk; lia].
  all: split; [apply codePointAt_byte; [reflexivity|lia]|lia].
Qed.

(** On every CONNECT packet of MQTT 3.1.1 with credentials, with or without
    a will, whose fields are shorter than 256 bytes and whose remaining length
    is encoded without a byte equal to 128, the reader returns the password and
    reports no error, whatever follows the packet. *)
Theorem parsePackage_password c more :
  connect_wf c ->
  Forall (fun f => (length f < 256)%nat) (fields_before c ++ [cp_password c]) ->
  128 ∉ encode_length 4 (Z.of_nat (length (variable_part c))) ->
  parsePackage (connect_packet c more) = ([], Some (cp_password c)).
Proof.
  intros Hwf Hr Hlb. apply parsePackage_reads; [done| |done].
  eapply Forall_impl; [exact Hr|]. intros f Hf. left. cbv beta in Hf. lia.
Qed.

(** When only the password length is unreadable (256 or more, with a low
    byte from 2 to 15), the reader returns a proper prefix of the password. *)
Theorem parsePackage_truncates c more :
  connect_wf c ->
  Forall (fun f => length_readable (Z.of_nat (length f))) (fields_before c) ->
  ~ length_readable (Z.of_nat (length (cp_password c))) ->
  128 ∉ encode_length 4 (Z.of_nat (length (variable_part c))) ->
  exists k, (k < length (cp_password c))%nat /\
    parsePackage (connect_packet c more) = ([], Some (take k (cp_password c))).
Proof.
  intros Hwf Hr Hp Hlb. set (n := Z.of_nat (length (cp_password c))) in *.
  destruct (parsePackage_packet c more Hwf Hr Hlb) as (pre & Hd & ->). fold n.
  assert (Hlt : 0 <= read_length n < n).
  { unfold length_readable in Hp. unfold read_length.
    pose proof (Z.div_mod n 256 ltac:(lia)).
    assert (1 <= n / 256) by (apply Z.div_le_lower_bound; lia).
    destruct (Z.leb_spec 2 (n mod 256)), (Z.leb_spec (n mod 256) 15); simpl; lia. }
  exists (Z.to_nat (read_length n)). split; [lia|].
  rewrite Hd, substring_take by lia. done.
Qed.

(** ** Witnesses *)

Definition sample_connect_packet (will : bool) (password : jsstr) : connect := {|
  cp_clean := true;
  cp_will := if will then Some (js "state/dev1", js "gone", 1, true) else None;
  cp_keepalive := 60;
  cp_client_id := js "dev1";
  cp_username := js "t1";
  cp_password := password
|}.

Ltac connect_sample :=
  match goal with
  | |- connect_wf _ => split_and!; vm_decide
  | |- _ => vm_decide
  end.

Lemma parsePackage_password_witness :
  parsePackage (connect_packet (sample_connect_packet true (js "8f65ed04-0770-4ce4")) [192; 0])
  = ([], Some (js "8f65ed04-0770-4ce4")).
Proof. apply parsePackage_password; connect_sample. Defined.

Lemma parsePackage_truncates_witness :
  exists k, (k < 260)%nat /\
    parsePackage (connect_packet (sample_connect_packet false (replicate 260 65)) [])
    = ([], Some (take k (replicate 260 65))).
Proof.
  apply (parsePackage_truncates (sample_connect_packet false (replicate 260 65)) []); connect_sample.
Defined.
