(* ===== verification/CertAuth.v ===== *)
(** * Certificate checks of the nginx proxy

    [parseCert], [setKey] and [authenticate] of [docker/ssl/authorization.js]:
    the key a client presents (the MQTT password, the Authorization header or
    the [authorization] query argument) must be the common name of its TLS
    certificate.  The module-level variable [clientKey] is part of the state. *)

From S2P Require Import Prelude JsString JsNumber Messages MqttConnect.

Local Open Scope Z_scope.

(** ** Distinguished names *)

(** The loop of [parseCert] over the comma-separated pairs. *)
Fixpoint find_pair (key : jsstr) (pairs : list jsstr) : jsval :=
  match pairs with
  | [] => Str []
  | p :: ps =>
      let pair := split EQUALS p in
      if str_eqb (toUpperCase (default [] (pair !! 0%nat))) key
      then of_option (pair !! 1%nat)
      else find_pair key ps
  end.

(** [parseCert(cert, key)]; [None] is the TypeError of [undefined.length]. *)
Definition parseCert (cert : option jsstr) (key : jsstr) : option jsval :=
  match cert with
  | None => None
  | Some [] => Some (Str [])
  | Some cert => Some (find_pair key (split COMMA cert))
  end.

(** A distinguished name as nginx prints it: [N1=V1,N2=V2,...]. *)
Definition print_attr (a : jsstr * jsstr) : jsstr := fst a ++ EQUALS :: snd a.
Definition print_dn (attrs : list (jsstr * jsstr)) : jsstr := join COMMA (print_attr <$> attrs).

(** Attributes that need no escaping at the separators; a value may hold [=]. *)
Definition attr_ok (a : jsstr * jsstr) : Prop :=
  (COMMA ∉ fst a) /\ (EQUALS ∉ fst a) /\ (COMMA ∉ snd a).

(** The value of the first attribute with a name, whatever its case. *)
Fixpoint attr_value (key : jsstr) (attrs : list (jsstr * jsstr)) : jsstr :=
  match attrs with
  | [] => []
  | a :: attrs' => if str_eqb (toUpperCase (fst a)) key then snd a else attr_value key attrs'
  end.

Definition CN : jsstr := js "CN".

(** ** HTTP and WebSocket: [setKey] *)

Record request := Request {
  r_client_s_dn : option jsstr;          (* r.variables.ssl_client_s_dn *)
  r_authorization : option jsstr;        (* r.headersIn['Authorization'] *)
  r_uri : jsstr;
  r_args : list (jsstr * jsstr)          (* r.args, in property order *)
}.

(** [o && o.length]: a non-empty string. *)
Definition present (o : option jsstr) : bool :=
  match o with Some (_ :: _) => true | _ => false end.

(** What [setKey] logs and returns, with the new [clientKey]; [None] is a
    TypeError. *)
Definition setKey (clientKey : jsval) (r : request) : jsval * (list jsstr * option jsval) :=
  match (if bool_decide (clientKey = Str []) then parseCert (r_client_s_dn r) CN
         else Some clientKey) with
  | None => (clientKey, ([], None))
  | Some clientKey =>
      let auth := r_authorization r in
      if present auth && negb (bool_decide (of_option auth = clientKey)) then
        (clientKey, ([js "Authorization header does not match certificate"], Some (Str [])))
      else if startsWith (r_uri r) (js "/ws") && negb (present auth) then
        if existsb (fun a => str_eqb (fst a) (js "authorization")
                             && bool_decide (Str (snd a) = clientKey)) (r_args r)
        then (clientKey, ([], Some clientKey))
        else (clientKey, ([js "Authorization param does not match certificate"], Some (Str [])))
      else (clientKey, ([], Some clientKey))
  end.

(** The guard of the proxied locations ([snippets/verify-ssl-client.conf]):
    403 unless the certificate is verified and the key is not empty. *)
Definition verify_ssl_client (ssl_client_verify : jsstr) (auth_key : jsval) : bool :=
  str_eqb ssl_client_verify (js "SUCCESS") && truthy auth_key.

(** ** MQTT: [authenticate] *)

Record session := Session {
  s_client_s_dn : option jsstr;
  s_client_verify : option jsstr
}.

(** [!dn || !dn.length || !verify || verify != "SUCCESS"]. *)
Definition certificate_missing (s : session) : bool :=
  negb (present (s_client_s_dn s)) || negb (present (s_client_verify s))
  || negb (bool_decide (s_client_verify s = Some (js "SUCCESS"))).

Record stream := Stream {
  clientKey : jsval;
  upload : bool;                       (* the upload handler is registered *)
  out : list session_effect            (* in order *)
}.

Definition emit_session (es : list session_effect) (t : stream) : stream :=
  Stream (clientKey t) (upload t) (out t ++ es).

(** [s.off('upload')] followed by the decision. *)
Definition decide_session (e : session_effect) (t : stream) : stream :=
  Stream (clientKey t) false (out t ++ [SOff; e]).

Definition authenticate (key : jsval) (s : session) : stream :=
  if certificate_missing s then Stream key false [SDeny] else Stream key true [].

Definition mismatch (key : jsstr) : jsstr :=
  js "Cert CN (" ++ key ++ js ") does not match client password".

(** The upload handler. *)
Definition onUpload (s : session) (data : jsstr) (t : stream) : stream :=
  match data with
  | [] => t
  | _ :: _ =>
      let packet_type_flags_byte := default 0 (codePointAt data 0) in
      if (packet_type_flags_byte <? 16) || (32 <=? packet_type_flags_byte) then
        decide_session SAllow t
      else
        match (if bool_decide (clientKey t = Str []) then parseCert (s_client_s_dn s) CN
               else Some (clientKey t)) with
        | None => t
        | Some key =>
            let t := Stream key (upload t) (out t) in
            let '(errs, pass) := parsePackage data in
            let t := emit_session errs t in
            match pass, key with
            | Some pass, Str k =>
                if negb (truthy key) || negb (str_eqb pass k)
                then decide_session SDeny (emit_session [SError (mismatch k)] t)
                else decide_session SAllow t
            | _, _ => t
            end
        end
  end.

(** A chunk of client data arrives: the handler runs while it is registered. *)
Definition chunk (s : session) (t : stream) (data : jsstr) : stream :=
  if upload t then onUpload s data t else t.

Definition run_session (s : session) (key : jsval) (chunks : list jsstr) : stream :=
  foldl (chunk s) (authenticate key s) chunks.

Definition decisions (es : list session_effect) : list session_effect :=
  filter (fun e => e = SAllow \/ e = SDeny) es.

(** ** [parseCert] *)

Lemma split_before c s : exists rest, split c s = before c s :: rest.
Proof.
  induction s as [|d s [rest IH]]; simpl; [by exists []|].
  destruct (d =? c); [by eexists|]. rewrite IH. by eexists.
Qed.

Lemma print_attr_comma a : attr_ok a -> COMMA ∉ print_attr a.
Proof.
  intros (H1 & _ & H2). unfold print_attr.
  rewrite elem_of_app, elem_of_cons. intros [?|[?|?]]; done.
Qed.

Lemma find_pair_attrs key attrs :
  Forall attr_ok attrs ->
  find_pair key (print_attr <$> attrs) = Str (before EQUALS (attr_value key attrs)).
Proof.
  induction 1 as [|a attrs (_ & H1 & _) _ IH]; [done|].
  csimpl. unfold print_attr at 1 2. rewrite split_free_app by done.
  destruct (split_before EQUALS (snd a)) as [rest ->]. simpl.
  by destruct (str_eqb _ key).
Qed.

Lemma print_dn_nil attrs : print_dn attrs = [] -> attrs = [].
Proof.
  destruct attrs as [|[n v] [|b attrs]]; [done| |]; unfold print_dn, print_attr; simpl.
  - by destruct n.
  - by destruct n.
Qed.

Lemma parseCert_attrs key attrs :
  Forall attr_ok attrs ->
  parseCert (Some (print_dn attrs)) key = Some (Str (before EQUALS (attr_value key attrs))).
Proof.
  intros Ha. unfold parseCert. destruct (print_dn attrs) as [|c dn] eqn:E.
  - by apply print_dn_nil in E as ->.
  - rewrite <- E. unfold print_dn. rewrite split_join.
    + by rewrite find_pair_attrs.
    + intros Hn. apply fmap_nil_inv in Hn as ->. done.
    + apply Forall_fmap. eapply Forall_impl; [exact Ha|]. apply print_attr_comma.
Qed.

(** ** The session *)

(** The key is unset or the certificate's. *)
Definition key_ok (s : session) (key : jsval) : Prop :=
  key = Str [] \/ Some key = parseCert (s_client_s_dn s) CN.

(** The reason a chunk has to be let through. *)
Definition admissible (s : session) (data : jsstr) : Prop :=
  data <> [] /\
  ((default 0 (codePointAt data 0) < 16 \/ 32 <= default 0 (codePointAt data 0)) \/
   exists errs k, parsePackage data = (errs, Some k) /\ k <> [] /\
     parseCert (s_client_s_dn s) CN = Some (Str k)).

Lemma parsePackage_errors data e : e ∈ fst (parsePackage data) -> e <> SAllow /\ e <> SDeny.
Proof.
  unfold parsePackage. destruct (flags_lt_192 _); simpl.
  - intros ->%list_elem_of_singleton. done.
  - destruct (fields_loop _ _ _ _) as [[??]|]; simpl; by intros ?%not_elem_of_nil.
Qed.

Lemma decisions_errors data : decisions (fst (parsePackage data)) = [].
Proof.
  unfold decisions. apply elem_of_nil_inv. intros e [Hd He]%list_elem_of_filter.
  apply parsePackage_errors in He. naive_solver.
Qed.

Lemma decisions_app a b : decisions (a ++ b) = decisions a ++ decisions b.
Proof. apply filter_app. Qed.

(** What one chunk can do to a session whose handler is registered. *)
Lemma onUpload_cases s data t :
  key_ok s (clientKey t) ->
  let t' := onUpload s data t in
  key_ok s (clientKey t') /\
  exists errs, decisions errs = [] /\ (SAllow ∉ errs) /\
    ((upload t' = upload t /\ out t' = out t ++ errs) \/
     (upload t' = false /\ out t' = out t ++ errs ++ [SOff; SDeny]) \/
     (upload t' = false /\ out t' = out t ++ errs ++ [SOff; SAllow] /\ admissible s data)).
Proof.
  intros Hk t'. subst t'. unfold onUpload. destruct data as [|b data]; [split; [done|]|].
  { exists []. split_and!; [done|set_solver|]. left. by rewrite app_nil_r. }
  set (d := b :: data) in *. assert (Hd : d <> []) by done. clearbody d.
  set (p := default 0 (codePointAt d 0)).
  destruct ((p <? 16) || (32 <=? p)) eqn:Hp; [split; [done|]|].
  { exists []. split_and!; [done|set_solver|]. right. right. split_and!; [done..|].
    split; [done|]. left. fold p. apply orb_true_iff in Hp as [?%Z.ltb_lt|?%Z.leb_le]; lia. }
  destruct (if bool_decide _ then _ else _) as [key|] eqn:Hkey; [|split; [done|]].
  2: { exists []. split_and!; [done|set_solver|]. left. by rewrite app_nil_r. }
  assert (Hkey' : key_ok s key).
  { case_bool_decide; [by right|]. by simplify_eq. }
  pose proof (decisions_errors d) as Herr.
  assert (Hna : SAllow ∉ fst (parsePackage d)) by (intros [? _]%parsePackage_errors; done).
  destruct (parsePackage d) as [errs pass] eqn:Hpass. simpl in Herr, Hna.
  destruct pass as [pass|]; [|split; [done|]; exists errs; eauto].
  destruct key as [| |k]; [split; [done|]; exists errs; by eauto..|].
  destruct (negb (truthy (Str k)) || negb (str_eqb pass k)) eqn:Hm; (split; [done|]).
  - exists (errs ++ [SError (mismatch k)]). split_and!.
    + rewrite decisions_app, Herr. done.
    + rewrite elem_of_app, list_elem_of_singleton. naive_solver.
    + right. left. simpl. split; [done|]. by rewrite <- !app_assoc.
  - apply orb_false_iff in Hm as [Hk1%negb_false_iff Hk2%negb_false_iff].
    apply str_eqb_eq in Hk2 as ->.
    exists errs. split_and!; [done..|]. right. right. simpl.
    rewrite <- app_assoc. split; [done|]. split; [done|]. split; [done|]. right. exists errs, k.
    split_and!; [done|by destruct k|]. destruct Hkey' as [[= ->]|Hc]; done.
Qed.

(** The invariant of a run. *)
Record run_ok (s : session) (chunks : list jsstr) (t : stream) : Prop := {
  run_key : key_ok s (clientKey t);
  run_open : upload t = true -> decisions (out t) = [] /\ (SAllow ∉ out t);
  run_once : (length (decisions (out t)) <= 1)%nat;
  run_allow : SAllow ∈ out t ->
    certificate_missing s = false /\ exists d, d ∈ chunks /\ admissible s d
}.

Lemma run_ok_start s key : key_ok s key -> run_ok s [] (authenticate key s).
Proof.
  intros Hk. unfold authenticate. destruct (certificate_missing s) eqn:Hc; split; simpl;
    first [done | set_solver | lia | idtac].
Qed.

Lemma run_ok_chunk s chunks t d :
  certificate_missing s = false \/ upload t = false ->
  run_ok s chunks t -> run_ok s (chunks ++ [d]) (chunk s t d).
Proof.
  intros Hcert [Hk Ho H1 Ha]. unfold chunk. destruct (upload t) eqn:Hu.
  2: { split; [done|by rewrite Hu|done|]. intros (? & x & ? & ?)%Ha.
       split; [done|]. exists x. split; [set_solver|done]. }
  destruct (Ho eq_refl) as [Hd Hn]. destruct Hcert as [Hcert|]; [|done].
  destruct (onUpload_cases s d t Hk)
    as (Hk' & errs & He & Hna & [[Hu' Hout]|[[Hu' Hout]|(Hu' & Hout & Hadm)]]); split;
    rewrite ?Hout, ?Hu', ?decisions_app, ?Hd, ?He; simpl; try done; try lia; try set_solver.
Qed.

Lemma run_ok_session s key chunks :
  key_ok s key -> run_ok s chunks (run_session s key chunks).
Proof.
  intros Hk. unfold run_session.
  assert (Hgen : forall pre t, (certificate_missing s = false \/ upload t = false) ->
    run_ok s pre t -> run_ok s (pre ++ chunks) (foldl (chunk s) t chunks)).
  { induction chunks as [|d chunks IH]; intros pre t Hc Ht; simpl.
    - by rewrite app_nil_r.
    - change (pre ++ d :: chunks) with (pre ++ [d] ++ chunks). rewrite app_assoc.
      apply IH; [|by apply run_ok_chunk]. destruct Hc as [|Hc]; [by left|]. right.
      unfold chunk. by rewrite Hc. }
  apply (Hgen []); [|by apply run_ok_start].
  unfold authenticate. destruct (certificate_missing s); [by right|by left].
Qed.

(** ** Properties *)

(** On a printed distinguished name, [parseCert] finds the first attribute
    with the wanted name and returns its value up to the first [=] in it: the
    value itself when it holds no [=], and a proper prefix of it otherwise. *)
Theorem parseCert_value attrs key :
  Forall attr_ok attrs ->
  let v := attr_value key attrs in
  exists r, parseCert (Some (print_dn attrs)) key = Some (Str r) /\
    (exists rest, v = r ++ rest) /\ (r = v <-> EQUALS ∉ v).
Proof.
  intros Ha v. exists (before EQUALS v). split; [by apply parseCert_attrs|]. clearbody v. clear Ha.
  induction v as [|d v [[rest IH1] IH2]]; simpl.
  - split; [by exists []|]. split; [set_solver|done].
  - destruct (Z.eqb_spec d EQUALS) as [->|Hd].
    + split; [by eexists|]. split; [done|set_solver].
    + split; [exists rest; by rewrite IH1 at 1|]. rewrite not_elem_of_cons, <- IH2.
      split; [by intros [= ->]|]. by intros [_ ->].
Qed.

(** The client presents the key [k]: in the Authorization header when it has one;
    else, for a [/ws] location, in the [authorization] argument; any other location
    asks for no key when there is no header. *)
Definition presents (r : request) (k : jsstr) : Prop :=
  if present (r_authorization r) then r_authorization r = Some k
  else if startsWith (r_uri r) (js "/ws") then (js "authorization", k) ∈ r_args r
  else True.

(** The common name that [parseCert] reads from a printed subject: up to its first
    [=], and whole when it has none. *)
Definition reads_common_name (dn : option jsstr) (k : jsstr) : Prop :=
  forall attrs, Forall attr_ok attrs -> dn = Some (print_dn attrs) ->
    k = before EQUALS (attr_value CN attrs) /\ (EQUALS ∉ attr_value CN attrs -> k = attr_value CN attrs).

Lemma parseCert_reads dn k : parseCert dn CN = Some (Str k) -> reads_common_name dn k.
Proof.
  intros Hk attrs Ha ->. destruct (parseCert_value attrs CN Ha) as (r & Hr & _ & Heq).
  rewrite parseCert_attrs in Hk, Hr by done. simplify_eq. split; [done|]. by intros H%Heq.
Qed.

Lemma authorization_arg args k :
  existsb (fun a => str_eqb (fst a) (js "authorization")
                    && bool_decide (Str (snd a) = Str k)) args = true
  <-> (js "authorization", k) ∈ args.
Proof.
  rewrite existsb_exists. split.
  - intros ([n v] & Hin%list_elem_of_In & Ha). simpl in Ha. zbool.
    match goal with H : str_eqb _ _ = true |- _ => apply str_eqb_eq in H as -> end.
    by simplify_eq.
  - intros Hin. exists (js "authorization", k). split; [by apply list_elem_of_In|].
    apply andb_true_iff. split; [apply str_eqb_refl|by apply bool_decide_eq_true_2].
Qed.

(** C13: with a fresh interpreter, a proxied location is served exactly when nginx
    verified the client certificate, what [parseCert] reads as its common name is
    not empty, and the client presents it as its key: in the Authorization header
    when there is one; without the header in the [authorization] argument for a
    [/ws] location, and not at all for the others, which are then served without
    any key.  The common name is read up to its first [=]. *)
Theorem location_guard verify r :
  ((exists key, snd (snd (setKey (Str []) r)) = Some key /\ verify_ssl_client verify key = true)
   <-> verify = js "SUCCESS" /\
       exists k, parseCert (r_client_s_dn r) CN = Some (Str k) /\ k <> [] /\ presents r k) /\
  forall k, parseCert (r_client_s_dn r) CN = Some (Str k) -> reads_common_name (r_client_s_dn r) k.
Proof.
  split; [|apply parseCert_reads].
  unfold setKey, verify_ssl_client, presents. rewrite bool_decide_eq_true_2 by done.
  destruct (parseCert (r_client_s_dn r) CN) as [key|] eqn:Hkey; simpl; [|naive_solver].
  set (auth := r_authorization r). set (ws := startsWith (r_uri r) (js "/ws")).
  split.
  - intros (granted & Hg & [Hv%str_eqb_eq Htr]%andb_true_iff). split; [done|].
    destruct (present auth) eqn:Hp; simpl in Hg.
    + rewrite andb_false_r in Hg. destruct (negb (bool_decide (of_option auth = key))) eqn:Hm; [by simplify_eq/=|].
      simplify_eq/=. apply negb_false_iff, bool_decide_eq_true in Hm.
      destruct auth as [a|]; [|done]. exists a. subst granted. split_and!; [done|by destruct a|done].
    + rewrite andb_true_r in Hg. destruct ws.
      * destruct (existsb _ _) eqn:Hex; simplify_eq/=.
        destruct granted as [| |k]; [done..|]. exists k. split_and!; [done|by destruct k|].
        by apply authorization_arg in Hex.
      * simplify_eq/=. destruct granted as [| |k]; [done..|]. exists k. by split_and!; [|destruct k|].
  - intros (-> & k & Hk & Hne & Hp). simplify_eq. exists (Str k). split; [|by destruct k].
    destruct (present auth) eqn:Hpr; simpl.
    + rewrite Hp. simpl. rewrite bool_decide_eq_true_2 by done. by rewrite andb_false_r.
    + rewrite andb_true_r. destruct ws; [|done]. apply authorization_arg in Hp. by rewrite Hp.
Qed.

(** An MQTT session that is allowed presented a verified certificate, and one
    of its chunks is either not a CONNECT packet or carries, as the password
    that the reader extracts, the non-empty common name of the certificate. *)
Theorem session_allowed s chunks :
  SAllow ∈ out (run_session s (Str []) chunks) ->
  (s_client_verify s = Some (js "SUCCESS") /\ present (s_client_s_dn s) = true) /\
  exists d, d ∈ chunks /\ admissible s d.
Proof.
  intros [Hc Hd]%(run_allow _ _ _ (run_ok_session s (Str []) chunks (or_introl eq_refl))).
  split; [|done]. unfold certificate_missing in Hc. zbool.
  repeat match goal with H : negb _ = false |- _ => apply negb_false_iff in H end.
  by zbool.
Qed.

(** A session is decided at most once, whatever the chunks. *)
Theorem session_decided_once s chunks :
  (length (decisions (out (run_session s (Str []) chunks))) <= 1)%nat.
Proof. apply (run_once s chunks). apply run_ok_session. by left. Qed.

(** The certificate was verified and its subject has these attributes. *)
Definition certified (s : session) (attrs : list (jsstr * jsstr)) : Prop :=
  s_client_verify s = Some (js "SUCCESS") /\ attrs <> [] /\
  s_client_s_dn s = Some (print_dn attrs) /\ Forall attr_ok attrs.

Lemma certified_present s attrs : certified s attrs -> certificate_missing s = false.
Proof.
  intros (Hv & Hne & Hdn & _). unfold certificate_missing. rewrite Hv, Hdn. simpl.
  destruct (print_dn attrs) eqn:E; [by apply print_dn_nil in E|done].
Qed.

Lemma run_session_closed s t chunks : upload t = false -> foldl (chunk s) t chunks = t.
Proof.
  intros Hu. induction chunks as [|d chunks IH]; simpl; [done|].
  unfold chunk at 2. by rewrite Hu.
Qed.

Lemma onUpload_connect s c more t k :
  (if bool_decide (clientKey t = Str []) then parseCert (s_client_s_dn s) CN
   else Some (clientKey t)) = Some (Str k) ->
  onUpload s (connect_packet c more) t =
  let '(errs, pass) := parsePackage (connect_packet c more) in
  let t := emit_session errs (Stream (Str k) (upload t) (out t)) in
  match pass with
  | Some pass =>
      if negb (truthy (Str k)) || negb (str_eqb pass k)
      then decide_session SDeny (emit_session [SError (mismatch k)] t)
      else decide_session SAllow t
  | None => t
  end.
Proof. intros Hk. unfold onUpload. rewrite Hk. reflexivity. Qed.

(** nginx verified the certificate, and [parseCert] reads this common name. *)
Definition verified_as (s : session) (cn : jsstr) : Prop :=
  s_client_verify s = Some (js "SUCCESS") /\ present (s_client_s_dn s) = true /\
  parseCert (s_client_s_dn s) CN = Some (Str cn).

Lemma certified_as s attrs : certified s attrs -> verified_as s (before EQUALS (attr_value CN attrs)).
Proof.
  intros Hs. pose proof (certified_present s attrs Hs) as Hp. destruct Hs as (Hv & _ & Hdn & Ha).
  unfold certificate_missing in Hp. split_and!; [done| |by rewrite Hdn, parseCert_attrs].
  by destruct (present (s_client_s_dn s)).
Qed.

Lemma verified_authenticate s cn : verified_as s cn -> authenticate (Str []) s = Stream (Str []) true [].
Proof.
  intros (Hv & Hp & _). unfold authenticate, certificate_missing. by rewrite Hv, Hp.
Qed.

(** Empty chunks are no packets. *)
Lemma empty_chunks s t es : Forall (fun d => d = []) es -> foldl (chunk s) t es = t.
Proof.
  induction 1 as [|d es -> _ IH]; [done|]. cbn [foldl]. unfold chunk at 2. by destruct (upload t).
Qed.

(** What the handler decides on a CONNECT packet, from what the reader returns. *)
Lemma connect_chunk s cn c empties more more_chunks errs pass :
  verified_as s cn -> Forall (fun d => d = []) empties ->
  parsePackage (connect_packet c more) = (errs, Some pass) ->
  out (run_session s (Str []) (empties ++ connect_packet c more :: more_chunks)) =
  errs ++ if bool_decide (cn <> [] /\ pass = cn) then [SOff; SAllow]
          else [SError (mismatch cn); SOff; SDeny].
Proof.
  intros Hs He Hp. unfold run_session. rewrite (verified_authenticate s cn Hs), foldl_app, (empty_chunks s _ empties He).
  destruct Hs as (_ & _ & Hcn). cbn [foldl]. unfold chunk at 2. cbn [upload].
  rewrite (onUpload_connect _ _ _ _ cn) by (cbn [clientKey]; by rewrite ?Hcn).
  rewrite Hp. cbn [emit_session clientKey upload out fst snd app].
  destruct (negb (truthy (Str cn)) || negb (str_eqb pass cn)) eqn:E.
  - rewrite run_session_closed by done. simpl. rewrite bool_decide_eq_false_2.
    + by rewrite <- app_assoc.
    + intros [Hn ->]. rewrite str_eqb_refl in E. by destruct cn.
  - rewrite run_session_closed by done. simpl. apply orb_false_iff in E as [E1 E2].
    apply negb_false_iff in E1, E2. apply str_eqb_eq in E2. rewrite bool_decide_eq_true_2; [done|].
    split; [by destruct cn|done].
Qed.


(** A client with a verified certificate whose first CONNECT packet has a
    remaining length that is a multiple of 128, 128 or more, is always denied,
    even when its password is the common name. *)
Theorem session_multiple_of_128 s attrs c more more_chunks :
  certified s attrs ->
  connect_wf c ->
  128 <= Z.of_nat (length (variable_part c)) ->
  Z.of_nat (length (variable_part c)) mod 128 = 0 ->
  out (run_session s (Str []) (connect_packet c more :: more_chunks)) =
  [SError (js "MQTT username or password not provided");
   SError (mismatch (before EQUALS (attr_value CN attrs))); SOff; SDeny].
Proof.
  intros Hs Hwf Hge Hmod.
  change (connect_packet c more :: more_chunks) with ([] ++ connect_packet c more :: more_chunks).
  rewrite (connect_chunk s _ c [] more more_chunks _ _ (certified_as _ _ Hs) (Forall_nil_2 _)
             (parsePackage_multiple_of_128 c more Hwf Hge Hmod)).
  rewrite bool_decide_eq_false_2; [done|]. intros [Hn Heq]. congruence.
Qed.

(** ** Witnesses *)

Definition sample_attrs (cn : jsstr) : list (jsstr * jsstr) :=
  [(js "emailAddress", js "info@wine.org"); (js "OU", js "devices"); (js "cn", cn)].

Definition sample_session (cn : jsstr) : session :=
  Session (Some (print_dn (sample_attrs cn))) (Some (js "SUCCESS")).

Definition sample_key : jsstr := js "8f65ed04-0770-4ce4".

Ltac certified_sample := split_and!; [reflexivity|discriminate|reflexivity|vm_decide].

#[local] Instance attr_ok_dec a : Decision (attr_ok a).
Proof. unfold attr_ok. apply _. Defined.

(** The value [a=b] comes back as [a]. *)
Lemma parseCert_value_witness :
  let v := js "a=b" in
  exists r, parseCert (Some (print_dn (sample_attrs v))) CN = Some (Str r) /\
    (exists rest, v = r ++ rest) /\ (r = v <-> EQUALS ∉ v).
Proof. apply (parseCert_value (sample_attrs (js "a=b")) CN). vm_decide. Defined.

Lemma sample_session_allowed :
  SAllow ∈ out (run_session (sample_session sample_key) (Str [])
    [[]; connect_packet (sample_connect_packet true sample_key) [192; 0]]).
Proof. vm_decide. Qed.

Lemma session_allowed_witness :
  exists d, d ∈ [[]; connect_packet (sample_connect_packet true sample_key) [192; 0]] /\
    admissible (sample_session sample_key) d.
Proof. apply (session_allowed _ _ sample_session_allowed). Defined.


(** A common name with [=] is compared up to it: the password [a] is accepted
    for the certificate of [a=b]. *)
Example session_cut_name :
  out (run_session (sample_session (js "a=b")) (Str []) [connect_packet (sample_connect_packet false (js "a")) []])
  = [SOff; SAllow].
Proof. vm_compute. reflexivity. Qed.

(** A common name of 106 bytes makes the remaining length 128. *)
Lemma session_multiple_of_128_witness :
  let key := replicate 106 65 in
  out (run_session (sample_session key) (Str [])
    [connect_packet (sample_connect_packet false key) []]) =
  [SError (js "MQTT username or password not provided"); SError (mismatch key); SOff; SDeny].
Proof.
  intros key. rewrite (session_multiple_of_128 _ (sample_attrs key));
    [vm_compute; reflexivity|certified_sample|connect_sample|vm_compute; discriminate|vm_compute; reflexivity].
Defined.
