(* ===== verification/Service.v ===== *)
(** * Start-up configuration and the version endpoint

    The [config] object of [mqtt/aedes/mqtt.js], read from the environment, and
    the HTTP handler of [startWs] as steps on a server response. *)

From S2P Require Import Prelude JsString JsNumber Messages.
From Stdlib Require Import SpecFloat.

Local Open Scope Z_scope.

(** ** Configuration *)

(** [s || d] for a variable of the environment, which may be unset. *)
Definition setting (v : option jsstr) (d : jsstr) : jsstr :=
  match v with Some ((_ :: _) as s) => s | _ => d end.

(** [Number(v) || d]; [Number(undefined)] is NaN. *)
Definition number_setting (v : option jsstr) (d : Z) : number :=
  let x := match v with Some s => StringToNumber s | None => S754_nan end in
  if num_truthy x then x else of_Z d.

Record config := Config {
  log_level : jsstr;
  instance_id : jsstr;
  event_stream : jsstr;
  mqtt_port : number;
  ws_port : number;
  nats_url : jsstr;
  redis_port : number;
  redis_host : jsstr;
  redis_pass : jsstr;
  redis_db : number;
  message_ttl : number;
  es_port : number;
  es_host : jsstr;
  es_pass : jsstr;
  es_db : number;
  client_tls : bool;
  ca_certs : jsstr;
  concurrency : number;
  auth_url : jsstr;
  schema_dir : jsstr
}.

(** [env] is [process.env], [arg] is [process.argv[2]]. *)
Definition load_config (env : jsstr -> option jsstr) (arg : option jsstr) : config := {|
  log_level := setting (env (js "MF_MQTT_ADAPTER_LOG_LEVEL")) (js "error");
  instance_id := setting (env (js "MF_MQTT_INSTANCE_ID")) [];
  event_stream := js "mainflux.mqtt";
  mqtt_port := number_setting (env (js "MF_MQTT_ADAPTER_PORT")) 1883;
  ws_port := number_setting (env (js "MF_MQTT_ADAPTER_WS_PORT")) 8880;
  nats_url := setting (env (js "MF_NATS_URL")) (js "nats://localhost:4222");
  redis_port := number_setting (env (js "MF_MQTT_ADAPTER_REDIS_PORT")) 6379;
  redis_host := setting (env (js "MF_MQTT_ADAPTER_REDIS_HOST")) (js "localhost");
  redis_pass := setting (env (js "MF_MQTT_ADAPTER_REDIS_PASS")) (js "mqtt");
  redis_db := number_setting (env (js "MF_MQTT_ADAPTER_REDIS_DB")) 0;
  message_ttl := number_setting (env (js "MF_MQTT_ADAPTER_MESSAGE_TTL")) 60;
  es_port := number_setting (env (js "MF_MQTT_ADAPTER_ES_PORT")) 6379;
  es_host := setting (env (js "MF_MQTT_ADAPTER_ES_HOST")) (js "localhost");
  es_pass := setting (env (js "MF_MQTT_ADAPTER_ES_PASS")) (js "mqtt");
  es_db := number_setting (env (js "MF_MQTT_ADAPTER_ES_DB")) 0;
  client_tls := match env (js "MF_MQTT_ADAPTER_CLIENT_TLS") with
                | Some s => str_eqb s (js "true")
                | None => false
                end;
  ca_certs := setting (env (js "MF_MQTT_ADAPTER_CA_CERTS")) [];
  concurrency := number_setting (env (js "MF_MQTT_CONCURRENT_MESSAGES")) 100;
  auth_url := setting (env (js "MF_THINGS_URL")) (js "localhost:8181");
  schema_dir := setting arg (js ".")
|}.

(** [id: config.instance_id ? config.instance_id : undefined]. *)
Definition broker_id (c : config) : jsval :=
  match instance_id c with [] => Undefined | _ :: _ => Str (instance_id c) end.

(** A decimal numeral, as a port or a database number is written. *)
Definition numeral (ds : jsstr) : Prop := ds <> [] /\ Forall (fun c => is_digit c = true) ds.

Lemma digit_hex c : is_digit c = true -> is_hex c = true.
Proof. unfold is_hex. by intros ->. Qed.

Lemma trim_numeral ds : numeral ds -> trim ds = ds.
Proof.
  intros [_ Hds]. assert (Hh : Forall (fun c => is_hex c = true) ds).
  { eapply Forall_impl; [exact Hds|]. apply digit_hex. }
  unfold trim. rewrite (trim_start_hex ds) by done.
  rewrite trim_start_hex by by apply Forall_rev. apply rev_involutive.
Qed.

Lemma unsigned_decimal_numeral ds :
  numeral ds -> unsigned_decimal ds = Some (of_decimal (digits_value 10 ds) 0).
Proof.
  intros [Hne Hds]. unfold unsigned_decimal. rewrite span_all by done. simpl.
  rewrite app_nil_r. by destruct ds.
Qed.

Lemma StringToNumber_numeral ds :
  numeral ds -> StringToNumber ds = of_decimal (digits_value 10 ds) 0.
Proof.
  intros Hds. unfold StringToNumber. rewrite trim_numeral by done.
  pose proof (unsigned_decimal_numeral ds Hds) as Hu. destruct Hds as [Hne Hds].
  assert (Hsign : sign ds = (false, ds)).
  { apply sign_hex. eapply Forall_impl; [exact Hds|]. apply digit_hex. }
  assert (Hinf : str_eqb ds (js "Infinity") = false).
  { apply bool_decide_eq_false. intros ->. apply Forall_cons in Hds as [Hc _]. done. }
  assert (Hgen : signed_decimal ds = of_decimal (digits_value 10 ds) 0).
  { unfold signed_decimal. by rewrite Hsign, Hinf, Hu. }
  destruct ds as [|c [|x r]]; [done| |].
  - repeat (case_match; try done).
  - apply Forall_cons in Hds as [_ [Hx _]%Forall_cons].
    assert (Hb : ((x =? 120) || (x =? 88)) = false /\ ((x =? 111) || (x =? 79)) = false /\
                 ((x =? 98) || (x =? 66)) = false) by (unfold is_digit in Hx; lia).
    destruct Hb as (Hb1 & Hb2 & Hb3).
    destruct (decide (c = 48)) as [->|Hc].
    + rewrite Hb1, Hb2, Hb3. by rewrite Hu.
    + repeat (case_match; try done).
Qed.

Lemma digits_value_nonneg ds :
  Forall (fun c => is_digit c = true) ds -> 0 <= digits_value 10 ds.
Proof.
  intros Hds. unfold digits_value. enough (forall n, 0 <= n ->
    0 <= fold_left (fun n c => n * 10 + digit_value c) ds n) by auto with lia.
  induction Hds as [|c ds Hc _ IH]; intros n Hn; simpl; [done|].
  apply IH. unfold digit_value. rewrite Hc. unfold is_digit in Hc. lia.
Qed.

(** A numeric setting (a port, a database, a lifetime) written as a decimal
    numeral below 2^53, leading zeros and all, is read as its value, except that
    zero, like an unset or blank variable, gives the default. *)
Theorem number_setting_numeral ds d :
  numeral ds -> digits_value 10 ds < 2 ^ 53 ->
  let n := digits_value 10 ds in
  number_setting (Some ds) d = of_Z (if n =? 0 then d else n) /\
  number_setting None d = of_Z d /\
  number_setting (Some []) d = of_Z d.
Proof.
  intros Hds Hlt n. split; [|done]. unfold number_setting.
  rewrite StringToNumber_numeral by done. fold n.
  pose proof (digits_value_nonneg ds (proj2 Hds)) as Hn. fold n in Hn, Hlt.
  destruct (Z.eqb_spec n 0) as [->|Hnz]; [done|].
  assert (of_decimal n 0 = of_Z n) as ->.
  { unfold of_decimal. destruct n as [|p|p]; [done| |lia].
    change (10 ^ 0) with 1. by rewrite Z.mul_1_r. }
  by rewrite of_Z_truthy by lia.
Qed.

Lemma number_setting_numeral_witness :
  number_setting (Some (js "01883")) 8880 = of_Z 1883 /\
  number_setting None 8880 = of_Z 8880 /\ number_setting (Some []) 8880 = of_Z 8880.
Proof. apply (number_setting_numeral (js "01883") 8880); [split; [done|vm_decide]|done]. Defined.

(** With nothing set, the configuration is the one the README documents. *)
Example default_config :
  load_config (fun _ => None) None =
  Config (js "error") [] (js "mainflux.mqtt") (of_Z 1883) (of_Z 8880)
    (js "nats://localhost:4222") (of_Z 6379) (js "localhost") (js "mqtt") (of_Z 0) (of_Z 60)
    (of_Z 6379) (js "localhost") (js "mqtt") (of_Z 0) false [] (of_Z 100)
    (js "localhost:8181") (js ".").
Proof. reflexivity. Qed.

(** ** The version endpoint *)

(** A server response: the headers and the status that the next [end] sends, and
    what was sent.  As in Node 10, on which the service runs, [end] on a finished
    response does nothing. *)
Record response := Response {
  headers : list (jsstr * jsstr);
  statusCode : Z;
  sent : list (Z * list (jsstr * jsstr) * jsstr)
}.

Definition new_response : response := Response [] 200 [].

Definition set_header (name value : jsstr) (r : response) : response :=
  Response (headers r ++ [(name, value)]) (statusCode r) (sent r).
Definition set_status (code : Z) (r : response) : response :=
  Response (headers r) code (sent r).
Definition end_response (body : jsstr) (r : response) : response :=
  match sent r with
  | [] => Response (headers r) (statusCode r) [(statusCode r, headers r, body)]
  | _ :: _ => r
  end.

Definition version : jsstr := js "0.9.0".

(** A double quote, for the JSON bodies. *)
Definition quoted (s : jsstr) : jsstr := 34 :: s ++ [34].
Definition json_field (name value : jsstr) : jsstr := quoted name ++ js ":" ++ quoted value.

Definition version_body : jsstr :=
  js "{" ++ json_field (js "service") (js "mqtt-adapter") ++ js ","
  ++ json_field (js "version") version ++ js "}".
Definition not_found_body : jsstr :=
  js "{" ++ json_field (js "service") (js "mqtt-adpater") ++ js ", "
  ++ quoted (js "message") ++ js ": " ++ quoted (js "not found") ++ js "}".

(** The [request] handler. *)
Definition onRequest (url : jsstr) (res : response) : response :=
  let res := set_header (js "Content-Type") (js "application/json") res in
  let res := if str_eqb url (js "/version")
             then end_response version_body (set_status 200 res) else res in
  end_response not_found_body (set_status 404 res).

(** Every request is answered exactly once: with the version for [/version],
    although the handler goes on to the 404 branch, and with a 404 otherwise. *)
Theorem request_answered url :
  sent (onRequest url new_response) =
  [if str_eqb url (js "/version")
   then (200, [(js "Content-Type", js "application/json")], version_body)
   else (404, [(js "Content-Type", js "application/json")], not_found_body)].
Proof. unfold onRequest. by destruct (str_eqb url _). Qed.
