(* ===== verification/ThingsCache.v ===== *)
(** * The caches of the Things service

    The interface [Caches] of the two caches ([ThingCache] and [ChannelCache] of
    [things/]) with its laws, and the implementation on a Redis keyspace
    ([things/redis/things.go], [things/redis/channels.go]), which meets them
    because the keys it builds never collide. *)

From S2P Require Import Prelude JsString.
From stdpp Require Import gmap sets.

(** Text of the Go services: an identifier, a key, a token. *)
Abbreviation text := (list Z).

(** ** The interface *)

(** [tc_id] is the thing that a key is cached for, [tc_key] the key remembered
    for a thing, [cc_has] a cached connection. *)
Class Caches (S : Type) := {
  no_cache : S;
  tc_save : text -> text -> S -> S;          (* key, thing *)
  tc_id : S -> text -> option text;
  tc_key : S -> text -> option text;
  tc_remove : text -> S -> S;
  cc_connect : text -> text -> S -> S;       (* channel, thing *)
  cc_has : S -> text -> text -> bool;
  cc_disconnect : text -> text -> S -> S;
  cc_remove : text -> S -> S
}.

(** Saving a key for a thing overwrites both directions; removing a thing
    forgets the one key remembered for it; the two caches do not touch each
    other. *)
Class CachesOk (S : Type) `{Caches S} : Prop := {
  tc_id_empty k : tc_id no_cache k = None;
  tc_key_empty t : tc_key no_cache t = None;
  cc_has_empty c t : cc_has no_cache c t = false;
  tc_id_save s k t k' : tc_id (tc_save k t s) k' = if decide (k' = k) then Some t else tc_id s k';
  tc_key_save s k t t' : tc_key (tc_save k t s) t' = if decide (t' = t) then Some k else tc_key s t';
  cc_has_save s k t c t' : cc_has (tc_save k t s) c t' = cc_has s c t';
  tc_id_remove s t k : tc_id (tc_remove t s) k = if decide (tc_key s t = Some k) then None else tc_id s k;
  tc_key_remove s t t' : tc_key (tc_remove t s) t' = if decide (t' = t) then None else tc_key s t';
  cc_has_tc_remove s t c t' : cc_has (tc_remove t s) c t' = cc_has s c t';
  cc_has_connect s c t c' t' :
    cc_has (cc_connect c t s) c' t' = bool_decide (c' = c /\ t' = t) || cc_has s c' t';
  cc_has_disconnect s c t c' t' :
    cc_has (cc_disconnect c t s) c' t' = negb (bool_decide (c' = c /\ t' = t)) && cc_has s c' t';
  cc_has_remove s c c' t' : cc_has (cc_remove c s) c' t' = negb (bool_decide (c' = c)) && cc_has s c' t';
  tc_id_connect s c t k : tc_id (cc_connect c t s) k = tc_id s k;
  tc_key_connect s c t t' : tc_key (cc_connect c t s) t' = tc_key s t';
  tc_id_disconnect s c t k : tc_id (cc_disconnect c t s) k = tc_id s k;
  tc_key_disconnect s c t t' : tc_key (cc_disconnect c t s) t' = tc_key s t';
  tc_id_cc_remove s c k : tc_id (cc_remove c s) k = tc_id s k;
  tc_key_cc_remove s c t' : tc_key (cc_remove c s) t' = tc_key s t'
}.

Create Rewrite HintDb cachedb.
#[export] Hint Rewrite @tc_id_empty @tc_key_empty @cc_has_empty @tc_id_save @tc_key_save @cc_has_save @tc_id_remove @tc_key_remove
  @cc_has_tc_remove @cc_has_connect @cc_has_disconnect @cc_has_remove @tc_id_connect
  @tc_key_connect @tc_id_disconnect @tc_key_disconnect @tc_id_cc_remove @tc_key_cc_remove
  using typeclasses eauto : cachedb.

(** ** Redis *)

Inductive rvalue := RString (s : text) | RSet (m : gset text).

Abbreviation redis := (gmap text rvalue).

(** [GET]: [None] is the nil reply, or the error on a key of another type. *)
Definition get (s : redis) (k : text) : option text :=
  match s !! k with Some (RString v) => Some v | _ => None end.
(** [SET]. *)
Definition set (k v : text) (s : redis) : redis := <[k := RString v]> s.
(** [DEL]. *)
Definition del (k : text) (s : redis) : redis := delete k s.

Definition members (s : redis) (k : text) : gset text :=
  match s !! k with Some (RSet m) => m | _ => ∅ end.
Definition is_string (s : redis) (k : text) : bool :=
  match s !! k with Some (RString _) => true | _ => false end.
(** [SADD] and [SREM] fail on a string; [SISMEMBER] is false on an error. *)
Definition sadd (k v : text) (s : redis) : redis :=
  if is_string s k then s else <[k := RSet ({[v]} ∪ members s k)]> s.
Definition srem (k v : text) (s : redis) : redis :=
  if is_string s k then s else <[k := RSet (members s k ∖ {[v]})]> s.
Definition sismember (s : redis) (k v : text) : bool := bool_decide (v ∈ members s k).

(** ** The keys *)

Definition tkey (thingKey : text) : text := js "thing_key" ++ 58%Z :: thingKey.
Definition tid (thingID : text) : text := js "thing" ++ 58%Z :: thingID.
Definition cid (chanID : text) : text := js "channel" ++ 58%Z :: chanID.

#[export] Instance tkey_inj : Inj (=) (=) tkey.
Proof. by intros a b [= ->]. Qed.
#[export] Instance tid_inj : Inj (=) (=) tid.
Proof. by intros a b [= ->]. Qed.
#[export] Instance cid_inj : Inj (=) (=) cid.
Proof. by intros a b [= ->]. Qed.

Lemma tkey_tid a b : tkey a <> tid b.
Proof. done. Qed.
Lemma tkey_cid a b : tkey a <> cid b.
Proof. done. Qed.
Lemma tid_cid a b : tid a <> cid b.
Proof. done. Qed.
#[export] Hint Resolve tkey_tid tkey_cid tid_cid : core.
#[export] Hint Immediate not_eq_sym : core.

(** ** The operations *)

(** [thingCache.Save]: both directions. *)
Definition thing_save (thingKey thingID : text) (s : redis) : redis :=
  set (tid thingID) thingKey (set (tkey thingKey) thingID s).

(** [thingCache.ID]. *)
Definition thing_id (s : redis) (thingKey : text) : option text := get s (tkey thingKey).

(** [thingCache.Remove]: nothing when the thing is not cached. *)
Definition thing_remove (thingID : text) (s : redis) : redis :=
  match get s (tid thingID) with
  | None => s
  | Some key => del (tid thingID) (del (tkey key) s)
  end.

(** [channelCache.Connect], [HasThing], [Disconnect] and [Remove]. *)
Definition chan_connect (chanID thingID : text) (s : redis) : redis := sadd (cid chanID) thingID s.
Definition chan_has (s : redis) (chanID thingID : text) : bool := sismember s (cid chanID) thingID.
Definition chan_disconnect (chanID thingID : text) (s : redis) : redis := srem (cid chanID) thingID s.
Definition chan_remove (chanID : text) (s : redis) : redis := del (cid chanID) s.

(** ** The Redis caches meet the interface *)

(** A keyspace as the caches leave it: channel keys hold no string. *)
Definition typed (s : redis) : Prop := forall c, is_string s (cid c) = false.

Lemma is_string_ne s k v k' : k' <> k -> is_string (<[k := v]> s) k' = is_string s k'.
Proof. intros Hne. unfold is_string. by rewrite lookup_insert_ne. Qed.
Lemma is_string_delete s k k' : is_string s k' = false -> is_string (delete k s) k' = false.
Proof.
  unfold is_string. destruct (decide (k' = k)) as [->|Hne].
  - by rewrite lookup_delete_eq.
  - by rewrite lookup_delete_ne.
Qed.

Lemma typed_set k v s : typed s -> (forall c, k <> cid c) -> typed (set k v s).
Proof. intros Hs Hk c. unfold set. rewrite is_string_ne; [done|]. auto. Qed.

Lemma typed_del k s : typed s -> typed (del k s).
Proof. intros Hs c. by apply is_string_delete. Qed.

Lemma typed_members k m s : typed s -> typed (<[k := RSet m]> s).
Proof.
  intros Hs c. destruct (decide (cid c = k)) as [<-|Hne].
  - unfold is_string. by rewrite lookup_insert_eq.
  - by rewrite is_string_ne.
Qed.

Lemma typed_save k t s : typed s -> typed (thing_save k t s).
Proof. intros Hs. apply typed_set; [apply typed_set|]; auto. Qed.

Lemma typed_remove t s : typed s -> typed (thing_remove t s).
Proof.
  intros Hs. unfold thing_remove. destruct (get s (tid t)); [|done]. by apply typed_del, typed_del.
Qed.

Lemma typed_sadd k v s : typed s -> typed (sadd k v s).
Proof. intros Hs. unfold sadd. destruct (is_string s k); [done|by apply typed_members]. Qed.
Lemma typed_srem k v s : typed s -> typed (srem k v s).
Proof. intros Hs. unfold srem. destruct (is_string s k); [done|by apply typed_members]. Qed.

Record keyspace := Keyspace { store : redis; store_typed : typed store }.

Definition empty_keyspace : keyspace := Keyspace ∅ (fun _ => eq_refl).

#[export] Instance redis_caches : Caches keyspace := {|
  no_cache := empty_keyspace;
  tc_save k t s := Keyspace (thing_save k t (store s)) (typed_save k t _ (store_typed s));
  tc_id s k := thing_id (store s) k;
  tc_key s t := get (store s) (tid t);
  tc_remove t s := Keyspace (thing_remove t (store s)) (typed_remove t _ (store_typed s));
  cc_connect c t s := Keyspace (chan_connect c t (store s)) (typed_sadd _ t _ (store_typed s));
  cc_has s c t := chan_has (store s) c t;
  cc_disconnect c t s := Keyspace (chan_disconnect c t (store s)) (typed_srem _ t _ (store_typed s));
  cc_remove c s := Keyspace (chan_remove c (store s)) (typed_del _ _ (store_typed s))
|}.

Lemma get_set s k v k' : get (set k v s) k' = if decide (k' = k) then Some v else get s k'.
Proof.
  unfold get, set. destruct (decide (k' = k)) as [->|Hne].
  - by rewrite lookup_insert_eq.
  - by rewrite lookup_insert_ne.
Qed.

Lemma get_del s k k' : get (del k s) k' = if decide (k' = k) then None else get s k'.
Proof.
  unfold get, del. destruct (decide (k' = k)) as [->|Hne].
  - by rewrite lookup_delete_eq.
  - by rewrite lookup_delete_ne.
Qed.

Lemma members_ne s k v k' : k' <> k -> members (<[k := v]> s) k' = members s k'.
Proof. intros Hne. unfold members. by rewrite lookup_insert_ne. Qed.
Lemma members_del s k k' : k' <> k -> members (del k s) k' = members s k'.
Proof. intros Hne. unfold members, del. by rewrite lookup_delete_ne. Qed.

Lemma get_members s k m k' : k' <> k -> get (<[k := RSet m]> s) k' = get s k'.
Proof. intros Hne. unfold get. by rewrite lookup_insert_ne. Qed.

(** Membership after an update of one channel's set. *)
Lemma sismember_update s k m k' v :
  sismember (<[k := RSet m]> s) k' v =
  if decide (k' = k) then bool_decide (v ∈ m) else sismember s k' v.
Proof.
  unfold sismember. destruct (decide (k' = k)) as [->|Hne].
  - unfold members. by rewrite lookup_insert_eq.
  - by rewrite members_ne.
Qed.

Lemma sadd_typed s c v : typed s -> sadd (cid c) v s = <[cid c := RSet ({[v]} ∪ members s (cid c))]> s.
Proof. intros Hs. unfold sadd. by rewrite Hs. Qed.
Lemma srem_typed s c v : typed s -> srem (cid c) v s = <[cid c := RSet (members s (cid c) ∖ {[v]})]> s.
Proof. intros Hs. unfold srem. by rewrite Hs. Qed.

Lemma chan_has_save s k t c v : chan_has (thing_save k t s) c v = chan_has s c v.
Proof. unfold chan_has, sismember, thing_save, set. by rewrite !members_ne by auto. Qed.

Lemma chan_has_thing_remove s t c v : chan_has (thing_remove t s) c v = chan_has s c v.
Proof.
  unfold chan_has, sismember, thing_remove. destruct (get s (tid t)); [|done].
  by rewrite !members_del by auto.
Qed.

(** Case analysis on the equality of keys and identifiers. *)
Ltac key_cases :=
  repeat match goal with
  | |- context [decide (?a = ?b)] => destruct (decide (a = b)); simplify_eq; try done
  end.

#[export] Instance redis_caches_ok : CachesOk keyspace.
Proof.
  split; [done..| | | | | | | | | | | | | | |]; intros s; simpl; unfold thing_id.
  - intros k t k'. unfold thing_save. rewrite !get_set. rewrite decide_False by auto. key_cases.
  - intros k t t'. unfold thing_save. rewrite !get_set. key_cases.
  - intros k t c t'. apply chan_has_save.
  - intros t k. unfold thing_remove. destruct (get (store s) (tid t)) as [key|] eqn:E.
    + rewrite !get_del. rewrite decide_False by auto. key_cases.
    + by rewrite decide_False.
  - intros t t'. unfold thing_remove. destruct (get (store s) (tid t)) as [key|] eqn:E.
    + rewrite !get_del. key_cases.
    + key_cases.
  - intros t c t'. apply chan_has_thing_remove.
  - intros c t c' t'. unfold chan_connect, chan_has. rewrite sadd_typed by apply store_typed.
    rewrite sismember_update. unfold sismember.
    destruct (decide (cid c' = cid c)) as [->%(inj cid)|Hne].
    + apply eq_bool_prop_intro. rewrite orb_True, !bool_decide_spec. set_solver.
    + rewrite (bool_decide_eq_false_2 (c' = c /\ _)); [done|]. intros [-> _]. done.
  - intros c t c' t'. unfold chan_disconnect, chan_has. rewrite srem_typed by apply store_typed.
    rewrite sismember_update. unfold sismember.
    destruct (decide (cid c' = cid c)) as [->%(inj cid)|Hne].
    + apply eq_bool_prop_intro. rewrite andb_True, negb_True, !bool_decide_spec. set_solver.
    + rewrite (bool_decide_eq_false_2 (c' = c /\ _)); [done|]. intros [-> _]. done.
  - intros c c' t'. unfold chan_remove, chan_has, sismember.
    destruct (decide (c' = c)) as [->|Hne].
    + rewrite (bool_decide_eq_true_2 (c = c)) by done. unfold members, del.
      rewrite lookup_delete_eq. by apply bool_decide_eq_false_2; set_solver.
    + rewrite (bool_decide_eq_false_2 (c' = c)) by done.
      by rewrite members_del by (intros ?%(inj cid); done).
  - intros c t k. unfold chan_connect. rewrite sadd_typed by apply store_typed. apply get_members; auto.
  - intros c t t'. unfold chan_connect. rewrite sadd_typed by apply store_typed. apply get_members; auto.
  - intros c t k. unfold chan_disconnect. rewrite srem_typed by apply store_typed. apply get_members; auto.
  - intros c t t'. unfold chan_disconnect. rewrite srem_typed by apply store_typed. apply get_members; auto.
  - intros c k. unfold chan_remove. rewrite get_del, decide_False by auto. done.
  - intros c t'. unfold chan_remove. rewrite get_del, decide_False by auto. done.
Qed.
