(* ===== verification/Things.v ===== *)
(** * The Things service

    The service the adapter asks for identities and access: the tables of
    [things/postgres/], with their constraints, and the operations of
    [things/service.go] that touch them or the caches, behind the gRPC endpoints
    of [things/api/auth/grpc/].  The caches are used through [Caches] only. *)

From S2P Require Import Prelude JsString ThingsCache.
From stdpp Require Import gmap sets.

Local Open Scope Z_scope.

(** ** Errors and results *)

Inductive things_error :=
| ErrMalformedEntity
| ErrUnauthorizedAccess
| ErrNotFound
| ErrConflict
| ErrOther.            (* an error of the database that is passed on *)

#[export] Instance things_error_eq_dec : EqDecision things_error.
Proof. solve_decision. Defined.

Inductive result (A : Type) := Ok (a : A) | Err (e : things_error).
Arguments Ok {A}.
Arguments Err {A}.

Definition bind_result {A B} (r : result A) (k : A -> result B) : result B :=
  match r with Ok a => k a | Err e => Err e end.

(** ** The database *)

(** The UUID type of PostgreSQL, as documented: an input is read as a UUID or
    rejected, and a UUID is printed in one form, which reads back as itself. *)
Class Uuid := canon : text -> option text.
Class UuidOk (U : Uuid) : Prop :=
  canon_idem : forall s u, canon s = Some u -> canon u = Some u.

(** The rows of [things] (primary key: id and owner; the key column is unique),
    of [channels], and of [connections] (channel, thing, and their common
    owner).  Names and metadata play no part in access. *)
Record database := Database {
  things : gmap (text * text) text;
  channels : gset (text * text);
  connections : gset (text * text * text)
}.

Definition empty_database : database := Database ∅ ∅ ∅.

Definition key_taken (db : database) (key : text) : bool :=
  existsb (fun row => bool_decide (snd row = key)) (map_to_list (things db)).

(** [SELECT id FROM things WHERE key = $1]. *)
Definition RetrieveByKey (db : database) (key : text) : option text :=
  match List.find (fun row => bool_decide (snd row = key)) (map_to_list (things db)) with
  | Some row => Some (fst (fst row))
  | None => None
  end.

Definition connected (db : database) (ch t : text) : bool :=
  existsb (fun c => bool_decide (fst c = (ch, t))) (elements (connections db)).

Section Repository.
Context {U : Uuid}.

(** [INSERT INTO things]. *)
Definition insert_thing (db : database) (row : text * text * text) : result database :=
  let '(id, owner, key) := row in
  match canon id with
  | None => Err ErrMalformedEntity
  | Some u =>
      if bool_decide (is_Some (things db !! (u, owner))) || key_taken db key
      then Err ErrConflict
      else Ok (Database (<[(u, owner) := key]> (things db)) (channels db) (connections db))
  end.

(** [Save]: all rows or none. *)
Definition save_things (db : database) (rows : list (text * text * text)) : result database :=
  foldl (fun r row => bind_result r (fun db => insert_thing db row)) (Ok db) rows.

(** [UpdateKey]: no row is [ErrNotFound]; another thing with the key is
    [ErrConflict]. *)
Definition update_key (db : database) (owner id key : text) : result database :=
  match canon id with
  | None => Err ErrMalformedEntity
  | Some u =>
      match things db !! (u, owner) with
      | None => Err ErrNotFound
      | Some old =>
          if bool_decide (old <> key) && key_taken db key then Err ErrConflict
          else Ok (Database (<[(u, owner) := key]> (things db)) (channels db) (connections db))
      end
  end.

(** [Remove] of a thing, with the cascade on its connections; errors are
    dropped. *)
Definition remove_thing (db : database) (owner id : text) : database :=
  match canon id with
  | None => db
  | Some u =>
      Database (delete (u, owner) (things db)) (channels db)
        (filter (fun c => ~ (snd (fst c) = u /\ snd c = owner)) (connections db))
  end.

Definition insert_channel (db : database) (row : text * text) : result database :=
  let '(id, owner) := row in
  match canon id with
  | None => Err ErrMalformedEntity
  | Some u =>
      if bool_decide ((u, owner) ∈ channels db) then Err ErrConflict
      else Ok (Database (things db) ({[(u, owner)]} ∪ channels db) (connections db))
  end.

Definition save_channels (db : database) (rows : list (text * text)) : result database :=
  foldl (fun r row => bind_result r (fun db => insert_channel db row)) (Ok db) rows.

Definition remove_channel (db : database) (owner id : text) : database :=
  match canon id with
  | None => db
  | Some u =>
      Database (things db) (channels db ∖ {[(u, owner)]})
        (filter (fun c => ~ (fst (fst c) = u /\ snd c = owner)) (connections db))
  end.

(** [INSERT INTO connections]: the foreign keys, then the primary key. *)
Definition insert_connection (owner : text) (db : database) (c : text * text) : result database :=
  match canon (fst c), canon (snd c) with
  | Some ch, Some t =>
      if negb (bool_decide ((ch, owner) ∈ channels db))
         || bool_decide (things db !! (t, owner) = None) then Err ErrNotFound
      else if bool_decide ((ch, t, owner) ∈ connections db) then Err ErrConflict
      else Ok (Database (things db) (channels db) ({[(ch, t, owner)]} ∪ connections db))
  | _, _ => Err ErrOther
  end.

(** [Connect]: every channel with every thing, in one transaction. *)
Definition connect_all (db : database) (owner : text) (chIDs thIDs : list text) : result database :=
  foldl (fun r c => bind_result r (fun db => insert_connection owner db c)) (Ok db)
    (chIDs ≫= fun ch => (fun t => (ch, t)) <$> thIDs).

Definition delete_connection (db : database) (owner chanID thingID : text) : result database :=
  match canon chanID, canon thingID with
  | Some ch, Some t =>
      if bool_decide ((ch, t, owner) ∈ connections db)
      then Ok (Database (things db) (channels db) (connections db ∖ {[(ch, t, owner)]}))
      else Err ErrNotFound
  | _, _ => Err ErrOther
  end.

(** [hasThing] and [HasThing] of the channel repository; any error denies. *)
Definition has_thing_by_id (db : database) (chanID thingID : text) : bool :=
  match canon chanID, canon thingID with
  | Some ch, Some t => connected db ch t
  | _, _ => false
  end.

Definition has_thing (db : database) (chanID key : text) : option text :=
  match RetrieveByKey db key with
  | Some t => if has_thing_by_id db chanID t then Some t else None
  | None => None
  end.

End Repository.

(** ** The service *)

Section Service.
Context {S : Type} `{Caches S} {U : Uuid}.

(** [auth.Identify]: the user a token belongs to. *)
Variable auth : text -> option text.

(** [up]: the Redis server answers.  When it does not, reads miss, writes are
    lost, and the service does not look at the errors. *)
Record service := Service_ { db : database; cache : S; up : bool }.

Definition with_db (sv : service) (d : database) : service := Service_ d (cache sv) (up sv).
Definition on_cache (f : S -> S) (sv : service) : service :=
  Service_ (db sv) (if up sv then f (cache sv) else cache sv) (up sv).
Definition cached_id (sv : service) (key : text) : option text :=
  if up sv then tc_id (cache sv) key else None.
Definition cached_conn (sv : service) (ch t : text) : bool :=
  up sv && cc_has (cache sv) ch t.

(** The result of a change, with the new state. *)
Definition commit (sv : service) (r : result database) : service * result unit :=
  match r with Ok d => (with_db sv d, Ok tt) | Err e => (sv, Err e) end.

Definition as_owner (token : text) (sv : service) (k : text -> service * result unit) :
    service * result unit :=
  match auth token with
  | None => (sv, Err ErrUnauthorizedAccess)
  | Some owner => k owner
  end.

(** [CreateThings]: per thing, the key asked for (empty for a generated one) and
    what the identity provider returns for the identifier and the key. *)
Definition CreateThings (token : text) (ths : list (text * (text * text))) (sv : service) :
    service * result unit :=
  as_owner token sv (fun owner =>
    commit sv (save_things (db sv)
      ((fun th => let '(key, (id, gen)) := th in
                  (id, owner, match key with [] => gen | _ :: _ => key end)) <$> ths))).

Definition UpdateKey (token id key : text) (sv : service) : service * result unit :=
  as_owner token sv (fun owner => commit sv (update_key (db sv) owner id key)).

(** [RemoveThing]: the cache first, then the database. *)
Definition RemoveThing (token id : text) (sv : service) : service * result unit :=
  as_owner token sv (fun owner =>
    let sv := on_cache (tc_remove id) sv in
    (with_db sv (remove_thing (db sv) owner id), Ok tt)).

Definition CreateChannels (token : text) (ids : list text) (sv : service) : service * result unit :=
  as_owner token sv (fun owner =>
    commit sv (save_channels (db sv) ((fun id => (id, owner)) <$> ids))).

Definition RemoveChannel (token id : text) (sv : service) : service * result unit :=
  as_owner token sv (fun owner =>
    let sv := on_cache (cc_remove id) sv in
    (with_db sv (remove_channel (db sv) owner id), Ok tt)).

Definition Connect (token : text) (chIDs thIDs : list text) (sv : service) : service * result unit :=
  as_owner token sv (fun owner => commit sv (connect_all (db sv) owner chIDs thIDs)).

(** The two halves of [Disconnect], which other requests may come between. *)
Definition disconnect_cache (chanID thingID : text) (sv : service) : service :=
  on_cache (cc_disconnect chanID thingID) sv.
Definition disconnect_db (owner chanID thingID : text) (sv : service) : service * result unit :=
  commit sv (delete_connection (db sv) owner chanID thingID).

Definition Disconnect (token chanID thingID : text) (sv : service) : service * result unit :=
  as_owner token sv (fun owner =>
    disconnect_db owner chanID thingID (disconnect_cache chanID thingID sv)).

(** [hasThing]: the caches alone. *)
Definition hasThing (sv : service) (chanID key : text) : option text :=
  match cached_id sv key with
  | None => None
  | Some t => if cached_conn sv chanID t then Some t else None
  end.

Definition CanAccessByKey (chanID key : text) (sv : service) : service * result text :=
  match hasThing sv chanID key with
  | Some t => (sv, Ok t)
  | None =>
      match has_thing (db sv) chanID key with
      | None => (sv, Err ErrUnauthorizedAccess)
      | Some t => (on_cache (cc_connect chanID t) (on_cache (tc_save key t) sv), Ok t)
      end
  end.

Definition CanAccessByID (chanID thingID : text) (sv : service) : service * result unit :=
  if cached_conn sv chanID thingID then (sv, Ok tt)
  else if has_thing_by_id (db sv) chanID thingID
  then (on_cache (cc_connect chanID thingID) sv, Ok tt)
  else (sv, Err ErrUnauthorizedAccess).

Definition Identify (key : text) (sv : service) : service * result text :=
  match cached_id sv key with
  | Some t => (sv, Ok t)
  | None =>
      match RetrieveByKey (db sv) key with
      | None => (sv, Err ErrUnauthorizedAccess)
      | Some t => (on_cache (tc_save key t) sv, Ok t)
      end
  end.

(** ** The gRPC endpoints *)

Definition canAccessEndpoint (chanID key : text) (sv : service) : service * result text :=
  match chanID, key with
  | [], _ | _, [] => (sv, Err ErrMalformedEntity)
  | _, _ => CanAccessByKey chanID key sv
  end.

Definition canAccessByIDEndpoint (chanID thingID : text) (sv : service) : service * result unit :=
  match chanID, thingID with
  | [], _ | _, [] => (sv, Err ErrMalformedEntity)
  | _, _ => CanAccessByID chanID thingID sv
  end.

(** This one does not validate its request. *)
Definition identifyEndpoint (key : text) (sv : service) : service * result text := Identify key sv.

(** [encodeError]: the message of the status. *)
Definition encodeError (e : things_error) : text :=
  match e with
  | ErrMalformedEntity => js "received invalid can access request"
  | ErrUnauthorizedAccess => js "missing or invalid credentials provided"
  | _ => js "internal server error"
  end.

(** ** Requests

    The requests that read or write the tables above or the caches.  Names and
    metadata are in [ThingsList], with [UpdateThing] and [UpdateChannel]; its type
    [change] extends this one, and a change acts on this state as a request or not
    at all ([change_serves]). *)

Inductive request :=
| RCreateThings (token : text) (ths : list (text * (text * text)))
| RUpdateKey (token id key : text)
| RRemoveThing (token id : text)
| RCreateChannels (token : text) (ids : list text)
| RRemoveChannel (token id : text)
| RConnect (token : text) (chIDs thIDs : list text)
| RDisconnect (token chanID thingID : text)
| RCanAccessByKey (chanID key : text)
| RCanAccessByID (chanID thingID : text)
| RIdentify (key : text).

(** The state after a request. *)
Definition serve (r : request) (sv : service) : service :=
  match r with
  | RCreateThings token ths => fst (CreateThings token ths sv)
  | RUpdateKey token id key => fst (UpdateKey token id key sv)
  | RRemoveThing token id => fst (RemoveThing token id sv)
  | RCreateChannels token ids => fst (CreateChannels token ids sv)
  | RRemoveChannel token id => fst (RemoveChannel token id sv)
  | RConnect token chs ths => fst (Connect token chs ths sv)
  | RDisconnect token ch t => fst (Disconnect token ch t sv)
  | RCanAccessByKey ch key => fst (canAccessEndpoint ch key sv)
  | RCanAccessByID ch t => fst (canAccessByIDEndpoint ch t sv)
  | RIdentify key => fst (identifyEndpoint key sv)
  end.

End Service.

Arguments service S : clear implicits.
