(* ===== verification/ThingsSafety.v ===== *)
(** * The caches of the Things service are transparent

    The invariant that ties the caches to the tables, kept by every request but
    [UpdateKey], as long as identifiers are written as the database prints them
    and Redis answers when access is revoked. *)

From S2P Require Import Prelude JsString ThingsCache Things.
From stdpp Require Import gmap sets.

Section Safety.
Context {S : Type} `{HS : Caches S} {HSok : CachesOk S} {U : Uuid} {HU : UuidOk U}.
(** ** Queries *)

Lemma connected_spec d ch t : connected d ch t = true <-> exists o, (ch, t, o) ∈ connections d.
Proof.
  unfold connected. rewrite existsb_exists. split.
  - intros ([[ch' t'] o] & Hin%list_elem_of_In%elem_of_elements & Heq%bool_decide_eq_true).
    simplify_eq/=. by exists o.
  - intros [o Ho]. exists (ch, t, o). split; [by apply list_elem_of_In, elem_of_elements|].
    by apply bool_decide_eq_true.
Qed.

Lemma key_taken_spec d key : key_taken d key = true <-> exists r, things d !! r = Some key.
Proof.
  unfold key_taken. rewrite existsb_exists. split.
  - intros ([r k] & Hin%list_elem_of_In%elem_of_map_to_list & Heq%bool_decide_eq_true).
    simplify_eq/=. by exists r.
  - intros [r Hr]. exists (r, key). split; [by apply list_elem_of_In, elem_of_map_to_list|].
    by apply bool_decide_eq_true.
Qed.

Lemma has_thing_by_id_spec d ch t :
  has_thing_by_id d ch t = true <->
  exists u v, canon ch = Some u /\ canon t = Some v /\ connected d u v = true.
Proof.
  unfold has_thing_by_id. destruct (canon ch) as [u|], (canon t) as [v|]; naive_solver.
Qed.

Definition keys_unique (d : database) : Prop :=
  forall r1 r2 k, things d !! r1 = Some k -> things d !! r2 = Some k -> r1 = r2.

Lemma RetrieveByKey_Some d key t :
  keys_unique d -> RetrieveByKey d key = Some t <-> exists o, things d !! (t, o) = Some key.
Proof.
  intros Hu. unfold RetrieveByKey. destruct (List.find _ _) as [[[t' o'] k']|] eqn:E.
  - apply find_some in E as [Hin%list_elem_of_In%elem_of_map_to_list Hk%bool_decide_eq_true].
    simplify_eq/=. split; [intros [= <-]; by exists o'|].
    intros [o Ho]. pose proof (Hu _ _ _ Hin Ho). by simplify_eq.
  - split; [done|]. intros [o Ho]. exfalso.
    pose proof (find_none _ _ E ((t, o), key)) as Hf. rewrite bool_decide_eq_false in Hf.
    apply Hf; [|done]. by apply list_elem_of_In, elem_of_map_to_list.
Qed.

(** ** The invariant *)

(** [issued] holds every identifier the identity provider gave to a thing. *)
Record inv (issued : gset text) (d : database) (c : S) : Prop := {
  inv_thing : forall t o k, things d !! (t, o) = Some k -> canon t = Some t /\ t ∈ issued;
  inv_owner : forall t o1 o2 k1 k2,
    things d !! (t, o1) = Some k1 -> things d !! (t, o2) = Some k2 -> o1 = o2;
  inv_keys : keys_unique d;
  inv_channel : forall ch o, (ch, o) ∈ channels d -> canon ch = Some ch;
  inv_conn : forall ch t o, (ch, t, o) ∈ connections d ->
    canon ch = Some ch /\ exists k, things d !! (t, o) = Some k;
  inv_tc : forall k t, tc_id c k = Some t ->
    tc_key c t = Some k /\ exists o, things d !! (t, o) = Some k;
  inv_cc : forall ch t, cc_has c ch t = true ->
    t ∈ issued /\ forall o k, things d !! (t, o) = Some k -> connected d ch t = true
}.

(** An identifier in the form the database prints, or one it rejects. *)
Definition plain_id (s : text) : Prop := forall u, canon s = Some u -> u = s.

Lemma inv_init : inv ∅ empty_database no_cache.
Proof.
  assert (Ht : forall r, things empty_database !! r = None) by (intros r; apply lookup_empty).
  split; try (intros *; rewrite ?Ht; done); try (intros *; set_solver).
  - intros k t. by rewrite tc_id_empty.
  - intros ch t. by rewrite cc_has_empty.
Qed.

Lemma inv_issued issued issued' d c : issued ⊆ issued' -> inv issued d c -> inv issued' d c.
Proof. intros Hs [H1 H2 H3 H4 H5 H6 H7]. split; try done; naive_solver. Qed.

(** *** Caching what the database says *)

Lemma inv_save issued d c k t o :
  inv issued d c -> things d !! (t, o) = Some k -> inv issued d (tc_save k t c).
Proof.
  intros [H1 H2 H3 H4 H5 H6 H7] Hk. split; try done.
  - intros k' t'. rewrite tc_id_save, tc_key_save.
    destruct (decide (k' = k)) as [->|Hne].
    + intros [= ->]. rewrite decide_True by done. eauto.
    + intros Ht. destruct (H6 _ _ Ht) as [Hkey [o' Ho']]. split; [|by exists o'].
      rewrite decide_False; [done|]. intros ->.
      assert (o' = o) as -> by eauto. congruence.
  - intros ch t'. rewrite cc_has_save. apply H7.
Qed.

Lemma inv_connect issued d c ch t :
  inv issued d c -> t ∈ issued -> connected d ch t = true -> inv issued d (cc_connect ch t c).
Proof.
  intros [H1 H2 H3 H4 H5 H6 H7] Ht Hc. split; try done.
  - intros k t'. rewrite tc_id_connect, tc_key_connect. apply H6.
  - intros ch' t'. rewrite cc_has_connect. intros [[-> ->]%bool_decide_eq_true|H]%orb_true_iff; auto.
Qed.

(** *** Forgetting *)

Lemma inv_tc_remove issued d c t : inv issued d c -> inv issued d (tc_remove t c).
Proof.
  intros [H1 H2 H3 H4 H5 H6 H7]. split; try done.
  - intros k t'. rewrite tc_id_remove, tc_key_remove.
    destruct (decide (tc_key c t = Some k)) as [|Hne]; [done|]. intros Ht.
    destruct (H6 _ _ Ht) as [Hk Ho]. split; [|done]. by rewrite decide_False by congruence.
  - intros ch t'. rewrite cc_has_tc_remove. apply H7.
Qed.

(** What is left of the thing in the cache after it is forgotten. *)
Lemma tc_remove_gone issued d c t k :
  inv issued d c -> tc_id (tc_remove t c) k <> Some t.
Proof.
  intros Hi. rewrite tc_id_remove. destruct (decide (tc_key c t = Some k)); [done|].
  intros Ht. by destruct (inv_tc _ _ _ Hi _ _ Ht).
Qed.

Lemma inv_cc_disconnect issued d c ch t : inv issued d c -> inv issued d (cc_disconnect ch t c).
Proof.
  intros [H1 H2 H3 H4 H5 H6 H7]. split; try done.
  - intros k t'. rewrite tc_id_disconnect, tc_key_disconnect. apply H6.
  - intros ch' t'. rewrite cc_has_disconnect. intros [_ H]%andb_true_iff. auto.
Qed.

Lemma inv_cc_remove issued d c ch : inv issued d c -> inv issued d (cc_remove ch c).
Proof.
  intros [H1 H2 H3 H4 H5 H6 H7]. split; try done.
  - intros k t'. rewrite tc_id_cc_remove, tc_key_cc_remove. apply H6.
  - intros ch' t'. rewrite cc_has_remove. intros [_ H]%andb_true_iff. auto.
Qed.

(** *** The tables change *)

(** The identifiers of a request that are not yet taken. *)
Definition claim (issued : gset text) (id : text) : gset text :=
  match canon id with Some u => {[u]} ∪ issued | None => issued end.

Fixpoint fresh_ids (issued : gset text) (ids : list text) : Prop :=
  match ids with
  | [] => True
  | id :: ids' => (forall u, canon id = Some u -> u ∉ issued) /\ fresh_ids (claim issued id) ids'
  end.

Lemma claim_incl ids issued : issued ⊆ foldl claim issued ids.
Proof.
  revert issued. induction ids as [|id ids IH]; intros issued; simpl; [done|].
  etrans; [|apply IH]. unfold claim. destruct (canon id); set_solver.
Qed.

Lemma insert_thing_inv issued d c id owner key d' :
  inv issued d c -> (forall u, canon id = Some u -> u ∉ issued) ->
  insert_thing d (id, owner, key) = Ok d' -> inv (claim issued id) d' c.
Proof.
  intros [H1 H2 H3 H4 H5 H6 H7] Hfresh. unfold insert_thing, claim.
  destruct (canon id) as [u|] eqn:Hu; [|done]. specialize (Hfresh u eq_refl).
  destruct (_ || _) eqn:Hc; [done|]. intros [= <-].
  apply orb_false_iff in Hc as [_ Hkey].
  assert (Hnew : forall t o k, <[(u, owner) := key]> (things d) !! (t, o) = Some k ->
    (t = u /\ o = owner /\ k = key) \/ (t <> u /\ things d !! (t, o) = Some k)).
  { intros t o k [[Heq <-]|[_ Hk]]%lookup_insert_Some; [left; by simplify_eq|].
    right. split; [|done]. intros ->. by destruct (H1 _ _ _ Hk). }
  assert (Hold : forall t o k, things d !! (t, o) = Some k ->
    <[(u, owner) := key]> (things d) !! (t, o) = Some k).
  { intros t o k Hk. rewrite lookup_insert_ne; [done|]. intros [= <- _]. by destruct (H1 _ _ _ Hk). }
  assert (Htaken : forall r, things d !! r <> Some key).
  { intros r Hr. apply not_true_iff_false in Hkey. apply Hkey, key_taken_spec. by exists r. }
  split; unfold keys_unique; cbn [things channels connections].
  - intros t o k [(-> & -> & ->)|[_ Hk]]%Hnew; [split; [by eapply canon_idem|set_solver]|].
    destruct (H1 _ _ _ Hk). split; [done|set_solver].
  - intros t o1 o2 k1 k2 [(-> & -> & ->)|[Hne Hk1]]%Hnew [(? & -> & ->)|[? Hk2]]%Hnew; try done; eauto.
  - intros [t1 o1] [t2 o2] k [(-> & -> & ->)|[_ Hk1]]%Hnew [(-> & -> & Hk)|[_ Hk2]]%Hnew; try done.
    + by destruct (Htaken (t2, o2)).
    + subst. by destruct (Htaken (t1, o1)).
    + by apply (H3 _ _ k).
  - done.
  - intros ch t o Hconn. destruct (H5 _ _ _ Hconn) as [? [k Hk]]. eauto.
  - intros k t Ht. destruct (H6 _ _ Ht) as [? [o Ho]]. eauto.
  - intros ch t Hcc. destruct (H7 _ _ Hcc) as [Ht Himp]. split; [set_solver|].
    intros o k [(-> & _ & _)|[_ Hk]]%Hnew; [done|]. by eapply Himp.
Qed.

Lemma foldl_err {A} (f : database -> A -> result database) e xs :
  foldl (fun r x => bind_result r (fun d => f d x)) (Err e) xs = Err e.
Proof. by induction xs. Qed.

Lemma save_things_inv issued d c rows d' :
  inv issued d c -> fresh_ids issued ((fun r => fst (fst r)) <$> rows) ->
  save_things d rows = Ok d' -> inv (foldl claim issued ((fun r => fst (fst r)) <$> rows)) d' c.
Proof.
  unfold save_things. revert issued d.
  induction rows as [|[[id owner] key] rows IH]; intros issued d Hi; [by intros _ [= <-]|].
  intros [Hf Hfs]. cbn [foldl bind_result fmap list_fmap fst].
  destruct (insert_thing d (id, owner, key)) as [d1|e] eqn:E; [|by rewrite foldl_err].
  intros Hd. apply (IH _ d1); [by eapply insert_thing_inv|done|done].
Qed.

(** Channels and connections: the tables only grow. *)
Lemma insert_channel_inv issued d c row d' :
  inv issued d c -> insert_channel d row = Ok d' -> inv issued d' c.
Proof.
  intros [H1 H2 H3 H4 H5 H6 H7]. destruct row as [id owner]. unfold insert_channel.
  destruct (canon id) as [u|] eqn:Hu; [|done]. case_bool_decide; [done|]. intros [= <-].
  split; try done. cbn [channels]. intros ch o [[= -> ->]%elem_of_singleton|]%elem_of_union; [|eauto].
  by eapply canon_idem.
Qed.

Lemma insert_connection_inv issued d c owner p d' :
  inv issued d c -> insert_connection owner d p = Ok d' -> inv issued d' c.
Proof.
  intros [H1 H2 H3 H4 H5 H6 H7]. unfold insert_connection.
  destruct (canon (fst p)) as [ch|], (canon (snd p)) as [t|]; try done.
  destruct (_ || _) eqn:Hfk; [done|]. destruct (bool_decide (_ ∈ connections d)); [done|]. intros [= <-].
  apply orb_false_iff in Hfk as [Hch%negb_false_iff%bool_decide_eq_true Ht%bool_decide_eq_false].
  split; try done; cbn [connections].
  - intros ch' t' o [[= -> -> ->]%elem_of_singleton|]%elem_of_union; [|eauto].
    split; [by eapply H4|]. destruct (things d !! (t, owner)) as [k|] eqn:E; [by exists k|congruence].
  - intros ch' t' Hcc. destruct (H7 _ _ Hcc) as [Hin Himp]. split; [done|]. intros o k Hk.
    destruct (proj1 (connected_spec _ _ _) (Himp o k Hk)) as [o' Ho'].
    apply connected_spec. exists o'. set_solver.
Qed.

Lemma foldl_inv {A} (f : database -> A -> result database) issued c xs d d' :
  (forall d x d', inv issued d c -> f d x = Ok d' -> inv issued d' c) ->
  inv issued d c ->
  foldl (fun r x => bind_result r (fun d => f d x)) (Ok d) xs = Ok d' -> inv issued d' c.
Proof.
  intros Hf. revert d. induction xs as [|x xs IH]; intros d Hi; [by intros [= <-]|].
  cbn [foldl bind_result]. destruct (f d x) as [d1|e] eqn:E; [|by rewrite foldl_err].
  apply IH. by eapply Hf.
Qed.

(** Removals, with the cached copies already forgotten. *)
Lemma delete_connection_inv issued d c owner ch t d' :
  plain_id ch -> plain_id t ->
  inv issued d (cc_disconnect ch t c) -> delete_connection d owner ch t = Ok d' ->
  inv issued d' (cc_disconnect ch t c).
Proof.
  intros Hch Ht [H1 H2 H3 H4 H5 H6 H7]. unfold delete_connection.
  destruct (canon ch) as [u|] eqn:Eu, (canon t) as [v|] eqn:Ev; try done.
  rewrite (Hch _ Eu), (Ht _ Ev). case_bool_decide; [|done]. intros [= <-].
  split; try done; cbn [connections].
  - intros ch' t' o [Hin _]%elem_of_difference. eauto.
  - intros ch' t' Hcc. destruct (H7 _ _ Hcc) as [Hin Himp]. split; [done|]. intros o k Hk.
    rewrite cc_has_disconnect in Hcc. apply andb_true_iff in Hcc as [Hne%negb_true_iff%bool_decide_eq_false _].
    destruct (proj1 (connected_spec _ _ _) (Himp o k Hk)) as [o' Ho'].
    apply connected_spec. exists o'. set_solver.
Qed.

Lemma remove_thing_inv issued d c owner id :
  plain_id id -> inv issued d c -> inv issued (remove_thing d owner id) (tc_remove id c).
Proof.
  intros Hid Hi0. pose proof (inv_tc_remove issued d c id Hi0) as Hi.
  pose proof (fun k => tc_remove_gone issued d c id k Hi0) as Hgone.
  unfold remove_thing. destruct (canon id) as [u|] eqn:Eu; [|done].
  rewrite (Hid _ Eu) in *. destruct Hi as [H1 H2 H3 H4 H5 H6 H7].
  split; unfold keys_unique; cbn [things channels connections].
  - intros t o k [_ Hk]%lookup_delete_Some. eauto.
  - intros t o1 o2 k1 k2 [_ Hk1]%lookup_delete_Some [_ Hk2]%lookup_delete_Some. eauto.
  - intros r1 r2 k [_ Hk1]%lookup_delete_Some [_ Hk2]%lookup_delete_Some. by apply (H3 _ _ k).
  - done.
  - intros ch t o [Hn Hin]%elem_of_filter. destruct (H5 _ _ _ Hin) as [? [k Hk]].
    split; [done|]. exists k. rewrite lookup_delete_ne; [done|]. intros [= -> ->]. by apply Hn.
  - intros k t Ht. destruct (H6 _ _ Ht) as [? [o Ho]]. split; [done|]. exists o.
    rewrite lookup_delete_ne; [done|]. intros [= -> ->]. by apply (Hgone k).
  - intros ch t Hcc. destruct (H7 _ _ Hcc) as [Hin Himp]. split; [done|].
    intros o k [Hne Hk]%lookup_delete_Some.
    destruct (proj1 (connected_spec _ _ _) (Himp o k Hk)) as [o' Ho'].
    apply connected_spec. exists o'. apply elem_of_filter. split; [|done].
    destruct (H5 _ _ _ Ho') as [_ [k' Hk']]. simpl. intros [-> ->].
    assert (o = owner) as -> by eauto. done.
Qed.

Lemma remove_channel_inv issued d c owner id :
  plain_id id -> inv issued d c -> inv issued (remove_channel d owner id) (cc_remove id c).
Proof.
  intros Hid Hi0. pose proof (inv_cc_remove issued d c id Hi0) as Hi.
  unfold remove_channel. destruct (canon id) as [u|] eqn:Eu; [|done].
  rewrite (Hid _ Eu) in *. destruct Hi as [H1 H2 H3 H4 H5 H6 H7].
  split; unfold keys_unique; cbn [things channels connections]; try done.
  - intros ch o [Hin _]%elem_of_difference. eauto.
  - intros ch t o [_ Hin]%elem_of_filter. eauto.
  - intros ch t Hcc. destruct (H7 _ _ Hcc) as [Hin Himp]. split; [done|]. intros o k Hk.
    rewrite cc_has_remove in Hcc. apply andb_true_iff in Hcc as [Hne%negb_true_iff%bool_decide_eq_false _].
    destruct (proj1 (connected_spec _ _ _) (Himp o k Hk)) as [o' Ho'].
    apply connected_spec. exists o'. apply elem_of_filter. split; [|done]. simpl. by intros [-> _].
Qed.

(** ** Orderly runs *)

(** What the users and the environment are assumed to do: identifiers are
    written as the database prints them (or are no identifiers at all), new
    things get new identifiers, no key is changed, and Redis answers when access
    is revoked. *)
Definition orderly (issued : gset text) (sv : service S) (r : request) : Prop :=
  match r with
  | RUpdateKey _ _ _ => False
  | RCreateThings _ ths => fresh_ids issued ((fun th => fst (snd th)) <$> ths)
  | RRemoveThing _ id | RRemoveChannel _ id => plain_id id /\ up sv = true
  | RDisconnect _ ch t => plain_id ch /\ plain_id t /\ up sv = true
  | RCanAccessByKey ch _ => plain_id ch
  | RCanAccessByID ch t => plain_id ch /\ plain_id t
  | _ => True
  end.

Definition issue (issued : gset text) (r : request) : gset text :=
  match r with
  | RCreateThings _ ths => foldl claim issued ((fun th => fst (snd th)) <$> ths)
  | _ => issued
  end.

(** The users that tokens belong to. *)
Variable auth : text -> option text.

Inductive orderly_reach : gset text -> service S -> Prop :=
| or_init : orderly_reach ∅ (Service_ empty_database no_cache true)
| or_serve issued sv r :
    orderly_reach issued sv -> orderly issued sv r ->
    orderly_reach (issue issued r) (serve auth r sv)
| or_redis issued sv b :
    orderly_reach issued sv -> orderly_reach issued (Service_ (db sv) (cache sv) b).

Abbreviation inv_of issued sv := (inv issued (db sv) (cache sv)).

Lemma inv_on_cache issued sv f :
  inv_of issued sv -> inv issued (db sv) (f (cache sv)) -> inv_of issued (on_cache f sv).
Proof. intros Hi Hf. unfold on_cache. simpl. by destruct (up sv). Qed.

Lemma inv_commit issued sv r :
  inv_of issued sv -> (forall d, r = Ok d -> inv issued d (cache sv)) ->
  inv_of issued (fst (commit sv r)).
Proof. intros Hi Hr. destruct r as [d|e]; simpl; [by apply Hr|done]. Qed.

(** What the database grants, the cache may remember. *)
Lemma inv_access issued sv ch t :
  inv_of issued sv -> plain_id ch -> plain_id t -> has_thing_by_id (db sv) ch t = true ->
  inv_of issued (on_cache (cc_connect ch t) sv).
Proof.
  intros Hi Hch Ht (u & v & Hu & Hv & Hc)%has_thing_by_id_spec.
  rewrite (Hch _ Hu), (Ht _ Hv) in Hc. apply inv_on_cache; [done|].
  destruct (proj1 (connected_spec _ _ _) Hc) as [o Ho].
  destruct (inv_conn _ _ _ Hi _ _ _ Ho) as [_ [k Hk]].
  apply inv_connect; [done| |done]. by eapply inv_thing.
Qed.

Lemma inv_can_access issued sv ch key :
  inv_of issued sv -> plain_id ch -> inv_of issued (fst (CanAccessByKey ch key sv)).
Proof.
  intros Hi Hch. unfold CanAccessByKey. destruct (hasThing sv ch key); [done|].
  unfold has_thing. destruct (RetrieveByKey (db sv) key) as [t|] eqn:Hk; [|done].
  destruct (has_thing_by_id (db sv) ch t) eqn:Hc; [|done]. simpl fst.
  apply RetrieveByKey_Some in Hk as [o Ho]; [|by eapply inv_keys].
  assert (Hs : inv_of issued (on_cache (tc_save key t) sv)).
  { apply inv_on_cache; [done|]. by eapply inv_save. }
  apply inv_access; [done|done| |done].
  intros u Hu. destruct (inv_thing _ _ _ Hi _ _ _ Ho). by simplify_eq.
Qed.

Lemma inv_identify issued sv key :
  inv_of issued sv -> inv_of issued (fst (Identify key sv)).
Proof.
  intros Hi. unfold Identify. destruct (cached_id sv key); [done|].
  destruct (RetrieveByKey (db sv) key) as [t|] eqn:Hk; [|done]. simpl fst.
  apply RetrieveByKey_Some in Hk as [o Ho]; [|by eapply inv_keys].
  apply inv_on_cache; [done|]. by eapply inv_save.
Qed.

Lemma inv_serve issued sv r :
  inv_of issued sv -> orderly issued sv r -> inv_of (issue issued r) (serve auth r sv).
Proof.
  intros Hi. destruct r as [token ths|token id key|token id|token ids|token id|token chs ts|token ch t|ch key|ch t|key];
    cbn [serve orderly issue]; try done.
  - intros Hf. unfold CreateThings, as_owner.
    destruct (auth token) as [owner|]; [|by eapply inv_issued, Hi; apply claim_incl].
    apply inv_commit; [by eapply inv_issued, Hi; apply claim_incl|]. intros d Hd.
    set (rows := _ <$> ths) in Hd.
    assert (Hids : (fun r => fst (fst r)) <$> rows = (fun th => fst (snd th)) <$> ths).
    { subst rows. rewrite <- list_fmap_compose. apply list_fmap_ext. by intros ? [? [? ?]] _. }
    rewrite <- Hids in *. by eapply save_things_inv.
  - intros [Hid Hup]. unfold RemoveThing, as_owner. destruct (auth token) as [owner|]; [|done].
    unfold on_cache. rewrite Hup. by apply remove_thing_inv.
  - intros _. unfold CreateChannels, as_owner. destruct (auth token) as [owner|]; [|done].
    apply inv_commit; [done|]. intros d Hd.
    eapply (foldl_inv insert_channel); [|done|exact Hd]. intros *. apply insert_channel_inv.
  - intros [Hid Hup]. unfold RemoveChannel, as_owner. destruct (auth token) as [owner|]; [|done].
    unfold on_cache. rewrite Hup. by apply remove_channel_inv.
  - intros _. unfold Connect, as_owner. destruct (auth token) as [owner|]; [|done].
    apply inv_commit; [done|]. intros d Hd.
    eapply (foldl_inv (insert_connection owner)); [|done|exact Hd]. intros *. apply insert_connection_inv.
  - intros (Hch & Ht & Hup). unfold Disconnect, as_owner. destruct (auth token) as [owner|]; [|done].
    unfold disconnect_db, disconnect_cache, on_cache. rewrite Hup.
    apply inv_commit; [by apply inv_cc_disconnect|]. intros d Hd.
    apply (delete_connection_inv issued (db sv) (cache sv) owner); [done..| |done].
    by apply inv_cc_disconnect.
  - intros Hch. destruct ch, key; cbn [canAccessEndpoint]; try done; by apply inv_can_access.
  - intros [Hch Ht]. destruct ch, t; cbn [canAccessByIDEndpoint]; try done.
    unfold CanAccessByID. destruct (cached_conn _ _ _); [done|].
    destruct (has_thing_by_id _ _ _) eqn:Hc; [|done]. by apply inv_access.
  - intros _. by apply inv_identify.
Qed.

Lemma inv_orderly issued sv : orderly_reach issued sv -> inv_of issued sv.
Proof.
  induction 1 as [|issued sv r Hr IH Ho|issued sv b Hr IH]; [apply inv_init| |done].
  by apply inv_serve.
Qed.

End Safety.
