(* ===== verification/ThingsRows.v ===== *)
(** * The rows of an owner

    Every row of the tables belongs to a user.  A request to the Things service
    works on the rows of the user that its token belongs to, and leaves those of
    every other user alone. *)

From S2P Require Import Prelude JsString ThingsCache Things ThingsSafety.
From stdpp Require Import gmap sets.

Record owner_rows (e : text) (d d' : database) : Prop := {
  owner_things : forall id, things d' !! (id, e) = things d !! (id, e);
  owner_channels : forall id, (id, e) ∈ channels d' <-> (id, e) ∈ channels d;
  owner_connections : forall ch t, (ch, t, e) ∈ connections d' <-> (ch, t, e) ∈ connections d
}.

Lemma owner_rows_refl e d : owner_rows e d d.
Proof. done. Qed.

Lemma owner_rows_trans e d1 d2 d3 : owner_rows e d1 d2 -> owner_rows e d2 d3 -> owner_rows e d1 d3.
Proof.
  intros [H1 H2 H3] [H4 H5 H6]. split; intros.
  - by rewrite H4.
  - by rewrite H5.
  - by rewrite H6.
Qed.

Section Rows.
Context {U : Uuid}.
Variables (e owner : text).
Hypothesis Hne : owner <> e.

Lemma insert_thing_other d row d' : snd (fst row) = owner -> insert_thing d row = Ok d' -> owner_rows e d d'.
Proof.
  destruct row as [[id o] key]. cbn [fst snd]. intros ->. unfold insert_thing.
  destruct (canon id) as [u|]; [|done]. destruct (_ || _); [done|]. intros [= <-].
  split; [|done|done]. intros i. cbn [things]. rewrite lookup_insert_ne; [done|congruence].
Qed.

Lemma update_key_other d id key d' : update_key d owner id key = Ok d' -> owner_rows e d d'.
Proof.
  unfold update_key. destruct (canon id) as [u|]; [|done]. destruct (things d !! (u, owner)); [|done].
  destruct (_ && _); [done|]. intros [= <-].
  split; [|done|done]. intros i. cbn [things]. rewrite lookup_insert_ne; [done|congruence].
Qed.

Lemma remove_thing_other d id : owner_rows e d (remove_thing d owner id).
Proof.
  unfold remove_thing. destruct (canon id) as [u|]; [|done]. split; [|done|].
  - intros i. cbn [things]. rewrite lookup_delete_ne; [done|congruence].
  - intros ch t. cbn [connections]. rewrite elem_of_filter. cbn [fst snd]. split; [by intros [_ H]|].
    intros H. split; [|done]. intros [_ ?]. congruence.
Qed.

Lemma insert_channel_other d row d' : snd row = owner -> insert_channel d row = Ok d' -> owner_rows e d d'.
Proof.
  destruct row as [id o]. cbn [snd]. intros ->. unfold insert_channel. destruct (canon id) as [u|]; [|done].
  destruct (bool_decide _); [done|]. intros [= <-].
  split; [done| |done]. intros i. cbn [channels]. rewrite elem_of_union, elem_of_singleton.
  split; [intros [[= -> ->]|]; done|by right].
Qed.

Lemma remove_channel_other d id : owner_rows e d (remove_channel d owner id).
Proof.
  unfold remove_channel. destruct (canon id) as [u|]; [|done]. split; [done| |].
  - intros i. cbn [channels]. rewrite elem_of_difference, elem_of_singleton.
    split; [by intros [? _]|]. intros H. split; [done|]. congruence.
  - intros ch t. cbn [connections]. rewrite elem_of_filter. cbn [fst snd]. split; [by intros [_ H]|].
    intros H. split; [|done]. intros [_ ?]. congruence.
Qed.

Lemma insert_connection_other d c d' : insert_connection owner d c = Ok d' -> owner_rows e d d'.
Proof.
  unfold insert_connection. destruct (canon (fst c)) as [ch|]; [|done]. destruct (canon (snd c)) as [t|]; [|done].
  destruct (_ || _); [done|]. destruct (bool_decide _); [done|]. intros [= <-].
  split; [done|done|]. intros ch' t'. cbn [connections]. rewrite elem_of_union, elem_of_singleton.
  split; [intros [[= -> -> ->]|]; done|by right].
Qed.

Lemma delete_connection_other d ch t d' : delete_connection d owner ch t = Ok d' -> owner_rows e d d'.
Proof.
  unfold delete_connection. destruct (canon ch) as [c|]; [|done]. destruct (canon t) as [u|]; [|done].
  destruct (bool_decide _); [|done]. intros [= <-].
  split; [done|done|]. intros ch' t'. cbn [connections]. rewrite elem_of_difference, elem_of_singleton.
  split; [by intros [? _]|]. intros H. split; [done|]. congruence.
Qed.

(** Rows that are written one after the other. *)
Lemma foldl_other {A} (f : database -> A -> result database) xs d d' :
  (forall x d1 d2, x ∈ xs -> f d1 x = Ok d2 -> owner_rows e d1 d2) ->
  foldl (fun r x => bind_result r (fun d => f d x)) (Ok d) xs = Ok d' -> owner_rows e d d'.
Proof.
  revert d. induction xs as [|x xs IH]; intros d Hf; [by intros [= <-]|].
  cbn [foldl bind_result]. destruct (f d x) as [d1|er] eqn:E; [|by rewrite foldl_err].
  intros H. eapply owner_rows_trans; [by eapply Hf; [left|]|]. apply IH; [|done].
  intros y d2 d3 Hy. apply Hf. by right.
Qed.

End Rows.

(** ** Requests *)

(** The token that a request carries; the access requests of the adapters have
    none. *)
Definition request_token (r : request) : option text :=
  match r with
  | RCreateThings tok _ | RUpdateKey tok _ _ | RRemoveThing tok _ | RCreateChannels tok _
  | RRemoveChannel tok _ | RConnect tok _ _ | RDisconnect tok _ _ => Some tok
  | RCanAccessByKey _ _ | RCanAccessByID _ _ | RIdentify _ => None
  end.

Section Requests.
Context {S : Type} `{HS : Caches S} {U : Uuid}.
Variable auth : text -> option text.

Lemma db_commit sv (r : result database) :
  db (fst (commit (S := S) sv r)) = match r with Ok d => d | Err _ => db sv end.
Proof. by destruct r. Qed.

Lemma db_on_cache f (sv : service S) : db (on_cache f sv) = db sv.
Proof. done. Qed.

Lemma as_owner_other tok (k : text -> service S * result unit) (sv : service S) e :
  (forall owner, owner <> e -> owner_rows e (db sv) (db (fst (k owner)))) ->
  owner_rows e (db sv) (db (fst (as_owner auth tok sv k))) \/ exists t, Some tok = Some t /\ auth t = Some e.
Proof.
  intros Hk. unfold as_owner. destruct (auth tok) as [owner|] eqn:Ha; [|by left].
  destruct (decide (owner = e)) as [->|Hne]; [right; by exists tok|]. left. by apply Hk.
Qed.

Lemma commit_other (sv : service S) e (res : result database) :
  (forall d', res = Ok d' -> owner_rows e (db sv) d') -> owner_rows e (db sv) (db (fst (commit sv res))).
Proof. rewrite db_commit. destruct res as [d'|]; [|done]. intros H. by apply H. Qed.

(** A request works on the rows of the user that its token belongs to. *)
Lemma serve_other r (sv : service S) e :
  owner_rows e (db sv) (db (serve auth r sv)) \/ exists tok, request_token r = Some tok /\ auth tok = Some e.
Proof.
  destruct r as [tok ths|tok id key|tok id|tok ids|tok id|tok chs ths|tok ch t|ch key|ch t|key];
    cbn [serve request_token].
  - apply as_owner_other. intros owner Hne. apply commit_other. intros d' Hd.
    eapply (foldl_other e insert_thing); [|exact Hd]. intros row d1 d2 Hin Hi.
    apply list_elem_of_fmap in Hin as ((key & id & gen) & -> & _). refine (insert_thing_other e owner Hne _ _ _ _ Hi). done.
  - apply as_owner_other. intros owner Hne. apply commit_other. intros d'. exact (update_key_other e owner Hne _ _ _ _).
  - apply as_owner_other. intros owner Hne. by apply remove_thing_other.
  - apply as_owner_other. intros owner Hne. apply commit_other. intros d' Hd.
    eapply (foldl_other e insert_channel); [|exact Hd]. intros row d1 d2 Hin Hi.
    apply list_elem_of_fmap in Hin as (id & -> & _). refine (insert_channel_other e owner Hne _ _ _ _ Hi). done.
  - apply as_owner_other. intros owner Hne. by apply remove_channel_other.
  - apply as_owner_other. intros owner Hne. apply commit_other. intros d' Hd.
    eapply (foldl_other e (insert_connection owner)); [|exact Hd]. intros c d1 d2 _. exact (insert_connection_other e owner Hne _ _ _).
  - apply as_owner_other. intros owner Hne. unfold disconnect_db.
    apply (commit_other (disconnect_cache ch t sv)). intros d'. exact (delete_connection_other e owner Hne _ _ _ _).
  - left. unfold canAccessEndpoint, CanAccessByKey. by repeat case_match.
  - left. unfold canAccessByIDEndpoint, CanAccessByID. by repeat case_match.
  - left. unfold identifyEndpoint, Things.Identify. by repeat case_match.
Qed.

End Requests.
