(* ===== verification/ThingsProperties.v ===== *)
(** * What the Things service guarantees

    Transparency of the caches in orderly runs, and the four ways out of it that
    the code has: a changed key, a request between the two halves of a
    disconnection, another spelling of a channel identifier, and access by
    identifier after a thing is removed. *)

From S2P Require Import Prelude JsString ThingsCache Things ThingsSafety.
From stdpp Require Import gmap sets.

Section Properties.
Context {S : Type} `{HS : Caches S} {HSok : CachesOk S} {U : Uuid} {HU : UuidOk U}.
(** The thing with a key is connected to a channel, in the tables. *)
Definition may_access (d : database) (ch key t : text) : Prop :=
  exists u o, canon ch = Some u /\ things d !! (t, o) = Some key /\ (u, t, o) ∈ connections d.

Lemma has_thing_spec issued d c ch key t :
  inv issued d c -> has_thing d ch key = Some t <-> may_access d ch key t.
Proof.
  intros Hi. unfold has_thing. pose proof (fun t => RetrieveByKey_Some d key t (inv_keys _ _ _ Hi)) as Hk.
  split.
  - destruct (RetrieveByKey d key) as [t'|]; [|done].
    destruct (has_thing_by_id d ch t') eqn:Hc; [|done]. intros [= ->].
    destruct (proj1 (Hk t) eq_refl) as [o Ho].
    apply has_thing_by_id_spec in Hc as (u & v & Hu & Hv & [o' Ho']%connected_spec).
    destruct (inv_thing _ _ _ Hi _ _ _ Ho) as [Hv' _]. simplify_eq.
    destruct (inv_conn _ _ _ Hi _ _ _ Ho') as [_ [k' Hk']].
    assert (o' = o) as -> by exact (inv_owner _ _ _ Hi _ _ _ _ _ Hk' Ho). by exists u, o.
  - intros (u & o & Hu & Ho & Hc). rewrite (proj2 (Hk t)) by by exists o.
    rewrite (proj2 (has_thing_by_id_spec d ch t)); [done|].
    exists u, t. split_and!; [done| |apply connected_spec; by exists o].
    by eapply inv_thing.
Qed.

Abbreviation inv_of issued sv := (inv issued (db sv) (cache sv)).

(** A hit in the caches. *)
Lemma cached_access sv ch key t :
  cached_id sv key = Some t -> cached_conn sv ch t = true -> CanAccessByKey ch key sv = (sv, Ok t).
Proof. intros H1 H2. unfold CanAccessByKey, hasThing. by rewrite H1, H2. Qed.

Lemma hit_is_granted issued sv ch key t :
  inv_of issued sv -> plain_id ch -> hasThing sv ch key = Some t -> has_thing (db sv) ch key = Some t.
Proof.
  intros Hi Hch. unfold hasThing, cached_id, cached_conn. destruct (up sv); [|done].
  destruct (tc_id (cache sv) key) as [t'|] eqn:Hk; [|done]. simpl.
  destruct (cc_has (cache sv) ch t') eqn:Hc; [|done]. intros [= ->].
  destruct (inv_tc _ _ _ Hi _ _ Hk) as [_ [o Ho]].
  destruct (inv_cc _ _ _ Hi _ _ Hc) as [_ Himp].
  destruct (proj1 (connected_spec _ _ _) (Himp _ _ Ho)) as [o' Ho'].
  apply (has_thing_spec _ _ _ _ _ _ Hi). exists ch, o.
  destruct (inv_conn _ _ _ Hi _ _ _ Ho') as [Hcan [k' Hk']].
  assert (o' = o) as -> by exact (inv_owner _ _ _ Hi _ _ _ _ _ Hk' Ho). done.
Qed.

Lemma can_access_spec issued sv ch key t :
  inv_of issued sv -> plain_id ch ->
  snd (CanAccessByKey ch key sv) = Ok t <-> may_access (db sv) ch key t.
Proof.
  intros Hi Hch. rewrite <- (has_thing_spec _ _ _ _ _ _ Hi). unfold CanAccessByKey.
  destruct (hasThing sv ch key) as [t'|] eqn:Hh.
  - rewrite (hit_is_granted _ _ _ _ _ Hi Hch Hh). simpl. naive_solver.
  - destruct (has_thing (db sv) ch key); simpl; naive_solver.
Qed.

Lemma identify_spec issued sv key t :
  inv_of issued sv ->
  snd (Identify key sv) = Ok t <-> exists o, things (db sv) !! (t, o) = Some key.
Proof.
  intros Hi. rewrite <- RetrieveByKey_Some by (by eapply inv_keys). unfold Identify, cached_id.
  destruct (if up sv then tc_id (cache sv) key else None) as [t'|] eqn:Hc.
  - destruct (up sv); [|done]. destruct (inv_tc _ _ _ Hi _ _ Hc) as [_ Ho].
    apply (RetrieveByKey_Some _ _ _ (inv_keys _ _ _ Hi)) in Ho. rewrite Ho. simpl. naive_solver.
  - destruct (RetrieveByKey (db sv) key); simpl; naive_solver.
Qed.

Variable auth : text -> option text.

Abbreviation orderly_reach := (orderly_reach auth).

(** C10: in an orderly run, whatever the caches hold and whether or not Redis
    answers, the service grants access exactly when the tables do, with the
    right thing, and identifies exactly the keys of the things table. *)
Theorem caches_transparent issued sv ch key t :
  orderly_reach issued sv -> plain_id ch ->
  (snd (CanAccessByKey ch key sv) = Ok t <-> may_access (db sv) ch key t) /\
  (snd (Identify key sv) = Ok t <-> exists o, things (db sv) !! (t, o) = Some key).
Proof.
  intros Hr Hch. pose proof (inv_orderly _ _ _ Hr) as Hi.
  split; [by eapply can_access_spec|by eapply identify_spec].
Qed.

(** ** Stale access *)

(** After a granted request both caches know it. *)
Lemma granted_cached sv ch key t :
  up sv = true -> snd (CanAccessByKey ch key sv) = Ok t ->
  let sv' := fst (CanAccessByKey ch key sv) in
  db sv' = db sv /\ up sv' = true /\
  tc_id (cache sv') key = Some t /\ cc_has (cache sv') ch t = true.
Proof.
  intros Hup. unfold CanAccessByKey, hasThing, cached_id, cached_conn, on_cache. rewrite Hup.
  destruct (tc_id (cache sv) key) as [t'|] eqn:Hk.
  - simpl. destruct (cc_has (cache sv) ch t') eqn:Hc; [intros [= ->]; done|].
    destruct (has_thing (db sv) ch key) as [t2|]; [|done]. simpl. intros [= ->].
    rewrite ?Hup. simpl. split_and!; [done..| |]; autorewrite with cachedb.
    + by rewrite decide_True.
    + by rewrite bool_decide_eq_true_2.
  - destruct (has_thing (db sv) ch key) as [t2|]; [|done]. simpl. intros [= ->].
    rewrite ?Hup. simpl. split_and!; [done..| |]; autorewrite with cachedb.
    + by rewrite decide_True.
    + by rewrite bool_decide_eq_true_2.
Qed.

(** What the caches remember is granted without the tables. *)
Lemma cached_granted sv ch key t :
  up sv = true -> tc_id (cache sv) key = Some t -> cc_has (cache sv) ch t = true ->
  snd (CanAccessByKey ch key sv) = Ok t.
Proof.
  intros Hup Hk Hc. rewrite (cached_access _ _ _ t); [done|..]; unfold cached_id, cached_conn; by rewrite Hup.
Qed.

(** A changed key does not revoke the old one: after a successful
    [UpdateKey] no thing has the old key, and the old key still opens the
    channels it had been used for. *)
Theorem update_key_keeps_old_key issued sv ch key t token owner new :
  orderly_reach issued sv -> up sv = true -> snd (CanAccessByKey ch key sv) = Ok t ->
  auth token = Some owner -> things (db sv) !! (t, owner) = Some key ->
  new <> key -> key_taken (db sv) new = false ->
  let sv' := fst (CanAccessByKey ch key sv) in
  snd (UpdateKey auth token t new sv') = Ok tt /\
  (forall r, things (db (fst (UpdateKey auth token t new sv'))) !! r <> Some key) /\
  snd (CanAccessByKey ch key (fst (UpdateKey auth token t new sv'))) = Ok t.
Proof.
  intros Hr Hup Hg Hauth Hrow Hne Hfree sv'.
  destruct (granted_cached sv ch key t Hup Hg) as (Hdb & Hup' & Hk & Hc).
  fold sv' in Hdb, Hup', Hk, Hc. pose proof (inv_orderly _ _ _ Hr) as Hi.
  destruct (inv_thing _ _ _ Hi _ _ _ Hrow) as [Hcan _].
  unfold UpdateKey, as_owner, update_key. rewrite Hauth, Hdb, Hcan, Hrow, Hfree, andb_false_r. simpl.
  split; [done|]. split.
  - intros r [[_ ?]|[Hn Hr']]%lookup_insert_Some; [done|]. apply Hn. by eapply inv_keys.
  - by apply cached_granted.
Qed.

(** The tables after the one connection of a pair is deleted. *)
Lemma delete_connection_revokes issued sv ch ch' key t owner d' :
  inv_of issued sv -> things (db sv) !! (t, owner) = Some key -> canon ch' = Some ch ->
  delete_connection (db sv) owner ch t = Ok d' -> has_thing d' ch' key = None.
Proof.
  intros Hi Hrow Hch' Hd. pose proof (inv_thing _ _ _ Hi _ _ _ Hrow) as [Ht _].
  pose proof (canon_idem _ _ Hch') as Hch.
  unfold delete_connection in Hd. rewrite Hch, Ht in Hd. case_bool_decide; [|done].
  injection Hd as <-. unfold has_thing.
  assert (RetrieveByKey (db sv) key = Some t) as Hk.
  { apply RetrieveByKey_Some; [by eapply inv_keys|by exists owner]. }
  unfold RetrieveByKey in *. cbn [things]. destruct (List.find _ _) as [row|]; [|done].
  injection Hk as Hk. rewrite Hk.
  destruct (has_thing_by_id _ ch' t) eqn:Hc; [|done].
  apply has_thing_by_id_spec in Hc as (u & v & Hu & Hv & [o Ho]%connected_spec).
  simplify_eq. cbn [connections] in Ho. apply elem_of_difference in Ho as [Ho Hn].
  destruct (inv_conn _ _ _ Hi _ _ _ Ho) as [_ [k' Hk']].
  assert (o = owner) as -> by exact (inv_owner _ _ _ Hi _ _ _ _ _ Hk' Hrow). set_solver.
Qed.

Lemma delete_connection_ok d owner ch t :
  canon ch = Some ch -> canon t = Some t -> (ch, t, owner) ∈ connections d ->
  exists d', delete_connection d owner ch t = Ok d'.
Proof. intros Hch Ht Hc. unfold delete_connection. rewrite Hch, Ht, bool_decide_eq_true_2 by done. by eexists. Qed.

(** A connection in the tables is granted, by a name of the channel. *)
Lemma connection_granted issued sv ch ch' key t owner :
  inv_of issued sv -> canon ch' = Some ch ->
  things (db sv) !! (t, owner) = Some key -> (ch, t, owner) ∈ connections (db sv) ->
  hasThing sv ch' key = None -> snd (CanAccessByKey ch' key sv) = Ok t.
Proof.
  intros Hi Hch Hrow Hc Hmiss. unfold CanAccessByKey. rewrite Hmiss.
  rewrite (proj2 (has_thing_spec _ _ _ ch' key t Hi)); [done|]. by exists ch, owner.
Qed.

(** A disconnection is not atomic: when a request of the thing comes between
    the update of the cache and that of the tables, the disconnection succeeds,
    the tables deny the thing, and the service goes on granting it access. *)
Theorem disconnect_race issued sv ch key t owner :
  orderly_reach issued sv -> up sv = true ->
  things (db sv) !! (t, owner) = Some key -> (ch, t, owner) ∈ connections (db sv) ->
  let sv1 := fst (CanAccessByKey ch key (disconnect_cache ch t sv)) in
  let sv2 := fst (disconnect_db owner ch t sv1) in
  snd (disconnect_db owner ch t sv1) = Ok tt /\
  has_thing (db sv2) ch key = None /\
  snd (CanAccessByKey ch key sv2) = Ok t.
Proof.
  intros Hr Hup Hrow Hc. set (sv0 := disconnect_cache ch t sv).
  pose proof (inv_orderly _ _ _ Hr) as Hi.
  assert (Hi0 : inv_of issued sv0) by (apply inv_on_cache; [done|by apply inv_cc_disconnect]).
  destruct (inv_conn _ _ _ Hi _ _ _ Hc) as [Hch _].
  destruct (inv_thing _ _ _ Hi _ _ _ Hrow) as [Ht _].
  assert (Hg : snd (CanAccessByKey ch key sv0) = Ok t).
  { eapply (connection_granted issued sv0 ch ch key t owner); [done..|].
    unfold hasThing. destruct (cached_id sv0 key) as [t'|] eqn:Hk; [|done].
    destruct (cached_conn sv0 ch t') eqn:Hcc; [|done]. exfalso.
    unfold cached_id, cached_conn, sv0, disconnect_cache, on_cache in Hk, Hcc.
    simpl in Hk, Hcc. rewrite Hup in Hk, Hcc. autorewrite with cachedb in Hk, Hcc.
    destruct (inv_tc _ _ _ Hi _ _ Hk) as [_ [o Ho]].
    assert ((t', o) = (t, owner)) as [= -> ->] by exact (inv_keys _ _ _ Hi _ _ _ Ho Hrow).
    simpl in Hcc. by rewrite bool_decide_eq_true_2 in Hcc. }
  destruct (granted_cached sv0 ch key t Hup Hg) as (Hdb & Hup1 & Hk1 & Hc1).
  intros sv1 sv2. fold sv1 in Hdb, Hup1, Hk1, Hc1.
  destruct (delete_connection_ok (db sv) owner ch t Hch Ht Hc) as [d' Hd'].
  assert (Hres : disconnect_db owner ch t sv1 = (with_db sv1 d', Ok tt)).
  { unfold disconnect_db. rewrite Hdb. change (db sv0) with (db sv). by rewrite Hd'. }
  subst sv2. rewrite Hres. simpl. split; [done|]. split.
  - by eapply delete_connection_revokes.
  - by apply cached_granted.
Qed.

(** The caches are keyed by the text of a channel identifier and the tables
    by its value: a thing that had used another spelling of the identifier keeps
    its access under that spelling after it is disconnected. *)
Theorem respelled_channel issued sv ch ch' key t token owner :
  orderly_reach issued sv -> up sv = true ->
  canon ch' = Some ch -> ch' <> ch -> auth token = Some owner ->
  things (db sv) !! (t, owner) = Some key -> (ch, t, owner) ∈ connections (db sv) ->
  hasThing sv ch' key = None ->
  let sv1 := fst (CanAccessByKey ch' key sv) in
  let sv2 := fst (Disconnect auth token ch t sv1) in
  snd (Disconnect auth token ch t sv1) = Ok tt /\
  has_thing (db sv2) ch' key = None /\
  snd (CanAccessByKey ch' key sv2) = Ok t.
Proof.
  intros Hr Hup Hch' Hne Hauth Hrow Hc Hmiss. pose proof (inv_orderly _ _ _ Hr) as Hi.
  assert (Hg : snd (CanAccessByKey ch' key sv) = Ok t) by (by eapply connection_granted).
  destruct (granted_cached sv ch' key t Hup Hg) as (Hdb & Hup1 & Hk1 & Hc1).
  intros sv1 sv2. fold sv1 in Hdb, Hup1, Hk1, Hc1.
  destruct (inv_conn _ _ _ Hi _ _ _ Hc) as [Hch _].
  destruct (inv_thing _ _ _ Hi _ _ _ Hrow) as [Ht _].
  destruct (delete_connection_ok (db sv) owner ch t Hch Ht Hc) as [d' Hd'].
  assert (Hres : Disconnect auth token ch t sv1 = (with_db (disconnect_cache ch t sv1) d', Ok tt)).
  { unfold Disconnect, as_owner, disconnect_db. rewrite Hauth.
    change (db (disconnect_cache ch t sv1)) with (db sv1). by rewrite Hdb, Hd'. }
  subst sv2. rewrite Hres. simpl. split; [done|]. split.
  - by eapply delete_connection_revokes.
  - apply cached_granted; unfold disconnect_cache, on_cache; simpl; rewrite ?Hup1; [done|..];
      autorewrite with cachedb; [done|].
    by rewrite Hc1, bool_decide_eq_false_2 by (intros [-> _]; done).
Qed.

(** Removing a thing leaves its connections in the channel cache: access by
    identifier, once cached, is still granted after the thing is gone. *)
Theorem removed_thing_by_id sv ch t token owner :
  up sv = true -> auth token = Some owner -> canon t = Some t ->
  snd (CanAccessByID ch t sv) = Ok tt ->
  let sv1 := fst (CanAccessByID ch t sv) in
  let sv2 := fst (RemoveThing auth token t sv1) in
  snd (RemoveThing auth token t sv1) = Ok tt /\
  things (db sv2) !! (t, owner) = None /\
  snd (CanAccessByID ch t sv2) = Ok tt.
Proof.
  intros Hup Hauth Ht Hg sv1 sv2.
  assert (Hc1 : up sv1 = true /\ cc_has (cache sv1) ch t = true).
  { subst sv1. unfold CanAccessByID, cached_conn, on_cache in *. rewrite Hup in *. simpl in *.
    destruct (cc_has (cache sv) ch t) eqn:Hc; [done|].
    destruct (has_thing_by_id (db sv) ch t); [|done]. simpl.
    autorewrite with cachedb. split; [done|]. by rewrite bool_decide_eq_true_2. }
  destruct Hc1 as [Hup1 Hc1]. clearbody sv1.
  subst sv2. unfold RemoveThing, as_owner. rewrite Hauth. simpl. split; [done|]. split.
  - unfold remove_thing. rewrite Ht. simpl. apply lookup_delete_eq.
  - unfold CanAccessByID, cached_conn, on_cache. simpl. rewrite Hup1. simpl.
    autorewrite with cachedb. by rewrite Hc1.
Qed.

End Properties.

(** ** Witnesses: Redis, and hexadecimal identifiers *)

Definition hex_unit (c : Z) : bool :=
  ((48 <=? c) && (c <=? 57) || (97 <=? c) && (c <=? 102) || (65 <=? c) && (c <=? 70))%Z.
Definition lower_unit (c : Z) : Z := if ((65 <=? c) && (c <=? 70))%Z then (c + 32)%Z else c.

(** A type of identifiers that, like UUIDs, are read in either case and printed
    in lower case. *)
#[local] Instance hex_uuid : Uuid := fun s =>
  match s with
  | [] => None
  | _ :: _ => if forallb hex_unit s then Some (lower_unit <$> s) else None
  end.

#[local] Instance hex_uuid_ok : UuidOk hex_uuid.
Proof.
  assert (Hl : forall s, forallb hex_unit s = true ->
    forallb hex_unit (lower_unit <$> s) = true /\ lower_unit <$> (lower_unit <$> s) = lower_unit <$> s).
  { induction s as [|c s IH]; [done|]. intros [Hc Hs]%andb_true_iff. destruct (IH Hs) as [H1 H2].
    csimpl. rewrite H1, H2, andb_true_r. unfold hex_unit, lower_unit in *.
    destruct ((65 <=? c)%Z && (c <=? 70)%Z) eqn:E; [|by rewrite E].
    assert (((65 <=? c + 32)%Z && (c + 32 <=? 70)%Z) = false) as -> by lia.
    split; [lia|done]. }
  intros s u. unfold canon, hex_uuid. destruct s as [|c s]; [done|].
  destruct (forallb hex_unit (c :: s)) eqn:E; [|done]. intros [= <-].
  destruct (Hl _ E) as [H1 H2]. csimpl. csimpl in H1. rewrite H1. f_equal. exact H2.
Qed.

Definition sample_auth (token : text) : option text :=
  if bool_decide (token = js "tok") then Some (js "alice") else None.

Definition sample_requests : list request := [
  RCreateThings (js "tok") [(js "k1", (js "a1", js "gen"))];
  RCreateChannels (js "tok") [js "c1"];
  RConnect (js "tok") [js "c1"] [js "a1"]].

Definition fresh_service : service keyspace := Service_ empty_database no_cache true.

Definition sample_service : service keyspace :=
  foldl (fun sv r => serve sample_auth r sv) fresh_service sample_requests.

Lemma sample_reach : orderly_reach sample_auth {[js "a1"]} sample_service.
Proof.
  set (r := RCreateThings (js "tok") [(js "k1", (js "a1", js "gen"))]).
  assert (Ho : orderly ∅ fresh_service r) by (split; [intros u _; set_solver|done]).
  pose proof (or_serve sample_auth _ _ r (or_init _) Ho) as H1.
  change (issue ∅ r) with (claim ∅ (js "a1")) in H1.
  assert (claim ∅ (js "a1") = {[js "a1"]}) as Hc by (unfold claim; vm_compute; reflexivity).
  rewrite Hc in H1.
  pose proof (or_serve _ _ _ (RCreateChannels (js "tok") [js "c1"]) H1 I) as H2.
  exact (or_serve _ _ _ (RConnect (js "tok") [js "c1"] [js "a1"]) H2 I).
Qed.

Lemma sample_row : things (db sample_service) !! (js "a1", js "alice") = Some (js "k1").
Proof. vm_eq. Qed.
Lemma sample_connection : (js "c1", js "a1", js "alice") ∈ connections (db sample_service).
Proof. vm_decide. Qed.

Lemma plain_c1 : plain_id (js "c1").
Proof. intros u Hu. vm_compute in Hu. vm_compute. congruence. Qed.

Lemma caches_transparent_witness :
  snd (CanAccessByKey (js "c1") (js "k1") sample_service) = Ok (js "a1").
Proof.
  refine (proj2 (proj1 (caches_transparent sample_auth _ _ (js "c1") (js "k1") (js "a1")
    sample_reach plain_c1)) _).
  exists (js "c1"), (js "alice"). split_and!; [reflexivity|exact sample_row|exact sample_connection].
Defined.

Lemma update_key_keeps_old_key_witness :
  let sv' := fst (CanAccessByKey (js "c1") (js "k1") sample_service) in
  snd (CanAccessByKey (js "c1") (js "k1")
    (fst (UpdateKey sample_auth (js "tok") (js "a1") (js "k2") sv'))) = Ok (js "a1").
Proof.
  refine (proj2 (proj2 (update_key_keeps_old_key sample_auth _ sample_service (js "c1") (js "k1")
    (js "a1") (js "tok") (js "alice") (js "k2") sample_reach _ _ _ _ _ _)));
    [reflexivity|vm_compute; reflexivity|reflexivity|exact sample_row|discriminate|vm_compute; reflexivity].
Defined.

Lemma disconnect_race_witness :
  let sv1 := fst (CanAccessByKey (js "c1") (js "k1")
    (disconnect_cache (js "c1") (js "a1") sample_service)) in
  let sv2 := fst (disconnect_db (js "alice") (js "c1") (js "a1") sv1) in
  has_thing (db sv2) (js "c1") (js "k1") = None /\
  snd (CanAccessByKey (js "c1") (js "k1") sv2) = Ok (js "a1").
Proof.
  refine (proj2 (disconnect_race sample_auth _ sample_service (js "c1") (js "k1") (js "a1")
    (js "alice") sample_reach _ _ _)); [reflexivity|exact sample_row|exact sample_connection].
Defined.

Lemma respelled_channel_witness :
  let sv1 := fst (CanAccessByKey (js "C1") (js "k1") sample_service) in
  let sv2 := fst (Disconnect sample_auth (js "tok") (js "c1") (js "a1") sv1) in
  has_thing (db sv2) (js "C1") (js "k1") = None /\
  snd (CanAccessByKey (js "C1") (js "k1") sv2) = Ok (js "a1").
Proof.
  refine (proj2 (respelled_channel sample_auth _ sample_service (js "c1") (js "C1") (js "k1")
    (js "a1") (js "tok") (js "alice") sample_reach _ _ _ _ _ _ _));
    [reflexivity|reflexivity|discriminate|reflexivity|exact sample_row|exact sample_connection
    |vm_compute; reflexivity].
Defined.

Lemma removed_thing_by_id_witness :
  let sv1 := fst (CanAccessByID (js "c1") (js "a1") sample_service) in
  let sv2 := fst (RemoveThing sample_auth (js "tok") (js "a1") sv1) in
  things (db sv2) !! (js "a1", js "alice") = None /\
  snd (CanAccessByID (js "c1") (js "a1") sv2) = Ok tt.
Proof.
  refine (proj2 (removed_thing_by_id sample_auth sample_service (js "c1") (js "a1") (js "tok")
    (js "alice") _ _ _ _)); [reflexivity|reflexivity|reflexivity|vm_compute; reflexivity].
Defined.
