(* ===== verification/ThingsList.v ===== *)
(** * Names, metadata and listings of the Things service

    The columns of [things] and [channels] that play no part in access, the
    operations that change and read them, and the paged listings, with the
    queries of [things/postgres/] and the request checks of
    [things/api/things/http/].  The rows themselves are those of [Things]. *)

From S2P Require Import Prelude JsString Utf8 ThingsCache Things.
From stdpp Require Import gmap sets sorting.

Local Open Scope Z_scope.

(** ** SQL *)

Definition PERCENT_SIGN : Z := 37.
Definition BACKSLASH : Z := 92.

(** The text after its first character, which may be a pair of code units. *)
Definition after_char (s : text) : text :=
  match s with
  | c :: d :: s1 => if is_lead c && is_trail d then s1 else d :: s1
  | _ => tl s
  end.

(** [LIKE]: a percent sign stands for any text, an underscore for any character,
    a backslash takes the next one literally (a pattern may not end in one, and
    those of the queries do not). *)
Fixpoint like (p : text) : text -> bool :=
  match p with
  | [] => fun s => bool_decide (s = [])
  | c :: p1 =>
      if c =? PERCENT_SIGN then
        fix any (s : text) : bool := like p1 s || match s with [] => false | _ :: s1 => any s1 end
      else if c =? UNDERSCORE then
        fun s => match s with [] => false | _ :: _ => like p1 (after_char s) end
      else if c =? BACKSLASH then
        match p1 with
        | [] => fun _ => false
        | d :: p2 => fun s => match s with [] => false | e :: s1 => (d =? e) && like p2 s1 end
        end
      else fun s => match s with [] => false | e :: s1 => (c =? e) && like p1 s1 end
  end.

(** The order of UUIDs is that of their printed form. *)
Fixpoint text_leb (a b : text) : bool :=
  match a, b with
  | [], _ => true
  | _ :: _, [] => false
  | x :: a, y :: b => (x <? y) || (x =? y) && text_leb a b
  end.

Definition by_key {A} (f : A -> text) (x y : A) : Prop := text_leb (f x) (f y) = true.

#[export] Instance by_key_dec {A} (f : A -> text) : RelDecision (by_key f).
Proof. intros x y. unfold by_key. apply _. Defined.

(** [ORDER BY]. *)
Definition order_by {A} (f : A -> text) (l : list A) : list A := merge_sort (by_key f) l.

(** [LIMIT] and [OFFSET]. *)
Definition page_of {A} (rows : list A) (offset limit : Z) : list A :=
  take (Z.to_nat limit) (drop (Z.to_nat offset) rows).

(** ** Rows *)

(** JSON objects: the empty one, whether one has no members, containment of
    [jsonb], and what is read back after storing one. *)
Class Json (M : Type) := {
  no_metadata : M;
  no_members : M -> bool;
  json_contains : M -> M -> bool;     (* [row @> filter] *)
  through_jsonb : M -> M
}.

Record info (M : Type) := Info { i_name : text; i_meta : M }.
Arguments Info {M}.
Arguments i_name {M}.
Arguments i_meta {M}.

Record thing (M : Type) := Thing { th_id : text; th_owner : text; th_key : text; th_info : info M }.
Arguments Thing {M}.
Arguments th_id {M}.
Arguments th_owner {M}.
Arguments th_key {M}.
Arguments th_info {M}.

Record channel (M : Type) := Channel { ch_id : text; ch_owner : text; ch_info : info M }.
Arguments Channel {M}.
Arguments ch_id {M}.
Arguments ch_owner {M}.
Arguments ch_info {M}.

(** A page with the total number of rows. *)
Record page_result (A : Type) := Page { pg_items : list A; pg_total : Z }.
Arguments Page {A}.
Arguments pg_items {A}.
Arguments pg_total {A}.

(** The service with these columns; a row without an entry has an empty name and
    empty metadata. *)
Record catalog (S M : Type) := Catalog {
  core : service S;
  thing_info : gmap (text * text) (info M);
  channel_info : gmap (text * text) (info M)
}.
Arguments Catalog {S M}.
Arguments core {S M}.
Arguments thing_info {S M}.
Arguments channel_info {S M}.

Section Listing.
Context {S : Type} `{HS : Caches S} {M : Type} {J : Json M} {U : Uuid}.

(** [LOWER] of PostgreSQL and [strings.ToLower] of Go. *)
Variable lower : text -> text.
Variable ToLower : text -> text.

Definition tables (c : catalog S M) : database := db (core c).

Definition empty_info : info M := Info [] no_metadata.

(** ** The repositories *)

(** [Update] of a thing; the row count is 0 or 1. *)
Definition update_thing (owner id : text) (i : info M) (c : catalog S M) : result (catalog S M) :=
  match canon id with
  | None => Err ErrMalformedEntity
  | Some u =>
      match things (tables c) !! (u, owner) with
      | None => Err ErrNotFound
      | Some _ => Ok (Catalog (core c) (<[(u, owner) := i]> (thing_info c)) (channel_info c))
      end
  end.

Definition update_channel (owner id : text) (i : info M) (c : catalog S M) : result (catalog S M) :=
  match canon id with
  | None => Err ErrMalformedEntity
  | Some u =>
      if bool_decide ((u, owner) ∈ channels (tables c))
      then Ok (Catalog (core c) (thing_info c) (<[(u, owner) := i]> (channel_info c)))
      else Err ErrNotFound
  end.

Definition stored (o : option (info M)) : info M :=
  let i := default empty_info o in Info (i_name i) (through_jsonb (i_meta i)).

(** [RetrieveByID]: the identifier of the result is the one asked for. *)
Definition retrieve_thing (owner id : text) (c : catalog S M) : result (thing M) :=
  match canon id with
  | None => Err ErrNotFound
  | Some u =>
      match things (tables c) !! (u, owner) with
      | None => Err ErrNotFound
      | Some key => Ok (Thing id owner key (stored (thing_info c !! (u, owner))))
      end
  end.

Definition retrieve_channel (owner id : text) (c : catalog S M) : result (channel M) :=
  match canon id with
  | None => Err ErrNotFound
  | Some u =>
      if bool_decide ((u, owner) ∈ channels (tables c))
      then Ok (Channel id owner (stored (channel_info c !! (u, owner))))
      else Err ErrNotFound
  end.

(** The rows of an owner. *)
Definition owned_things (owner : text) (c : catalog S M) : list (thing M) :=
  (fun row => Thing (fst (fst row)) owner (snd row) (stored (thing_info c !! fst row))) <$>
    map_to_list (filter (fun row => snd (fst row) = owner) (things (tables c))).

Definition owned_channels (owner : text) (c : catalog S M) : list (channel M) :=
  (fun row => Channel (fst row) owner (stored (channel_info c !! row))) <$>
    elements (filter (fun row => snd row = owner) (channels (tables c))).

(** [getNameQuery] and [getMetadataQuery]: the conditions they add. *)
Definition name_condition (name : text) (i : info M) : bool :=
  match ToLower name with
  | [] => true
  | n => like (PERCENT_SIGN :: n ++ [PERCENT_SIGN]) (lower (i_name i))
  end.

Definition metadata_condition (m : M) (i : info M) : bool :=
  if no_members m then true else json_contains (i_meta i) m.

Definition listed (name : text) (m : M) (i : info M) : bool := metadata_condition m i && name_condition name i.

(** A query with a page and a count; the driver refuses numbers that do not fit a
    signed 64-bit integer. *)
Definition paged {A} (rows : list A) (offset limit : Z) : result (page_result A) :=
  if (2 ^ 63 <=? offset) || (2 ^ 63 <=? limit) then Err ErrOther
  else Ok (Page (page_of rows offset limit) (Z.of_nat (length rows))).

Definition thing_rows (owner name : text) (m : M) (c : catalog S M) : list (thing M) :=
  order_by th_id (filter (fun th => listed name m (th_info th) = true) (owned_things owner c)).

Definition channel_rows (owner name : text) (m : M) (c : catalog S M) : list (channel M) :=
  order_by ch_id (filter (fun ch => listed name m (ch_info ch) = true) (owned_channels owner c)).

(** [RetrieveAll]. *)
Definition retrieve_things (owner : text) (offset limit : Z) (name : text) (m : M) (c : catalog S M) :
    result (page_result (thing M)) := paged (thing_rows owner name m c) offset limit.

Definition retrieve_channels (owner : text) (offset limit : Z) (name : text) (m : M) (c : catalog S M) :
    result (page_result (channel M)) := paged (channel_rows owner name m c) offset limit.

(** [uuid.FromString] of Go, which reads other forms than PostgreSQL. *)
Variable FromString : text -> bool.

(** The join with [connections]: one row for each connection of the thing with the
    channel, whoever owns it. *)
Definition things_of_channel (owner u : text) (c : catalog S M) : list (thing M) :=
  order_by th_id (owned_things owner c ≫= fun th =>
    (fun _ => th) <$> elements (filter (fun co => fst co = (u, th_id th)) (connections (tables c)))).

Definition channels_of_thing (owner u : text) (c : catalog S M) : list (channel M) :=
  order_by ch_id (owned_channels owner c ≫= fun ch =>
    (fun _ => ch) <$> elements (filter (fun co => fst co = (ch_id ch, u)) (connections (tables c)))).

(** [RetrieveByChannel] and [RetrieveByThing]. *)
Definition retrieve_by_channel (owner chanID : text) (offset limit : Z) (c : catalog S M) :
    result (page_result (thing M)) :=
  if FromString chanID then
    match canon chanID with
    | Some u => paged (things_of_channel owner u c) offset limit
    | None => Err ErrOther
    end
  else Err ErrNotFound.

Definition retrieve_by_thing (owner thingID : text) (offset limit : Z) (c : catalog S M) :
    result (page_result (channel M)) :=
  if FromString thingID then
    match canon thingID with
    | Some u => paged (channels_of_thing owner u c) offset limit
    | None => Err ErrOther
    end
  else Err ErrNotFound.

(** ** The service and its requests *)

Variable auth : text -> option text.

Definition as_user {A} (token : text) (k : text -> result A) : result A :=
  match auth token with None => Err ErrUnauthorizedAccess | Some owner => k owner end.

Definition UpdateThing (token id : text) (i : info M) (c : catalog S M) : result (catalog S M) :=
  as_user token (fun owner => update_thing owner id i c).
Definition ViewThing (token id : text) (c : catalog S M) : result (thing M) :=
  as_user token (fun owner => retrieve_thing owner id c).
Definition ListThings (token : text) (offset limit : Z) (name : text) (m : M) (c : catalog S M) :
    result (page_result (thing M)) := as_user token (fun owner => retrieve_things owner offset limit name m c).
Definition ListThingsByChannel (token chanID : text) (offset limit : Z) (c : catalog S M) :
    result (page_result (thing M)) := as_user token (fun owner => retrieve_by_channel owner chanID offset limit c).
Definition UpdateChannel (token id : text) (i : info M) (c : catalog S M) : result (catalog S M) :=
  as_user token (fun owner => update_channel owner id i c).
Definition ViewChannel (token id : text) (c : catalog S M) : result (channel M) :=
  as_user token (fun owner => retrieve_channel owner id c).
Definition ListChannels (token : text) (offset limit : Z) (name : text) (m : M) (c : catalog S M) :
    result (page_result (channel M)) := as_user token (fun owner => retrieve_channels owner offset limit name m c).
Definition ListChannelsByThing (token thingID : text) (offset limit : Z) (c : catalog S M) :
    result (page_result (channel M)) := as_user token (fun owner => retrieve_by_thing owner thingID offset limit c).

Definition maxLimitSize : Z := 100.
Definition maxNameSize : nat := 1024.

(** [listResourcesReq.validate]. *)
Definition validate_list (token : text) (limit : Z) (name : text) : option things_error :=
  match token with
  | [] => Some ErrUnauthorizedAccess
  | _ :: _ =>
      if (limit =? 0) || (maxLimitSize <? limit) then Some ErrMalformedEntity
      else if (maxNameSize <? length (utf8 name))%nat then Some ErrMalformedEntity else None
  end.

Definition list_things_endpoint (token : text) (offset limit : Z) (name : text) (m : M) (c : catalog S M) :
    result (page_result (thing M)) :=
  match validate_list token limit name with
  | Some e => Err e
  | None => ListThings token offset limit name m c
  end.

Definition list_channels_endpoint (token : text) (offset limit : Z) (name : text) (m : M) (c : catalog S M) :
    result (page_result (channel M)) :=
  match validate_list token limit name with
  | Some e => Err e
  | None => ListChannels token offset limit name m c
  end.

(** [listByConnectionReq.validate]. *)
Definition validate_by_connection (token id : text) (limit : Z) : option things_error :=
  match token, id with
  | [], _ => Some ErrUnauthorizedAccess
  | _, [] => Some ErrMalformedEntity
  | _, _ => if (limit =? 0) || (maxLimitSize <? limit) then Some ErrMalformedEntity else None
  end.

Definition list_things_by_channel_endpoint (token chanID : text) (offset limit : Z) (c : catalog S M) :
    result (page_result (thing M)) :=
  match validate_by_connection token chanID limit with
  | Some e => Err e
  | None => ListThingsByChannel token chanID offset limit c
  end.

Definition list_channels_by_thing_endpoint (token thingID : text) (offset limit : Z) (c : catalog S M) :
    result (page_result (channel M)) :=
  match validate_by_connection token thingID limit with
  | Some e => Err e
  | None => ListChannelsByThing token thingID offset limit c
  end.

(** ** Changes *)

(** The names and metadata of new rows. *)
Definition add_infos (owner : text) (rows : list (text * info M)) (m : gmap (text * text) (info M)) :
    gmap (text * text) (info M) :=
  foldl (fun m row => match canon (fst row) with Some u => <[(u, owner) := snd row]> m | None => m end) m rows.

(** [CreateThings] and [CreateChannels] of [Things], with the columns added when
    the rows are saved. *)
Definition create_named_things (token : text) (ths : list (text * (text * text) * info M)) (c : catalog S M) :
    catalog S M :=
  match auth token, CreateThings auth token (fst <$> ths) (core c) with
  | Some owner, (sv, Ok _) =>
      Catalog sv (add_infos owner ((fun th => (fst (snd (fst th)), snd th)) <$> ths) (thing_info c))
        (channel_info c)
  | _, (sv, _) => Catalog sv (thing_info c) (channel_info c)
  end.

Definition create_named_channels (token : text) (chs : list (text * info M)) (c : catalog S M) : catalog S M :=
  match auth token, CreateChannels auth token (fst <$> chs) (core c) with
  | Some owner, (sv, Ok _) => Catalog sv (thing_info c) (add_infos owner chs (channel_info c))
  | _, (sv, _) => Catalog sv (thing_info c) (channel_info c)
  end.

(** The other requests of [Things]; a removed row goes with all its columns. *)
Definition serve_core (r : request) (c : catalog S M) : catalog S M :=
  let sv := serve auth r (core c) in
  Catalog sv (filter (fun row => is_Some (things (db sv) !! fst row)) (thing_info c))
    (filter (fun row => fst row ∈ channels (db sv)) (channel_info c)).

Inductive change :=
| NewThings (token : text) (ths : list (text * (text * text) * info M))
| NewChannels (token : text) (chs : list (text * info M))
| ChangeThing (token id : text) (i : info M)
| ChangeChannel (token id : text) (i : info M)
| Core (r : request).

Definition after (r : result (catalog S M)) (c : catalog S M) : catalog S M :=
  match r with Ok c' => c' | Err _ => c end.

Definition apply_change (ch : change) (c : catalog S M) : catalog S M :=
  match ch with
  | NewThings token ths => create_named_things token ths c
  | NewChannels token chs => create_named_channels token chs c
  | ChangeThing token id i => after (UpdateThing token id i c) c
  | ChangeChannel token id i => after (UpdateChannel token id i c) c
  | Core r => serve_core r c
  end.

(** The token a change comes with; the access requests of the adapters have none. *)
Definition token_of (ch : change) : option text :=
  match ch with
  | NewThings token _ | NewChannels token _ | ChangeThing token _ _ | ChangeChannel token _ _ => Some token
  | Core (RCreateThings token _) | Core (RUpdateKey token _ _) | Core (RRemoveThing token _)
  | Core (RCreateChannels token _) | Core (RRemoveChannel token _) | Core (RConnect token _ _)
  | Core (RDisconnect token _ _) => Some token
  | Core _ => None
  end.

Definition user_of (ch : change) : option text := token_of ch ≫= auth.

End Listing.
