(* ===== verification/ThingsListProperties.v ===== *)
(** * What the listings of the Things service show

    The rows, their order and their pages; what a change does to a view; that a
    user's requests do not show to others; what the name filter selects; and that
    the listing of a channel agrees with the access decisions of [Things]. *)

From S2P Require Import Prelude JsString Utf8 ThingsCache Things ThingsSafety ThingsRows ThingsProperties ThingsList.
From stdpp Require Import gmap sets sorting.

Local Open Scope Z_scope.

(** ** Order and pages *)

Lemma text_leb_total a b : text_leb a b = true \/ text_leb b a = true.
Proof.
  revert b. induction a as [|x a IH]; intros [|y b]; simpl; auto.
  rewrite !orb_true_iff, !andb_true_iff, !Z.ltb_lt, !Z.eqb_eq.
  destruct (Z.lt_trichotomy x y) as [|[->|]]; naive_solver.
Qed.

Lemma text_leb_trans a b c : text_leb a b = true -> text_leb b c = true -> text_leb a c = true.
Proof.
  revert b c. induction a as [|x a IH]; intros [|y b] [|z c]; simpl; try done.
  rewrite !orb_true_iff, !andb_true_iff. specialize (IH b c).
  intros [?|[? ?]] [?|[? ?]]; [left; lia..|]. right. split; [lia|auto].
Qed.

#[export] Instance by_key_total {A} (f : A -> text) : Total (by_key f).
Proof. intros x y. apply text_leb_total. Qed.

#[export] Instance by_key_trans {A} (f : A -> text) : Transitive (by_key f).
Proof. intros x y z. apply text_leb_trans. Qed.

Lemma order_by_elem {A} (f : A -> text) l x : x ∈ order_by f l <-> x ∈ l.
Proof. unfold order_by. by rewrite merge_sort_Permutation. Qed.

Lemma order_by_sorted {A} (f : A -> text) l : StronglySorted (by_key f) (order_by f l).
Proof. apply StronglySorted_merge_sort; apply _. Qed.

Lemma order_by_NoDup {A} (f : A -> text) l : NoDup (f <$> l) -> NoDup (f <$> order_by f l).
Proof. unfold order_by. by rewrite merge_sort_Permutation. Qed.

(** The pages of [limit] rows, one after the other. *)
Definition pages {A} (rows : list A) (limit : Z) (n : nat) : list A :=
  seq 0 n ≫= fun k => page_of rows (Z.of_nat k * limit) limit.

Lemma pages_take {A} (rows : list A) limit n :
  0 < limit -> pages rows limit n = take (Z.to_nat (Z.of_nat n * limit)) rows.
Proof.
  intros Hl. unfold pages, page_of. induction n as [|n IH]; [done|].
  rewrite seq_S, bind_app, IH. simpl. rewrite app_nil_r.
  replace (Z.to_nat (Z.of_nat (S n) * limit))
    with (Z.to_nat (Z.of_nat n * limit) + Z.to_nat limit)%nat by lia.
  by rewrite take_take_drop.
Qed.

Lemma paged_ok {A} (rows : list A) offset limit :
  offset < 2 ^ 63 -> limit < 2 ^ 63 ->
  paged rows offset limit = Ok (Page (page_of rows offset limit) (Z.of_nat (length rows))).
Proof. intros H1 H2. unfold paged. by rewrite (proj2 (Z.leb_gt _ _) H1), (proj2 (Z.leb_gt _ _) H2). Qed.

(** ** The name filter *)

(** Characters that stand for themselves in a pattern. *)
Definition plain_char (x : Z) : Prop := x <> PERCENT_SIGN /\ x <> UNDERSCORE /\ x <> BACKSLASH.

Lemma like_percent p s : like (PERCENT_SIGN :: p) s = true <-> exists a b, s = a ++ b /\ like p b = true.
Proof.
  split.
  - simpl. induction s as [|x s IH]; simpl; rewrite orb_true_iff.
    + intros [H|]; [by exists [], []|done].
    + intros [H|(a & b & -> & H)%IH]; [by exists [], (x :: s)|by exists (x :: a), b].
  - intros (a & b & -> & H). induction a as [|x a IH].
    + simpl. destruct b; simpl; by rewrite H.
    + simpl in *. by rewrite IH, orb_true_r.
Qed.

Lemma like_plain p q s :
  Forall plain_char p -> like (p ++ q) s = true <-> exists b, s = p ++ b /\ like q b = true.
Proof.
  intros Hp. revert s. induction Hp as [|x p (H1 & H2 & H3) _ IH]; intros s; [naive_solver|].
  simpl. rewrite (proj2 (Z.eqb_neq _ _) H1), (proj2 (Z.eqb_neq _ _) H2), (proj2 (Z.eqb_neq _ _) H3).
  destruct s as [|y s]; [naive_solver|]. rewrite andb_true_iff, IH, Z.eqb_eq. naive_solver.
Qed.

Lemma like_any s : like [PERCENT_SIGN] s = true.
Proof. apply like_percent. exists s, []. by rewrite app_nil_r. Qed.

Lemma like_contains p s :
  Forall plain_char p -> like (PERCENT_SIGN :: p ++ [PERCENT_SIGN]) s = true <-> exists a b, s = a ++ p ++ b.
Proof.
  intros Hp. rewrite like_percent. setoid_rewrite like_plain; [|done]. split.
  - intros (a & ? & -> & b & -> & _). by exists a, b.
  - intros (a & b & ->). exists a, (p ++ b). split; [done|]. exists b. by rewrite like_any.
Qed.

Section NameFilter.
Context {M : Type}.
Variable lower ToLower : text -> text.

(** The name filter is a search for a part of the name, without regard to case,
    as long as the text has no character that is special to [LIKE].  Those are
    not escaped: an underscore finds every name that is not empty, a percent sign
    every name, and a backslash the names that end in a percent sign. *)
Theorem name_filter name (i : info M) :
  (Forall plain_char (ToLower name) ->
     name_condition lower ToLower name i = true <-> exists a b, lower (i_name i) = a ++ ToLower name ++ b) /\
  (ToLower name = [UNDERSCORE] -> name_condition lower ToLower name i = true <-> lower (i_name i) <> []) /\
  (ToLower name = [PERCENT_SIGN] -> name_condition lower ToLower name i = true) /\
  (ToLower name = [BACKSLASH] ->
     name_condition lower ToLower name i = true <-> exists a, lower (i_name i) = a ++ [PERCENT_SIGN]).
Proof.
  unfold name_condition. split_and!.
  - intros Hp. destruct (ToLower name) as [|x n] eqn:E; [|by apply (like_contains (x :: n))].
    split; [|done]. intros _. exists [], (lower (i_name i)). done.
  - intros ->. cbn [app]. rewrite like_percent. split.
    + intros (a & b & Heq & Hb) Hnil. rewrite Hnil in Heq. by destruct a, b.
    + intros Hne. destruct (lower (i_name i)) as [|x s]; [done|]. exists [], (x :: s). split; [done|].
      apply like_any.
  - intros ->. cbn [app]. do 2 (apply like_percent; eexists [], _; split; [done|]). apply like_any.
  - intros ->. cbn [app]. rewrite like_percent. split.
    + intros (a & b & Heq & Hb). exists a. rewrite Heq. f_equal. destruct b as [|x b]; [done|].
      change ((PERCENT_SIGN =? x) && bool_decide (b = []) = true) in Hb.
      apply andb_true_iff in Hb as [Hx%Z.eqb_eq Hb%bool_decide_eq_true]. by subst.
    + intros (a & ->). exists a, [PERCENT_SIGN]. done.
Qed.

End NameFilter.

Section Rows.
Context {S : Type} `{HS : Caches S} {M : Type} {J : Json M} {U : Uuid}.
Variable lower ToLower : text -> text.
Variable auth : text -> option text.
Implicit Types c : catalog S M.

Definition thing_row (owner : text) c (id key : text) : thing M :=
  Thing id owner key (stored (thing_info c !! (id, owner))).
Definition channel_row (owner : text) c (id : text) : channel M :=
  Channel id owner (stored (channel_info c !! (id, owner))).

Lemma owned_things_spec owner c th :
  th ∈ owned_things owner c <->
  exists key, things (tables c) !! (th_id th, owner) = Some key /\ th = thing_row owner c (th_id th) key.
Proof.
  unfold owned_things. rewrite list_elem_of_fmap. split.
  - intros ([[id o] key] & -> & Hin%elem_of_map_to_list%map_lookup_filter_Some). simpl in *.
    destruct Hin as [Hk ->]. by exists key.
  - intros (key & Hk & Hth). exists ((th_id th, owner), key). split; [done|].
    by apply elem_of_map_to_list, map_lookup_filter_Some.
Qed.

Lemma owned_channels_spec owner c ch :
  ch ∈ owned_channels owner c <->
  (ch_id ch, owner) ∈ channels (tables c) /\ ch = channel_row owner c (ch_id ch).
Proof.
  unfold owned_channels. rewrite list_elem_of_fmap. split.
  - intros ([id o] & -> & Hin%elem_of_elements%elem_of_filter). simpl in *. by destruct Hin as [-> Hin].
  - intros [Hin Hch]. exists (ch_id ch, owner). split; [done|].
    by apply elem_of_elements, elem_of_filter.
Qed.

Lemma owned_things_NoDup owner c : NoDup (th_id <$> owned_things owner c).
Proof.
  unfold owned_things. rewrite <- list_fmap_compose.
  apply NoDup_fmap_2_strong; [|apply NoDup_map_to_list].
  intros [[i o] k] [[i' o'] k'] Hi%elem_of_map_to_list Hi'%elem_of_map_to_list Heq. simpl in Heq. subst.
  apply map_lookup_filter_Some in Hi as [Hi Ho], Hi' as [Hi' Ho']. simpl in *. subst. by simplify_eq.
Qed.

Lemma owned_channels_NoDup owner c : NoDup (ch_id <$> owned_channels owner c).
Proof.
  unfold owned_channels. rewrite <- list_fmap_compose.
  apply NoDup_fmap_2_strong; [|apply NoDup_elements].
  intros [i o] [i' o'] [Ho _]%elem_of_elements%elem_of_filter [Ho' _]%elem_of_elements%elem_of_filter Heq.
  simpl in *. congruence.
Qed.

Lemma NoDup_fmap_filter {A B} (f : A -> B) (P : A -> Prop) `{!forall x, Decision (P x)} l :
  NoDup (f <$> l) -> NoDup (f <$> filter P l).
Proof.
  induction l as [|x l IH]; [done|]. rewrite fmap_cons. intros [Hx Hl]%NoDup_cons. rewrite filter_cons.
  destruct (decide (P x)); [|by auto]. csimpl. constructor; [|by auto].
  intros (y & Hxy & [_ Hy]%list_elem_of_filter)%list_elem_of_fmap. apply Hx.
  apply list_elem_of_fmap. by exists y.
Qed.

Lemma thing_rows_spec owner name m c th :
  th ∈ thing_rows lower ToLower owner name m c <->
  exists key, things (tables c) !! (th_id th, owner) = Some key /\ th = thing_row owner c (th_id th) key /\
    listed lower ToLower name m (th_info th) = true.
Proof. unfold thing_rows. rewrite order_by_elem, list_elem_of_filter, owned_things_spec. naive_solver. Qed.

Lemma channel_rows_spec owner name m c ch :
  ch ∈ channel_rows lower ToLower owner name m c <->
  (ch_id ch, owner) ∈ channels (tables c) /\ ch = channel_row owner c (ch_id ch) /\
    listed lower ToLower name m (ch_info ch) = true.
Proof. unfold channel_rows. rewrite order_by_elem, list_elem_of_filter, owned_channels_spec. naive_solver. Qed.

(** A list of rows in the order of their identifiers, none twice. *)
Definition in_order {A} (id : A -> text) (rows : list A) : Prop :=
  StronglySorted (by_key id) rows /\ NoDup (id <$> rows).

Lemma thing_rows_in_order owner name m c : in_order th_id (thing_rows lower ToLower owner name m c).
Proof.
  split; [apply order_by_sorted|]. apply order_by_NoDup, NoDup_fmap_filter, owned_things_NoDup.
Qed.

Lemma channel_rows_in_order owner name m c : in_order ch_id (channel_rows lower ToLower owner name m c).
Proof.
  split; [apply order_by_sorted|]. apply order_by_NoDup, NoDup_fmap_filter, owned_channels_NoDup.
Qed.

Lemma validate_list_ok token limit name :
  validate_list token limit name = None <->
  token <> [] /\ limit <> 0 /\ limit <= maxLimitSize /\ (length (utf8 name) <= maxNameSize)%nat.
Proof.
  unfold validate_list, maxLimitSize, maxNameSize. destruct token; [naive_solver|].
  destruct (_ || _) eqn:E; [split; [done|intros (_ & ? & ? & _); lia]|].
  destruct (Nat.ltb_spec 1024 (length (utf8 name))).
  - split; [done|]. intros (_ & _ & _ & ?). lia.
  - split; [|done]. intros _. split_and!; [done|lia..].
Qed.

(** C35: What the listing of things shows: behind any valid request of a user there
    is one list, of exactly the user's own things that match the filters, in the
    order of their identifiers and without repetition; a page is at most a
    hundred rows of it from the offset on, its total is the length of the whole
    list, and pages taken one after the other give the list from its start
    without a gap or an overlap, until it is exhausted. *)
Theorem list_things_pages token owner name m c :
  auth token = Some owner ->
  exists rows,
    in_order th_id rows /\
    (forall th, th ∈ rows <->
       exists key, things (tables c) !! (th_id th, owner) = Some key /\
         th = thing_row owner c (th_id th) key /\ listed lower ToLower name m (th_info th) = true) /\
    (forall offset limit,
       validate_list token limit name = None -> 0 <= offset < 2 ^ 63 -> 0 <= limit ->
       exists page,
         list_things_endpoint lower ToLower auth token offset limit name m c =
           Ok (Page page (Z.of_nat (length rows))) /\
         page = page_of rows offset limit /\ (length page <= 100)%nat) /\
    (forall limit n, 0 < limit -> pages rows limit n = take (Z.to_nat (Z.of_nat n * limit)) rows).
Proof.
  intros Hauth. exists (thing_rows lower ToLower owner name m c).
  split_and!; [apply thing_rows_in_order|apply thing_rows_spec| |intros; by apply pages_take].
  intros offset limit Hv Ho Hl. eexists. split_and!; [|done|].
  - unfold list_things_endpoint, ListThings, as_user, retrieve_things. rewrite Hv, Hauth.
    apply validate_list_ok in Hv. apply paged_ok; unfold maxLimitSize in *; lia.
  - apply validate_list_ok in Hv. unfold page_of, maxLimitSize in *. rewrite length_take. lia.
Qed.

(** Updating a thing changes what its owner sees of it and nothing else: after a
    success the thing is viewed with the new name and metadata and its old key, no
    other view of a thing and no view of a channel differs, and neither tables nor
    caches change, so no access does; it fails exactly for a malformed identifier
    and for a thing the user does not have. *)
Theorem update_thing_view token owner id i c :
  auth token = Some owner ->
  match UpdateThing auth token id i c with
  | Ok c' =>
      core c' = core c /\
      (exists key old, ViewThing auth token id c = Ok (Thing id owner key old) /\
         ViewThing auth token id c' = Ok (Thing id owner key (Info (i_name i) (through_jsonb (i_meta i))))) /\
      (forall token' id', ViewThing auth token' id' c' <> ViewThing auth token' id' c ->
         auth token' = Some owner /\ canon id' = canon id) /\
      (forall token' id', ViewChannel auth token' id' c' = ViewChannel auth token' id' c)
  | Err ErrMalformedEntity => canon id = None
  | Err ErrNotFound => exists u, canon id = Some u /\ things (tables c) !! (u, owner) = None
  | Err _ => False
  end.
Proof.
  intros Hauth. unfold UpdateThing, as_user. rewrite Hauth. unfold update_thing.
  destruct (canon id) as [u|] eqn:Hid; [|done].
  destruct (things (tables c) !! (u, owner)) as [key|] eqn:Hk; [|by exists u].
  split_and!; [done| | |done].
  - exists key, (stored (thing_info c !! (u, owner))). unfold ViewThing, as_user. rewrite Hauth.
    unfold retrieve_thing, tables in *. rewrite Hid. simpl. rewrite Hk.
    split; [done|]. by rewrite lookup_insert_eq.
  - intros token' id' Hne. unfold ViewThing, as_user, retrieve_thing, tables in *. simpl in Hne.
    destruct (auth token') as [owner'|]; [|done]. destruct (canon id') as [u'|]; [|done].
    destruct (decide ((u', owner') = (u, owner))) as [[= -> ->]|Hd]; [done|].
    rewrite lookup_insert_ne in Hne by done. done.
Qed.

(** ** Changes and the requests of [Things]

    Names and metadata are columns of their own: on the tables and the caches, a
    change is a request of [Things], and an update of a name or of metadata is
    nothing.  What holds after every request holds after every change. *)
Definition tables_part (ch : change (M := M)) : option request :=
  match ch with
  | NewThings token ths => Some (RCreateThings token (fst <$> ths))
  | NewChannels token chs => Some (RCreateChannels token (fst <$> chs))
  | ChangeThing _ _ _ | ChangeChannel _ _ _ => None
  | Core r => Some r
  end.

Theorem change_serves ch c :
  core (apply_change auth ch c) =
  match tables_part ch with Some r => serve auth r (core c) | None => core c end.
Proof.
  destruct ch as [token ths|token chs|token id i|token id i|r]; cbn [tables_part apply_change serve].
  - unfold create_named_things. destruct (CreateThings _ _ _ _) as [sv []], (auth token); done.
  - unfold create_named_channels. destruct (CreateChannels _ _ _ _) as [sv []], (auth token); done.
  - unfold UpdateThing, as_user, update_thing. destruct (auth token); [|done]. destruct (canon id); [|done].
    by destruct (things _ !! _).
  - unfold UpdateChannel, as_user, update_channel. destruct (auth token); [|done]. destruct (canon id); [|done].
    by case_bool_decide.
  - done.
Qed.

(** ** Isolation *)

(** The rows of a user are the same in two states, with their names and
    metadata. *)
Record same_rows (o : text) (c c' : catalog S M) : Prop := {
  sr_tables : owner_rows o (tables c) (tables c');
  sr_thing_info : forall u, is_Some (things (tables c) !! (u, o)) ->
    thing_info c' !! (u, o) = thing_info c !! (u, o);
  sr_channel_info : forall u, (u, o) ∈ channels (tables c) -> channel_info c' !! (u, o) = channel_info c !! (u, o)
}.

(** A request of another user, or of an adapter. *)
Lemma serve_same o r (sv : service S) :
  user_of (M := M) auth (Core r) <> Some o -> owner_rows o (db sv) (db (serve auth r sv)).
Proof.
  intros Hu. destruct (serve_other auth r sv o) as [H|(tok & Htok & Ha)]; [done|].
  destruct Hu. by destruct r; simplify_eq/=.
Qed.

Lemma same_rows_refl o c : same_rows o c c.
Proof. done. Qed.

Lemma same_rows_trans o c1 c2 c3 : same_rows o c1 c2 -> same_rows o c2 c3 -> same_rows o c1 c3.
Proof.
  intros [H1 H2 H3] [H4 H5 H6]. split; [by eapply owner_rows_trans| |]; intros u Hu.
  - rewrite H5 by (by rewrite (owner_things _ _ _ H1)). auto.
  - rewrite H6 by (by apply (owner_channels _ _ _ H1)). auto.
Qed.

Lemma same_rows_of o sv ti ci c :
  owner_rows o (tables c) (db sv) ->
  (forall u, is_Some (things (tables c) !! (u, o)) -> ti !! (u, o) = thing_info c !! (u, o)) ->
  (forall u, (u, o) ∈ channels (tables c) -> ci !! (u, o) = channel_info c !! (u, o)) ->
  same_rows o c (Catalog sv ti ci).
Proof. done. Qed.

Lemma add_infos_other (owner o u : text) (rows : list (text * info M)) (m : gmap (text * text) (info M)) :
  owner <> o -> add_infos owner rows m !! (u, o) = m !! (u, o).
Proof.
  intros Ho. unfold add_infos. revert m. induction rows as [|[id i] rows IH]; intros m; [done|].
  simpl. rewrite IH. destruct (canon id); [|done]. by rewrite lookup_insert_ne by congruence.
Qed.

Lemma change_same o ch c : user_of auth ch <> Some o -> same_rows o c (apply_change auth ch c).
Proof.
  clear lower ToLower.
  intros Hu. destruct ch as [token ths|token chs|token id i|token id i|r]; simpl.
  - pose proof (serve_same o (RCreateThings token (fst <$> ths)) (core c) Hu) as Hs.
    unfold user_of in Hu. unfold create_named_things. simpl in *.
    destruct (CreateThings auth token (fst <$> ths) (core c)) as [sv r]. simpl in *.
    destruct (auth token) as [owner|]; [destruct r|]; (apply same_rows_of; [done| |done]); intros u _; [|done..].
    apply add_infos_other. congruence.
  - pose proof (serve_same o (RCreateChannels token (fst <$> chs)) (core c) Hu) as Hs.
    unfold user_of in Hu. unfold create_named_channels. simpl in *.
    destruct (CreateChannels auth token (fst <$> chs) (core c)) as [sv r]. simpl in *.
    destruct (auth token) as [owner|]; [destruct r|]; (apply same_rows_of; [done|done|]); intros u _; [|done..].
    apply add_infos_other. congruence.
  - unfold user_of in Hu. simpl in Hu. unfold UpdateThing, as_user. destruct (auth token) as [owner|]; [|done].
    unfold update_thing. destruct (canon id); [|done]. destruct (things _ !! _); [|done].
    apply same_rows_of; [done| |done]. intros u _. by rewrite lookup_insert_ne by congruence.
  - unfold user_of in Hu. simpl in Hu. unfold UpdateChannel, as_user. destruct (auth token) as [owner|]; [|done].
    unfold update_channel. destruct (canon id); [|done]. case_bool_decide; [|done].
    apply same_rows_of; [done|done|]. intros u _. by rewrite lookup_insert_ne by congruence.
  - pose proof (serve_same o r (core c) Hu) as Hs. pose proof Hs as [Hs1 Hs2 _]. apply same_rows_of; [done| |]; intros u Hin.
    + destruct (thing_info c !! (u, o)) as [i|] eqn:Hi; [|by apply map_lookup_filter_None; left].
      apply map_lookup_filter_Some. split; [done|]. simpl. by rewrite Hs1.
    + destruct (channel_info c !! (u, o)) as [i|] eqn:Hi; [|by apply map_lookup_filter_None; left].
      apply map_lookup_filter_Some. split; [done|]. simpl. by apply Hs2.
Qed.

Lemma owned_things_same o c c' : same_rows o c c' -> owned_things o c' = owned_things o c.
Proof.
  intros [[H1 _ _] H3 _]. unfold owned_things.
  assert (filter (fun row => snd (fst row) = o) (things (tables c')) =
    filter (fun row => snd (fst row) = o) (things (tables c))) as ->.
  { apply map_eq. intros [u ow]. rewrite !map_lookup_filter. simpl.
    destruct (decide (ow = o)) as [->|Hne]; [by rewrite H1|].
    destruct (things (tables c') !! (u, ow)), (things (tables c) !! (u, ow)); simpl; repeat case_guard; done. }
  apply list_fmap_ext. intros n [[u ow] key] Hin%list_elem_of_lookup_2%elem_of_map_to_list. simpl.
  apply map_lookup_filter_Some in Hin as [Hk Ho]. simpl in Ho. subst ow. by rewrite H3.
Qed.

Lemma owned_channels_same o c c' : same_rows o c c' -> owned_channels o c' = owned_channels o c.
Proof.
  intros [[_ H2 _] _ H4]. unfold owned_channels.
  assert (filter (fun row => snd row = o) (channels (tables c')) =
    filter (fun row => snd row = o) (channels (tables c))) as ->.
  { apply set_eq. intros [u ow]. rewrite !elem_of_filter. simpl.
    split; intros [-> Hin]; (split; [done|]); by apply H2. }
  apply list_fmap_ext. intros n [u ow] Hin%list_elem_of_lookup_2%elem_of_elements%elem_of_filter.
  destruct Hin as [Ho Hin]. simpl in *. subst ow. by rewrite H4.
Qed.

Lemma changes_same o chs c :
  Forall (fun ch => user_of auth ch <> Some o) chs ->
  same_rows o c (foldl (fun c ch => apply_change auth ch c) c chs).
Proof.
  intros H. revert c. induction H as [|ch chs Hch _ IH]; intros c; [done|]. simpl.
  eapply same_rows_trans; [by apply change_same|apply IH].
Qed.

Lemma view_thing_same token o id c c' :
  auth token = Some o -> same_rows o c c' -> ViewThing auth token id c' = ViewThing auth token id c.
Proof.
  intros Hauth H. unfold ViewThing, as_user. rewrite Hauth. unfold retrieve_thing.
  destruct (canon id) as [u|]; [|done]. rewrite (owner_things _ _ _ (sr_tables _ _ _ H)).
  destruct (things (tables c) !! (u, o)) eqn:E; [|done]. by rewrite (sr_thing_info _ _ _ H).
Qed.

Lemma view_channel_same token o id c c' :
  auth token = Some o -> same_rows o c c' -> ViewChannel auth token id c' = ViewChannel auth token id c.
Proof.
  intros Hauth H. unfold ViewChannel, as_user. rewrite Hauth. unfold retrieve_channel.
  destruct (canon id) as [u|]; [|done]. rewrite (bool_decide_ext _ _ (owner_channels _ _ _ (sr_tables _ _ _ H) u)).
  case_bool_decide; [|done]. by rewrite (sr_channel_info _ _ _ H).
Qed.

(** What a user sees of their own things and channels does not depend on the
    others: after any requests of other users (creations, updates, removals,
    connections) and of the adapters, every listing of the user's things or
    channels, with any filters and page, and every view of one of them, is what
    it was before. *)
Theorem others_invisible token o chs c :
  auth token = Some o ->
  Forall (fun ch => user_of auth ch <> Some o) chs ->
  let c' := foldl (fun c ch => apply_change auth ch c) c chs in
  (forall offset limit name m,
     ListThings lower ToLower auth token offset limit name m c' =
       ListThings lower ToLower auth token offset limit name m c /\
     ListChannels lower ToLower auth token offset limit name m c' =
       ListChannels lower ToLower auth token offset limit name m c) /\
  (forall id, ViewThing auth token id c' = ViewThing auth token id c /\
     ViewChannel auth token id c' = ViewChannel auth token id c).
Proof.
  intros Hauth Hchs c'. pose proof (changes_same o chs c Hchs) as H. fold c' in H. clearbody c'. split.
  - intros offset limit name m. unfold ListThings, ListChannels, as_user. rewrite Hauth.
    unfold retrieve_things, retrieve_channels, thing_rows, channel_rows.
    by rewrite (owned_things_same _ _ _ H), (owned_channels_same _ _ _ H).
  - intros id. split; [by eapply view_thing_same|by eapply view_channel_same].
Qed.

(** ** Things of a channel *)

Context {HSok : CachesOk S} {HU : UuidOk U}.

Lemma connection_rows issued c u t owner key :
  inv issued (tables c) (cache (core c)) -> things (tables c) !! (t, owner) = Some key ->
  elements (filter (fun co => fst co = (u, t)) (connections (tables c))) =
  if bool_decide ((u, t, owner) ∈ connections (tables c)) then [(u, t, owner)] else [].
Proof.
  intros Hi Ht.
  assert (Hall : forall o, (u, t, o) ∈ connections (tables c) -> o = owner).
  { intros o Ho. destruct (inv_conn _ _ _ Hi _ _ _ Ho) as [_ [k Hk]]. by eapply (inv_owner _ _ _ Hi). }
  case_bool_decide as Hin.
  - rewrite <- (elements_singleton (C := gset (text * text * text))). f_equal. apply set_eq. intros [[u' t'] o].
    rewrite elem_of_filter, elem_of_singleton. simpl. split; [|by intros [= -> -> ->]].
    intros [[= -> ->] Ho]. by rewrite (Hall o Ho).
  - apply elements_empty_iff. intros [[u' t'] o]. rewrite elem_of_filter. simpl.
    split; [|set_solver]. intros [[= -> ->] Ho]. by rewrite (Hall o Ho) in Ho.
Qed.

Lemma bind_filter {A} (f : A -> list A) (P : A -> Prop) `{!forall x, Decision (P x)} l :
  (forall x, x ∈ l -> f x = if decide (P x) then [x] else []) -> l ≫= f = filter P l.
Proof.
  induction l as [|x l IH]; intros Hf; [done|]. rewrite bind_cons, filter_cons, IH by set_solver.
  rewrite Hf by set_solver. by destruct (decide (P x)).
Qed.

Lemma things_of_channel_filter issued c owner u :
  inv issued (tables c) (cache (core c)) ->
  things_of_channel owner u c =
    order_by th_id (filter (fun th => (u, th_id th, owner) ∈ connections (tables c)) (owned_things owner c)).
Proof.
  intros Hi. unfold things_of_channel. f_equal. apply bind_filter. intros th (key & Hk & _)%owned_things_spec.
  rewrite (connection_rows _ _ _ _ _ _ Hi Hk). case_bool_decide; by case_decide.
Qed.

Lemma validate_by_connection_ok token id limit :
  validate_by_connection token id limit = None -> limit <= maxLimitSize.
Proof.
  unfold validate_by_connection. destruct token, id; try done. destruct (_ || _) eqn:E; [done|].
  unfold maxLimitSize in *. lia.
Qed.

(** [uuid.FromString]. *)
Variable FromString : text -> bool.

(** The listing of a channel agrees with access: in orderly runs, the things
    that a user sees listed under a channel are, once each and in the order of
    their identifiers, exactly those of the user's things that the service lets
    into the channel when their key is presented. *)
Theorem channel_listing_access issued token owner chanID u offset limit c :
  orderly_reach auth issued (core c) ->
  auth token = Some owner -> validate_by_connection token chanID limit = None ->
  FromString chanID = true -> canon chanID = Some u -> plain_id chanID -> offset < 2 ^ 63 ->
  exists rows,
    list_things_by_channel_endpoint FromString auth token chanID offset limit c =
      Ok (Page (page_of rows offset limit) (Z.of_nat (length rows))) /\
    in_order th_id rows /\
    forall th, th ∈ rows <->
      things (tables c) !! (th_id th, owner) = Some (th_key th) /\ th = thing_row owner c (th_id th) (th_key th) /\
      snd (CanAccessByKey chanID (th_key th) (core c)) = Ok (th_id th).
Proof.
  intros Hr%inv_orderly Hauth Hv Hf Hu Hplain Ho. exists (things_of_channel owner u c). split_and!.
  - unfold list_things_by_channel_endpoint, ListThingsByChannel, as_user, retrieve_by_channel.
    rewrite Hv, Hauth, Hf, Hu. apply validate_by_connection_ok in Hv. unfold maxLimitSize in *.
    apply paged_ok; lia.
  - rewrite (things_of_channel_filter _ _ _ _ Hr). split; [apply order_by_sorted|].
    apply order_by_NoDup, NoDup_fmap_filter, owned_things_NoDup.
  - intros th. rewrite (things_of_channel_filter _ _ _ _ Hr), order_by_elem, list_elem_of_filter, owned_things_spec.
    rewrite (can_access_spec _ _ _ _ _ Hr Hplain). split.
    + intros [Hc (key & Hk & Hth)]. assert (key = th_key th) as -> by by rewrite Hth.
      split_and!; [done..|]. by exists u, owner.
    + intros (Hk & Hth & u' & o & Hu' & Hk' & Hc). simplify_eq. split; [|by exists (th_key th)].
      by rewrite (inv_owner _ _ _ Hr _ _ _ _ _ Hk Hk').
Qed.

End Rows.

(** ** A sample catalog *)

#[local] Existing Instance hex_uuid.
#[local] Existing Instance hex_uuid_ok.

(** Metadata as the list of its members. *)
#[local] Instance member_json : Json (list text) := {|
  no_metadata := [];
  no_members := fun m => bool_decide (m = []);
  json_contains := fun m f => forallb (fun x => bool_decide (x ∈ m)) f;
  through_jsonb := fun m => m
|}.

Definition lower_ascii (s : text) : text :=
  (fun x => if (65 <=? x) && (x <=? 90) then x + 32 else x) <$> s.
Definition reads_hex (s : text) : bool := bool_decide (is_Some (canon s)).

Definition two_users (token : text) : option text :=
  if bool_decide (token = js "tok") then Some (js "alice")
  else if bool_decide (token = js "tok2") then Some (js "bob") else None.

Definition lamp : info (list text) := Info (js "Lamp") [js "room"].

Definition sample_catalog : catalog keyspace (list text) :=
  Catalog sample_service {[(js "a1", js "alice") := lamp]} ∅.

Lemma list_things_pages_witness :
  exists rows, in_order th_id rows /\ length rows = 1%nat /\
    list_things_endpoint lower_ascii lower_ascii two_users (js "tok") 0 10 (js "AM") [js "room"] sample_catalog =
      Ok (Page (page_of rows 0 10) (Z.of_nat (length rows))).
Proof.
  destruct (list_things_pages lower_ascii lower_ascii two_users (js "tok") (js "alice") (js "AM") [js "room"]
    sample_catalog) as (rows & Hord & _ & Hpage & _); [vm_compute; reflexivity|].
  exists rows. split; [exact Hord|].
  destruct (Hpage 0 10) as (page & He & -> & _); [vm_compute; reflexivity|lia|lia|].
  split; [|exact He].
  assert (Z.of_nat (length rows) = 1) as Hl; [|lia].
  assert (Ht : match list_things_endpoint lower_ascii lower_ascii two_users (js "tok") 0 10 (js "AM")
    [js "room"] sample_catalog with Ok p => pg_total p | Err _ => 0 end = 1) by (vm_compute; reflexivity).
  by rewrite He in Ht.
Defined.

Lemma update_thing_view_witness :
  match UpdateThing two_users (js "tok") (js "a1") (Info (js "Fan") []) sample_catalog with
  | Ok c' => ViewThing two_users (js "tok") (js "a1") c' =
      Ok (Thing (js "a1") (js "alice") (js "k1") (Info (js "Fan") []))
  | Err _ => False
  end.
Proof.
  pose proof (update_thing_view two_users (js "tok") (js "alice") (js "a1") (Info (js "Fan") []) sample_catalog
    ltac:(vm_compute; reflexivity)) as H.
  destruct (UpdateThing two_users (js "tok") (js "a1") (Info (js "Fan") []) sample_catalog) as [c'|e] eqn:E;
    [|by vm_compute in E].
  destruct H as (_ & (key & old & Hold & Hnew) & _).
  assert (Hk : match ViewThing two_users (js "tok") (js "a1") sample_catalog with
    Ok th => th_key th | Err _ => [] end = js "k1") by (vm_compute; reflexivity).
  rewrite Hold in Hk. simpl in Hk. subst key. exact Hnew.
Defined.

Definition others_changes : list (change (M := list text)) := [
  NewThings (js "tok2") [((js "k2", (js "b1", js "gen")), lamp)];
  Core (RRemoveThing (js "tok2") (js "a1"));
  ChangeThing (js "tok2") (js "a1") (Info (js "Mine") []);
  Core (RCanAccessByKey (js "c1") (js "k1"))].

Lemma others_invisible_witness :
  ViewThing two_users (js "tok") (js "a1")
    (foldl (fun c ch => apply_change two_users ch c) sample_catalog others_changes) =
  ViewThing two_users (js "tok") (js "a1") sample_catalog.
Proof.
  apply (others_invisible lower_ascii lower_ascii two_users (js "tok") (js "alice") others_changes sample_catalog).
  - vm_compute. reflexivity.
  - unfold others_changes. repeat (constructor; [vm_compute; discriminate|]). constructor.
Defined.

Lemma channel_listing_access_witness :
  exists rows,
    list_things_by_channel_endpoint reads_hex sample_auth (js "tok") (js "c1") 0 10 sample_catalog =
      Ok (Page (page_of rows 0 10) (Z.of_nat (length rows))) /\
    Thing (js "a1") (js "alice") (js "k1") lamp ∈ rows.
Proof.
  destruct (channel_listing_access sample_auth reads_hex {[js "a1"]} (js "tok") (js "alice") (js "c1") (js "c1")
    0 10 sample_catalog sample_reach) as (rows & He & _ & Hin).
  - vm_compute. reflexivity.
  - vm_compute. reflexivity.
  - vm_compute. reflexivity.
  - vm_compute. reflexivity.
  - exact plain_c1.
  - lia.
  - exists rows. split; [exact He|]. apply Hin. split_and!; vm_compute; reflexivity.
Defined.

Lemma name_filter_witness : name_condition lower_ascii lower_ascii (js "_") lamp = true.
Proof.
  destruct (name_filter lower_ascii lower_ascii (js "_") lamp) as (_ & Hunderscore & _).
  apply Hunderscore; [vm_compute; reflexivity|vm_compute; discriminate].
Defined.
