(* ===== verification/Platform.v ===== *)
(** * The MQTT adapter and the Things service together

    The calls of the adapter are answered by the model of the Things service
    instead of an arbitrary environment: a call is served in one state of the
    service, and its reply is delivered some time later, or lost to an error.
    The users change the tables meanwhile. *)

From S2P Require Import Prelude JsString JsRegExp Topics Messages Adapter AdapterSystem AdapterSafety AdapterSession ThingsCache Things ThingsSafety ThingsProperties.

Section Platform.
Context {C : MessageCodec}.
Context {S : Type} `{HS : Caches S} {HSok : CachesOk S} {U : Uuid} {HU : UuidOk U}.
Variable instance_id : jsstr.
Variable auth : text -> option text.

(** [history] holds every state the tables went through, newest first. *)
Record platform := Platform {
  pw : world;
  psv : service S;
  issued : gset text;
  served : gmap nat reply;
  history : list database
}.

Definition init_platform : platform :=
  Platform init_world (Service_ empty_database no_cache true) ∅ ∅ [empty_database].

Definition set_world (pl : platform) (w : world) : platform :=
  Platform w (psv pl) (issued pl) (served pl) (history pl).
Definition set_service (pl : platform) (sv : service S) (iss : gset text) : platform :=
  Platform (pw pl) sv iss (served pl) (db sv :: history pl).
Definition set_reply (pl : platform) (rid : nat) (r : reply) : platform :=
  Platform (pw pl) (psv pl) (issued pl) (<[rid := r]> (served pl)) (history pl).

(** The reply of an endpoint as the gRPC client hands it over. *)
Definition things_reply (r : result text) : reply :=
  match r with
  | Ok t => ReplyOk t
  | Err e => ReplyErr (newError (encodeError e))
  end.

Definition delivered (pl : platform) (ev : event) : platform :=
  set_world pl (final (handle instance_id ev (pw pl))).

Inductive pstep (pl : platform) : platform -> Prop :=
| p_event ev :
    ok_event (pw pl) ev -> (forall rid r, ev <> EvReply rid r) -> pstep pl (delivered pl ev)
| p_redis_reply rid thing ts type inst r :
    Out (CallXadd rid thing ts type inst) ∈ trace (pw pl) -> is_Some (pending (pw pl) !! rid) ->
    pstep pl (delivered pl (EvReply rid r))
| p_request r :
    orderly (issued pl) (psv pl) r ->
    pstep pl (set_service pl (serve auth r (psv pl)) (issue (issued pl) r))
| p_redis up : pstep pl (set_service pl (Service_ (db (psv pl)) (cache (psv pl)) up) (issued pl))
| p_access rid token ch :
    Out (CallCanAccess rid token ch) ∈ trace (pw pl) -> served pl !! rid = None -> plain_id ch ->
    let out := canAccessEndpoint ch (proto_default token) (psv pl) in
    pstep pl (set_reply (set_service pl (fst out) (issued pl)) rid (things_reply (snd out)))
| p_identify rid key :
    Out (CallIdentify rid key) ∈ trace (pw pl) -> served pl !! rid = None ->
    let out := identifyEndpoint key (psv pl) in
    pstep pl (set_reply (set_service pl (fst out) (issued pl)) rid (things_reply (snd out)))
| p_lost rid e : rid ∈ calls (trace (pw pl)) -> served pl !! rid = None -> pstep pl (set_reply pl rid (ReplyErr e))
| p_deliver rid r :
    served pl !! rid = Some r -> is_Some (pending (pw pl) !! rid) ->
    pstep pl (delivered pl (EvReply rid r)).

Inductive preachable : platform -> Prop :=
| pr_init : preachable init_platform
| pr_step pl pl' : preachable pl -> pstep pl pl' -> preachable pl'.

(** ** Invariant *)

(** What a positive reply to the call [rid] of the trace stands for. *)
Record grant_ok (hist : list database) (t : list entry) (rid : nat) (v : text) : Prop := {
  grant_access : forall token ch, Out (CallCanAccess rid token ch) ∈ t ->
    exists key d, token = Str key /\ d ∈ hist /\ may_access d ch key v;
  grant_identity : forall key, Out (CallIdentify rid key) ∈ t ->
    exists d o, d ∈ hist /\ things d !! (v, o) = Some key
}.

Record pinv (pl : platform) : Prop := {
  pinv_world : reachable instance_id (pw pl);
  pinv_service : orderly_reach auth (issued pl) (psv pl);
  pinv_history : db (psv pl) ∈ history pl;
  pinv_calls : forall rid r, served pl !! rid = Some r -> rid ∈ calls (trace (pw pl));
  pinv_served : forall rid v, served pl !! rid = Some (ReplyOk v) ->
    grant_ok (history pl) (trace (pw pl)) rid v;
  pinv_replied : forall rid v, In (EvReply rid (ReplyOk v)) ∈ trace (pw pl) ->
    grant_ok (history pl) (trace (pw pl)) rid v
}.

Lemma elem_call e rid t : Out e ∈ t -> call_of (Out e) = [rid] -> rid ∈ calls t.
Proof.
  intros Hin Hc. unfold calls. apply list_elem_of_bind. exists (Out e). split; [|done].
  rewrite Hc. by left.
Qed.

(** A call has one entry in the trace. *)
Lemma call_unique t e1 e2 rid :
  NoDup (calls t) -> Out e1 ∈ t -> Out e2 ∈ t ->
  call_of (Out e1) = [rid] -> call_of (Out e2) = [rid] -> e1 = e2.
Proof.
  intros Hnd H1 H2 Hc1 Hc2. induction t as [|x t IH]; [by apply elem_of_nil in H1|].
  change (calls (x :: t)) with (call_of x ++ calls t) in Hnd.
  apply NoDup_app in Hnd as (_ & Hdisj & Hnd).
  apply elem_of_cons in H1 as [<-|H1], H2 as [[= <-]|H2]; [done| | |by apply IH].
  - exfalso. apply (Hdisj rid); [rewrite Hc1; by left|by eapply elem_call].
  - exfalso. apply (Hdisj rid); [rewrite Hc2; by left|by eapply elem_call].
Qed.

(** An old call is not made again. *)
Lemma old_call t t' e rid :
  NoDup (calls (t' ++ t)) -> rid ∈ calls t -> call_of (Out e) = [rid] -> Out e ∈ t' ++ t -> Out e ∈ t.
Proof.
  rewrite calls_app. intros (_ & Hdisj & _)%NoDup_app Hrid Hc [Hin|]%elem_of_app; [|done].
  exfalso. apply (Hdisj rid); [|done]. by eapply elem_call.
Qed.

Lemma grant_ok_mono hist hist' t t' rid v :
  hist ⊆ hist' -> NoDup (calls (t' ++ t)) -> rid ∈ calls t ->
  grant_ok hist t rid v -> grant_ok hist' (t' ++ t) rid v.
Proof.
  intros Hh Hnd Hrid [H1 H2]. split.
  - intros token ch Hin. apply (old_call _ _ _ rid) in Hin; [|done..].
    destruct (H1 _ _ Hin) as (key & d & ? & ? & ?). exists key, d. auto.
  - intros key Hin. apply (old_call _ _ _ rid) in Hin; [|done..].
    destruct (H2 _ Hin) as (d & o & ? & ?). exists d, o. auto.
Qed.

Lemma pinv_event pl ev :
  pinv pl -> ok_event (pw pl) ev ->
  (forall rid v, ev = EvReply rid (ReplyOk v) ->
     rid ∈ calls (trace (pw pl)) /\ grant_ok (history pl) (trace (pw pl)) rid v) ->
  pinv (delivered pl ev).
Proof.
  intros [H1 H2 H3 H4 H5 H6] Hok Hev.
  assert (Hr : reachable instance_id (pw (delivered pl ev))) by (by apply (reach_step _ (pw pl) ev)).
  destruct (transition_grows _ _ _ _ (handle_transition instance_id _ _ Hok)) as [es Ht].
  assert (Ht' : trace (pw (delivered pl ev)) = ((Out <$> es) ++ [In ev]) ++ trace (pw pl)).
  { rewrite <- app_assoc. exact Ht. }
  pose proof (ids_calls_nodup _ (ids_reachable _ _ Hr)) as Hnd. rewrite Ht' in Hnd.
  assert (Hmono : forall rid v, rid ∈ calls (trace (pw pl)) ->
    grant_ok (history pl) (trace (pw pl)) rid v ->
    grant_ok (history pl) (trace (pw (delivered pl ev))) rid v).
  { intros rid v Hrid Hg. rewrite Ht'. by eapply grant_ok_mono. }
  split; [done|exact H2|exact H3| | |].
  - intros rid r Hs. rewrite Ht', calls_app. apply elem_of_app. right. by eapply H4.
  - intros rid v Hs. apply Hmono; [by eapply H4|by apply H5].
  - intros rid v Hin. rewrite Ht', !elem_of_app, list_elem_of_singleton in Hin.
    destruct Hin as [[(e & ? & _)%list_elem_of_fmap|[= <-]]|Hin]; [done| |].
    + destruct (Hev rid v eq_refl). by apply Hmono.
    + apply Hmono; [|by apply H6]. apply (ids_replies _ (ids_reachable _ _ H1)).
      unfold replies. apply list_elem_of_bind. exists (In (EvReply rid (ReplyOk v))).
      split; [by left|done].
Qed.

Lemma grant_ok_history hist hist' t rid v :
  hist ⊆ hist' -> grant_ok hist t rid v -> grant_ok hist' t rid v.
Proof.
  intros Hh [H1 H2]. split.
  - intros token ch Hin. destruct (H1 _ _ Hin) as (key & d & ? & ? & ?). exists key, d. auto.
  - intros key Hin. destruct (H2 _ Hin) as (d & o & ? & ?). exists d, o. auto.
Qed.

Lemma pinv_set_service pl sv iss :
  pinv pl -> orderly_reach auth iss sv -> pinv (set_service pl sv iss).
Proof.
  intros [H1 H2 H3 H4 H5 H6] Hsv. split; try done; cbn [set_service pw served history psv].
  - by left.
  - intros rid v Hs. eapply grant_ok_history; [|by apply H5]. intros d Hd. by right.
  - intros rid v Hs. eapply grant_ok_history; [|by apply H6]. intros d Hd. by right.
Qed.

Lemma pinv_set_reply pl rid r :
  pinv pl -> rid ∈ calls (trace (pw pl)) ->
  (forall v, r = ReplyOk v -> grant_ok (history pl) (trace (pw pl)) rid v) ->
  pinv (set_reply pl rid r).
Proof.
  intros [H1 H2 H3 H4 H5 H6] Hrid Hr. split; try done; cbn [set_reply pw served history].
  - intros rid' r' [[<- _]|[_ Hs]]%lookup_insert_Some; [done|by eapply H4].
  - intros rid' v [[<- ->]|[_ Hs]]%lookup_insert_Some; [by apply Hr|by apply H5].
Qed.

(** The reply to a served call stands for a row of the current tables. *)
Lemma access_grant_ok pl rid token ch v hist :
  pinv pl -> db (psv pl) ∈ hist -> plain_id ch ->
  Out (CallCanAccess rid token ch) ∈ trace (pw pl) ->
  things_reply (snd (canAccessEndpoint ch (proto_default token) (psv pl))) = ReplyOk v ->
  grant_ok hist (trace (pw pl)) rid v.
Proof.
  intros Hp Hd Hch Hcall Hv. pose proof (ids_calls_nodup _ (ids_reachable _ _ (pinv_world _ Hp))) as Hnd.
  pose proof (inv_orderly _ _ _ (pinv_service _ Hp)) as Hi.
  destruct (snd (canAccessEndpoint _ _ _)) as [t|e] eqn:Hout; [|done]. injection Hv as ->.
  assert (Hg : exists key, token = Str key /\ may_access (db (psv pl)) ch key v).
  { destruct ch as [|c ch]; [done|]. destruct token as [| |[|k key]]; try done.
    exists (k :: key). split; [done|]. by apply (can_access_spec _ _ _ _ _ Hi Hch). }
  destruct Hg as (key & -> & Hg). split.
  - intros token' ch' Hin. assert (CallCanAccess rid token' ch' = CallCanAccess rid (Str key) ch)
      as [= -> ->] by (by eapply call_unique).
    exists key, (db (psv pl)). done.
  - intros key' Hin. assert (CallIdentify rid key' = CallCanAccess rid (Str key) ch) by (by eapply call_unique). done.
Qed.

Lemma identify_grant_ok pl rid key v hist :
  pinv pl -> db (psv pl) ∈ hist ->
  Out (CallIdentify rid key) ∈ trace (pw pl) ->
  things_reply (snd (identifyEndpoint key (psv pl))) = ReplyOk v ->
  grant_ok hist (trace (pw pl)) rid v.
Proof.
  intros Hp Hd Hcall Hv. pose proof (ids_calls_nodup _ (ids_reachable _ _ (pinv_world _ Hp))) as Hnd.
  pose proof (inv_orderly _ _ _ (pinv_service _ Hp)) as Hi. unfold identifyEndpoint in Hv.
  destruct (snd (Identify key (psv pl))) as [t|e] eqn:Hout; [|done]. injection Hv as ->.
  apply (identify_spec _ _ _ _ Hi) in Hout as [o Ho]. split.
  - intros token' ch' Hin. assert (CallCanAccess rid token' ch' = CallIdentify rid key) by (by eapply call_unique). done.
  - intros key' Hin. assert (CallIdentify rid key' = CallIdentify rid key) as [= ->] by (by eapply call_unique).
    by exists (db (psv pl)), o.
Qed.

Lemma pinv_step pl pl' : pinv pl -> pstep pl pl' -> pinv pl'.
Proof.
  intros Hp Hs. pose proof (pinv_service _ Hp) as Hsv. destruct Hs.
  - apply pinv_event; [done..|]. intros rid v ->. by destruct (H0 rid (ReplyOk v)).
  - apply pinv_event; [done|done|]. intros rid' v [= <- ->]. split; [by eapply elem_call|].
    pose proof (ids_calls_nodup _ (ids_reachable _ _ (pinv_world _ Hp))) as Hnd. split.
    + intros token ch Hin. assert (CallCanAccess rid token ch = CallXadd rid thing ts type inst)
        by (by eapply call_unique). done.
    + intros key Hin. assert (CallIdentify rid key = CallXadd rid thing ts type inst)
        by (by eapply call_unique). done.
  - apply pinv_set_service; [done|]. by apply or_serve.
  - apply pinv_set_service; [done|]. by apply or_redis.
  - subst out. pose proof (or_serve auth _ _ (RCanAccessByKey ch (proto_default token)) Hsv H1) as Hnext.
    apply pinv_set_reply; [by apply pinv_set_service|by eapply elem_call|].
    intros v Hv. apply (access_grant_ok pl rid token ch v); [done|right; by apply pinv_history|done|done|exact Hv].
  - subst out. pose proof (or_serve auth _ _ (RIdentify key) Hsv I) as Hnext.
    apply pinv_set_reply; [by apply pinv_set_service|by eapply elem_call|].
    intros v Hv. apply (identify_grant_ok pl rid key v); [done|right; by apply pinv_history|done|exact Hv].
  - by apply pinv_set_reply.
  - apply pinv_event; [done|done|]. intros rid' v [= <- ->]. split; [by eapply pinv_calls|by apply pinv_served].
Qed.

Lemma pinv_reachable pl : preachable pl -> pinv pl.
Proof.
  induction 1 as [|pl pl' _ IH Hs]; [|by eapply pinv_step].
  split; cbn [init_platform pw psv issued served history].
  - constructor.
  - constructor.
  - by left.
  - intros rid r. by rewrite lookup_empty.
  - intros rid v. by rewrite lookup_empty.
  - intros rid v Hin. by apply elem_of_nil in Hin.
Qed.

(** A granted access of the trace was backed by the tables. *)
Lemma granted_in_tables pl t1 t2 rid v token ch :
  preachable pl -> trace (pw pl) = t2 ++ t1 ->
  Out (CallCanAccess rid token ch) ∈ t1 -> In (EvReply rid (ReplyOk v)) ∈ t1 ->
  exists key d, token = Str key /\ d ∈ history pl /\ may_access d ch key v.
Proof.
  intros Hp Ht Hc Hv. pose proof (pinv_reachable _ Hp) as Hi.
  assert (Hsub : t1 ⊆ trace (pw pl)) by (rewrite Ht; intros x Hx; apply elem_of_app; by right).
  exact (grant_access _ _ _ _ (pinv_replied _ Hi rid v (Hsub _ Hv)) token ch (Hsub _ Hc)).
Qed.

(** So the granted request of a client carried the key that it had been
    identified with. *)
Lemma asked_in_tables pl t1 t2 rid v cl ch ev ta t0 :
  preachable pl -> trace (pw pl) = t2 ++ t1 ->
  asked t1 rid cl ch ev ta t0 -> In (EvReply rid (ReplyOk v)) ∈ ta ->
  exists key d,
    t1 = ta ++ Out (CallCanAccess rid (Str key) ch) :: In ev :: t0 /\
    c_password (client_at t0 cl) = Str key /\ (exists u, identified_as t0 cl key u) /\
    d ∈ history pl /\ may_access d ch key v.
Proof.
  unfold asked. intros Hp Ht Ha Hin.
  destruct (granted_in_tables pl t1 t2 rid v (c_password (client_at t0 cl)) ch Hp Ht)
    as (key & d & Hkey & Hd & Hacc).
  - rewrite Ha. apply elem_of_app. right. by left.
  - rewrite Ha. apply elem_of_app. by left.
  - exists key, d. split_and!; [by rewrite <- Hkey|done| |done..].
    destruct (client_at_password _ _ _ Hkey) as (u & _ & Hi). by exists u.
Qed.

Lemma identified_in_tables pl t1 t2 p v :
  preachable pl -> trace (pw pl) = t2 ++ t1 -> identified t1 p v ->
  exists d o, d ∈ history pl /\ things d !! (v, o) = Some p.
Proof.
  intros Hp Ht (rid & Hc & Hv). pose proof (pinv_reachable _ Hp) as Hi.
  assert (Hsub : t1 ⊆ trace (pw pl)) by (rewrite Ht; intros x Hx; apply elem_of_app; by right).
  exact (grant_identity _ _ _ _ (pinv_replied _ Hi rid v (Hsub _ Hv)) p (Hsub _ Hc)).
Qed.

(** C2: end to end: when a message goes out on NATS, then some client [cl] had asked
    to publish it, the access call carried the key that [cl] had at that moment,
    with which [cl] itself had been identified, and there was a moment at which the
    tables held a thing with this key, connected to exactly the channel of the
    topic; and the publisher the message names is a thing that was in the tables,
    as which [cl] had been identified.  Nothing is assumed of the replies but that
    the service computes them.  The run of the Things service is orderly
    ([ThingsSafety.orderly]): no key is changed, identifiers are written as the
    database prints them (channel ids in topics too), new things have new
    identifiers, Redis answers when access is revoked, and each request is
    answered before the next. *)
Theorem published_connected pl t2 subject msg t1 :
  preachable pl -> trace (pw pl) = t2 ++ Out (NatsPublish subject msg) :: t1 ->
  exists cl pkt cb ch key rid v ta t0 d,
    t1 = ta ++ Out (CallCanAccess rid (Str key) ch) :: In (EvPublish cl pkt cb) :: t0 /\
    channel_of (p_topic pkt) = Some ch /\
    c_password (client_at t0 cl) = Str key /\ (exists u, identified_as t0 cl key u) /\
    d ∈ history pl /\ may_access d ch key v /\
    (forall u, c_thingId (client_at t1 cl) = Str u ->
       exists d' o k, identified_as t1 cl k u /\ d' ∈ history pl /\ things d' !! (u, o) = Some k) /\
    let '(ct, st) := split_content_type (subtopic_elements (p_topic pkt)) in
    subject = channelTopic ch st /\
    msg = encode (published_obj (client_at t1 cl) ch (of_option (msgtopic (p_topic pkt))) st ct pkt).
Proof.
  intros Hp Ht. pose proof (pinv_world _ (pinv_reachable _ Hp)) as Hr.
  destruct (client_justified _ _ _ _ _ Hr Ht)
    as (cl & pkt & cb & ch & rid & v & ta & t0 & Ha & Hin & Hch & _ & Hmsg).
  assert (Ht' : trace (pw pl) = (t2 ++ [Out (NatsPublish subject msg)]) ++ t1)
    by (by rewrite <- app_assoc).
  destruct (asked_in_tables _ _ _ _ _ _ _ _ _ _ Hp Ht' Ha Hin) as (key & d & Hcall & Hpw & Hid & Hd & Hacc).
  exists cl, pkt, cb, ch, key, rid, v, ta, t0, d. split_and!; [done..| |done].
  intros u [k Hi]%client_at_thing.
  destruct (identified_in_tables _ _ _ _ _ Hp Ht' (identified_as_identified _ _ _ _ Hi)) as (d' & o & ? & ?).
  by exists d', o, k.
Qed.

(** C11: end to end: a subscription is granted only if the client asked for it, the
    access call carried the key that the client had at that moment, with which it
    had been identified, and at some moment the tables held a thing with this key,
    connected to the channel of the topic filter.  Runs are those of
    [published_connected]. *)
Theorem subscribed_connected pl t2 cb sub t1 :
  preachable pl -> trace (pw pl) = t2 ++ Out (CbSubscribe cb None (Some sub)) :: t1 ->
  exists cl ch key rid v ta t0 d,
    t1 = ta ++ Out (CallCanAccess rid (Str key) ch) :: In (EvSubscribe cl sub cb) :: t0 /\
    channel_of (s_topic sub) = Some ch /\
    c_password (client_at t0 cl) = Str key /\ (exists u, identified_as t0 cl key u) /\
    d ∈ history pl /\ may_access d ch key v.
Proof.
  intros Hp Ht. pose proof (pinv_world _ (pinv_reachable _ Hp)) as Hr.
  destruct (client_justified _ _ _ _ _ Hr Ht) as (cl & ch & rid & v & ta & t0 & Ha & Hin & Hch).
  assert (Ht' : trace (pw pl) = (t2 ++ [Out (CbSubscribe cb None (Some sub))]) ++ t1)
    by (by rewrite <- app_assoc).
  destruct (asked_in_tables _ _ _ _ _ _ _ _ _ _ Hp Ht' Ha Hin) as (key & d & Hcall & Hpw & Hid & Hd & Hacc).
  by exists cl, ch, key, rid, v, ta, t0, d.
Qed.

(** The world and the tables after a publication was asked for, served and
    answered. *)
Definition publish_asked (pl : platform) (cl : nat) (pkt : packet) (cb : nat) : platform :=
  delivered pl (EvPublish cl pkt cb).
Definition access_served (pl : platform) (rid : nat) (token : jsval) (ch : text) : platform :=
  let out := canAccessEndpoint ch (proto_default token) (psv pl) in
  set_reply (set_service pl (fst out) (issued pl)) rid (things_reply (snd out)).

Lemma publish_asked_world pl cl pkt cb c ch :
  clients (pw pl) !! cl = Some c -> channel_of (p_topic pkt) = Some ch ->
  elements_rejected (p_topic pkt) = false -> (cb ∉ requests (trace (pw pl))) ->
  pw (publish_asked pl cl pkt cb)
  = start_call (react (pw pl) (EvPublish cl pkt cb) [])
      (fun rid => CallCanAccess rid (c_password c) ch) (pub_closure cl ch pkt cb).
Proof.
  intros Hcl Hch Hel Hcb.
  assert (Hc : the_client (pw pl) cl = c) by (unfold the_client; by rewrite Hcl).
  rewrite <- Hc. eapply transition_functional; [|by apply tr_publish].
  apply handle_transition. split; [by exists c|done].
Qed.

Lemma granted_reply_world w rid v cl ch pkt cb :
  pending w !! rid = Some (pub_closure cl ch pkt cb) ->
  let '(ct, st) := split_content_type (subtopic_elements (p_topic pkt)) in
  let msg := encode (published_obj (the_client w cl) ch (of_option (msgtopic (p_topic pkt))) st ct pkt) in
  final (handle instance_id (EvReply rid (ReplyOk v)) w)
  = finish_call (react w (EvReply rid (ReplyOk v))
      [CbPublish cb None; NatsPublish (channelTopic ch st) msg; LogWarn (LErrorBytes msg)]) rid.
Proof.
  unfold pub_closure. destruct (split_content_type _) as [ct st]. intros Hp.
  eapply transition_functional; [apply handle_transition; by eexists|].
  by apply tr_reply_publish_ok.
Qed.

Lemma channel_of_not_nil topic ch : channel_of topic = Some ch -> ch <> [].
Proof.
  unfold channel_of. rewrite parseTopic_match.
  destruct (topic_match (js "control") topic) as [m|] eqn:E; simpl.
  - apply topic_match_iff in E as (_ & id & rest & Hid & _ & -> & _). simpl. by intros [= <-].
  - destruct (topic_match (js "messages") topic) as [m|] eqn:E'; simpl; [|done].
    apply topic_match_iff in E' as (_ & id & rest & Hid & _ & -> & _). simpl. by intros [= <-].
Qed.

(** What the endpoint replies to an authorised call. *)
Lemma access_reply pl key ch t :
  pinv pl -> plain_id ch -> ch <> [] -> key <> [] -> may_access (db (psv pl)) ch key t ->
  things_reply (snd (canAccessEndpoint ch key (psv pl))) = ReplyOk t.
Proof.
  intros Hi Hplain Hch Hkey Hacc. pose proof (inv_orderly _ _ _ (pinv_service _ Hi)) as Hinv.
  apply (can_access_spec _ _ _ _ _ Hinv Hplain) in Hacc.
  destruct ch as [|c ch]; [done|]. destruct key as [|k key]; [done|].
  change (canAccessEndpoint (c :: ch) (k :: key) (psv pl)) with (CanAccessByKey (c :: ch) (k :: key) (psv pl)).
  by rewrite Hacc.
Qed.

(** C3: end to end, the other way: when a client that presented a key publishes on
    a well-formed topic, and the tables hold a thing with that key connected to
    the channel, then serving the call and delivering the reply send the message
    out on NATS, in the name of the client and on the subject of the topic, and
    accept the publication. *)
Theorem connected_published pl cl pkt cb c key ch t :
  preachable pl -> clients (pw pl) !! cl = Some c -> c_password c = Str key -> key <> [] ->
  channel_of (p_topic pkt) = Some ch -> plain_id ch ->
  elements_rejected (p_topic pkt) = false -> (cb ∉ requests (trace (pw pl))) ->
  may_access (db (psv pl)) ch key t ->
  let '(ct, st) := split_content_type (subtopic_elements (p_topic pkt)) in
  let msg := encode (published_obj c ch (of_option (msgtopic (p_topic pkt))) st ct pkt) in
  exists pl' rid,
    nsteps pstep 3 pl pl' /\
    trace (pw pl') =
      [Out (CbPublish cb None); Out (NatsPublish (channelTopic ch st) msg);
       Out (LogWarn (LErrorBytes msg)); In (EvReply rid (ReplyOk t));
       Out (CallCanAccess rid (Str key) ch); In (EvPublish cl pkt cb)] ++ trace (pw pl).
Proof.
  intros Hp Hcl Hpw Hkey Hch Hplain Hel Hcb Hacc.
  pose proof (pinv_reachable _ Hp) as Hi. set (rid := next_rpc (pw pl)).
  set (pl1 := publish_asked pl cl pkt cb).
  assert (Hw1 : pw pl1 = start_call (react (pw pl) (EvPublish cl pkt cb) [])
      (fun rid => CallCanAccess rid (Str key) ch) (pub_closure cl ch pkt cb)).
  { rewrite <- Hpw. by apply publish_asked_world. }
  assert (Hs1 : pstep pl pl1) by (apply p_event; [split; [by exists c|done]|done]).
  assert (Hi1 : pinv pl1) by (by eapply pinv_step).
  set (pl2 := access_served pl1 rid (Str key) ch).
  assert (Hs2 : pstep pl1 pl2).
  { apply p_access; [rewrite Hw1; by left| |done]. apply eq_None_not_Some. intros [r Hr].
    apply (pinv_calls _ Hi), (ids_calls _ (ids_reachable _ _ (pinv_world _ Hi))) in Hr. subst rid. lia. }
  assert (Hserved : served pl2 !! rid = Some (ReplyOk t)).
  { subst pl2. unfold access_served. cbn [set_reply served]. rewrite lookup_insert_eq. f_equal.
    apply access_reply; [done..|by eapply channel_of_not_nil|done|done]. }
  assert (Hpend : pending (pw pl2) !! rid = Some (pub_closure cl ch pkt cb)).
  { change (pw pl2) with (pw pl1). rewrite Hw1. apply lookup_insert_eq. }
  pose proof (granted_reply_world (pw pl2) rid t cl ch pkt cb Hpend) as Hend.
  assert (Hc : the_client (pw pl2) cl = c).
  { change (pw pl2) with (pw pl1). rewrite Hw1. unfold the_client. simpl. by rewrite Hcl. }
  rewrite Hc in Hend. destruct (split_content_type _) as [ct st].
  exists (delivered pl2 (EvReply rid (ReplyOk t))), rid. split.
  - eapply nsteps_l; [exact Hs1|]. eapply nsteps_l; [exact Hs2|]. apply nsteps_once.
    apply p_deliver; [done|by eexists].
  - unfold delivered, set_world. cbn [pw]. rewrite Hend. change (pw pl2) with (pw pl1). by rewrite Hw1.
Qed.

End Platform.

(** ** Witness

    A user creates a thing and a channel and connects them; the thing connects
    over MQTT, publishes a reading and subscribes. *)

#[local] Existing Instance hex_uuid.
#[local] Existing Instance hex_uuid_ok.
#[local] Existing Instance record_codec.

Abbreviation splatform := (@platform record_codec keyspace).

Definition do_request (r : request) (pl : splatform) : splatform :=
  set_service pl (serve sample_auth r (psv pl)) (issue (issued pl) r).
Definition do_event (ev : event) (pl : splatform) : splatform := delivered (js "mqtt-1") pl ev.
Definition do_identify (rid : nat) (key : text) (pl : splatform) : splatform :=
  let out := identifyEndpoint key (psv pl) in
  set_reply (set_service pl (fst out) (issued pl)) rid (things_reply (snd out)).
Definition do_access (rid : nat) (token : jsval) (ch : text) (pl : splatform) : splatform :=
  let out := canAccessEndpoint ch (proto_default token) (psv pl) in
  set_reply (set_service pl (fst out) (issued pl)) rid (things_reply (snd out)).

Definition pl_set_up : splatform :=
  do_request (RConnect (js "tok") [js "c1"] [js "a1"])
    (do_request (RCreateChannels (js "tok") [js "c1"])
      (do_request (RCreateThings (js "tok") [(js "k1", (js "a1", js "gen"))]) init_platform)).
Definition pl_asked : splatform :=
  do_event (EvAuthenticate 0 None (Some (js "k1")) 10)
    (do_event (EvClient 0 (Str (js "dev1"))) pl_set_up).
Definition pl_connected : splatform :=
  do_event (EvReply 0 (ReplyOk (js "a1"))) (do_identify 0 (js "k1") pl_asked).
Definition platform_packet : packet := Packet (js "channels/c1/messages/temp") [123%Z].
Definition platform_subscription : subscription := Subscription (js "channels/c1/messages/#") 1.
Definition pl_publishing : splatform := do_event (EvPublish 0 platform_packet 11) pl_connected.
Definition pl_published : splatform :=
  do_event (EvReply 2 (ReplyOk (js "a1"))) (do_access 2 (Str (js "k1")) (js "c1") pl_publishing).
Definition pl_subscribing : splatform := do_event (EvSubscribe 0 platform_subscription 12) pl_connected.
Definition pl_subscribed : splatform :=
  do_event (EvReply 2 (ReplyOk (js "a1"))) (do_access 2 (Str (js "k1")) (js "c1") pl_subscribing).

Abbreviation spreachable := (preachable (js "mqtt-1") sample_auth).

Lemma pl_set_up_reach : spreachable pl_set_up.
Proof.
  eapply pr_step; [eapply pr_step; [eapply pr_step; [constructor|]|]|]; apply p_request; try exact I.
  split; [|exact I]. intros u _. apply not_elem_of_empty.
Qed.

Lemma ev_step ev pl :
  spreachable pl -> bool_decide (ok_event (pw pl) ev) = true ->
  match ev with EvReply _ _ => False | _ => True end -> spreachable (do_event ev pl).
Proof.
  intros Hp Hok Hev. eapply pr_step; [exact Hp|]. apply p_event.
  - by apply bool_decide_eq_true in Hok.
  - intros rid r ->. done.
Qed.

Lemma pl_asked_reach : spreachable pl_asked.
Proof.
  apply ev_step; [apply ev_step; [apply pl_set_up_reach|vm_compute; reflexivity|exact I]
                 |vm_compute; reflexivity|exact I].
Qed.

Lemma reply_step rid r pl :
  spreachable pl -> served pl !! rid = Some r -> bool_decide (is_Some (pending (pw pl) !! rid)) = true ->
  spreachable (do_event (EvReply rid r) pl).
Proof.
  intros Hp Hs Hk. eapply pr_step; [exact Hp|]. apply p_deliver; [done|].
  by apply bool_decide_eq_true in Hk.
Qed.

Lemma trace_elem (pl : splatform) n e : trace (pw pl) !! n = Some (Out e) -> Out e ∈ trace (pw pl).
Proof. apply list_elem_of_lookup_2. Qed.

Lemma pl_connected_reach : spreachable pl_connected.
Proof.
  apply reply_step; [|vm_eq|vm_compute; reflexivity].
  eapply pr_step; [apply pl_asked_reach|]. apply p_identify; [|vm_eq].
  apply (trace_elem _ 0). vm_eq.
Qed.

Lemma access_step rid token ch pl n :
  spreachable pl -> trace (pw pl) !! n = Some (Out (CallCanAccess rid token ch)) ->
  served pl !! rid = None -> plain_id ch -> spreachable (do_access rid token ch pl).
Proof.
  intros Hp Hn Hs Hch. eapply pr_step; [exact Hp|]. apply p_access; [|done..]. by eapply trace_elem.
Qed.

Lemma pl_published_reach : spreachable pl_published.
Proof.
  apply reply_step; [|vm_eq|vm_compute; reflexivity].
  apply (access_step _ _ _ _ 0); [|vm_eq|vm_eq|exact plain_c1].
  apply ev_step; [apply pl_connected_reach|vm_compute; reflexivity|exact I].
Qed.

Lemma pl_subscribed_reach : spreachable pl_subscribed.
Proof.
  apply reply_step; [|vm_eq|vm_compute; reflexivity].
  apply (access_step _ _ _ _ 0); [|vm_eq|vm_eq|exact plain_c1].
  apply ev_step; [apply pl_connected_reach|vm_compute; reflexivity|exact I].
Qed.

Definition platform_message : @wire record_codec := {|
  m_channel := js "c1"; m_topic := js "messages"; m_subtopic := js "temp";
  m_publisher := js "a1"; m_devname := js "dev1"; m_protocol := js "mqtt";
  m_contentType := []; m_payload := [123%Z] |}.

Lemma platform_split (pl : splatform) n e :
  trace (pw pl) !! n = Some (Out e) ->
  trace (pw pl) = take n (trace (pw pl)) ++ Out e :: drop (1 + n) (trace (pw pl)).
Proof. intros H. symmetry. exact (take_drop_middle _ _ _ H). Qed.

Lemma pl_published_message :
  trace (pw pl_published) !! 1%nat = Some (Out (NatsPublish (js "channel.c1.temp") platform_message)).
Proof. vm_eq. Qed.

Lemma pl_subscribed_answer :
  trace (pw pl_subscribed) !! 0%nat = Some (Out (CbSubscribe 12 None (Some platform_subscription))).
Proof. vm_eq. Qed.

Lemma published_connected_witness :
  exists cl ch key t0 d v, c_password (client_at t0 cl) = Str key /\
    d ∈ history pl_published /\ may_access d ch key v.
Proof.
  pose proof (platform_split _ _ _ pl_published_message) as Ht.
  destruct (published_connected (js "mqtt-1") sample_auth _ _ _ _ _ pl_published_reach Ht)
    as (cl & pkt & cb & ch & key & rid & v & ta & t0 & d & _ & _ & Hpw & _ & Hd & Ha & _).
  exists cl, ch, key, t0, d, v. split_and!; [exact Hpw|exact Hd|exact Ha].
Defined.

Lemma subscribed_connected_witness :
  exists cl ch key t0 d v, c_password (client_at t0 cl) = Str key /\
    d ∈ history pl_subscribed /\ may_access d ch key v.
Proof.
  pose proof (platform_split _ _ _ pl_subscribed_answer) as Ht.
  destruct (subscribed_connected (js "mqtt-1") sample_auth _ _ _ _ _ pl_subscribed_reach Ht)
    as (cl & ch & key & rid & v & ta & t0 & d & _ & _ & Hpw & _ & Hd & Ha).
  exists cl, ch, key, t0, d, v. split_and!; [exact Hpw|exact Hd|exact Ha].
Defined.

Lemma connected_published_witness :
  exists pl', nsteps (pstep (js "mqtt-1") sample_auth) 3 pl_connected pl' /\
    Out (NatsPublish (js "channel.c1.temp") platform_message) ∈ trace (pw pl').
Proof.
  destruct (connected_published (js "mqtt-1") sample_auth pl_connected 0 platform_packet 11
      (Client (Str (js "dev1")) (Str (js "a1")) (Str (js "k1"))) (js "k1") (js "c1") (js "a1")
      pl_connected_reach)
    as (pl' & rid & Hs & Ht);
    [vm_eq|reflexivity|discriminate|vm_compute; reflexivity|exact plain_c1|vm_compute; reflexivity
    |vm_decide|exists (js "c1"), (js "alice"); split_and!; [reflexivity|vm_eq|vm_decide]|].
  exists pl'. split; [exact Hs|rewrite Ht; right; left].
Defined.
