(* ===== verification/GoCodec.v ===== *)
(** * The Go codec of messages

    [Marshal] and [Unmarshal] of [message.pb.go], which the Go services use on
    NATS: in-place writes from the end of a buffer, indices and lengths at their
    machine widths, and every index or slice expression that Go would stop on. *)

From S2P Require Import Prelude.

Local Open Scope Z_scope.

(** ** The part of Go the codec uses *)

Definition u64 (z : Z) : Z := z mod 2 ^ 64.
Definition i64 (z : Z) : Z := (z + 2 ^ 63) mod 2 ^ 64 - 2 ^ 63.
Definition i32 (z : Z) : Z := (z + 2 ^ 31) mod 2 ^ 32 - 2 ^ 31.

Inductive proto_error :=
| ErrInvalidLengthMessage
| ErrIntOverflowMessage
| ErrUnexpectedEndOfGroupMessage
| ErrUnexpectedEOF
| EndGroupForNonGroup
| IllegalTag (fieldNum wire : Z)
| WrongWireType (wireType fieldNum : Z)
| IllegalWireType (wireType : Z).

(** A Go call returns, returns an error, or panics.  A loop of the model that
    runs out of its bound counts as a panic, so that a proof that there is none
    also proves that the loop ends. *)
Inductive go (A : Type) :=
| Done (a : A)
| Failed (e : proto_error)
| Panic.
Arguments Done {A}.
Arguments Failed {A}.
Arguments Panic {A}.

#[export] Instance go_bind : MBind go := fun A B k m =>
  match m with Done a => k a | Failed e => Failed e | Panic => Panic end.
#[export] Instance go_ret : MRet go := fun A => Done.

Abbreviation bytes := (list Z).
Abbreviation len l := (Z.of_nat (length l)).

(** [d[i]], [d[i] = v], [d[a:b]] and [copy(d[i:], s)]. *)
Definition byte_at (d : bytes) (i : Z) : go Z :=
  if 0 <=? i then match d !! Z.to_nat i with Some b => Done b | None => Panic end else Panic.

Definition set_byte (d : bytes) (i v : Z) : go bytes :=
  if (0 <=? i) && (i <? len d) then Done (<[Z.to_nat i := v]> d) else Panic.

Definition slice_of (d : bytes) (a b : Z) : go bytes :=
  if (0 <=? a) && (a <=? b) && (b <=? len d)
  then Done (take (Z.to_nat (b - a)) (drop (Z.to_nat a) d)) else Panic.

Definition copy_to (d : bytes) (i : Z) (s : bytes) : go bytes :=
  if (0 <=? i) && (i <=? len d)
  then Done (take (Z.to_nat i) d ++ take (length d - Z.to_nat i) s
             ++ drop (Z.to_nat i + length s) d)
  else Panic.

(** [math_bits.Len64]. *)
Definition Len64 (x : Z) : Z := if x =? 0 then 0 else Z.log2 x + 1.

(** ** Messages *)

(** The struct [Message].  A nil slice and an empty one are not told apart. *)
Record GoMessage := {
  Channel : bytes;
  Topic : bytes;
  Subtopic : bytes;
  Publisher : bytes;
  Devname : bytes;
  Protocol : bytes;
  ContentType : bytes;
  Payload : bytes;
  XXX_unrecognized : bytes
}.

Definition empty_message : GoMessage := Build_GoMessage [] [] [] [] [] [] [] [] [].

Definition with_unrecognized (u : bytes) (m : GoMessage) : GoMessage :=
  Build_GoMessage (Channel m) (Topic m) (Subtopic m) (Publisher m) (Devname m) (Protocol m)
    (ContentType m) (Payload m) u.

(** The assignment of the case [fieldNum] of [Unmarshal]. *)
Definition set_field (fieldNum : Z) (s : bytes) (m : GoMessage) : GoMessage :=
  let '(Build_GoMessage ch to st pu dn pr ct pl un) := m in
  match fieldNum with
  | 1 => Build_GoMessage s to st pu dn pr ct pl un
  | 2 => Build_GoMessage ch s st pu dn pr ct pl un
  | 3 => Build_GoMessage ch to s pu dn pr ct pl un
  | 4 => Build_GoMessage ch to st s dn pr ct pl un
  | 5 => Build_GoMessage ch to st pu s pr ct pl un
  | 6 => Build_GoMessage ch to st pu dn s ct pl un
  | 7 => Build_GoMessage ch to st pu dn pr s pl un
  | 8 => Build_GoMessage ch to st pu dn pr ct s un
  | _ => m
  end.

(** ** Marshal *)

Definition sovMessage (x : Z) : Z := (Len64 (Z.lor x 1) + 6) / 7.

(** The loop of [encodeVarintMessage]; a 64-bit number ends it within ten
    rounds. *)
Fixpoint encode_loop (n : nat) (dAtA : bytes) (offset v : Z) : go bytes :=
  match n with
  | O => Panic
  | S n =>
      if 128 <=? v then
        dAtA ← set_byte dAtA offset (Z.lor (Z.land v 127) 128);
        encode_loop n dAtA (offset + 1) (Z.shiftr v 7)
      else set_byte dAtA offset v
  end.

Definition encodeVarintMessage (dAtA : bytes) (offset v : Z) : go (bytes * Z) :=
  let offset := offset - sovMessage v in
  dAtA ← encode_loop 10 dAtA offset v;
  Done (dAtA, offset).

(** A field of [Size]. *)
Definition field_size (s : bytes) : Z :=
  if 0 <? len s then 1 + len s + sovMessage (len s) else 0.

Definition Size (m : GoMessage) : Z :=
  field_size (Channel m) + field_size (Topic m) + field_size (Subtopic m)
  + field_size (Publisher m) + field_size (Devname m) + field_size (Protocol m)
  + field_size (ContentType m) + field_size (Payload m) + len (XXX_unrecognized m).

(** A field of [MarshalToSizedBuffer]. *)
Definition put_field (tag : Z) (s : bytes) (st : bytes * Z) : go (bytes * Z) :=
  if 0 <? len s then
    let i := snd st - len s in
    dAtA ← copy_to (fst st) i s;
    st ← encodeVarintMessage dAtA i (len s);
    let i := snd st - 1 in
    dAtA ← set_byte (fst st) i tag;
    Done (dAtA, i)
  else Done st.

Definition MarshalToSizedBuffer (m : GoMessage) (dAtA : bytes) : go (bytes * Z) :=
  let i := len dAtA - len (XXX_unrecognized m) in
  dAtA ← copy_to dAtA i (XXX_unrecognized m);
  st ← put_field 66 (Payload m) (dAtA, i);
  st ← put_field 58 (ContentType m) st;
  st ← put_field 50 (Protocol m) st;
  st ← put_field 42 (Devname m) st;
  st ← put_field 34 (Publisher m) st;
  st ← put_field 26 (Subtopic m) st;
  st ← put_field 18 (Topic m) st;
  st ← put_field 10 (Channel m) st;
  Done (fst st, len dAtA - snd st).

Definition Marshal (m : GoMessage) : go bytes :=
  st ← MarshalToSizedBuffer m (replicate (Z.to_nat (Size m)) 0);
  slice_of (fst st) 0 (snd st).

(** ** Unmarshal *)

(** The loops that read a number: [shift] goes up to 63 in steps of seven, so
    eleven rounds are never used up. *)
Fixpoint varint_loop (n : nat) (dAtA : bytes) (shift iNdEx acc : Z) : go (Z * Z) :=
  match n with
  | O => Panic
  | S n =>
      if 64 <=? shift then Failed ErrIntOverflowMessage
      else if len dAtA <=? iNdEx then Failed ErrUnexpectedEOF
      else
        b ← byte_at dAtA iNdEx;
        let acc := u64 (Z.lor acc (Z.shiftl (Z.land b 127) shift)) in
        if b <? 128 then Done (acc, iNdEx + 1)
        else varint_loop n dAtA (shift + 7) (iNdEx + 1) acc
  end.

Definition read_varint (dAtA : bytes) (iNdEx : Z) : go (Z * Z) := varint_loop 11 dAtA 0 iNdEx 0.

(** The loop that passes over a number. *)
Fixpoint skip_varint (n : nat) (dAtA : bytes) (shift iNdEx : Z) : go Z :=
  match n with
  | O => Panic
  | S n =>
      if 64 <=? shift then Failed ErrIntOverflowMessage
      else if len dAtA <=? iNdEx then Failed ErrUnexpectedEOF
      else
        b ← byte_at dAtA iNdEx;
        if b <? 128 then Done (iNdEx + 1) else skip_varint n dAtA (shift + 7) (iNdEx + 1)
  end.

(** One round of [skipMessage] after the tag: the new index and depth. *)
Definition skip_value (dAtA : bytes) (wireType iNdEx depth : Z) : go (Z * Z) :=
  match wireType with
  | 0 => iNdEx ← skip_varint 11 dAtA 0 iNdEx; Done (iNdEx, depth)
  | 1 => Done (i64 (iNdEx + 8), depth)
  | 2 =>
      r ← read_varint dAtA iNdEx;
      let length := i64 (fst r) in
      if length <? 0 then Failed ErrInvalidLengthMessage
      else Done (i64 (snd r + length), depth)
  | 3 => Done (iNdEx, depth + 1)
  | 4 =>
      if depth =? 0 then Failed ErrUnexpectedEndOfGroupMessage
      else Done (iNdEx, depth - 1)
  | 5 => Done (i64 (iNdEx + 4), depth)
  | _ => Failed (IllegalWireType wireType)
  end.

Fixpoint skip_loop (n : nat) (dAtA : bytes) (iNdEx depth : Z) : go Z :=
  match n with
  | O => Panic
  | S n =>
      if iNdEx <? len dAtA then
        r ← read_varint dAtA iNdEx;
        r ← skip_value dAtA (Z.land (fst r) 7) (snd r) depth;
        if fst r <? 0 then Failed ErrInvalidLengthMessage
        else if snd r =? 0 then Done (fst r)
        else skip_loop n dAtA (fst r) (snd r)
      else Failed ErrUnexpectedEOF
  end.

Definition skipMessage (dAtA : bytes) : go Z := skip_loop (S (length dAtA)) dAtA 0 0.

(** The length and the contents of a field. *)
Definition read_bytes (dAtA : bytes) (iNdEx : Z) : go (bytes * Z) :=
  r ← read_varint dAtA iNdEx;
  let intStringLen := i64 (fst r) in
  if intStringLen <? 0 then Failed ErrInvalidLengthMessage
  else
    let postIndex := i64 (snd r + intStringLen) in
    if postIndex <? 0 then Failed ErrInvalidLengthMessage
    else if len dAtA <? postIndex then Failed ErrUnexpectedEOF
    else s ← slice_of dAtA (snd r) postIndex; Done (s, postIndex).

(** The default case: the field is kept as it is. *)
Definition keep_unknown (dAtA : bytes) (iNdEx : Z) (m : GoMessage) : go (GoMessage * Z) :=
  sub ← slice_of dAtA iNdEx (len dAtA);
  skippy ← skipMessage sub;
  let next := i64 (iNdEx + skippy) in
  if skippy <? 0 then Failed ErrInvalidLengthMessage
  else if next <? 0 then Failed ErrInvalidLengthMessage
  else if len dAtA <? next then Failed ErrUnexpectedEOF
  else
    u ← slice_of dAtA iNdEx next;
    Done (with_unrecognized (XXX_unrecognized m ++ u) m, next).

(** One round of [Unmarshal]. *)
Definition unmarshal_field (dAtA : bytes) (preIndex : Z) (m : GoMessage) : go (GoMessage * Z) :=
  r ← read_varint dAtA preIndex;
  let fieldNum := i32 (Z.shiftr (fst r) 3) in
  let wireType := Z.land (fst r) 7 in
  if wireType =? 4 then Failed EndGroupForNonGroup
  else if fieldNum <=? 0 then Failed (IllegalTag fieldNum (fst r))
  else if fieldNum <=? 8 then
    if negb (wireType =? 2) then Failed (WrongWireType wireType fieldNum)
    else r ← read_bytes dAtA (snd r); Done (set_field fieldNum (fst r) m, snd r)
  else keep_unknown dAtA preIndex m.

Fixpoint unmarshal_loop (n : nat) (dAtA : bytes) (iNdEx : Z) (m : GoMessage) : go GoMessage :=
  match n with
  | O => Panic
  | S n =>
      if iNdEx <? len dAtA then
        r ← unmarshal_field dAtA iNdEx m;
        unmarshal_loop n dAtA (snd r) (fst r)
      else if len dAtA <? iNdEx then Failed ErrUnexpectedEOF
      else Done m
  end.

Definition Unmarshal (dAtA : bytes) (m : GoMessage) : go GoMessage :=
  unmarshal_loop (S (length dAtA)) dAtA 0 m.

(** ** Bits *)

Lemma lor_shift a b n : 0 <= n -> 0 <= a < 2 ^ n -> Z.lor a (Z.shiftl b n) = a + b * 2 ^ n.
Proof.
  intros Hn Ha. rewrite <- Z.shiftl_mul_pow2 by done. symmetry. apply Z.add_nocarry_lor.
  apply Z.bits_inj'. intros k Hk. rewrite Z.land_spec, Z.bits_0.
  destruct (Z.lt_ge_cases k n) as [Hlt|Hge].
  - by rewrite Z.shiftl_spec_low, andb_false_r.
  - rewrite (proj1 (Z.bounded_iff_bits_nonneg n a Hn (proj1 Ha))); [done|lia|done].
Qed.

Lemma low_bits v : Z.land v 127 = v mod 128.
Proof. exact (Z.land_ones v 7 ltac:(done)). Qed.

Lemma continued_byte v : Z.lor (Z.land v 127) 128 = v mod 128 + 128.
Proof.
  rewrite low_bits. apply (lor_shift (v mod 128) 1 7); [done|]. apply Z.mod_pos_bound. lia.
Qed.

(** ** The encoding of numbers *)

(** The base-128 digits, least significant first, all but the last with the
    high bit set. *)
Fixpoint varint (n : nat) (v : Z) : bytes :=
  match n with
  | O => []
  | S n => if 128 <=? v then (v mod 128 + 128) :: varint n (v / 128) else [v]
  end.

(** [n] digits are enough. *)
Definition fits (n : nat) (v : Z) : Prop := 0 <= v < 2 ^ (7 * Z.of_nat n).

Lemma fits_div n v : fits (S n) v -> fits n (v / 128).
Proof.
  intros [H0 H1]. split; [apply Z.div_pos; lia|]. apply Z.div_lt_upper_bound; [lia|].
  change 128 with (2 ^ 7). rewrite <- Z.pow_add_r by lia.
  replace (7 + 7 * Z.of_nat n) with (7 * Z.of_nat (S n)) by lia. done.
Qed.

Lemma fits_u64 v : 0 <= v < 2 ^ 64 -> fits 10 v.
Proof. intros [H0 H1]. split; [done|]. change (7 * Z.of_nat 10) with 70. lia. Qed.

Lemma fits_ind (P : nat -> Z -> Prop) :
  (forall n v, 0 <= v < 128 -> P (S n) v) ->
  (forall n v, 128 <= v -> fits (S n) v -> P n (v / 128) -> P (S n) v) ->
  forall n v, fits (S n) v -> P (S n) v.
Proof.
  intros Hlast Hmore n. induction n as [|n IH]; intros v Hv.
  - apply Hlast. exact Hv.
  - destruct (Z.le_gt_cases 128 v); [|apply Hlast; destruct Hv; lia].
    apply Hmore; [done..|]. apply IH. by apply fits_div.
Qed.

Lemma varint_last n v : 0 <= v < 128 -> varint (S n) v = [v].
Proof. intros Hv. simpl. by destruct (Z.leb_spec 128 v); [lia|]. Qed.

Lemma varint_more n v : 128 <= v -> varint (S n) v = (v mod 128 + 128) :: varint n (v / 128).
Proof. intros Hv. simpl. by destruct (Z.leb_spec 128 v); [|lia]. Qed.

Lemma sovMessage_log v : 0 <= v -> sovMessage v = (Z.log2 v + 7) / 7.
Proof.
  intros Hv. unfold sovMessage, Len64.
  assert (Hl : Z.log2 (Z.lor v 1) = Z.log2 v) 
    by (rewrite Z.log2_lor by lia; change (Z.log2 1) with 0; pose proof (Z.log2_nonneg v); lia).
  destruct (Z.eqb_spec (Z.lor v 1) 0) as [E|E]; [apply Z.lor_eq_0_iff in E; lia|].
  rewrite Hl. f_equal. lia.
Qed.

Lemma log2_div_128 v : 128 <= v -> Z.log2 (v / 128) = Z.log2 v - 7.
Proof.
  intros Hv. change 128 with (2 ^ 7). rewrite <- Z.shiftr_div_pow2, Z.log2_shiftr by lia.
  assert (7 <= Z.log2 v) by (apply (Z.log2_le_mono 128 v); lia). lia.
Qed.

Lemma varint_length n v : fits (S n) v -> len (varint (S n) v) = sovMessage v.
Proof.
  revert n v. apply (fits_ind (fun n v => len (varint n v) = sovMessage v)).
  - intros n v Hv. rewrite varint_last, sovMessage_log by lia. cbn [length].
    apply (Z.div_unique _ _ 1 (Z.log2 v)); [left|lia].
    pose proof (Z.log2_nonneg v). assert (Z.log2 v <= 6) by (apply (Z.log2_le_mono v 127); lia). lia.
  - intros n v Hv _ IH. rewrite varint_more by done. rewrite sovMessage_log in * by (try apply Z.div_pos; lia).
    rewrite log2_div_128 in IH by done. cbn [length].
    replace (Z.log2 v + 7) with (Z.log2 v - 7 + 7 + 1 * 7) by lia. rewrite Z.div_add by lia. lia.
Qed.

(** Two ways of putting the same pieces together. *)
Ltac app_eq := rewrite <- ?app_assoc; cbn [app]; rewrite <- ?app_assoc; reflexivity.

(** ** Writing at the end of the free part of a buffer *)

Lemma set_byte_app a x c v : set_byte (a ++ x :: c) (len a) v = Done (a ++ v :: c).
Proof.
  unfold set_byte. rewrite length_app. cbn [length].
  rewrite (proj2 (Z.leb_le _ _)), (proj2 (Z.ltb_lt _ _)) by lia. simpl.
  by rewrite Nat2Z.id, insert_app_r_alt, Nat.sub_diag by lia.
Qed.

Lemma copy_to_app a p c s :
  length p = length s -> copy_to (a ++ p ++ c) (len a) s = Done (a ++ s ++ c).
Proof.
  intros Hl. unfold copy_to. rewrite !length_app.
  rewrite (proj2 (Z.leb_le _ _)), (proj2 (Z.leb_le _ _)) by lia. simpl.
  rewrite Nat2Z.id, take_app_length, take_ge by lia.
  rewrite drop_app_ge, drop_app_ge by lia.
  by replace (length a + length s - length a - length p)%nat with 0%nat by lia.
Qed.

Lemma encode_loop_spec n v : fits (S n) v -> forall a p c,
  length p = length (varint (S n) v) ->
  encode_loop (S n) (a ++ p ++ c) (len a) v = Done (a ++ varint (S n) v ++ c).
Proof.
  revert n v. apply (fits_ind (fun n v => forall a p c, length p = length (varint n v) ->
    encode_loop n (a ++ p ++ c) (len a) v = Done (a ++ varint n v ++ c))).
  - intros n v Hv a p c. rewrite varint_last by lia. simpl.
    destruct (Z.leb_spec 128 v); [lia|]. destruct p as [|x [|]]; try done. intros _. apply set_byte_app.
  - intros n v Hv Hf IH a p c. rewrite varint_more by done. simpl.
    destruct (Z.leb_spec 128 v); [|lia]. destruct p as [|x p]; [done|]. intros [= Hl].
    change ((x :: p) ++ c) with (x :: p ++ c). rewrite set_byte_app. simpl. rewrite continued_byte, Z.shiftr_div_pow2 by done.
    replace (len a + 1) with (len (a ++ [v mod 128 + 128])) by (rewrite length_app; simpl; lia).
    change (2 ^ 7) with 128. specialize (IH (a ++ [v mod 128 + 128]) p c Hl).
    by rewrite <- !app_assoc in IH.
Qed.

Lemma encodeVarintMessage_spec a p c v :
  0 <= v < 2 ^ 64 -> length p = length (varint 10 v) ->
  encodeVarintMessage (a ++ p ++ c) (len a + len p) v = Done (a ++ varint 10 v ++ c, len a).
Proof.
  intros Hv Hl. pose proof (fits_u64 _ Hv) as Hf. unfold encodeVarintMessage.
  rewrite <- (varint_length 9 v Hf), Hl.
  replace (len a + len (varint 10 v) - len (varint 10 v)) with (len a) by lia.
  by rewrite (encode_loop_spec 9 v Hf).
Qed.

Lemma list_split_length {A} n m (p : list A) :
  length p = (n + m)%nat -> exists p1 p2, p = p1 ++ p2 /\ length p1 = n /\ length p2 = m.
Proof.
  intros Hl. exists (take n p), (drop n p). rewrite take_drop, length_take, length_drop.
  split_and!; [done|lia|lia].
Qed.

#[local] Arguments varint : simpl never.
#[local] Arguments encode_loop : simpl never.

(** A field on the wire. *)
Definition field_bytes (tag : Z) (s : bytes) : bytes :=
  match s with [] => [] | _ :: _ => tag :: varint 10 (len s) ++ s end.

Definition small (s : bytes) : Prop := len s < 2 ^ 63.

Lemma small_u64 s : small s -> 0 <= len s < 2 ^ 64.
Proof. unfold small. lia. Qed.

Lemma field_size_bytes tag s : small s -> field_size s = len (field_bytes tag s).
Proof.
  intros Hs. unfold field_size. destruct s as [|x s]; [done|].
  rewrite (proj2 (Z.ltb_lt _ _)) by (cbn [length]; lia). unfold field_bytes.
  rewrite <- (varint_length 9) by (apply fits_u64; by apply small_u64).
  cbn [length]. rewrite length_app. cbn [length]. lia.
Qed.

Lemma put_field_spec tag s a p c :
  small s -> length p = length (field_bytes tag s) ->
  put_field tag s (a ++ p ++ c, len a + len p) = Done (a ++ field_bytes tag s ++ c, len a).
Proof.
  intros Hs. unfold put_field. destruct s as [|y s0] eqn:E.
  { destruct p; [|done]. intros _. simpl. by rewrite Z.add_0_r. }
  rewrite <- E in *. assert (H0 : (0 <? len s) = true) by (by rewrite E).
  assert (Hb : field_bytes tag s = tag :: varint 10 (len s) ++ s) by (by rewrite E).
  rewrite H0, Hb. clear E H0 Hb. cbn [length fst snd]. rewrite length_app. intros Hl.
  destruct p as [|x p]; [done|]. injection Hl as Hl.
  destruct (list_split_length _ _ p Hl) as (p1 & p2 & -> & H1 & H2). cbn [length].
  replace (len a + Z.of_nat (S (length (p1 ++ p2))) - len s) with (len (a ++ x :: p1))
    by (rewrite !length_app; cbn [length]; lia).
  replace (a ++ (x :: p1 ++ p2) ++ c) with ((a ++ x :: p1) ++ p2 ++ c) by app_eq.
  rewrite copy_to_app by done. simpl.
  replace (len (a ++ x :: p1)) with (len (a ++ [x]) + len p1) by (rewrite !length_app; cbn [length]; lia).
  replace ((a ++ x :: p1) ++ s ++ c) with ((a ++ [x]) ++ p1 ++ s ++ c) by app_eq.
  rewrite encodeVarintMessage_spec by (by try apply small_u64). simpl.
  replace (len (a ++ [x]) - 1) with (len a) by (rewrite length_app; cbn [length]; lia).
  replace ((a ++ [x]) ++ varint 10 (len s) ++ s ++ c) with (a ++ x :: varint 10 (len s) ++ s ++ c) by app_eq.
  rewrite set_byte_app. simpl. do 2 f_equal. app_eq.
Qed.

Lemma put_field_zeros tag s k c :
  small s ->
  put_field tag s (replicate (k + length (field_bytes tag s)) 0 ++ c,
                   Z.of_nat (k + length (field_bytes tag s)))
  = Done (replicate k 0 ++ field_bytes tag s ++ c, Z.of_nat k).
Proof.
  intros Hs. pose proof (put_field_spec tag s (replicate k 0)
    (replicate (length (field_bytes tag s)) 0) c Hs (length_replicate _ _)) as H.
  rewrite !length_replicate, app_assoc, <- replicate_add, <- Nat2Z.inj_add in H. exact H.
Qed.

(** A message on the wire. *)
Definition message_bytes (m : GoMessage) : bytes :=
  field_bytes 10 (Channel m) ++ field_bytes 18 (Topic m) ++ field_bytes 26 (Subtopic m)
  ++ field_bytes 34 (Publisher m) ++ field_bytes 42 (Devname m) ++ field_bytes 50 (Protocol m)
  ++ field_bytes 58 (ContentType m) ++ field_bytes 66 (Payload m) ++ XXX_unrecognized m.

Record small_message (m : GoMessage) : Prop := {
  small_Channel : small (Channel m);
  small_Topic : small (Topic m);
  small_Subtopic : small (Subtopic m);
  small_Publisher : small (Publisher m);
  small_Devname : small (Devname m);
  small_Protocol : small (Protocol m);
  small_ContentType : small (ContentType m);
  small_Payload : small (Payload m)
}.

Lemma field_size_ge s : len s <= field_size s.
Proof.
  unfold field_size. destruct (Z.ltb_spec 0 (len s)); [|lia].
  rewrite sovMessage_log by lia.
  assert (0 <= (Z.log2 (len s) + 7) / 7); [|lia]. apply Z.div_pos; [|lia].
  pose proof (Z.log2_nonneg (len s)). lia.
Qed.

Lemma Size_small m : Size m < 2 ^ 63 -> small_message m.
Proof.
  unfold Size. intros Hs.
  pose proof (field_size_ge (Channel m)). pose proof (field_size_ge (Topic m)).
  pose proof (field_size_ge (Subtopic m)). pose proof (field_size_ge (Publisher m)).
  pose proof (field_size_ge (Devname m)). pose proof (field_size_ge (Protocol m)).
  pose proof (field_size_ge (ContentType m)). pose proof (field_size_ge (Payload m)).
  split; unfold small; lia.
Qed.

Lemma Size_bytes m : Size m < 2 ^ 63 -> Size m = len (message_bytes m).
Proof.
  intros [H1 H2 H3 H4 H5 H6 H7 H8]%Size_small. unfold Size, message_bytes.
  rewrite (field_size_bytes 10), (field_size_bytes 18), (field_size_bytes 26), (field_size_bytes 34),
    (field_size_bytes 42), (field_size_bytes 50), (field_size_bytes 58), (field_size_bytes 66) by done.
  rewrite !length_app. lia.
Qed.

Lemma copy_to_zeros k s :
  copy_to (replicate (k + length s) 0) (Z.of_nat k) s = Done (replicate k 0 ++ s).
Proof.
  pose proof (copy_to_app (replicate k 0) (replicate (length s) 0) [] s (length_replicate _ _)) as H.
  by rewrite length_replicate, !app_nil_r, <- replicate_add in H.
Qed.

(** Where the fields begin, from the first to the last. *)
Definition free_before (m : GoMessage) : nat :=
  0 + length (field_bytes 10 (Channel m)) + length (field_bytes 18 (Topic m))
  + length (field_bytes 26 (Subtopic m)) + length (field_bytes 34 (Publisher m))
  + length (field_bytes 42 (Devname m)) + length (field_bytes 50 (Protocol m))
  + length (field_bytes 58 (ContentType m)) + length (field_bytes 66 (Payload m)).

Lemma free_before_length m :
  length (message_bytes m) = (free_before m + length (XXX_unrecognized m))%nat.
Proof. unfold message_bytes, free_before. rewrite !length_app. lia. Qed.

Lemma MarshalToSizedBuffer_zeros m :
  small_message m ->
  MarshalToSizedBuffer m (replicate (length (message_bytes m)) 0)
  = Done (message_bytes m, len (message_bytes m)).
Proof.
  intros [H1 H2 H3 H4 H5 H6 H7 H8]. unfold MarshalToSizedBuffer. rewrite length_replicate.
  assert (Hi : len (message_bytes m) - len (XXX_unrecognized m) = Z.of_nat (free_before m))
    by (rewrite free_before_length; lia).
  rewrite Hi, free_before_length. clear Hi.
  rewrite copy_to_zeros. unfold free_before. cbn [mbind go_bind].
  do 8 (rewrite put_field_zeros by done; cbn [mbind go_bind]).
  cbn [fst snd]. rewrite Z.sub_0_r, length_app, length_replicate.
  reflexivity.
Qed.

Lemma Marshal_bytes m : Size m < 2 ^ 63 -> Marshal m = Done (message_bytes m).
Proof.
  intros Hm. unfold Marshal. rewrite (Size_bytes _ Hm), Nat2Z.id.
  rewrite MarshalToSizedBuffer_zeros by (by apply Size_small). simpl. unfold slice_of.
  rewrite !(proj2 (Z.leb_le _ _)) by lia. simpl. by rewrite Z.sub_0_r, Nat2Z.id, firstn_all.
Qed.

(** ** Reading a number *)

Lemma byte_at_app a b c : byte_at (a ++ b :: c) (len a) = Done b.
Proof.
  unfold byte_at. rewrite (proj2 (Z.leb_le _ _)), Nat2Z.id by lia.
  by rewrite list_lookup_middle.
Qed.

Lemma byte_at_ok d i : 0 <= i < len d -> exists b, byte_at d i = Done b.
Proof.
  intros Hi. unfold byte_at. rewrite (proj2 (Z.leb_le _ _)) by lia.
  destruct (lookup_lt_is_Some_2 d (Z.to_nat i)) as [b ->]; [lia|by exists b].
Qed.

Lemma u64_small z : 0 <= z < 2 ^ 64 -> u64 z = z.
Proof. apply Z.mod_small. Qed.

Lemma i64_small z : - 2 ^ 63 <= z < 2 ^ 63 -> i64 z = z.
Proof. intros Hz. unfold i64. rewrite Z.mod_small; lia. Qed.

Lemma i64_range z : - 2 ^ 63 <= i64 z < 2 ^ 63.
Proof. unfold i64. pose proof (Z.mod_pos_bound (z + 2 ^ 63) (2 ^ 64)). lia. Qed.

Lemma low_digit v : 128 <= v -> (v mod 128 + 128) mod 128 = v mod 128.
Proof.
  intros Hv. replace (v mod 128 + 128) with (v mod 128 + 1 * 128) by lia.
  by rewrite Z.mod_add, Z.mod_mod by lia.
Qed.

Lemma digit_shift v shift :
  0 <= shift -> v mod 128 * 2 ^ shift + v / 128 * 2 ^ (shift + 7) = v * 2 ^ shift.
Proof.
  intros Hs. rewrite Z.pow_add_r by lia. change (2 ^ 7) with 128.
  rewrite (Z.div_mod v 128) at 3 by lia. ring.
Qed.

Lemma varint_loop_spec n v : fits (S n) v -> forall r a c shift acc,
  (S n <= r)%nat -> 0 <= shift < 64 -> 0 <= acc < 2 ^ shift -> acc + v * 2 ^ shift < 2 ^ 64 ->
  varint_loop r (a ++ varint (S n) v ++ c) shift (len a) acc
  = Done (acc + v * 2 ^ shift, len a + len (varint (S n) v)).
Proof.
  revert n v. apply (fits_ind (fun n v => forall r a c shift acc,
    (n <= r)%nat -> 0 <= shift < 64 -> 0 <= acc < 2 ^ shift -> acc + v * 2 ^ shift < 2 ^ 64 ->
    varint_loop r (a ++ varint n v ++ c) shift (len a) acc
    = Done (acc + v * 2 ^ shift, len a + len (varint n v)))).
  - intros n v Hv r a c shift acc Hr Hs Ha Hlt. rewrite varint_last by lia. destruct r as [|r]; [lia|].
    simpl. rewrite length_app. cbn [length app].
    destruct (Z.leb_spec 64 shift); [lia|]. destruct (Z.leb_spec (Z.of_nat (length a + S (length c))) (len a)); [lia|].
    rewrite byte_at_app. simpl. rewrite low_bits, Z.mod_small, lor_shift, u64_small by (lia || nia).
    by destruct (Z.ltb_spec v 128); [|lia].
  - intros n v Hv Hf IH r a c shift acc Hr Hs Ha Hlt. rewrite varint_more by lia. destruct r as [|r]; [lia|].
    simpl. rewrite length_app. cbn [length app].
    destruct (Z.leb_spec 64 shift); [lia|].
    destruct (Z.leb_spec (Z.of_nat (length a + S (length (varint n (v / 128) ++ c)))) (len a)); [lia|].
    rewrite byte_at_app. simpl. rewrite low_bits, low_digit by done.
    pose proof (Z.mod_pos_bound v 128 ltac:(lia)) as Hm. pose proof (digit_shift v shift (proj1 Hs)) as Hd.
    assert (Hq : 1 <= v / 128) by (apply Z.div_le_lower_bound; lia).
    assert (Hp : 0 < 2 ^ shift) by (apply Z.pow_pos_nonneg; lia).
    assert (Hp7 : 2 ^ (shift + 7) = 128 * 2 ^ shift) by (rewrite Z.pow_add_r by lia; lia).
    assert (Hs7 : shift + 7 < 64).
    { apply (Z.pow_lt_mono_r_iff 2); [lia..|]. nia. }
    rewrite lor_shift, u64_small by (lia || nia).
    destruct (Z.ltb_spec (v mod 128 + 128) 128); [lia|].
    specialize (IH r (a ++ [v mod 128 + 128]) c (shift + 7) (acc + v mod 128 * 2 ^ shift)).
    rewrite <- app_assoc, length_app in IH. cbn [length app] in IH.
    replace (len a + 1) with (Z.of_nat (length a + 1)) by lia. rewrite IH; [|lia|lia|nia|lia].
    f_equal. f_equal; lia.
Qed.

Lemma read_varint_spec a c v :
  0 <= v < 2 ^ 64 ->
  read_varint (a ++ varint 10 v ++ c) (len a) = Done (v, len a + len (varint 10 v)).
Proof.
  intros Hv. unfold read_varint. rewrite (varint_loop_spec 9) by (try apply fits_u64; lia).
  do 2 f_equal. lia.
Qed.

#[local] Arguments varint_loop : simpl never.
#[local] Arguments skip_varint : simpl never.
Lemma slice_of_app a s c : slice_of (a ++ s ++ c) (len a) (len a + len s) = Done s.
Proof.
  unfold slice_of. rewrite !length_app, !(proj2 (Z.leb_le _ _)) by lia. simpl.
  rewrite Nat2Z.id, drop_app_length. replace (Z.to_nat _) with (length s) by lia. by rewrite take_app_length.
Qed.

Lemma read_bytes_spec a s c :
  len (a ++ varint 10 (len s) ++ s ++ c) < 2 ^ 63 ->
  read_bytes (a ++ varint 10 (len s) ++ s ++ c) (len a)
  = Done (s, len a + len (varint 10 (len s)) + len s).
Proof.
  rewrite !length_app. intros Hl. unfold read_bytes. rewrite read_varint_spec by lia. simpl.
  rewrite !length_app, i64_small, i64_small by lia.
  destruct (Z.ltb_spec (len s) 0); [lia|]. destruct (Z.ltb_spec (len a + len (varint 10 (len s)) + len s) 0); [lia|].
  destruct (Z.ltb_spec (Z.of_nat (length a + (length (varint 10 (len s)) + (length s + length c))))
    (len a + len (varint 10 (len s)) + len s)); [lia|].
  rewrite app_assoc. replace (len a + len (varint 10 (len s))) with (len (a ++ varint 10 (len s)))
    by (rewrite length_app; lia).
  by rewrite slice_of_app.
Qed.

(** ** Reading a message back *)

Definition tag_of (n : Z) : Z := 8 * n + 2.

Lemma unmarshal_field_spec a n s c m :
  1 <= n <= 8 -> s <> [] -> len (a ++ field_bytes (tag_of n) s ++ c) < 2 ^ 63 ->
  unmarshal_field (a ++ field_bytes (tag_of n) s ++ c) (len a) m
  = Done (set_field n s m, len a + len (field_bytes (tag_of n) s)).
Proof.
  intros Hn Hs Hl.
  assert (Hb : field_bytes (tag_of n) s = [tag_of n] ++ varint 10 (len s) ++ s) by (by destruct s).
  rewrite Hb in *. clear Hb. unfold unmarshal_field, tag_of in *.
  rewrite <- (varint_last 9 (8 * n + 2)) in * by lia. rewrite <- !app_assoc in *.
  rewrite read_varint_spec by lia. cbn [mbind go_bind fst snd].
  rewrite (varint_last 9 (8 * n + 2)) in * by lia. cbn [app length] in *.
  assert (Hw : Z.land (8 * n + 2) 7 = 2).
  { change 7 with (Z.ones 3). rewrite Z.land_ones by lia. replace (8 * n + 2) with (2 + n * 2 ^ 3) by lia.
    by rewrite Z.mod_add by lia. }
  assert (Hf : i32 (Z.shiftr (8 * n + 2) 3) = n).
  { rewrite Z.shiftr_div_pow2 by lia. replace (8 * n + 2) with (2 + n * 2 ^ 3) by lia.
    rewrite Z.div_add by lia. change (2 / 2 ^ 3) with 0. unfold i32. rewrite Z.mod_small; lia. }
  rewrite Hw, Hf. simpl.
  destruct (Z.leb_spec n 0); [lia|]. destruct (Z.leb_spec n 8); [|lia].
  replace (len a + Z.of_nat 1) with (len (a ++ [8 * n + 2])) by (rewrite length_app; simpl; lia).
  replace (a ++ 8 * n + 2 :: varint 10 (len s) ++ s ++ c)
    with ((a ++ [8 * n + 2]) ++ varint 10 (len s) ++ s ++ c) in * by app_eq.
  rewrite read_bytes_spec by done. simpl. do 2 f_equal. rewrite ?length_app. simpl. rewrite ?length_app. lia.
Qed.

(** A message as the list of its fields. *)
Definition wire_fields (m : GoMessage) : list (Z * bytes) :=
  [(1, Channel m); (2, Topic m); (3, Subtopic m); (4, Publisher m); (5, Devname m);
   (6, Protocol m); (7, ContentType m); (8, Payload m)].

Definition fields_bytes (fs : list (Z * bytes)) : bytes :=
  concat ((fun f => field_bytes (tag_of (fst f)) (snd f)) <$> fs).

Definition merge_field (m : GoMessage) (f : Z * bytes) : GoMessage :=
  match snd f with [] => m | _ :: _ => set_field (fst f) (snd f) m end.

Lemma unmarshal_fields fs : Forall (fun f => 1 <= fst f <= 8) fs -> forall r a m,
  (length (fields_bytes fs) < r)%nat -> len (a ++ fields_bytes fs) < 2 ^ 63 ->
  unmarshal_loop r (a ++ fields_bytes fs) (len a) m = Done (foldl merge_field m fs).
Proof.
  induction 1 as [|[n s] fs Hn _ IH]; intros r a m Hr Hl.
  - destruct r as [|r]; [cbn in Hr; lia|]. unfold fields_bytes. simpl. rewrite app_nil_r.
    by rewrite Z.ltb_irrefl.
  - change (fields_bytes ((n, s) :: fs)) with (field_bytes (tag_of n) s ++ fields_bytes fs) in *.
    destruct (decide (s = [])) as [->|Hs]; [by apply IH|].
    assert (Hm : foldl merge_field m ((n, s) :: fs) = foldl merge_field (set_field n s m) fs) by (by destruct s).
    rewrite Hm. clear Hm.
    assert (Hb : (0 < length (field_bytes (tag_of n) s))%nat) by (destruct s; simpl; [done|lia]).
    destruct r as [|r]; [lia|]. rewrite length_app in Hr. simpl.
    destruct (Z.ltb_spec (len a) (len (a ++ field_bytes (tag_of n) s ++ fields_bytes fs))) as [_|Hge];
      [|rewrite !length_app in Hge; lia].
    rewrite unmarshal_field_spec by done. simpl. rewrite app_assoc in *.
    replace (len a + len (field_bytes (tag_of n) s)) with (len (a ++ field_bytes (tag_of n) s))
      by (rewrite length_app; lia).
    apply IH; [lia|done].
Qed.

Lemma merge_wire_fields m :
  XXX_unrecognized m = [] -> foldl merge_field empty_message (wire_fields m) = m.
Proof.
  destruct m as [ch to st pu dn pr ct pl un]. simpl. intros ->. unfold merge_field. simpl.
  destruct ch; simpl; destruct to; simpl; destruct st; simpl; destruct pu; simpl;
  destruct dn; simpl; destruct pr; simpl; destruct ct; simpl; destruct pl; reflexivity.
Qed.

(** ** No index out of range, no endless loop *)

(** The call does not panic, and what it returns satisfies [P]. *)
Definition safe {A} (P : A -> Prop) (r : go A) : Prop :=
  match r with Done a => P a | Failed _ => True | Panic => False end.

Lemma safe_bind {A B} (P : A -> Prop) (Q : B -> Prop) (m : go A) (k : A -> go B) :
  safe P m -> (forall a, P a -> safe Q (k a)) -> safe Q (m ≫= k).
Proof. destruct m; simpl; auto. Qed.

Lemma safe_weaken {A} (P Q : A -> Prop) (m : go A) :
  safe P m -> (forall a, P a -> Q a) -> safe Q m.
Proof. destruct m; simpl; auto. Qed.

Lemma byte_at_safe d i : 0 <= i < len d -> safe (fun _ => True) (byte_at d i).
Proof. by intros [b ->]%byte_at_ok. Qed.

Lemma slice_of_safe d a b : 0 <= a <= b -> b <= len d -> safe (fun _ => True) (slice_of d a b).
Proof. intros Ha Hb. unfold slice_of. by rewrite !(proj2 (Z.leb_le _ _)) by lia. Qed.

Lemma u64_range z : 0 <= u64 z < 2 ^ 64.
Proof. apply Z.mod_pos_bound. lia. Qed.

(** An addition that overflows is negative. *)
Lemma i64_add i n : 0 <= i < 2 ^ 63 -> 0 <= n < 2 ^ 63 -> i64 (i + n) < 0 \/ (i64 (i + n) = i + n /\ i + n < 2 ^ 63).
Proof.
  intros Hi Hn. destruct (Z.lt_ge_cases (i + n) (2 ^ 63)); [right; split; [apply i64_small|]; lia|left].
  unfold i64. replace (i + n + 2 ^ 63) with (i + n - 2 ^ 63 + 1 * 2 ^ 64) by lia.
  rewrite Z.mod_add, Z.mod_small by lia. lia.
Qed.

Section safety.
Context (d : bytes).

(** A number that was read: the index moved on within the data. *)
Definition read_from (i : Z) (r : Z * Z) : Prop := 0 <= fst r < 2 ^ 64 /\ i < snd r <= len d.

Lemma varint_loop_safe r shift i acc :
  0 <= i -> 71 <= shift + 7 * Z.of_nat r -> (1 <= r)%nat -> safe (read_from i) (varint_loop r d shift i acc).
Proof.
  revert shift i acc. induction r as [|r IH]; intros shift i acc Hi Hr H1; [lia|]. simpl.
  change (varint_loop (S r) d shift i acc) with
    (if 64 <=? shift then Failed ErrIntOverflowMessage
     else if len d <=? i then Failed ErrUnexpectedEOF
     else b ← byte_at d i;
       if b <? 128 then Done (u64 (Z.lor acc (Z.shiftl (Z.land b 127) shift)), i + 1)
       else varint_loop r d (shift + 7) (i + 1) (u64 (Z.lor acc (Z.shiftl (Z.land b 127) shift)))).
  destruct (Z.leb_spec 64 shift); [done|]. destruct (Z.leb_spec (len d) i); [done|].
  eapply safe_bind; [by apply byte_at_safe|]. intros b _. destruct (b <? 128).
  - split; [apply u64_range|simpl; lia].
  - eapply safe_weaken; [apply IH; lia|]. intros [v j] [Hv Hj]. split; [done|simpl in *; lia].
Qed.

Lemma read_varint_safe i : 0 <= i -> safe (read_from i) (read_varint d i).
Proof. intros Hi. by apply varint_loop_safe; [|simpl; lia|lia]. Qed.

Lemma skip_varint_safe r shift i :
  0 <= i -> 71 <= shift + 7 * Z.of_nat r -> (1 <= r)%nat ->
  safe (fun j => i < j <= len d) (skip_varint r d shift i).
Proof.
  revert shift i. induction r as [|r IH]; intros shift i Hi Hr H1; [lia|].
  change (skip_varint (S r) d shift i) with
    (if 64 <=? shift then Failed ErrIntOverflowMessage
     else if len d <=? i then Failed ErrUnexpectedEOF
     else b ← byte_at d i;
       if b <? 128 then Done (i + 1) else skip_varint r d (shift + 7) (i + 1)).
  destruct (Z.leb_spec 64 shift); [done|]. destruct (Z.leb_spec (len d) i); [done|].
  eapply safe_bind; [by apply byte_at_safe|]. intros b _. destruct (b <? 128); [simpl; lia|].
  eapply safe_weaken; [apply IH; lia|]. simpl. lia.
Qed.

Context (Hd : len d < 2 ^ 63).

Lemma skip_value_safe wireType i depth :
  0 <= i <= len d ->
  safe (fun r => fst r < 0 \/ i <= fst r < 2 ^ 63) (skip_value d wireType i depth).
Proof.
  intros Hi. unfold skip_value. destruct wireType as [|[[|[]|]|[[]|[]|]|]|]; simpl; try done.
  - eapply safe_bind; [apply skip_varint_safe; simpl; lia|]. simpl. lia.
  - pose proof (i64_add i 4 ltac:(lia) ltac:(lia)). lia.
  - right. lia.
  - destruct (depth =? 0); [done|right; simpl; lia].
  - eapply safe_bind; [apply read_varint_safe; lia|]. intros [v j] [Hv Hj]. simpl in *.
    pose proof (i64_range v). destruct (Z.ltb_spec (i64 v) 0); [done|]. simpl.
    pose proof (i64_add j (i64 v) ltac:(lia) ltac:(lia)). lia.
  - pose proof (i64_add i 8 ltac:(lia) ltac:(lia)). lia.
Qed.

Lemma skip_loop_safe r i depth :
  0 <= i -> len d - i < Z.of_nat r -> (1 <= r)%nat -> safe (fun j => i < j < 2 ^ 63) (skip_loop r d i depth).
Proof.
  revert i depth. induction r as [|r IH]; intros i depth Hi Hr H1; [lia|]. simpl.
  destruct (Z.ltb_spec i (len d)); [|done].
  eapply safe_bind; [by apply read_varint_safe|]. intros [v j] [_ Hj]. simpl in *.
  eapply safe_bind; [apply skip_value_safe; lia|]. intros [k dp] Hk. simpl in *.
  destruct (Z.ltb_spec k 0); [done|]. destruct (dp =? 0); [simpl; lia|].
  eapply safe_weaken; [apply IH; lia|]. simpl. lia.
Qed.

Lemma read_bytes_safe i :
  0 <= i -> safe (fun r => i < snd r <= len d) (read_bytes d i).
Proof.
  intros Hi. unfold read_bytes. eapply safe_bind; [by apply read_varint_safe|]. intros [v j] [_ Hj].
  simpl in *. pose proof (i64_range v). destruct (Z.ltb_spec (i64 v) 0); [done|].
  pose proof (i64_add j (i64 v) ltac:(lia) ltac:(lia)).
  destruct (Z.ltb_spec (i64 (j + i64 v)) 0); [done|].
  destruct (Z.ltb_spec (len d) (i64 (j + i64 v))); [done|].
  eapply safe_bind; [apply slice_of_safe; lia|]. intros s _. simpl. lia.
Qed.

End safety.

Lemma skipMessage_safe d : len d < 2 ^ 63 -> safe (fun j => 0 < j < 2 ^ 63) (skipMessage d).
Proof. intros Hd. apply skip_loop_safe; lia. Qed.

Lemma keep_unknown_safe d i m :
  len d < 2 ^ 63 -> 0 <= i <= len d -> safe (fun r => i < snd r <= len d) (keep_unknown d i m).
Proof.
  intros Hd Hi. unfold keep_unknown.
  assert (Hs : safe (fun s => len s < 2 ^ 63) (slice_of d i (len d))).
  { unfold slice_of. rewrite !(proj2 (Z.leb_le _ _)) by lia. simpl. rewrite length_take, length_drop. lia. }
  eapply safe_bind; [exact Hs|]. intros sub Hsub. simpl in Hsub.
  eapply safe_bind; [by apply skipMessage_safe|]. intros k Hk. simpl in Hk.
  pose proof (i64_add i k ltac:(lia) ltac:(lia)).
  destruct (Z.ltb_spec k 0); [done|]. destruct (Z.ltb_spec (i64 (i + k)) 0); [done|].
  destruct (Z.ltb_spec (len d) (i64 (i + k))); [done|].
  eapply safe_bind; [apply slice_of_safe; lia|]. intros u _. simpl. lia.
Qed.

Lemma unmarshal_field_safe d i m :
  len d < 2 ^ 63 -> 0 <= i < len d -> safe (fun r => i < snd r <= len d) (unmarshal_field d i m).
Proof.
  intros Hd Hi. unfold unmarshal_field. eapply safe_bind; [apply read_varint_safe; lia|].
  intros [v j] [_ Hj]. simpl in *. destruct (Z.land v 7 =? 4); [done|].
  destruct (i32 (Z.shiftr v 3) <=? 0); [done|]. destruct (i32 (Z.shiftr v 3) <=? 8).
  - destruct (negb _); [done|]. eapply safe_bind; [apply read_bytes_safe; lia|]. intros [s k]. simpl. lia.
  - apply keep_unknown_safe; lia.
Qed.

Lemma unmarshal_loop_safe d r : len d < 2 ^ 63 -> forall i m,
  0 <= i <= len d -> len d - i < Z.of_nat r -> safe (fun _ => True) (unmarshal_loop r d i m).
Proof.
  intros Hd. induction r as [|r IH]; intros i m Hi Hr; [lia|]. simpl.
  destruct (Z.ltb_spec i (len d)).
  - eapply safe_bind; [apply unmarshal_field_safe; lia|]. intros [m' j] Hj. simpl in *. apply IH; lia.
  - by destruct (len d <? i).
Qed.

Lemma Unmarshal_bytes m :
  Size m < 2 ^ 63 -> XXX_unrecognized m = [] -> Unmarshal (message_bytes m) empty_message = Done m.
Proof.
  intros Hs Hu.
  assert (Hb : message_bytes m = fields_bytes (wire_fields m)).
  { unfold message_bytes, fields_bytes. by rewrite Hu. }
  rewrite Size_bytes, Hb in Hs by done. rewrite Hb. unfold Unmarshal.
  rewrite (unmarshal_fields (wire_fields m)) with (a := []) by
    (try done; try lia; unfold wire_fields; repeat constructor; simpl; lia).
  by rewrite merge_wire_fields.
Qed.

(** ** Properties *)

(** C39: a message written by [Marshal] fills exactly the [Size] bytes computed for
    it, with no write out of range, and [Unmarshal] reads the same message back
    from them. *)
Theorem unmarshal_marshal m :
  Size m < 2 ^ 63 -> XXX_unrecognized m = [] ->
  exists dAtA, Marshal m = Done dAtA /\ len dAtA = Size m /\ Unmarshal dAtA empty_message = Done m.
Proof.
  intros Hs Hu. exists (message_bytes m). rewrite Size_bytes by done.
  split_and!; [by apply Marshal_bytes|done|by apply Unmarshal_bytes].
Qed.

(** C40: whatever bytes arrive, [Unmarshal] ends and never panics: no index or slice
    is out of range, in spite of lengths that overflow. *)
Theorem unmarshal_no_panic dAtA m : len dAtA < 2 ^ 63 -> Unmarshal dAtA m <> Panic.
Proof.
  intros Hd. pose proof (unmarshal_loop_safe dAtA (S (length dAtA)) Hd 0 m ltac:(lia) ltac:(lia)) as H.
  unfold Unmarshal. by destruct (unmarshal_loop _ _ _ _).
Qed.

Definition sample_message : GoMessage :=
  Build_GoMessage (js "c1") [] (js "temp") (js "a1") [] (js "http") (js "application/senml+json")
    (replicate 200 123) [].

Lemma unmarshal_marshal_witness :
  exists dAtA, Marshal sample_message = Done dAtA /\ Unmarshal dAtA empty_message = Done sample_message.
Proof.
  destruct (unmarshal_marshal sample_message) as (dAtA & H1 & _ & H2); [vm_compute; reflexivity|reflexivity|].
  exists dAtA. split; [exact H1|exact H2].
Defined.

(** A length of nine bytes that overflows the index. *)
Definition overflowing : bytes := [10; 255; 255; 255; 255; 255; 255; 255; 255; 127; 65].

Lemma unmarshal_no_panic_witness :
  Unmarshal overflowing empty_message = Failed ErrInvalidLengthMessage /\
  Unmarshal overflowing empty_message <> Panic.
Proof.
  split; [vm_compute; reflexivity|]. apply (unmarshal_no_panic overflowing empty_message). vm_compute. reflexivity.
Defined.
