(* ===== verification/Subtopics.v ===== *)
(** * Subtopics in the Go adapters

    The subtopic parsers of the HTTP and WebSocket adapters
    ([http/api/transport.go], [ws/api/transport.go]) and of the CoAP adapter
    ([coap/api/transport.go]), with the subjects they publish on, and their
    agreement with the MQTT adapter.  Go strings are byte strings; the text of an
    MQTT topic is compared with its UTF-8 encoding. *)

From S2P Require Import Prelude JsString JsRegExp Topics Messages Utf8 Adapter AdapterSystem.

Local Open Scope Z_scope.

(** ** The standard library *)

Definition PERCENT : Z := 37.
Definition SPACE : Z := 32.

Definition ishex (c : Z) : bool :=
  (48 <=? c) && (c <=? 57) || (97 <=? c) && (c <=? 102) || (65 <=? c) && (c <=? 70).
Definition unhex (c : Z) : Z :=
  if (48 <=? c) && (c <=? 57) then c - 48
  else if (97 <=? c) && (c <=? 102) then c - 97 + 10 else c - 65 + 10.

(** [url.QueryUnescape]; [None] is an [EscapeError]. *)
Fixpoint QueryUnescape (s : list Z) : option (list Z) :=
  match s with
  | [] => Some []
  | c :: s' =>
      if c =? PERCENT then
        match s' with
        | a :: b :: s'' =>
            if ishex a && ishex b then cons (unhex a * 16 + unhex b) <$> QueryUnescape s'' else None
        | _ => None
        end
      else cons (if c =? PLUS then SPACE else c) <$> QueryUnescape s'
  end.

(** ** The parsers *)

(** The guard of the loops. *)
Definition malformed_elem (elem : list Z) : bool :=
  (1 <? length elem)%nat && (includes elem STAR || includes elem GT).

(** The loop over the elements: [None] is [errMalformedSubtopic]. *)
Fixpoint filter_elems (elems : list (list Z)) : option (list (list Z)) :=
  match elems with
  | [] => Some []
  | elem :: elems =>
      match elem with
      | [] => filter_elems elems
      | _ :: _ => if malformed_elem elem then None else cons elem <$> filter_elems elems
      end
  end.

Definition format_subtopic (subtopic : list Z) : option (list Z) :=
  join DOT <$> filter_elems (split DOT (replace_all SLASH DOT subtopic)).

(** [parseSubtopic] of the HTTP and WebSocket adapters. *)
Definition parseSubtopic (subtopic : list Z) : option (list Z) :=
  match subtopic with
  | [] => Some []
  | _ :: _ =>
      match QueryUnescape subtopic with
      | None => None
      | Some s => format_subtopic s
      end
  end.

(** [subtopic] of the CoAP adapter: the path from its third slash on. *)
Fixpoint path_from (pos : nat) (path : list Z) : list Z :=
  match path with
  | [] => []
  | c :: rest =>
      let pos := if c =? SLASH then S pos else pos in
      if (pos =? 3)%nat then path else path_from pos rest
  end.
Definition coap_subtopic (path : list Z) : list Z := path_from 0 path.

Definition fmtSubtopic (path : list Z) : option (list Z) :=
  match coap_subtopic path with
  | [] => Some []
  | s => format_subtopic s
  end.

(** The subject a message is published on. *)
Definition fmtSubject (chanID subtopic : list Z) : list Z :=
  let subject := js "channel" ++ DOT :: chanID in
  match subtopic with [] => subject | _ :: _ => subject ++ DOT :: subtopic end.

(** ** Encoded elements *)

(** A wildcard stands alone in an encoded element exactly when it does in the
    text. *)
Lemma wildcard_utf8 x e :
  x < 128 -> includes (utf8 e) x = includes e x /\
  (includes e x = true -> (1 <? length (utf8 e))%nat = (1 <? length e)%nat).
Proof.
  intros Hx. destruct (includes e x) eqn:E.
  - apply includes_spec, list_elem_of_split in E as (a & b & ->). rewrite utf8_app_ascii by done.
    split; [apply includes_spec; set_solver|]. intros _. rewrite !length_app. cbn [length].
    assert (Ha : length (utf8 a) = 0%nat <-> length a = 0%nat) by (rewrite !length_zero_iff_nil; apply utf8_nil).
    assert (Hb : length (utf8 b) = 0%nat <-> length b = 0%nat) by (rewrite !length_zero_iff_nil; apply utf8_nil).
    destruct (Nat.ltb_spec 1 (length (utf8 a) + S (length (utf8 b)))),
      (Nat.ltb_spec 1 (length a + S (length b))); lia.
  - split; [|done]. apply includes_false. apply includes_false in E. intros H. by apply E, elem_of_utf8.
Qed.

Lemma malformed_utf8 e : malformed_elem (utf8 e) = invalid_element e.
Proof.
  unfold malformed_elem, invalid_element.
  destruct (wildcard_utf8 STAR e) as [-> H1]; [done|]. destruct (wildcard_utf8 GT e) as [-> H2]; [done|].
  destruct (includes e STAR); [by rewrite H1|]. destruct (includes e GT); [by rewrite H2|].
  by rewrite !andb_false_r.
Qed.

Lemma nonempty_parts_cons p ps :
  nonempty_parts (p :: ps) = match p with [] => nonempty_parts ps | _ :: _ => p :: nonempty_parts ps end.
Proof. by destruct p. Qed.

Lemma filter_elems_spec es :
  filter_elems es = if existsb malformed_elem (nonempty_parts es) then None else Some (nonempty_parts es).
Proof.
  induction es as [|[|c e] es IH]; [done|exact IH|]. simpl filter_elems.
  rewrite nonempty_parts_cons. simpl existsb.
  destruct (malformed_elem (c :: e)); [done|]. simpl. rewrite IH. by destruct (existsb _ _).
Qed.

(** The elements of a subtopic. *)
Definition elements_of (rest : jsstr) : list jsstr := nonempty_parts (split DOT (replace_all SLASH DOT rest)).

Lemma nonempty_utf8 ps : nonempty_parts (utf8 <$> ps) = utf8 <$> nonempty_parts ps.
Proof.
  induction ps as [|p ps IH]; [done|]. rewrite fmap_cons, !nonempty_parts_cons, IH.
  destruct p as [|c p]; [done|]. destruct (utf8 (c :: p)) eqn:E; [by apply (proj1 (utf8_nil _)) in E|].
  by rewrite fmap_cons, E.
Qed.

Lemma format_subtopic_utf8 rest :
  format_subtopic (utf8 rest) =
  if existsb invalid_element (elements_of rest) then None else Some (utf8 (join DOT (elements_of rest))).
Proof.
  unfold format_subtopic. rewrite utf8_replace_all, utf8_split, filter_elems_spec, nonempty_utf8 by done.
  fold (elements_of rest). rewrite utf8_join by done.
  assert (Hx : existsb malformed_elem (utf8 <$> elements_of rest) = existsb invalid_element (elements_of rest)).
  { induction (elements_of rest) as [|e es IH]; [done|]. csimpl. by rewrite malformed_utf8, IH. }
  rewrite Hx. by destruct (existsb invalid_element (elements_of rest)).
Qed.

Lemma parseSubtopic_utf8 url rest :
  QueryUnescape url = Some (utf8 rest) -> parseSubtopic url = format_subtopic (utf8 rest).
Proof.
  intros Hu. unfold parseSubtopic. destruct url; [|by rewrite Hu]. injection Hu as Hu. symmetry in Hu.
  apply (proj1 (utf8_nil _)) in Hu as ->. reflexivity.
Qed.

(** ** The three kinds of path *)

(** What follows [/messages]. *)
Definition is_rest (rest : jsstr) : Prop := match rest with [] => True | c :: _ => c = SLASH end.

Lemma mqtt_elements id rest :
  SLASH ∉ id -> is_rest rest ->
  subtopic_elements (mqtt_topic id (js "messages") rest) = elements_of rest.
Proof.
  intros Hid Hr. unfold subtopic_elements, topic_parts, mqtt_topic, slice_from, elements_of.
  change (js "channels/" ++ ?x) with (js "channels" ++ SLASH :: x).
  rewrite split_free_app by (by apply js_free). rewrite split_free_app by done.
  destruct rest as [|c r]; [by rewrite app_nil_r|]. simpl in Hr. subst c.
  rewrite split_free_app by (by apply js_free). simpl drop.
  rewrite drop_0, <- (replace_all_join SLASH DOT), join_split by (done || apply split_elems_free).
  change (replace_all SLASH DOT (SLASH :: r)) with ([] ++ DOT :: replace_all SLASH DOT r).
  by rewrite split_app.
Qed.

Lemma path_from_segment pos a b :
  SLASH ∉ a -> (pos < 2)%nat -> path_from pos (a ++ SLASH :: b) = path_from (S pos) b.
Proof.
  intros Ha Hp. induction a as [|c a IH]; simpl.
  - by destruct pos as [|[|]]; [..|lia].
  - destruct (Z.eqb_spec c SLASH) as [->|]; [set_solver|].
    destruct (Nat.eqb_spec pos 3); [lia|]. apply IH. set_solver.
Qed.

Lemma path_from_last a rest : SLASH ∉ a -> is_rest rest -> path_from 2 (a ++ rest) = rest.
Proof.
  intros Ha Hr. induction a as [|c a IH]; simpl.
  - destruct rest as [|d r]; [done|]. simpl in Hr. by subst d.
  - destruct (Z.eqb_spec c SLASH) as [->|]; [set_solver|]. apply IH. set_solver.
Qed.

Lemma coap_subtopic_path id rest :
  SLASH ∉ id -> is_rest rest ->
  coap_subtopic (mqtt_topic id (js "messages") rest) = rest.
Proof.
  intros Hid Hr. unfold coap_subtopic, mqtt_topic.
  change (js "channels/" ++ ?x) with (js "channels" ++ SLASH :: x).
  rewrite path_from_segment by (lia || by apply js_free).
  rewrite path_from_segment by (lia || done). apply path_from_last; [by apply js_free|done].
Qed.

Lemma utf8_topic id rest :
  is_rest rest -> utf8 (mqtt_topic id (js "messages") rest) = mqtt_topic (utf8 id) (js "messages") (utf8 rest).
Proof.
  intros Hr. unfold mqtt_topic. change (js "channels/" ++ ?x) with (js "channels" ++ SLASH :: x).
  rewrite !utf8_app_ascii by done. destruct rest as [|c r]; [done|]. simpl in Hr. subst c.
  by rewrite utf8_app_ascii, utf8_cons_ascii.
Qed.

Lemma coap_subtopic_utf8 id rest :
  SLASH ∉ id -> is_rest rest ->
  coap_subtopic (utf8 (mqtt_topic id (js "messages") rest)) = utf8 rest.
Proof.
  intros Hid Hr. rewrite utf8_topic by done. apply coap_subtopic_path.
  - intros H. by apply Hid, elem_of_utf8.
  - destruct rest as [|c r]; [done|]. simpl in Hr. subst c. by rewrite utf8_cons_ascii.
Qed.

(** ** Properties *)

Lemma fmtSubject_utf8 id es :
  Forall (fun e => e <> []) es ->
  fmtSubject (utf8 id) (utf8 (join DOT es)) = utf8 (channelTopic id es).
Proof.
  intros Hes. unfold fmtSubject, channelTopic, baseTopic.
  assert (Hj : utf8 (join DOT es) = [] <-> es = []).
  { rewrite utf8_nil. destruct Hes as [|e es He _]; [done|]. destruct (decide (es = [])) as [->|Hn].
    - split; [simpl; by intros ->|done].
    - rewrite join_cons by done. split; [by intros [? ?]%app_eq_nil|done]. }
  assert (Hb : utf8 (js "channel." ++ id) = js "channel" ++ DOT :: utf8 id).
  { change (js "channel." ++ id) with (js "channel" ++ DOT :: id). by rewrite utf8_app_ascii. }
  destruct es as [|e es]; [by rewrite Hb|].
  rewrite utf8_app_ascii, Hb by done.
  destruct (utf8 (join DOT (e :: es))) eqn:E; [discriminate (proj1 Hj eq_refl)|done].
Qed.

(** The subject that [authorizePublish] chooses for a topic; [None] when it refuses
    the packet without asking the Things service. *)
Definition mqtt_subject (topic : jsstr) : option jsstr :=
  match channel_of topic with
  | None => None
  | Some ch =>
      let es := subtopic_elements topic in
      if existsb invalid_element es then None else Some (channelTopic ch (snd (split_content_type es)))
  end.

(** It is what the callback in flight will publish on, if access is granted. *)
Lemma authorizePublish_subject {C : MessageCodec} cl pkt cb w :
  match mqtt_subject (p_topic pkt) with
  | Some subject => exists ch mt st ct,
      pending (final (authorizePublish cl pkt cb w)) !! next_rpc w
      = Some (OnAuthorizePublish cl ch mt st ct subject pkt cb)
  | None => exists e,
      pending (final (authorizePublish cl pkt cb w)) = pending w /\
      head (trace (final (authorizePublish cl pkt cb w))) = Some (Out (CbPublish cb (Some e)))
  end.
Proof.
  unfold mqtt_subject, authorizePublish. pose proof (parseTopic_channel (p_topic pkt)) as Hch.
  destruct (parseTopic (p_topic pkt)) as [channel|]; rewrite Hch; [|by eexists].
  cbv beta iota zeta delta [bind get_client]. destruct (existsb _ _); [by eexists|].
  do 4 eexists. cbn [final call pending]. apply lookup_insert_eq.
Qed.

Definition has_control (rest : jsstr) : Prop := exists a r, rest = a ++ js "/control" ++ r.

Lemma channel_of_lines id rest :
  lt_free rest = false -> channel_of (mqtt_topic id (js "messages") rest) = None.
Proof.
  intros Hr. destruct (channel_of _) as [ch|] eqn:E; [|done]. apply channel_of_spec in E as [Hlt _].
  unfold mqtt_topic in Hlt. change (SLASH :: js "messages" ++ rest) with (js "/messages" ++ rest) in Hlt.
  rewrite !lt_free_app, Hr, !andb_false_r in Hlt. done.
Qed.


