(* ===== verification/GoAdapters.v ===== *)
(** * Publishing through HTTP, WebSocket and CoAP

    The path of a message through the Go adapters, from the request to the bytes
    on NATS: [decodeRequest] and [Publish] of the HTTP adapter, [handshake] and
    [broadcast] of the WebSocket adapter, [authorize] and [receive] of the CoAP
    adapter.  What the Things service and the NATS client answer are parameters. *)

From S2P Require Import Prelude JsString JsRegExp Topics GoCodec Subtopics.

Local Open Scope Z_scope.

#[local] Arguments Marshal : simpl never.
#[local] Arguments Unmarshal : simpl never.

(** ** Requests *)

Definition is_word (c : Z) : bool :=
  (48 <=? c) && (c <=? 57) || (65 <=? c) && (c <=? 90) || (97 <=? c) && (c <=? 122)
  || (c =? UNDERSCORE) || (c =? DASH).

(** The longest prefix on which a test holds, and the rest. *)
Fixpoint span (p : Z -> bool) (s : bytes) : bytes * bytes :=
  match s with
  | [] => ([], [])
  | c :: s' => if p c then let '(a, b) := span p s' in (c :: a, b) else ([], s)
  end.

Definition QUESTION : Z := 63.
Definition NEWLINE : Z := 10.

(** What [FindStringSubmatch] of
    [^/channels/([\w\-]+)/messages(/[^?]* )?(\?.* )?$] gives for the second group.
    No part of the expression can give units back to the next one, so the match
    is read off from left to right. *)
Definition channelParts (uri : bytes) : option bytes :=
  match strip_prefix (js "/channels/") uri with
  | None => None
  | Some s =>
      let '(id, s) := span is_word s in
      match id, strip_prefix (js "/messages") s with
      | _ :: _, Some s =>
          let '(sub, q) :=
            match s with
            | c :: _ => if c =? SLASH then span (fun c => negb (c =? QUESTION)) s else ([], s)
            | [] => ([], s)
            end in
          match q with
          | [] => Some sub
          | c :: q => if (c =? QUESTION) && negb (includes q NEWLINE) then Some sub else None
          end
      | _, _ => None
      end
  end.

(** The request fields the handlers read: [id] is the route value of bone, the
    queries are its [GetQuery]; [body] is [None] when it cannot be read. *)
Record http_request := {
  RequestURI : bytes;
  route_id : bytes;
  Authorization : bytes;
  Content_Type : bytes;
  query_authorization : list bytes;
  query_content_type : list bytes;
  body : option bytes
}.

(** Path and query options are joined as the CoAP library does. *)
Record coap_message := {
  IsConfirmable : bool;
  path_string : bytes;
  URIQuery : option bytes;
  ContentFormat : option Z;
  coap_payload : bytes
}.

(** ** The services they call *)

(** An error of a gRPC call: with a status (is it [PermissionDenied]?), or any
    other. *)
Inductive call_error := StatusError (denied : bool) | PlainError.

Section Adapters.
Variable CanAccessByKey : bytes -> bytes -> bytes + call_error.   (* token, channel *)
Variable broker_publish : bytes -> bytes -> bool.                 (* subject, data *)

(** What is published on NATS, as subject and data. *)
Definition publication : Type := bytes * bytes.

(** [Publish] of the three [nats] packages; [false] is an error. *)
Definition nats_publish (msg : GoMessage) : bool * list publication :=
  match Marshal msg with
  | Done data =>
      let subject := fmtSubject (Channel msg) (Subtopic msg) in
      if broker_publish subject data then (true, [(subject, data)]) else (false, [])
  | _ => (false, [])
  end.

Definition message (protocol channel subtopic publisher contentType payload : bytes) : GoMessage :=
  Build_GoMessage channel [] subtopic publisher [] protocol contentType payload [].

(** ** HTTP *)

Inductive http_error :=
| ErrMalformedData
| ErrMalformedSubtopic
| ErrCall (e : call_error)
| ErrPublish.

Definition decodeRequest (r : http_request) : (bytes * GoMessage) + http_error :=
  match channelParts (RequestURI r) with
  | None => inr ErrMalformedData
  | Some sub =>
      match parseSubtopic sub with
      | None => inr ErrMalformedSubtopic
      | Some subtopic =>
          match body r with
          | None => inr ErrMalformedData
          | Some payload =>
              inl (Authorization r,
                   message (js "http") (route_id r) subtopic [] (Content_Type r) payload)
          end
      end
  end.

(** [adapterService.Publish]. *)
Definition http_service_publish (token : bytes) (msg : GoMessage) : option http_error * list publication :=
  match CanAccessByKey token (Channel msg) with
  | inr e => (Some (ErrCall e), [])
  | inl thid =>
      let '(ok, out) := nats_publish (set_field 4 thid msg) in
      (if ok then None else Some ErrPublish, out)
  end.

Definition http_encodeError (e : http_error) : Z :=
  match e with
  | ErrMalformedData | ErrMalformedSubtopic => 400
  | ErrCall (StatusError true) => 403
  | ErrCall (StatusError false) => 503
  | ErrCall PlainError | ErrPublish => 500
  end.

(** A POST: the status of the response and what was published. *)
Definition http_post (r : http_request) : Z * list publication :=
  match decodeRequest r with
  | inr e => (http_encodeError e, [])
  | inl (token, msg) =>
      match http_service_publish token msg with
      | (Some e, out) => (http_encodeError e, out)
      | (None, out) => (202, out)
      end
  end.

(** ** WebSocket *)

Record subscription := { pubID : bytes; chanID : bytes; sub_subtopic : bytes }.

Definition first_value (v : bytes) (q : list bytes) : option bytes :=
  match v with
  | [] => match q with [] => None | k :: _ => Some k end
  | _ :: _ => Some v
  end.

(** [authorize]: [true] is [ErrUnauthorizedAccess]. *)
Definition ws_authorize (r : http_request) : (bytes * bytes) + bool :=
  match first_value (Authorization r) (query_authorization r) with
  | None => inr true
  | Some authKey =>
      match CanAccessByKey authKey (route_id r) with
      | inl id => inl (id, route_id r)
      | inr (StatusError true) => inr true
      | inr _ => inr false
      end
  end.

(** [handshake] up to the upgrade: a status, or the subscription. *)
Definition handshake (r : http_request) : subscription + Z :=
  match ws_authorize r with
  | inr true => inr 403
  | inr false => inr 503
  | inl (pub, ch) =>
      match channelParts (RequestURI r) with
      | None => inr 400
      | Some sub =>
          match parseSubtopic sub with
          | None => inr 400
          | Some st => inl {| pubID := pub; chanID := ch; sub_subtopic := st |}
          end
      end
  end.

(** The subject of [Subscribe]. *)
Definition ws_subject (s : subscription) : bytes := fmtSubject (chanID s) (sub_subtopic s).

Definition ws_content_type (r : http_request) : bytes :=
  default [] (first_value (Content_Type r) (query_content_type r)).

(** A frame read by [broadcast]. *)
Definition broadcast (s : subscription) (contentType payload : bytes) : bool * list publication :=
  nats_publish (message (js "ws") (chanID s) (sub_subtopic s) (pubID s) contentType payload).

(** ** CoAP *)

Inductive coap_code :=
| Changed | Content | BadRequest | NotFound | Forbidden | ServiceUnavailable | InternalServerError.

(** [id]. *)
Definition coap_id (path : bytes) : bytes :=
  match split SLASH path with
  | _ :: v :: _ => v
  | _ => []
  end.

(** [url.ParseQuery] of Go 1.13: pairs are separated by ampersands or
    semicolons. *)
Definition AMPERSAND : Z := 38.
Definition SEMICOLON : Z := 59.

Definition query_pair (p : bytes) : option (bytes * bytes) :=
  let '(k, v) := span (fun c => negb (c =? EQUALS)) p in
  match QueryUnescape k, QueryUnescape (drop 1 v) with
  | Some k, Some v => Some (k, v)
  | _, _ => None
  end.

Definition ParseQuery (q : bytes) : option (list (bytes * bytes)) :=
  mapM query_pair (nonempty_parts (split AMPERSAND (replace_all SEMICOLON AMPERSAND q))).

Definition query_values (key : bytes) (q : list (bytes * bytes)) : list bytes :=
  snd <$> filter (fun p => fst p = key) q.

(** [authorize]: the code it leaves in the response, and the publisher unless it
    returns an error. *)
Definition coap_authorize (msg : coap_message) (cid : bytes) (code : coap_code) :
    coap_code * option bytes :=
  match URIQuery msg with
  | None => (BadRequest, None)
  | Some queryStr =>
      match ParseQuery queryStr with
      | None => (BadRequest, None)
      | Some params =>
          match query_values (js "authorization") params with
          | [key] =>
              match CanAccessByKey key cid with
              | inl id => (code, Some id)
              | inr (StatusError denied) => (if denied then Forbidden else ServiceUnavailable, None)
              | inr PlainError => (InternalServerError, Some [])
              end
          | _ => (BadRequest, None)
          end
      end
  end.

Definition coap_contentType (msg : coap_message) : bytes :=
  match ContentFormat msg with
  | Some 110 => js "application/senml+json"
  | Some 112 => js "application/senml+cbor"
  | _ => []
  end.

Definition receive (msg : coap_message) : coap_code * list publication :=
  if IsConfirmable msg && bool_decide (coap_payload msg = []) then (BadRequest, [])
  else
    match coap_id (path_string msg) with
    | [] => (NotFound, [])
    | chanID =>
        match fmtSubtopic (path_string msg) with
        | None => (BadRequest, [])
        | Some subtopic =>
            match coap_authorize msg chanID Changed with
            | (_, None) => (Forbidden, [])
            | (code, Some publisher) =>
                let '(ok, out) := nats_publish
                  (message (js "coap") chanID subtopic publisher (coap_contentType msg) (coap_payload msg)) in
                (if ok then code else InternalServerError, out)
            end
        end
    end.

(** ** What is published *)

Definition on_wire (m : GoMessage) (p : publication) : Prop :=
  Marshal m = Done (snd p) /\ fst p = fmtSubject (Channel m) (Subtopic m) /\
  broker_publish (fst p) (snd p) = true.

Lemma nats_publish_spec m p : p ∈ snd (nats_publish m) <-> on_wire m p.
Proof.
  clear CanAccessByKey.
  unfold nats_publish, on_wire. destruct p as [subject data]. simpl.
  destruct (Marshal m) as [d| |]; [|set_solver..].
  destruct (broker_publish (fmtSubject (Channel m) (Subtopic m)) d) eqn:E; simpl.
  - rewrite list_elem_of_singleton. split; [by intros [= -> ->]|by intros ([= ->] & -> & _)].
  - split; [set_solver|]. by intros ([= ->] & -> & ?); congruence.
Qed.

Lemma nats_publish_ok m : fst (nats_publish m) = true <-> snd (nats_publish m) <> [].
Proof using broker_publish. unfold nats_publish. destruct (Marshal m); [destruct (broker_publish _ _)|..]; done. Qed.

(** A branch in which nothing is published. *)
Ltac refused :=
  right; repeat split; try done;
  let m := fresh in let H := fresh in intros m H; decompose [ex and or] H; congruence.

(** The message a POST asks for, and the access it needs. *)
Definition http_accepts (r : http_request) (m : GoMessage) : Prop :=
  exists sub st payload pub,
    channelParts (RequestURI r) = Some sub /\ parseSubtopic sub = Some st /\
    body r = Some payload /\ CanAccessByKey (Authorization r) (route_id r) = inl pub /\
    m = message (js "http") (route_id r) st pub (Content_Type r) payload.

#[local] Arguments nats_publish : simpl never.
#[local] Arguments parseSubtopic : simpl never.
#[local] Arguments channelParts : simpl never.
#[local] Arguments fmtSubject : simpl never.

Lemma set_publisher protocol ch st ct payload pub :
  set_field 4 pub (message protocol ch st [] ct payload) = message protocol ch st pub ct payload.
Proof. reflexivity. Qed.

Lemma http_post_cases r :
  (exists m, http_accepts r m /\
     http_post r = ((if fst (nats_publish m) then 202 else 500), snd (nats_publish m))) \/
  ((forall m, ~ http_accepts r m) /\ snd (http_post r) = [] /\ fst (http_post r) <> 202).
Proof.
  unfold http_post, decodeRequest, http_accepts.
  destruct (channelParts (RequestURI r)) as [sub|]; [|refused].
  destruct (parseSubtopic sub) as [st|] eqn:Hst; [|refused].
  destruct (body r) as [payload|]; [|refused].
  unfold http_service_publish.
  change (Channel (message (js "http") (route_id r) st [] (Content_Type r) payload)) with (route_id r).
  destruct (CanAccessByKey (Authorization r) (route_id r)) as [pub|[[]|]] eqn:Hacc;
    [left|refused..].
  eexists. split; [by exists sub, st, payload, pub|]. rewrite set_publisher.
  by destruct (nats_publish _) as [[] out].
Qed.

(** The message of a CoAP request. *)
Definition coap_accepts (msg : coap_message) (m : GoMessage) : Prop :=
  exists st q params key pub,
    (IsConfirmable msg = true -> coap_payload msg <> []) /\
    coap_id (path_string msg) <> [] /\ fmtSubtopic (path_string msg) = Some st /\
    URIQuery msg = Some q /\ ParseQuery q = Some params /\
    query_values (js "authorization") params = [key] /\
    (CanAccessByKey key (coap_id (path_string msg)) = inl pub \/
     CanAccessByKey key (coap_id (path_string msg)) = inr PlainError /\ pub = []) /\
    m = message (js "coap") (coap_id (path_string msg)) st pub (coap_contentType msg) (coap_payload msg).

Lemma receive_cases msg :
  (exists m, coap_accepts msg m /\ snd (receive msg) = snd (nats_publish m)) \/
  ((forall m, ~ coap_accepts msg m) /\ snd (receive msg) = []).
Proof.
  unfold receive, coap_accepts.
  destruct (IsConfirmable msg && bool_decide (coap_payload msg = [])) eqn:Hp.
  { apply andb_true_iff in Hp as [Hc Hp%bool_decide_eq_true].
    right. split; [|done]. intros m (?&?&?&?&?&Hn&_). by apply Hn. }
  assert (Hc : IsConfirmable msg = true -> coap_payload msg <> []).
  { intros Hc. rewrite Hc in Hp. by apply bool_decide_eq_false in Hp. }
  clear Hp. destruct (coap_id (path_string msg)) as [|c cs] eqn:Hid; [refused|].
  destruct (fmtSubtopic (path_string msg)) as [st|] eqn:Hst; [|refused].
  unfold coap_authorize. destruct (URIQuery msg) as [q|] eqn:Hq; [|refused].
  destruct (ParseQuery q) as [params|] eqn:Hparams; [|refused].
  destruct (query_values (js "authorization") params) as [|key [|]] eqn:Hkey; [refused| |refused].
  destruct (CanAccessByKey key (c :: cs)) as [pub|[denied|]] eqn:Hacc; [left| |left].
  - eexists. split; [exists st, q, params, key, pub; split_and!; auto|].
    by destruct (nats_publish _) as [ok out].
  - refused.
  - eexists. split; [exists st, q, params, key, []; split_and!; auto|].
    by destruct (nats_publish _) as [ok out].
Qed.

(** A POST publishes a message exactly when its path has the shape of a
    channel with a well-formed subtopic, its body can be read, the Things service
    grants its key the channel, and the broker takes the message; the message
    carries the publisher the service named, on the subject of its channel.  The
    answer is 202 exactly when something was published. *)
Theorem http_published r :
  (forall p, p ∈ snd (http_post r) <-> exists m, http_accepts r m /\ on_wire m p) /\
  (fst (http_post r) = 202 <-> snd (http_post r) <> []).
Proof.
  destruct (http_post_cases r) as [(m & Hm & Hpost)|(Hno & Hout & Hst)].
  - assert (Hu : forall m', http_accepts r m' -> m' = m).
    { destruct Hm as (?&?&?&?&?&?&?&?&?). intros m' (?&?&?&?&?&?&?&?&?). congruence. }
    rewrite Hpost. simpl. split.
    + intros p. rewrite nats_publish_spec. split; [by exists m|]. by intros (m' & ->%Hu & ?).
    + rewrite <- nats_publish_ok. by destruct (fst (nats_publish m)).
  - rewrite Hout. split; [|naive_solver]. intros p. split; [set_solver|].
    intros (m & Hm & _). by destruct (Hno m).
Qed.

(** A CoAP request publishes a message exactly when its path and query are
    well formed, and the Things service grants its key the channel or the call
    failed with an error that has no gRPC status: in that case the message goes
    out all the same, with an empty publisher. *)
Theorem coap_published msg p :
  p ∈ snd (receive msg) <-> exists m, coap_accepts msg m /\ on_wire m p.
Proof.
  destruct (receive_cases msg) as [(m & Hm & Hout)|(Hno & Hout)]; rewrite Hout.
  - rewrite nats_publish_spec. split; [by exists m|]. intros (m' & Hm' & Hp).
    assert (m' = m) as ->; [|done].
    destruct Hm as (?&?&?&?&?&?&?&?&?&?&?&Ha&?), Hm' as (?&?&?&?&?&?&?&?&?&?&?&Ha'&?). simplify_eq.
    f_equal. destruct Ha as [Ha|[Ha ->]], Ha' as [Ha'|[Ha' ->]]; congruence.
  - split; [set_solver|]. intros (m & Hm & _). by destruct (Hno m).
Qed.

End Adapters.

(** ** Runs *)

Definition sample_access (key ch : bytes) : bytes + call_error :=
  if bool_decide (ch = js "c1") && bool_decide (key = js "k1") then inl (js "a1")
  else if bool_decide (key = js "broken") then inr PlainError else inr (StatusError true).

Definition sample_post (uri key : bytes) : http_request := {|
  RequestURI := uri; route_id := js "c1"; Authorization := key; Content_Type := [];
  query_authorization := []; query_content_type := []; body := Some [49; 50] |}.

Definition sample_request (query : bytes) : coap_message := {|
  IsConfirmable := true; path_string := js "channels/c1/messages/temp"; URIQuery := Some query;
  ContentFormat := None; coap_payload := [49; 50] |}.

Abbreviation post uri key := (http_post sample_access (fun _ _ => true) (sample_post (js uri) (js key))).
Abbreviation coap query := (receive sample_access (fun _ _ => true) (sample_request (js query))).

Example post_accepted : fst (post "/channels/c1/messages/a%2Fb?x=1" "k1") = 202 /\
  (fst <$> snd (post "/channels/c1/messages/a%2Fb?x=1" "k1")) = [js "channel.c1.a.b"].
Proof. split; vm_compute; reflexivity. Qed.

Example post_refused : post "/channels/c1/messages/a" "k2" = (403, []) /\
  post "/channels/c1/messages/a.b*" "k1" = (400, []) /\ post "/channels/c1/message" "k1" = (400, []).
Proof. split_and!; vm_compute; reflexivity. Qed.

Example coap_refused : coap "authorization=k2" = (Forbidden, []) /\ coap "authorization=%zz" = (Forbidden, []).
Proof. split; vm_compute; reflexivity. Qed.

(** The key of nobody, and a call that failed without a status. *)
Example coap_fails_open :
  fst (coap "a=1&authorization=broken") = InternalServerError /\
  (fst <$> snd (coap "a=1&authorization=broken")) = [js "channel.c1.temp"].
Proof. split; vm_compute; reflexivity. Qed.
