(* ===== verification/GoPlatform.v ===== *)
(** * The Go adapters and the Things service together

    The call that the HTTP, WebSocket and CoAP adapters make is answered by the
    model of the Things service: what they publish is what the tables allow, as
    for the MQTT adapter in [Platform]. *)

From S2P Require Import Prelude JsString ThingsCache Things ThingsSafety ThingsProperties GoCodec Subtopics GoAdapters.
From stdpp Require Import gmap sets.

Local Open Scope Z_scope.

#[local] Arguments Marshal : simpl never.
#[local] Arguments nats_publish : simpl never.

Section GoPlatform.
Context {S : Type} `{HS : Caches S} {HSok : CachesOk S} {U : Uuid} {HU : UuidOk U}.
Variable auth : text -> option text.
Variable broker_publish : bytes -> bytes -> bool.

(** The call as the gRPC client hands it over: every error has a status. *)
Definition things_access (sv : service S) (key ch : bytes) : bytes + call_error :=
  match snd (canAccessEndpoint ch key sv) with
  | Ok t => inl t
  | Err e => inr (StatusError (bool_decide (e = ErrUnauthorizedAccess)))
  end.

Lemma things_access_status sv key ch : things_access sv key ch <> inr PlainError.
Proof. unfold things_access. by destruct (snd _). Qed.

Lemma things_access_spec issued sv key ch t :
  orderly_reach auth issued sv -> plain_id ch ->
  things_access sv key ch = inl t <-> ch <> [] /\ key <> [] /\ may_access (db sv) ch key t.
Proof.
  intros Hr Hch. pose proof (inv_orderly _ _ _ Hr) as Hi.
  unfold things_access, canAccessEndpoint.
  destruct ch as [|c ch]; [simpl; naive_solver|]. destruct key as [|k key]; [simpl; naive_solver|].
  rewrite <- (can_access_spec _ _ _ _ _ Hi Hch). destruct (snd (CanAccessByKey _ _ _)) as [t'|e]; naive_solver.
Qed.

(** C12: the HTTP, CoAP and WebSocket adapters publish what the tables allow: a POST
    or a CoAP request publishes exactly when it is well formed, the tables hold a
    thing with its key that is connected to its channel, and the broker takes the
    message, which names this thing; and a WebSocket session that is accepted
    publishes in the name of such a thing.  The channel is written as the database
    prints it, and the run of the Things service that led to its state was orderly
    ([ThingsSafety.orderly]): no key was changed, identifiers were written as the
    database prints them, new things had new identifiers, Redis answered when
    access was revoked, and no request came between the two halves of a
    disconnection. *)
Theorem go_published_connected issued sv :
  orderly_reach auth issued sv ->
  (forall r p, plain_id (route_id r) ->
     p ∈ snd (http_post (things_access sv) broker_publish r) <->
     exists sub st payload t,
       channelParts (RequestURI r) = Some sub /\ parseSubtopic sub = Some st /\ body r = Some payload /\
       route_id r <> [] /\ Authorization r <> [] /\ may_access (db sv) (route_id r) (Authorization r) t /\
       on_wire broker_publish (message (js "http") (route_id r) st t (Content_Type r) payload) p) /\
  (forall msg p, plain_id (coap_id (path_string msg)) ->
     p ∈ snd (receive (things_access sv) broker_publish msg) <->
     exists st q params key t,
       (IsConfirmable msg = true -> coap_payload msg <> []) /\ fmtSubtopic (path_string msg) = Some st /\
       URIQuery msg = Some q /\ ParseQuery q = Some params /\ query_values (js "authorization") params = [key] /\
       coap_id (path_string msg) <> [] /\ key <> [] /\ may_access (db sv) (coap_id (path_string msg)) key t /\
       on_wire broker_publish
         (message (js "coap") (coap_id (path_string msg)) st t (coap_contentType msg) (coap_payload msg)) p) /\
  (forall r s, plain_id (route_id r) -> handshake (things_access sv) r = inl s ->
     exists key, first_value (Authorization r) (query_authorization r) = Some key /\
       may_access (db sv) (chanID s) key (pubID s) /\
       forall ct payload p, p ∈ snd (broadcast broker_publish s ct payload) ->
         on_wire broker_publish (message (js "ws") (chanID s) (sub_subtopic s) (pubID s) ct payload) p).
Proof.
  intros Hr. split_and!.
  - intros r p Hch. rewrite (proj1 (http_published (things_access sv) broker_publish r)). unfold http_accepts. split.
    + intros (m & (sub & st & payload & t & H1 & H2 & H3 & Ha & ->) & Hw).
      apply (things_access_spec issued) in Ha as (? & ? & ?); [|done..]. by exists sub, st, payload, t.
    + intros (sub & st & payload & t & H1 & H2 & H3 & H4 & H5 & H6 & Hw). eexists. split; [|exact Hw].
      exists sub, st, payload, t. split_and!; [done..| |done]. by apply (things_access_spec issued).
  - intros msg p Hch. rewrite coap_published. unfold coap_accepts. split.
    + intros (m & (st & q & params & key & t & H1 & H2 & H3 & H4 & H5 & H6 & Ha & ->) & Hw).
      destruct Ha as [Ha|[Ha _]]; [|by apply things_access_status in Ha].
      apply (things_access_spec issued) in Ha as (? & ? & ?); [|done..]. by exists st, q, params, key, t.
    + intros (st & q & params & key & t & H1 & H2 & H3 & H4 & H5 & H6 & H7 & H8 & Hw). eexists. split; [|exact Hw].
      exists st, q, params, key, t. split_and!; [done..| |done]. left. by apply (things_access_spec issued).
  - intros r s Hch. unfold handshake, ws_authorize.
    destruct (first_value _ _) as [key|]; [|done].
    destruct (things_access sv key (route_id r)) as [t|[[]|]] eqn:Ha; [|done..].
    destruct (channelParts _) as [sub|]; [|done]. destruct (parseSubtopic sub) as [st|]; [|done]. intros [= <-].
    apply (things_access_spec issued) in Ha as (_ & _ & Ha); [|done..].
    exists key. split; [done|]. split; [done|]. intros ct payload p. apply nats_publish_spec.
Qed.

End GoPlatform.

#[local] Existing Instance hex_uuid.
#[local] Existing Instance hex_uuid_ok.

Lemma go_published_connected_witness :
  exists data, (js "channel.c1", data) ∈
    snd (http_post (things_access sample_service) (fun _ _ => true) (sample_post (js "/channels/c1/messages") (js "k1"))).
Proof.
  destruct (go_published_connected sample_auth (fun _ _ => true) _ sample_service sample_reach) as (H & _).
  eexists. apply (H (sample_post (js "/channels/c1/messages") (js "k1"))).
  - intros u Hu. vm_compute in Hu. by injection Hu.
  - exists [], [], [49; 50], (js "a1"). split_and!; [vm_compute; reflexivity..|discriminate|discriminate| |].
    + exists (js "c1"), (js "alice"). split_and!; [reflexivity|exact sample_row|exact sample_connection].
    + split_and!; vm_compute; reflexivity.
Defined.
