(* ===== verification/WsSession.v ===== *)
(** * A WebSocket session

    The goroutines of one WebSocket client ([ws/api/transport.go]): [broadcast]
    reads frames and publishes them, [listen] writes what arrives on the
    [Channel] of [ws/adapter.go], the NATS callback sends to it, and another
    goroutine ([ws/nats/publisher.go]) waits to end the subscription.  Sessions
    share nothing, so one is enough.  A goroutine is a program counter; [step]
    runs one goroutine up to its next access to something shared. *)

From S2P Require Import Prelude JsString GoCodec Subtopics GoAdapters.

Local Open Scope Z_scope.

#[local] Arguments Unmarshal : simpl never.
#[local] Arguments Marshal : simpl never.

(** ** State *)

(** What the NATS client answers to a publication; [ConnectionLost] stands for
    [ErrConnectionClosed] and [ErrInvalidConnection]. *)
Inductive broker_answer := Accepted | ConnectionLost | Refused.

#[export] Instance broker_answer_eq_dec : EqDecision broker_answer.
Proof. solve_decision. Defined.

Inductive end_reason := ByClose | ByError | ByConnection.

(** [broadcast]. *)
Inductive reader_pc :=
| RNew
| RRead
| RLock              (* [channel.Close]: at the lock *)
| RSignal            (* at the send to [Closed], with the lock *)
| RCloseMessages
| RCloseClosed
| RConnClose         (* after [ErrFailedConnection] *)
| RSignalOnly        (* at its send to [Closed], without the lock *)
| RDone (why : end_reason).

(** [listen]. *)
Inductive listener_pc := LNew | LRecv | LWrite (m : GoMessage) | LDone.

(** The NATS callback, in [channel.Send]. *)
Inductive sender_pc := SIdle | SLock (m : GoMessage) | SSend (m : GoMessage).

(** The goroutine of [Subscribe]. *)
Inductive unsub_pc := UWait | UEnd | UDone.

Inductive holder := HReader | HSender.

Inductive ws_panic := SendOnClosedMessages | CloseOfClosedMessages | CloseOfClosedClosed.

(** [closed_flag], [messages_closed] and [closed_closed] are the field [closed]
    and the states of the channels [Messages] and [Closed]. *)
Record session := Session {
  reader : reader_pc;
  listener : listener_pc;
  sender : sender_pc;
  unsub : unsub_pc;
  mutex : option holder;
  closed_flag : bool;
  messages_closed : bool;
  closed_closed : bool;
  subscribed : bool;
  conn_open : bool;
  ws_panicked : option ws_panic;
  ws_delivered : list GoMessage;     (* by NATS to the callback; oldest first *)
  ws_accepted : list GoMessage;      (* by [Send] *)
  ws_dropped : list GoMessage;       (* by [Send], once closed *)
  ws_written : list (Z * bytes);     (* handed to the connection: format, payload *)
  ws_published : list publication
}.

(** After the subscription, before the goroutines are started. *)
Definition ws_init : session :=
  Session RNew LNew SIdle UWait None false false false true true None [] [] [] [] [].

Definition set_reader r '(Session _ l s u m f mc cc su co p d a dr w pb) :=
  Session r l s u m f mc cc su co p d a dr w pb.
Definition set_listener l '(Session r _ s u m f mc cc su co p d a dr w pb) :=
  Session r l s u m f mc cc su co p d a dr w pb.
Definition set_sender s '(Session r l _ u m f mc cc su co p d a dr w pb) :=
  Session r l s u m f mc cc su co p d a dr w pb.
Definition set_unsub u '(Session r l s _ m f mc cc su co p d a dr w pb) :=
  Session r l s u m f mc cc su co p d a dr w pb.
Definition set_mutex m '(Session r l s u _ f mc cc su co p d a dr w pb) :=
  Session r l s u m f mc cc su co p d a dr w pb.
Definition set_flag '(Session r l s u m _ mc cc su co p d a dr w pb) :=
  Session r l s u m true mc cc su co p d a dr w pb.
Definition close_messages '(Session r l s u m f _ cc su co p d a dr w pb) :=
  Session r l s u m f true cc su co p d a dr w pb.
Definition close_closed '(Session r l s u m f mc _ su co p d a dr w pb) :=
  Session r l s u m f mc true su co p d a dr w pb.
Definition end_subscription '(Session r l s u m f mc cc _ co p d a dr w pb) :=
  Session r l s u m f mc cc false co p d a dr w pb.
Definition close_conn '(Session r l s u m f mc cc su _ p d a dr w pb) :=
  Session r l s u m f mc cc su false p d a dr w pb.
Definition panic_with q '(Session r l s u m f mc cc su co _ d a dr w pb) :=
  Session r l s u m f mc cc su co (Some q) d a dr w pb.
Definition deliver m0 '(Session r l s u m f mc cc su co p d a dr w pb) :=
  Session r l s u m f mc cc su co p (d ++ [m0]) a dr w pb.
Definition accept m0 '(Session r l s u m f mc cc su co p d a dr w pb) :=
  Session r l s u m f mc cc su co p d (a ++ [m0]) dr w pb.
Definition discard m0 '(Session r l s u m f mc cc su co p d a dr w pb) :=
  Session r l s u m f mc cc su co p d a (dr ++ [m0]) w pb.
Definition write x '(Session r l s u m f mc cc su co p d a dr w pb) :=
  Session r l s u m f mc cc su co p d a dr (w ++ [x]) pb.
Definition publish x '(Session r l s u m f mc cc su co p d a dr w pb) :=
  Session r l s u m f mc cc su co p d a dr w (pb ++ x).

(** [contentTypes], with the default of [listen]: text is 1 and binary is 2. *)
Definition frame_format (contentType : bytes) : Z :=
  if bool_decide (contentType = js "application/senml+cbor") then 2 else 1.

Definition ws_frame (m : GoMessage) : Z * bytes := (frame_format (ContentType m), Payload m).

(** ** Steps *)

Inductive ws_action :=
| Start                          (* [go sub.listen()], [go sub.broadcast()] *)
| ReadFrame (payload : bytes)
| ReadClosed                     (* a [CloseError] *)
| ReadFailed                     (* another error *)
| TakeLock                       (* [Close] *)
| Signal                         (* a send to [Closed] meets its receive *)
| CloseMessagesChan
| CloseClosedChan
| CloseConn
| SeeClosed                      (* the receive on the closed [Closed] *)
| Unsubscribe
| NatsDeliver (subject data : bytes)
| SendLock
| SendMeets                      (* the send to [Messages] meets the receive *)
| SendPanics
| ListenEnds
| WriteFrame.

Section Session.
Variable broker : bytes -> bytes -> broker_answer.       (* subject, data *)
Variable nats_matches : bytes -> bytes -> bool.          (* subscription, subject *)
Variable sub : subscription.
Variable contentType : bytes.

Definition broker_accepts (subject data : bytes) : bool := bool_decide (broker subject data = Accepted).

(** The message of a frame, and whether its publication fails with
    [ErrFailedConnection]. *)
Definition frame_message (payload : bytes) : GoMessage :=
  message (js "ws") (chanID sub) (sub_subtopic sub) (pubID sub) contentType payload.

Definition connection_failed (payload : bytes) : bool :=
  let m := frame_message payload in
  match Marshal m with
  | Done data => bool_decide (broker (fmtSubject (Channel m) (Subtopic m)) data = ConnectionLost)
  | _ => false
  end.

Definition ws_step (s : session) (a : ws_action) : option session :=
  match ws_panicked s with
  | Some _ => None
  | None =>
      match a with
      | Start =>
          match reader s, listener s with
          | RNew, LNew => Some (set_reader RRead (set_listener LRecv s))
          | _, _ => None
          end
      | ReadFrame payload =>
          match reader s with
          | RRead =>
              let s := publish (snd (broadcast broker_accepts sub contentType payload)) s in
              Some (if connection_failed payload then set_reader RConnClose s else s)
          | _ => None
          end
      | ReadClosed => match reader s with RRead => Some (set_reader RLock s) | _ => None end
      | ReadFailed => match reader s with RRead => Some (set_reader (RDone ByError) s) | _ => None end
      | TakeLock =>
          match reader s, mutex s with
          | RLock, None => Some (set_reader RSignal (set_flag (set_mutex (Some HReader) s)))
          | _, _ => None
          end
      | Signal =>
          match reader s, unsub s with
          | RSignal, UWait => Some (set_reader RCloseMessages (set_unsub UEnd s))
          | RSignalOnly, UWait => Some (set_reader (RDone ByConnection) (set_unsub UEnd s))
          | _, _ => None
          end
      | CloseMessagesChan =>
          match reader s with
          | RCloseMessages =>
              Some (if messages_closed s then panic_with CloseOfClosedMessages s
                    else set_reader RCloseClosed (close_messages s))
          | _ => None
          end
      | CloseClosedChan =>
          match reader s with
          | RCloseClosed =>
              Some (if closed_closed s then panic_with CloseOfClosedClosed s
                    else set_reader (RDone ByClose) (set_mutex None (close_closed s)))
          | _ => None
          end
      | CloseConn => match reader s with RConnClose => Some (set_reader RSignalOnly (close_conn s)) | _ => None end
      | SeeClosed =>
          match unsub s with UWait => if closed_closed s then Some (set_unsub UEnd s) else None | _ => None end
      | Unsubscribe => match unsub s with UEnd => Some (set_unsub UDone (end_subscription s)) | _ => None end
      | NatsDeliver subject data =>
          match sender s with
          | SIdle =>
              if subscribed s && nats_matches (ws_subject sub) subject then
                match Unmarshal data empty_message with
                | Done m => Some (set_sender (SLock m) (deliver m s))
                | _ => Some s
                end
              else None
          | _ => None
          end
      | SendLock =>
          match sender s, mutex s with
          | SLock m, None =>
              Some (if closed_flag s then set_sender SIdle (discard m s)
                    else set_sender (SSend m) (set_mutex (Some HSender) (accept m s)))
          | _, _ => None
          end
      | SendMeets =>
          match sender s, listener s with
          | SSend m, LRecv =>
              if messages_closed s then None
              else Some (set_sender SIdle (set_mutex None (set_listener (LWrite m) s)))
          | _, _ => None
          end
      | SendPanics =>
          match sender s with
          | SSend _ => if messages_closed s then Some (panic_with SendOnClosedMessages s) else None
          | _ => None
          end
      | ListenEnds =>
          match listener s with LRecv => if messages_closed s then Some (set_listener LDone s) else None | _ => None end
      | WriteFrame =>
          match listener s with LWrite m => Some (set_listener LRecv (write (ws_frame m) s)) | _ => None end
      end
  end.

Fixpoint ws_run (s : session) (acts : list ws_action) : option session :=
  match acts with
  | [] => Some s
  | a :: acts => match ws_step s a with Some s' => ws_run s' acts | None => None end
  end.

Inductive ws_reachable : session -> Prop :=
| ws_reach_init : ws_reachable ws_init
| ws_reach_step s a s' : ws_reachable s -> ws_step s a = Some s' -> ws_reachable s'.
End Session.

(** ** The invariant *)

(** What the program counter of [broadcast] says about the rest. *)
Definition flag_of (r : reader_pc) : bool :=
  match r with RSignal | RCloseMessages | RCloseClosed | RDone ByClose => true | _ => false end.
Definition messages_of (r : reader_pc) : bool :=
  match r with RCloseClosed | RDone ByClose => true | _ => false end.
Definition closed_of (r : reader_pc) : bool := match r with RDone ByClose => true | _ => false end.
Definition holds_lock (r : reader_pc) : bool :=
  match r with RSignal | RCloseMessages | RCloseClosed => true | _ => false end.
Definition has_signalled (r : reader_pc) : bool :=
  match r with
  | RCloseMessages | RCloseClosed | RDone ByClose | RDone ByConnection => true
  | _ => false
  end.

Definition is_sending (x : sender_pc) : bool := match x with SSend _ => true | _ => false end.

Definition lock_holder (r : reader_pc) (x : sender_pc) : option holder :=
  if holds_lock r then Some HReader else if is_sending x then Some HSender else None.

Definition in_hand (x : sender_pc) : list GoMessage := match x with SLock m => [m] | _ => [] end.

(** Accepted messages that are not written yet. *)
Definition unwritten (s : session) : list (Z * bytes) :=
  match listener s with LWrite m => [ws_frame m] | _ => [] end ++
  match sender s with SSend m => [ws_frame m] | _ => [] end.

Record ws_inv (s : session) : Prop := {
  wi_panic : ws_panicked s = None;
  wi_mutex : mutex s = lock_holder (reader s) (sender s);
  wi_flag : closed_flag s = flag_of (reader s);
  wi_messages : messages_closed s = messages_of (reader s);
  wi_closed : closed_closed s = closed_of (reader s);
  wi_unsub : unsub s = UWait <-> has_signalled (reader s) = false;
  wi_subscribed : subscribed s = true <-> unsub s <> UDone;
  wi_started : listener s = LNew <-> reader s = RNew;
  wi_ended : listener s = LDone -> messages_closed s = true;
  wi_sending : is_sending (sender s) = true -> closed_flag s = false;
  wi_delivered : ws_delivered s = ws_accepted s ++ ws_dropped s ++ in_hand (sender s);
  wi_written : ws_written s ++ unwritten s = ws_frame <$> ws_accepted s;
  wi_dropped : ws_dropped s <> [] -> closed_flag s = true
}.

Section Invariant.
Variable broker : bytes -> bytes -> broker_answer.
Variable nats_matches : bytes -> bytes -> bool.
Variable sub : subscription.
Variable contentType : bytes.

Abbreviation step := (ws_step broker nats_matches sub contentType).
Abbreviation run := (ws_run broker nats_matches sub contentType).
Abbreviation reachable := (ws_reachable broker nats_matches sub contentType).

Lemma ws_init_inv : ws_inv ws_init.
Proof. clear. by constructor. Qed.

Lemma publish_inv x s : ws_inv s -> ws_inv (publish x s).
Proof. clear. destruct s. by intros []. Qed.

Lemma ws_step_inv s a s' : ws_inv s -> step s a = Some s' -> ws_inv s'.
Proof.
  intros [Hp Hm Hf Hmc Hcc Hu Hsu Hst He Hse Hd Hw Hdr] Hstep.
  destruct s as [r l x u m f mc cc su co p d a0 dr w pb]; simpl in *; subst.
  unfold ws_step in Hstep; simpl in Hstep.
  destruct a; repeat case_match; simplify_eq/=;
    constructor; unfold lock_holder, unwritten in *; simpl in *; try done; try (intuition congruence).
  - by destruct x; simpl in *.
  - by destruct x; simpl in *; [..|specialize (Hse eq_refl)].
  - by destruct r as [| | | | | | | |[]]; simpl in *.
  - by rewrite app_nil_r, <- app_assoc.
  - by rewrite !app_nil_r.
  - by destruct (holds_lock r); simpl in *.
  - assert (dr = []) as -> by (destruct dr; [done|by specialize (Hdr ltac:(done))]). by rewrite !app_nil_r.
  - rewrite fmap_app, <- Hw. simpl. by rewrite app_nil_r, app_assoc.
  - specialize (Hse eq_refl). by destruct r as [| | | | | | | |[]]; simpl in *.
  - specialize (Hse eq_refl). by destruct r as [| | | | | | | |[]]; simpl in *.
  - by rewrite <- app_assoc.
Qed.

Lemma ws_reachable_inv s : reachable s -> ws_inv s.
Proof. induction 1; [apply ws_init_inv|by eapply ws_step_inv]. Qed.

Lemma ws_run_reachable s acts s' : reachable s -> run s acts = Some s' -> reachable s'.
Proof.
  revert s. induction acts as [|a acts IH]; intros s Hr; simpl; [by intros [= <-]|].
  destruct (step s a) as [s1|] eqn:Hs; [|done]. apply IH. by econstructor.
Qed.

(** ** Termination *)

Definition reader_rank (r : reader_pc) : nat :=
  match r with
  | RNew => 5 | RRead | RLock => 4 | RSignal => 3 | RCloseMessages | RConnClose => 2
  | RCloseClosed | RSignalOnly => 1 | RDone _ => 0
  end.
Definition listener_rank (l : listener_pc) : nat := match l with LNew | LWrite _ => 2 | LRecv => 1 | LDone => 0 end.
Definition sender_rank (x : sender_pc) : nat := match x with SLock _ => 4 | SSend _ => 3 | SIdle => 0 end.
Definition unsub_rank (u : unsub_pc) : nat := match u with UWait => 2 | UEnd => 1 | UDone => 0 end.

(** The steps that the goroutines of a session can make by themselves. *)
Definition ws_measure (s : session) : nat :=
  reader_rank (reader s) + listener_rank (listener s) + sender_rank (sender s) + unsub_rank (unsub s).

(** A close was read, and [Close] is on its way or done. *)
Definition closing (r : reader_pc) : bool :=
  match r with RLock | RSignal | RCloseMessages | RCloseClosed | RDone ByClose => true | _ => false end.

Definition is_delivery (a : ws_action) : bool := match a with NatsDeliver _ _ => true | _ => false end.

Definition deliveries (acts : list ws_action) : nat := length (filter (fun a => is_delivery a = true) acts).

Lemma closing_step s a s' :
  ws_inv s -> closing (reader s) = true -> step s a = Some s' ->
  closing (reader s') = true /\
  (1 + ws_measure s' <= ws_measure s + (if is_delivery a then 5 else 0))%nat.
Proof.
  intros H Hc Hstep. unfold ws_step in Hstep. rewrite (wi_panic _ H) in Hstep.
  pose proof (wi_messages _ H) as Hm. pose proof (wi_closed _ H) as Hcc. pose proof (wi_sending _ H) as Hse.
  pose proof (wi_flag _ H) as Hf.
  destruct s as [r l x u m f mc cc su co p d a0 dr w pb]; unfold ws_measure; simpl in *.
  destruct a; repeat case_match; simplify_eq/=; try (split; [done|lia]).
  all: destruct r as [| | | | | | | |[]]; simplify_eq/=; try (split; [done|lia]); by specialize (Hse eq_refl).
Qed.

Lemma closing_run s acts s' :
  ws_inv s -> closing (reader s) = true -> run s acts = Some s' ->
  ws_inv s' /\ closing (reader s') = true /\
  (length acts + ws_measure s' <= ws_measure s + 5 * deliveries acts)%nat.
Proof.
  revert s. induction acts as [|a acts IH]; intros s H Hc Hr; simpl in *; [simplify_eq; by auto with lia|].
  destruct (step s a) as [s1|] eqn:Hs; [|done]. destruct (closing_step _ _ _ H Hc Hs) as [Hc1 Hle].
  destruct (IH s1) as (? & ? & ?); [by eapply ws_step_inv|done..|]. split_and!; try done.
  unfold deliveries in *. rewrite filter_cons. destruct (is_delivery a); simpl in *; lia.
Qed.

(** Everything of a session is gone. *)
Definition ended (s : session) : Prop :=
  reader s = RDone ByClose /\ listener s = LDone /\ sender s = SIdle /\ unsub s = UDone /\
  subscribed s = false /\ mutex s = None.

(** A closing session that makes no step by itself has ended. *)
Lemma closing_stuck s :
  ws_inv s -> closing (reader s) = true ->
  (forall a, is_delivery a = false -> step s a = None) -> ended s.
Proof.
  intros [Hp Hm Hf Hmc Hcc Hu Hsu Hst He Hse _ _ _] Hc H.
  pose proof (H TakeLock eq_refl) as H1. pose proof (H Signal eq_refl) as H2.
  pose proof (H CloseMessagesChan eq_refl) as H3. pose proof (H CloseClosedChan eq_refl) as H4.
  pose proof (H SeeClosed eq_refl) as H5. pose proof (H Unsubscribe eq_refl) as H6.
  pose proof (H SendLock eq_refl) as H7. pose proof (H SendMeets eq_refl) as H8.
  pose proof (H ListenEnds eq_refl) as H9. pose proof (H WriteFrame eq_refl) as H10.
  clear H. destruct s as [r l x u m f mc cc su co p d a0 dr w pb]; simpl in *. subst.
  unfold ws_step in *; simpl in *. unfold ended, lock_holder in *; simpl in *.
  destruct r as [| | | | | | | |[]]; try discriminate Hc; simpl in *;
    destruct l; simpl in *; try done; destruct x; simpl in *; try done; destruct u; simpl in *; try done;
    try (discriminate (proj1 Hst eq_refl)); try (discriminate (He eq_refl));
    try (discriminate (Hse eq_refl)); try (discriminate (proj2 Hu eq_refl)).
  split_and!; try done. destruct su; [|done]. by destruct (proj1 Hsu eq_refl).
Qed.

(** ** Sessions that do not end *)

Lemma reader_done_stays s a s' why : reader s = RDone why -> step s a = Some s' -> reader s' = RDone why.
Proof.
  intros Hr Hs. unfold ws_step in Hs. destruct s as [r l x u m f mc cc su co p d a0 dr w pb]; simpl in *; subst.
  destruct p; [done|]. destruct a; repeat case_match; by simplify_eq/=.
Qed.

Lemma reader_done_run s acts s' why : reader s = RDone why -> run s acts = Some s' -> reader s' = RDone why.
Proof.
  revert s. induction acts as [|a acts IH]; intros s Hr; simpl; [by intros [= <-]|].
  destruct (step s a) as [s1|] eqn:Hs; [|done]. apply IH. by eapply reader_done_stays.
Qed.

(** ** What a run receives and publishes *)

(** The frames that the client sent, and the messages that NATS delivered, in the
    order of the run. *)
Definition frames_read (acts : list ws_action) : list bytes :=
  omap (fun a => match a with ReadFrame payload => Some payload | _ => None end) acts.

Definition messages_delivered (acts : list ws_action) : list GoMessage :=
  omap (fun a => match a with
                 | NatsDeliver _ data => match Unmarshal data empty_message with Done m => Some m | _ => None end
                 | _ => None
                 end) acts.

(** The publication that carries a frame: the encoding of a message with the
    frame's payload, on the subject of the session's channel and subtopic. *)
Definition carries_frame (payload : bytes) (p : publication) : Prop :=
  fst p = fmtSubject (chanID sub) (sub_subtopic sub) /\
  Marshal {| Channel := chanID sub; Topic := []; Subtopic := sub_subtopic sub; Publisher := pubID sub;
             Devname := []; Protocol := js "ws"; ContentType := contentType; Payload := payload;
             XXX_unrecognized := [] |} = Done (snd p) /\
  broker (fst p) (snd p) = Accepted.

(** What a frame puts on NATS: its publication when the broker takes it, and
    nothing otherwise. *)
Definition frame_out (payload : bytes) (out : list publication) : Prop :=
  (exists p, carries_frame payload p /\ out = [p]) \/ ((forall p, ~ carries_frame payload p) /\ out = []).

Lemma carries_frame_on_wire payload p :
  carries_frame payload p <-> on_wire (broker_accepts broker) (frame_message sub contentType payload) p.
Proof.
  clear. unfold carries_frame, on_wire, broker_accepts. rewrite bool_decide_eq_true.
  split; [by intros (? & ? & ?)|by intros (? & ? & ?)].
Qed.

Lemma broadcast_out payload : frame_out payload (snd (broadcast (broker_accepts broker) sub contentType payload)).
Proof.
  clear. set (out := snd _).
  assert (H : forall p, p ∈ out <-> carries_frame payload p)
    by (intros p; rewrite carries_frame_on_wire; apply nats_publish_spec).
  assert (Hout : out = [] \/ exists p, out = [p]).
  { subst out. unfold broadcast, nats_publish. destruct (Marshal _); [destruct (broker_accepts _ _ _)|..]; eauto. }
  destruct Hout as [Hout|[p Hout]]; [right|left; exists p]; (split; [|done]).
  - intros p Hp%H. rewrite Hout in Hp. by apply elem_of_nil in Hp.
  - apply H. rewrite Hout. apply list_elem_of_here.
Qed.

Lemma messages_delivered_cons a acts :
  messages_delivered (a :: acts) = messages_delivered [a] ++ messages_delivered acts.
Proof. apply (omap_app _ [a] acts). Qed.

Lemma frames_read_cons a acts : frames_read (a :: acts) = frames_read [a] ++ frames_read acts.
Proof. apply (omap_app _ [a] acts). Qed.

(** A step reads at most one frame and receives at most one message. *)
Lemma ws_step_pipe s a s' :
  step s a = Some s' ->
  ws_delivered s' = ws_delivered s ++ messages_delivered [a] /\
  exists outs, Forall2 frame_out (frames_read [a]) outs /\ ws_published s' = ws_published s ++ concat outs.
Proof.
  intros Hst. unfold ws_step in Hst. destruct (ws_panicked s); [done|].
  destruct s as [r l x u m f mc cc su co p d a0 dr w pb]; simpl in *.
  destruct a; repeat case_match; simplify_eq/=;
    (split; [try congruence; by rewrite ?app_nil_r|]);
    try (exists []; split; [constructor|by rewrite app_nil_r]);
    (eexists [_]; split; [constructor; [apply broadcast_out|constructor]|by rewrite concat_cons, concat_nil, app_nil_r]).
Qed.

Lemma ws_run_pipe s acts s' :
  run s acts = Some s' ->
  ws_delivered s' = ws_delivered s ++ messages_delivered acts /\
  exists outs, Forall2 frame_out (frames_read acts) outs /\ ws_published s' = ws_published s ++ concat outs.
Proof.
  revert s. induction acts as [|a acts IH]; intros s; cbn [ws_run].
  { intros [= <-]. rewrite app_nil_r. split; [done|]. exists []. split; [constructor|by rewrite app_nil_r]. }
  destruct (step s a) as [s1|] eqn:Hs; [|done]. intros (Hd & outs & Ho & Hp)%IH.
  destruct (ws_step_pipe _ _ _ Hs) as (Hd1 & outs1 & Ho1 & Hp1). split.
  - rewrite Hd, Hd1, <- app_assoc. by rewrite (messages_delivered_cons a acts).
  - exists (outs1 ++ outs). split; [|by rewrite Hp, Hp1, <- app_assoc, concat_app].
    rewrite (frames_read_cons a acts). by apply Forall2_app.
Qed.
End Invariant.

Section Properties.
Variable broker : bytes -> bytes -> broker_answer.
Variable nats_matches : bytes -> bytes -> bool.
Variable sub : subscription.
Variable contentType : bytes.

Abbreviation run := (ws_run broker nats_matches sub contentType).
Abbreviation step := (ws_step broker nats_matches sub contentType).
Abbreviation reachable := (ws_reachable broker nats_matches sub contentType).

(** C34: A WebSocket session is a pipe without panics, over every run of its
    goroutines: nothing is sent on a closed channel and none is closed twice.
    The messages that NATS delivered and that decode are, in order, those that
    [Send] accepted, then those it dropped because the session was closed, then
    the one in its hands; and the frames written, followed by those on their way,
    are the accepted messages in order, each with its payload and format.  In the
    other direction, each frame that the client sent puts on NATS the encoding of
    one message, with the frame's payload and the channel, subtopic, identity and
    content type of the session, if the message can be encoded and the broker
    takes it, and nothing otherwise; what the session published is that, frame by
    frame in the order in which they were read, and nothing else. *)
Theorem ws_delivery acts s :
  run ws_init acts = Some s ->
  ws_panicked s = None /\
  messages_delivered acts = ws_accepted s ++ ws_dropped s ++ in_hand (sender s) /\
  (ws_dropped s <> [] -> closed_flag s = true) /\
  ws_written s ++ unwritten s = ws_frame <$> ws_accepted s /\
  exists outs,
    Forall2 (frame_out broker sub contentType) (frames_read acts) outs /\ ws_published s = concat outs.
Proof.
  intros Hrun. destruct (ws_run_pipe _ _ _ _ _ _ _ Hrun) as (Hd & Hp).
  assert (H : ws_inv s) by (eapply ws_reachable_inv, ws_run_reachable, Hrun; constructor).
  split_and!; [apply H| |apply H..|exact Hp]. rewrite <- (wi_delivered _ H). by rewrite Hd.
Qed.

(** A session whose client closes ends: from the moment the close is read, its
    goroutines make at most twelve more steps (five more for each message that
    NATS delivers meanwhile), and as long as anything is left (a goroutine, the
    lock, the subscription) one of them can make a step. *)
Theorem ws_close_ends s acts s' :
  reachable s -> closing (reader s) = true -> run s acts = Some s' ->
  (length acts <= 12 + 5 * deliveries acts)%nat /\
  ((forall a, is_delivery a = false -> step s' a = None) -> ended s').
Proof.
  intros Hr%ws_reachable_inv Hc Hrun. destruct (closing_run _ _ _ _ _ _ _ Hr Hc Hrun) as (H' & Hc' & Hle).
  split; [|by eapply closing_stuck]. enough (ws_measure s <= 12)%nat by lia.
  unfold ws_measure. destruct (reader s) as [| | | | | | | |[]]; try done;
    destruct (listener s), (sender s), (unsub s); simpl; lia.
Qed.

(** A session that ends otherwise leaks: after a read error that is not a close
    error (a connection reset, say), or after the connection to NATS was lost,
    its [listen] goroutine never ends, and [Messages] stays open; in the first
    case the subscription is never ended either, and its messages go on being
    written to the dead connection. *)
Theorem ws_leak s why acts s' :
  reachable s -> reader s = RDone why -> why <> ByClose -> run s acts = Some s' ->
  listener s' <> LDone /\ messages_closed s' = false /\ closed_flag s' = false /\
  (why = ByError -> subscribed s' = true /\ unsub s' = UWait).
Proof.
  intros Hr Hd Hwhy Hrun. pose proof (reader_done_run _ _ _ _ _ _ _ _ Hd Hrun) as Hd'.
  pose proof (ws_reachable_inv _ _ _ _ _ (ws_run_reachable _ _ _ _ _ _ _ Hr Hrun)) as H.
  assert (Hm : messages_closed s' = false) by (rewrite (wi_messages _ H), Hd'; by destruct why).
  split_and!.
  - intros Hl. by rewrite (wi_ended _ H Hl) in Hm.
  - done.
  - rewrite (wi_flag _ H), Hd'. by destruct why.
  - intros ->. assert (Hu : unsub s' = UWait) by (apply (proj2 (wi_unsub _ H)); by rewrite Hd').
    split; [|done]. apply (proj2 (wi_subscribed _ H)). by rewrite Hu.
Qed.
End Properties.

(** ** A sample session *)

Definition sample_sub : subscription :=
  {| pubID := js "a1"; chanID := js "c1"; sub_subtopic := js "temp" |}.
Definition ws_sample_message : GoMessage := message (js "mqtt") (js "c1") (js "temp") (js "a2") [] [49].
Definition ws_sample_data : bytes := match Marshal ws_sample_message with Done d => d | _ => [] end.

Definition all_accepted (subject data : bytes) : broker_answer := Accepted.
Definition ws_same_subject (subscription subject : bytes) : bool := bool_decide (subscription = subject).

Definition ws_after (acts : list ws_action) : session :=
  default ws_init (ws_run all_accepted ws_same_subject sample_sub [] ws_init acts).

Lemma ws_after_run acts :
  is_Some (ws_run all_accepted ws_same_subject sample_sub [] ws_init acts) ->
  ws_run all_accepted ws_same_subject sample_sub [] ws_init acts = Some (ws_after acts).
Proof. intros [s H]. unfold ws_after. by rewrite H. Qed.

Lemma ws_after_reachable acts :
  is_Some (ws_run all_accepted ws_same_subject sample_sub [] ws_init acts) ->
  ws_reachable all_accepted ws_same_subject sample_sub [] (ws_after acts).
Proof. intros H. eapply ws_run_reachable; [apply ws_reach_init|by apply ws_after_run]. Qed.

Definition one_message : list ws_action :=
  [NatsDeliver (js "channel.c1.temp") ws_sample_data; SendLock; SendMeets; WriteFrame].

Definition both_ways : list ws_action := Start :: one_message ++ [ReadFrame [50]].

Definition sample_frame : bytes :=
  match Marshal (message (js "ws") (js "c1") (js "temp") (js "a1") [] [50]) with Done d => d | _ => [] end.

Lemma ws_delivery_witness :
  let s := ws_after both_ways in
  ws_written s ++ unwritten s = ws_frame <$> ws_accepted s /\ ws_written s = [(1, [49])] /\
  (exists outs, Forall2 (frame_out all_accepted sample_sub []) [[50]] outs /\ ws_published s = concat outs) /\
  ws_published s = [(js "channel.c1.temp", sample_frame)].
Proof.
  cbv zeta.
  destruct (ws_delivery all_accepted ws_same_subject sample_sub [] both_ways (ws_after both_ways))
    as (_ & _ & _ & Hw & Hp).
  { apply ws_after_run. vm_compute. eexists. reflexivity. }
  split; [exact Hw|]. split; [vm_compute; reflexivity|]. split; [exact Hp|vm_compute; reflexivity].
Defined.

(** A message is in the hands of [Send] when the close is read. *)
Definition close_read : list ws_action :=
  [Start; NatsDeliver (js "channel.c1.temp") ws_sample_data; SendLock; ReadClosed].
Definition closing_acts : list ws_action :=
  [SendMeets; TakeLock; Signal; CloseMessagesChan; CloseClosedChan; Unsubscribe; WriteFrame; ListenEnds].

Lemma ws_close_ends_witness :
  exists s', ws_run all_accepted ws_same_subject sample_sub [] (ws_after close_read) closing_acts = Some s' /\
    ended s'.
Proof.
  destruct (ws_run all_accepted ws_same_subject sample_sub [] (ws_after close_read) closing_acts)
    as [s'|] eqn:Hr; [|by vm_compute in Hr].
  exists s'. split; [done|].
  assert (Hs' : s' = default ws_init
    (ws_run all_accepted ws_same_subject sample_sub [] (ws_after close_read) closing_acts)) by (by rewrite Hr).
  apply (ws_close_ends all_accepted ws_same_subject sample_sub [] (ws_after close_read) closing_acts s').
  - apply ws_after_reachable. vm_compute. eexists. reflexivity.
  - vm_compute. reflexivity.
  - exact Hr.
  - rewrite Hs'. intros a Ha. destruct a; try discriminate Ha; vm_compute; reflexivity.
Defined.

Lemma ws_leak_witness :
  let s := ws_after [Start; ReadFailed] in
  exists s', ws_run all_accepted ws_same_subject sample_sub [] s one_message = Some s' /\
    listener s' <> LDone /\ subscribed s' = true /\ ws_written s' = [(1, [49])].
Proof.
  cbv zeta. destruct (ws_run all_accepted ws_same_subject sample_sub [] (ws_after [Start; ReadFailed]) one_message)
    as [s'|] eqn:Hr; [|by vm_compute in Hr].
  exists s'. split; [done|].
  assert (Hs' : s' = default ws_init (ws_run all_accepted ws_same_subject sample_sub []
    (ws_after [Start; ReadFailed]) one_message)) by (by rewrite Hr).
  destruct (ws_leak all_accepted ws_same_subject sample_sub [] (ws_after [Start; ReadFailed]) ByError
    one_message s') as (Hl & _ & _ & Hsub).
  - apply ws_after_reachable. vm_compute. eexists. reflexivity.
  - vm_compute. reflexivity.
  - discriminate.
  - exact Hr.
  - split; [exact Hl|]. split; [by apply Hsub|]. rewrite Hs'. vm_compute. reflexivity.
Defined.
