(* ===== verification/CoapMessage.v ===== *)
(** * CoAP messages and the decision of the [observe] handler

    The messages of the CoAP library, their options and option values
    ([vendor/github.com/dustin/go-coap/message.go]); [mux] and the part of
    [observe] that runs before the service is called
    ([coap/api/transport.go]). *)

From S2P Require Import Prelude JsString JsRegExp Topics GoCodec Subtopics GoAdapters.

Local Open Scope Z_scope.

(** ** Messages *)

Inductive COAPType := Confirmable | NonConfirmable | Acknowledgement | Reset.

#[export] Instance COAPType_eq_dec : EqDecision COAPType.
Proof. solve_decision. Defined.

(** The dynamic types of option values: [string], [[]byte], [MediaType] (a
    byte), [int] and [uint32]. *)
Inductive option_value :=
| OString (s : bytes)
| OBytes (b : bytes)
| OMedia (n : Z)
| OInt (n : Z)
| OUint (n : Z).

(** Option numbers and codes. *)
Definition OptObserve : Z := 6.
Definition OptURIPath : Z := 11.
Definition OptContentFormat : Z := 12.
Definition OptURIQuery : Z := 15.
Definition OptAccept : Z := 17.
Definition GET : Z := 1.
Definition CodeContent : Z := 69.

Definition AppJSON : Z := 50.
Definition senMLJSON : Z := 110.
Definition senMLCBOR : Z := 112.

Record coap_packet := {
  c_type : COAPType;
  c_code : Z;
  c_id : Z;                      (* uint16 *)
  c_token : bytes;
  c_payload : bytes;
  c_opts : list (Z * option_value)
}.

Definition Options (o : Z) (m : coap_packet) : list option_value :=
  snd <$> filter (fun p => fst p = o) (c_opts m).

(** [Option]: the first value. *)
Definition first_option (o : Z) (m : coap_packet) : option option_value := head (Options o m).

Definition Minus (o : Z) (opts : list (Z * option_value)) : list (Z * option_value) :=
  filter (fun p => fst p <> o) opts.

Definition with_opts (m : coap_packet) (opts : list (Z * option_value)) : coap_packet :=
  Build_coap_packet (c_type m) (c_code m) (c_id m) (c_token m) (c_payload m) opts.

Definition RemoveOption (o : Z) (m : coap_packet) : coap_packet := with_opts m (Minus o (c_opts m)).

(** [AddOption]; a slice of strings adds one option for each. *)
Definition AddOption (o : Z) (vs : list option_value) (m : coap_packet) : coap_packet :=
  with_opts m (c_opts m ++ ((o,.) <$> vs)).

Definition SetOption (o : Z) (vs : list option_value) (m : coap_packet) : coap_packet :=
  AddOption o vs (RemoveOption o m).

(** [optionStrings]: [None] is the panic of the type assertion. *)
Definition optionStrings (o : Z) (m : coap_packet) : option (list bytes) :=
  mapM (fun v => match v with OString s => Some s | _ => None end) (Options o m).

Definition PathString (m : coap_packet) : option bytes := join SLASH <$> optionStrings OptURIPath m.

(** The loop of [SetPathString]; [None] is an index out of range. *)
Fixpoint skip_slashes (s : bytes) : option bytes :=
  match s with
  | [] => None
  | c :: s' => if c =? SLASH then skip_slashes s' else Some s
  end.

Definition SetPathString (s : bytes) (m : coap_packet) : option coap_packet :=
  (fun s => SetOption OptURIPath (OString <$> split SLASH s) m) <$> skip_slashes s.

(** ** Values on the wire *)

(** [encodeInt], of a [uint32]. *)
Definition encodeInt (v : Z) : bytes :=
  let byte i := Z.land (Z.shiftr v (8 * i)) 255 in
  if v =? 0 then []
  else if v <? 256 then [byte 0]
  else if v <? 65536 then [byte 1; byte 0]
  else if v <? 16777216 then [byte 2; byte 1; byte 0]
  else [byte 3; byte 2; byte 1; byte 0].

(** [decodeInt], of at most four bytes. *)
Definition decodeInt (b : bytes) : Z := foldl (fun n c => Z.lor (Z.shiftl n 8) c) 0 b.

Definition toBytes (v : option_value) : bytes :=
  match v with
  | OString s => s
  | OBytes b => b
  | OMedia n | OInt n | OUint n => encodeInt (n mod 2 ^ 32)
  end.

(** [optionDefs]: the options of RFC 7252 and Observe, each with the format of its
    value and the lengths allowed; every other entry of the array is unknown. *)
Inductive value_format := ValueUnknown | ValueEmpty | ValueOpaque | ValueUint | ValueString.
Record option_def := OptionDef { valueFormat : value_format; minLen : nat; maxLen : nat }.

Definition option_table : list (Z * option_def) := [
  (1, OptionDef ValueOpaque 0 8);                     (* If-Match *)
  (3, OptionDef ValueString 1 255);                   (* Uri-Host *)
  (4, OptionDef ValueOpaque 1 8);                     (* ETag *)
  (5, OptionDef ValueEmpty 0 0);                      (* If-None-Match *)
  (OptObserve, OptionDef ValueUint 0 3);
  (7, OptionDef ValueUint 0 2);                       (* Uri-Port *)
  (8, OptionDef ValueString 0 255);                   (* Location-Path *)
  (OptURIPath, OptionDef ValueString 0 255);
  (OptContentFormat, OptionDef ValueUint 0 2);
  (14, OptionDef ValueUint 0 4);                      (* Max-Age *)
  (OptURIQuery, OptionDef ValueString 0 255);
  (OptAccept, OptionDef ValueUint 0 2);
  (20, OptionDef ValueString 0 255);                  (* Location-Query *)
  (35, OptionDef ValueString 1 1034);                 (* Proxy-Uri *)
  (39, OptionDef ValueString 1 255);                  (* Proxy-Scheme *)
  (60, OptionDef ValueUint 0 4)                       (* Size1 *)
].

Definition optionDefs (o : Z) : option_def :=
  match List.find (fun p => fst p =? o) option_table with
  | Some p => snd p
  | None => OptionDef ValueUnknown 0 0
  end.

(** [parseOptionValue]: nil for an unknown option or an illegal length. *)
Definition parseOptionValue (o : Z) (b : bytes) : option option_value :=
  let def := optionDefs o in
  match valueFormat def with
  | ValueUnknown => None
  | f =>
      if (length b <? minLen def)%nat || (maxLen def <? length b)%nat then None
      else
        match f with
        | ValueUint =>
            let intValue := decodeInt b in
            if (o =? OptContentFormat) || (o =? OptAccept) then Some (OMedia (intValue mod 256))
            else Some (OUint intValue)
        | ValueString => Some (OString b)
        | ValueOpaque | ValueEmpty => Some (OBytes b)
        | ValueUnknown => None
        end
  end.

(** The type of the value of an option, by RFC 7252 and 7641. *)
Definition well_typed (p : Z * option_value) : bool :=
  let '(o, v) := p in
  let one_of := existsb (Z.eqb o) in
  match v with
  | OString _ => one_of [3; 8; OptURIPath; OptURIQuery; 20; 35; 39]
  | OUint _ => one_of [OptObserve; 7; 14; 60]
  | OMedia _ => one_of [OptContentFormat; OptAccept]
  | OBytes _ => one_of [1; 4; 5]
  | OInt _ => false
  end.

Definition parsed (m : coap_packet) : bool := forallb well_typed (c_opts m).

(** [binary.Write] of a [uint64], big endian. *)
Definition PutUint64 (v : Z) : bytes :=
  (fun i => Z.land (Z.shiftr v (8 * i)) 255) <$> [7; 6; 5; 4; 3; 2; 1; 0].

(** ** The multiplexer *)

(** Does [^/?channels/([\w\-]+)/messages(/[^?]* )?(\?.* )?$] match? *)
Definition channelRegExp (path : bytes) : bool :=
  bool_decide (is_Some (channelParts (if startsWith path [SLASH] then path else SLASH :: path))).

Inductive mux_result :=
| MuxPanic
| MuxNotFound
| MuxObserve (msg : coap_packet)
| MuxReceive (msg : coap_packet).

Definition mux (msg : coap_packet) : mux_result :=
  match PathString msg with
  | None => MuxPanic
  | Some path =>
      if negb (channelRegExp path) then MuxNotFound
      else
        match (if startsWith path [SLASH] then SetPathString (drop 1 path) msg else Some msg) with
        | None => MuxPanic
        | Some msg => if c_code msg =? GET then MuxObserve msg else MuxReceive msg
        end
  end.

(** ** The [observe] handler *)

(** What [id], [fmtSubtopic] and [authorize] read. *)
Definition as_request (msg : coap_packet) : coap_message := {|
  IsConfirmable := bool_decide (c_type msg = Confirmable);
  path_string := default [] (PathString msg);
  URIQuery := match first_option OptURIQuery msg with Some (OString q) => Some q | _ => None end;
  ContentFormat := match first_option OptContentFormat msg with Some (OMedia n) => Some n | _ => None end;
  coap_payload := c_payload msg
|}.

(** [msg.Option(gocoap.Observe).(uint32)]. *)
Definition observe_option (msg : coap_packet) : option Z :=
  match first_option OptObserve msg with Some (OUint n) => Some n | _ => None end.

Definition hex_digit (n : Z) : Z := if n <? 10 then 48 + n else 87 + n.
(** The verb [%x] of [fmt] on a byte slice. *)
Definition hex (b : bytes) : bytes :=
  b ≫= fun c => [hex_digit (Z.shiftr c 4); hex_digit (Z.land c 15)].

Definition obsID_of (token publisher chanID : bytes) : bytes :=
  hex token ++ DASH :: publisher ++ DASH :: chanID.

(** What the handler does after the checks: whether it unsubscribes, then what
    it subscribes to. *)
Record observation := {
  ob_code : coap_code;
  ob_id : bytes;
  ob_unsubscribe : bool;
  ob_subscribe : option (bytes * bytes)
}.

Inductive observe_answer :=
| Refuse (code : coap_code)
| Acked (obsID : bytes)
| Proceed (o : observation).

Section Observe.
Variable CanAccessByKey : bytes -> bytes -> bytes + call_error.   (* token, channel *)

Definition observe (msg : coap_packet) : observe_answer :=
  let r := as_request msg in
  match coap_id (path_string r) with
  | [] => Refuse NotFound
  | chanID =>
      match fmtSubtopic (path_string r) with
      | None => Refuse BadRequest
      | Some subtopic =>
          match coap_authorize CanAccessByKey r chanID Content with
          | (_, None) => Refuse Forbidden
          | (code, Some publisher) =>
              let obsID := obsID_of (c_token msg) publisher chanID in
              if bool_decide (c_type msg = Acknowledgement) then Acked obsID
              else Proceed {|
                ob_code := code;
                ob_id := obsID;
                ob_unsubscribe := bool_decide (observe_option msg = Some 1) ||
                                  bool_decide (c_type msg = Reset);
                ob_subscribe :=
                  if bool_decide (observe_option msg = Some 0) then Some (chanID, subtopic) else None
              |}
          end
      end
  end.
End Observe.

(** ** The options of a message *)

Lemma Options_SetOption o vs m o' :
  Options o' (SetOption o vs m) = if bool_decide (o' = o) then vs else Options o' m.
Proof.
  unfold Options, SetOption, AddOption, RemoveOption, Minus. cbn [c_opts with_opts].
  rewrite filter_app, fmap_app. case_bool_decide as Ho; [subst o'|].
  - replace (filter _ (filter _ (c_opts m))) with (@nil (Z * option_value)).
    2: { induction (c_opts m) as [|p l IH]; [done|]. rewrite filter_cons.
         destruct (decide (fst p <> o)); [|done]. rewrite filter_cons. by case_decide. }
    simpl. induction vs as [|v vs IH]; [done|]. simpl. rewrite filter_cons.
    by rewrite decide_True by done; simpl; f_equal.
  - replace (filter _ ((o,.) <$> vs)) with (@nil (Z * option_value)).
    2: { induction vs as [|v vs IH]; [done|]. simpl. rewrite filter_cons.
         by rewrite decide_False by (simpl; congruence). }
    rewrite app_nil_r. f_equal. induction (c_opts m) as [|p l IH]; [done|].
    rewrite (filter_cons _ p l). destruct (decide (fst p <> o)) as [Hp|Hp%dec_stable].
    + rewrite !filter_cons. case_decide; by rewrite IH.
    + rewrite filter_cons. rewrite decide_False by congruence. done.
Qed.

Lemma Options_RemoveOption o m o' :
  Options o' (RemoveOption o m) = if bool_decide (o' = o) then [] else Options o' m.
Proof.
  rewrite <- Options_SetOption. unfold SetOption, AddOption. simpl. by rewrite app_nil_r.
Qed.

(** What the parser puts into a message, and that [mux] does not panic on it. *)
Lemma parseOptionValue_typed o b v : parseOptionValue o b = Some v -> well_typed (o, v) = true.
Proof.
  unfold parseOptionValue, optionDefs. destruct (List.find _ _) as [[o' def]|] eqn:Ef; [|done].
  apply List.find_some in Ef as [Hin Ho%Z.eqb_eq]. simpl in Ho. subst o'.
  repeat (destruct Hin as [[= <- <-]|Hin];
    [cbn [snd valueFormat minLen maxLen]; destruct (_ || _); [done|]; simpl; by intros [= <-]|]).
  destruct Hin.
Qed.

Lemma optionStrings_parsed m : parsed m = true -> is_Some (optionStrings OptURIPath m).
Proof.
  unfold parsed, optionStrings, Options. rewrite forallb_forall. intros H.
  apply mapM_is_Some_2, Forall_fmap, Forall_forall. intros [o v] [Ho Hin]%list_elem_of_filter.
  simpl in Ho. subst o. apply list_elem_of_In, H in Hin.
  destruct v; [by eexists|discriminate Hin..].
Qed.

Lemma channelParts_head c s : is_Some (channelParts (SLASH :: c :: s)) -> c <> SLASH.
Proof.
  intros H ->. unfold channelParts in H. destruct (strip_prefix _ _) as [r|] eqn:E; [|by destruct H].
  by apply strip_prefix_Some in E.
Qed.

Lemma mux_total m : parsed m = true -> mux m <> MuxPanic.
Proof.
  intros Hm. unfold mux, PathString. destruct (optionStrings_parsed m Hm) as [ss ->]. simpl.
  set (path := join SLASH ss). destruct (channelRegExp path) eqn:Hre; [|done]. simpl.
  destruct (startsWith path [SLASH]) eqn:Hs; [|by case_match].
  unfold channelRegExp in Hre. rewrite Hs in Hre. apply bool_decide_eq_true in Hre.
  apply startsWith_spec in Hs as [r Hr]. rewrite Hr in Hre |- *. simpl. destruct r as [|c r].
  { by destruct Hre. }
  pose proof (channelParts_head _ _ Hre) as Hc. unfold SetPathString. cbn [skip_slashes app drop].
  destruct (Z.eqb_spec c SLASH); [done|]. simpl. by case_match.
Qed.

(** A message without a path is not for a channel. *)
Lemma mux_no_path m : Options OptURIPath m = [] -> mux m = MuxNotFound.
Proof. intros H. unfold mux, PathString, optionStrings. by rewrite H. Qed.
