(* ===== verification/CoapObserve.v ===== *)
(** * CoAP observation as a transition system

    The service of [coap/adapter.go] with its map of observers, the observers of
    [coap/observer.go], and the goroutines that [coap/api/transport.go],
    [coap/nats/publisher.go] and the NATS client run for them.  A goroutine is a
    program counter; [step] runs one goroutine up to its next access to something
    shared, so the interleavings of the goroutines are the sequences of actions. *)

From S2P Require Import Prelude JsString GoCodec Subtopics GoAdapters CoapMessage.

Local Open Scope Z_scope.

Definition MaxRetransmit : nat := 4.

(** ** Observers and their goroutines *)

(** [handleMessage], with its variable [notifyMsg]. *)
Inductive handle_pc :=
| HandleNew                                    (* not started *)
| HandleRecv (n : coap_packet)                 (* at the receive *)
| HandleLoad (n : coap_packet) (m : GoMessage) (* at [LoadMessageID] *)
| HandleSend (n : coap_packet)                 (* at [Transmit] *)
| HandleDone.

(** [ping]; the number is the loop counter. *)
Inductive ping_pc :=
| PingNew
| PingSelect
| PingStore
| PingLoad (i : nat)
| PingSend (i : nat) (id : Z)
| PingSleep (i : nat)
| PingCheck
| PingRemove
| PingDone.

(** [cancel]. *)
Inductive cancel_pc := CancelNew | CancelWait | CancelClose | CancelStore | CancelDone.

(** An [Observer] with the request it was made for, its NATS subscription, the
    callback that waits to send to [Messages], and its goroutines.  [cancelled]
    and [closed] are the states of the channels [Cancel] and [Messages]. *)
Record observer := Observer {
  o_msg : coap_packet;
  o_id : bytes;
  o_subject : bytes;
  expired : bool;
  msgID : Z;
  cancelled : bool;
  closed : bool;
  active : bool;
  callback : option GoMessage;
  handler : handle_pc;
  pinger : ping_pc;
  canceller : cancel_pc
}.

(** [NewObserver] and the subscription of [pubsub.Subscribe]. *)
Definition new_observer (msg : coap_packet) (obsID subject : bytes) : observer :=
  Observer msg obsID subject false 0 false false true None HandleNew PingNew CancelNew.

Definition set_expired b '(Observer m i s _ n c l a k h p q) := Observer m i s b n c l a k h p q.
Definition set_msgID n '(Observer m i s e _ c l a k h p q) := Observer m i s e n c l a k h p q.
Definition set_cancelled '(Observer m i s e n _ l a k h p q) := Observer m i s e n true l a k h p q.
Definition set_closed '(Observer m i s e n c _ a k h p q) := Observer m i s e n c true a k h p q.
Definition set_inactive '(Observer m i s e n c l _ k h p q) := Observer m i s e n c l false k h p q.
Definition set_callback k '(Observer m i s e n c l a _ h p q) := Observer m i s e n c l a k h p q.
Definition set_handler h '(Observer m i s e n c l a k _ p q) := Observer m i s e n c l a k h p q.
Definition set_pinger p '(Observer m i s e n c l a k h _ q) := Observer m i s e n c l a k h p q.
Definition set_canceller q '(Observer m i s e n c l a k h p _) := Observer m i s e n c l a k h p q.

(** [LoadMessageID]: the new value, which is also returned. *)
Definition LoadMessageID (o : observer) : Z := (msgID o + 1) mod 65536.

(** ** The packets sent to a client *)

Definition with_head (m : coap_packet) (ty : COAPType) (code id : Z) (payload : bytes) : coap_packet :=
  Build_coap_packet ty code id (c_token m) payload (c_opts m).

Definition notify_init (msg : coap_packet) : coap_packet :=
  RemoveOption OptURIQuery (with_head msg NonConfirmable CodeContent (c_id msg) (c_payload msg)).

Definition coapCT (contentType : bytes) : Z :=
  if bool_decide (contentType = js "application/senml+json") then senMLJSON
  else if bool_decide (contentType = js "application/senml+cbor") then senMLCBOR
  else senMLJSON.

(** The last three bytes of the eight. *)
Definition observeVal (id : Z) : bytes := drop 5 (PutUint64 id).

Definition notify_fill (n : coap_packet) (m : GoMessage) (id : Z) : coap_packet :=
  let n := with_head n (c_type n) (c_code n) id (Payload m) in
  let n := SetOption OptObserve [OBytes (observeVal id)] n in
  SetOption OptContentFormat [OMedia (coapCT (ContentType m))] n.

Definition pingMsg (msg : coap_packet) (id : Z) : coap_packet :=
  RemoveOption OptURIQuery (with_head msg Confirmable (c_code msg) id []).

Definition code_number (c : coap_code) : Z :=
  match c with
  | Changed => 68 | Content => 69 | BadRequest => 128 | Forbidden => 131 | NotFound => 132
  | InternalServerError => 160 | ServiceUnavailable => 163
  end.

(** The response of [observe]. *)
Definition response (msg : coap_packet) (code : coap_code) (observed : bool) : coap_packet :=
  let res := SetOption OptContentFormat [OMedia AppJSON]
    (Build_coap_packet Acknowledgement (code_number code) (c_id msg) (c_token msg) [] []) in
  if observed then AddOption OptObserve [OInt 1] res else res.

(** ** The service *)

Inductive panic := CloseOfCancel (i : nat) | CloseOfMessages (i : nat) | SendOnClosed (i : nat) | BadPath.

(** The goroutine of a request, after the checks of [observe]. *)
Inductive task :=
| TUnsubscribe (msg : coap_packet) (o : observation)
| TSubscribe (msg : coap_packet) (o : observation)
| TPut (i : nat) (code : coap_code)
| TSpawn (i : nat) (code : coap_code).

(** What happened, newest first. *)
Inductive entry :=
| Requested (msg : coap_packet) (a : observe_answer)
| Delivered (i : nat) (subject : bytes) (m : GoMessage)
| Notified (i : nat) (p : coap_packet)
| Pinged (i : nat) (p : coap_packet)
| Replied (p : coap_packet).

Record service := Service {
  obs : gmap bytes nat;
  observers : list observer;      (* an observer is its position *)
  tasks : gmap nat task;
  responses : list bytes;         (* the buffered channel *)
  listener : option nat;          (* what [listenResponses] got *)
  log : list entry;
  crashed : option panic
}.

Definition init : service := Service ∅ [] ∅ [] None [] None.

Definition set_obs f '(Service m o t r l g c) := Service (f m) o t r l g c.
Definition upd i f '(Service m o t r l g c) := Service m (alter f i o) t r l g c.
Definition new_obs o' '(Service m o t r l g c) := Service m (o ++ [o']) t r l g c.
Definition set_task k x '(Service m o t r l g c) := Service m o (partial_alter (fun _ => x) k t) r l g c.
Definition set_responses r '(Service m o t _ l g c) := Service m o t r l g c.
Definition set_listener l '(Service m o t r _ g c) := Service m o t r l g c.
Definition add_log es '(Service m o t r l g c) := Service m o t r l (es ++ g) c.
Definition crash p '(Service m o t r l g c) := Service m o t r l g (Some p).

(** [close(val.Cancel)]. *)
Definition close_cancel (i : nat) (s : service) : service :=
  match observers s !! i with
  | Some o => if cancelled o then crash (CloseOfCancel i) s else upd i set_cancelled s
  | None => s
  end.

Definition put (obsID : bytes) (i : nat) (s : service) : service :=
  let s := match obs s !! obsID with Some j => close_cancel j s | None => s end in
  match crashed s with Some _ => s | None => set_obs <[obsID := i]> s end.

Definition remove (obsID : bytes) (s : service) : service :=
  match obs s !! obsID with
  | Some j =>
      let s := close_cancel j s in
      match crashed s with Some _ => s | None => set_obs (delete obsID) s end
  | None => s
  end.

(** ** The goroutines of an observer *)

Inductive local :=
| Deliver (subject data : bytes)   (* NATS runs the callback on a message *)
| Rendezvous                       (* the send meets the receive *)
| SendClosed
| RecvClosed
| NotifyLoad
| NotifySend
| Tick                             (* [t.C] *)
| PingCancelled                    (* [o.Cancel] *)
| PingStoreExpired
| PingLoadID
| PingTransmit
| PingWake                         (* the end of the sleep, and the test *)
| PingLast                         (* the test after the loop *)
| CancelAwake
| CloseMessages
| CancelStoreExpired
| NatsUnsubscribe.

Inductive local_result :=
| Next (o : observer) (es : list entry)
| LocalPanic (p : panic).

(** The head of the [for] loop of [ping]. *)
Definition ping_round (i : nat) : ping_pc :=
  if (i <? MaxRetransmit)%nat then PingLoad i else PingCheck.

Section Steps.
Variable CanAccessByKey : bytes -> bytes -> bytes + call_error.   (* token, channel *)
Variable nats_matches : bytes -> bytes -> bool.                   (* subscription, subject *)

Definition local_step (i : nat) (o : observer) (l : local) : option local_result :=
  match l with
  | Deliver subject data =>
      match callback o with
      | None =>
          if active o && nats_matches (o_subject o) subject then
            match Unmarshal data empty_message with
            | Done m => Some (Next (set_callback (Some m) o) [Delivered i subject m])
            | _ => Some (Next o [])
            end
          else None
      | Some _ => None
      end
  | Rendezvous =>
      match callback o, handler o with
      | Some m, HandleRecv n =>
          if closed o then None else Some (Next (set_handler (HandleLoad n m) (set_callback None o)) [])
      | _, _ => None
      end
  | SendClosed =>
      match callback o with
      | Some _ => if closed o then Some (LocalPanic (SendOnClosed i)) else None
      | None => None
      end
  | RecvClosed =>
      match handler o with
      | HandleRecv _ => if closed o then Some (Next (set_handler HandleDone o) []) else None
      | _ => None
      end
  | NotifyLoad =>
      match handler o with
      | HandleLoad n m =>
          let id := LoadMessageID o in
          Some (Next (set_handler (HandleSend (notify_fill n m id)) (set_msgID id o)) [])
      | _ => None
      end
  | NotifySend =>
      match handler o with
      | HandleSend n => Some (Next (set_handler (HandleRecv n) o) [Notified i n])
      | _ => None
      end
  | Tick =>
      match pinger o with
      | PingSelect => Some (Next (set_pinger (if expired o then PingDone else PingStore) o) [])
      | _ => None
      end
  | PingCancelled =>
      match pinger o with
      | PingSelect => if cancelled o then Some (Next (set_pinger PingDone o) []) else None
      | _ => None
      end
  | PingStoreExpired =>
      match pinger o with
      | PingStore => Some (Next (set_pinger (ping_round 0) (set_expired true o)) [])
      | _ => None
      end
  | PingLoadID =>
      match pinger o with
      | PingLoad k =>
          let id := LoadMessageID o in Some (Next (set_pinger (PingSend k id) (set_msgID id o)) [])
      | _ => None
      end
  | PingTransmit =>
      match pinger o with
      | PingSend k id => Some (Next (set_pinger (PingSleep k) o) [Pinged i (pingMsg (o_msg o) id)])
      | _ => None
      end
  | PingWake =>
      match pinger o with
      | PingSleep k => Some (Next (set_pinger (if expired o then ping_round (S k) else PingCheck) o) [])
      | _ => None
      end
  | PingLast =>
      match pinger o with
      | PingCheck => Some (Next (set_pinger (if expired o then PingRemove else PingSelect) o) [])
      | _ => None
      end
  | CancelAwake =>
      match canceller o with
      | CancelWait => if cancelled o then Some (Next (set_canceller CancelClose o) []) else None
      | _ => None
      end
  | CloseMessages =>
      match canceller o with
      | CancelClose =>
          if closed o then Some (LocalPanic (CloseOfMessages i))
          else Some (Next (set_canceller CancelStore (set_closed o)) [])
      | _ => None
      end
  | CancelStoreExpired =>
      match canceller o with
      | CancelStore => Some (Next (set_canceller CancelDone (set_expired true o)) [])
      | _ => None
      end
  | NatsUnsubscribe => if cancelled o && active o then Some (Next (set_inactive o) []) else None
  end.

(** [go handleMessage], [go ping] and [go cancel]. *)
Definition spawn (o : observer) : observer :=
  set_handler (HandleRecv (notify_init (o_msg o))) (set_pinger PingSelect (set_canceller CancelWait o)).

(** ** Requests *)

Definition the_msg (i : nat) (s : service) : coap_packet :=
  from_option o_msg (Build_coap_packet Reset 0 0 [] [] []) (observers s !! i).

(** The response of [mux] to other paths. *)
Definition not_found (msg : coap_packet) : coap_packet :=
  Build_coap_packet NonConfirmable (code_number NotFound) (c_id msg) (c_token msg) [] [].

(** The arrival of a packet, up to the first access to the service.  A
    publication ([receive]) does not touch it. *)
Definition arrive (k : nat) (msg : coap_packet) (s : service) : service :=
  match mux msg with
  | MuxObserve msg =>
      let a := observe CanAccessByKey msg in
      let s := add_log [Requested msg a] s in
      match a with
      | Refuse code => add_log [Replied (response msg code false)] s
      | Acked obsID => set_responses (responses s ++ [obsID]) s
      | Proceed o => set_task k (Some (TUnsubscribe msg o)) s
      end
  | MuxNotFound => add_log [Replied (not_found msg)] s
  | MuxReceive _ => s
  | MuxPanic => crash BadPath s
  end.

(** The next step of the goroutine of a request; [ok]: NATS accepts the
    subscription. *)
Definition advance (k : nat) (t : task) (ok : bool) (s : service) : service :=
  match t with
  | TUnsubscribe msg o =>
      let s := if ob_unsubscribe o then remove (ob_id o) s else s in
      match ob_subscribe o with
      | Some _ => set_task k (Some (TSubscribe msg o)) s
      | None => add_log [Replied (response msg (ob_code o) false)] (set_task k None s)
      end
  | TSubscribe msg o =>
      match ob_subscribe o with
      | Some (chanID, subtopic) =>
          if ok then
            set_task k (Some (TPut (length (observers s)) (ob_code o)))
              (new_obs (new_observer msg (ob_id o) (fmtSubject chanID subtopic)) s)
          else add_log [Replied (response msg InternalServerError true)] (set_task k None s)
      | None => s
      end
  | TPut i code =>
      match observers s !! i with
      | Some o => set_task k (Some (TSpawn i code)) (put (o_id o) i s)
      | None => s
      end
  | TSpawn i code =>
      add_log [Replied (response (the_msg i s) code true)] (set_task k None (upd i spawn s))
  end.

Inductive action :=
| Packet (k : nat) (msg : coap_packet)
| Advance (k : nat) (ok : bool)
| GetAck
| StoreAck
| Local (i : nat) (l : local)
| PingUnsubscribe (i : nat).

Definition step (s : service) (a : action) : option service :=
  match crashed s with
  | Some _ => None
  | None =>
      match a with
      | Packet k msg =>
          match tasks s !! k with
          | None => if parsed msg then Some (arrive k msg s) else None
          | Some _ => None
          end
      | Advance k ok => (fun t => advance k t ok s) <$> tasks s !! k
      | GetAck =>
          match listener s, responses s with
          | None, id :: r => Some (set_listener (obs s !! id) (set_responses r s))
          | _, _ => None
          end
      | StoreAck =>
          match listener s with
          | Some i => Some (set_listener None (upd i (set_expired false) s))
          | None => None
          end
      | Local i l =>
          match observers s !! i with
          | Some o =>
              match local_step i o l with
              | Some (Next o' es) => Some (add_log es (upd i (fun _ => o') s))
              | Some (LocalPanic p) => Some (crash p s)
              | None => None
              end
          | None => None
          end
      | PingUnsubscribe i =>
          match observers s !! i with
          | Some o =>
              match pinger o with
              | PingRemove => Some (upd i (set_pinger PingDone) (remove (o_id o) s))
              | _ => None
              end
          | None => None
          end
      end
  end.

Fixpoint run (s : service) (acts : list action) : option service :=
  match acts with
  | [] => Some s
  | a :: acts => match step s a with Some s' => run s' acts | None => None end
  end.

Inductive reachable : service -> Prop :=
| reach_init : reachable init
| reach_step s a s' : reachable s -> step s a = Some s' -> reachable s'.

End Steps.
