(* ===== verification/CoapSafety.v ===== *)
(** * Invariants of CoAP observation

    [obs_ok] is kept by each goroutine of an observer; [owner_inv] ties the map
    of the service, the requests in progress and the states of the observers.
    It only depends on a view of the observers, so the goroutines that leave the
    view alone need no proof of their own. *)

From S2P Require Import Prelude JsString GoCodec Subtopics GoAdapters CoapMessage CoapObserve.

Local Open Scope Z_scope.

(** ** One observer *)

Definition is_new (o : observer) : bool :=
  match handler o with HandleNew => true | _ => false end.

(** How far [cancel] got. *)
Definition past_close (q : cancel_pc) : bool :=
  match q with CancelStore | CancelDone => true | _ => false end.
Definition past_wait (q : cancel_pc) : bool :=
  match q with CancelClose | CancelStore | CancelDone => true | _ => false end.

(** [ping] is not in a series of pings. *)
Definition at_rest (p : ping_pc) : bool :=
  match p with PingNew | PingSelect | PingStore => true | _ => false end.

Definition round_of (p : ping_pc) : option nat :=
  match p with PingLoad k | PingSend k _ | PingSleep k => Some k | _ => None end.

Record obs_ok (o : observer) : Prop := {
  ok_new_ping : pinger o = PingNew <-> is_new o = true;
  ok_new_cancel : canceller o = CancelNew <-> is_new o = true;
  ok_closed : closed o = past_close (canceller o);
  ok_cancelled : past_wait (canceller o) = true -> cancelled o = true;
  ok_active : active o = false -> cancelled o = true;
  ok_rest : at_rest (pinger o) = true -> expired o = true -> canceller o = CancelDone;
  ok_round : forall k, round_of (pinger o) = Some k -> (k < MaxRetransmit)%nat;
  ok_msgID : 0 <= msgID o < 65536;
  ok_done : handler o = HandleDone -> closed o = true
}.

(** What the other goroutines see of an observer. *)
Definition view_of (o : observer) : bytes * bool * bool := (o_id o, cancelled o, is_new o).

#[local] Arguments ping_round : simpl never.

Section Local.
Variable nats_matches : bytes -> bytes -> bool.

Lemma LoadMessageID_range o : 0 <= LoadMessageID o < 65536.
Proof. clear nats_matches. by apply Z.mod_pos_bound. Qed.

Lemma ping_round_lt k j : round_of (ping_round k) = Some j -> (j < MaxRetransmit)%nat.
Proof.
  clear nats_matches. unfold ping_round. destruct (Nat.ltb_spec k MaxRetransmit); [|done].
  by intros [= ->].
Qed.

Lemma at_rest_round k : at_rest (ping_round k) = false.
Proof. clear nats_matches. unfold ping_round. by case_match. Qed.

Lemma ping_round_new k : ping_round k <> PingNew.
Proof. clear nats_matches. unfold ping_round. by case_match. Qed.

Hint Resolve LoadMessageID_range ping_round_lt ping_round_new : core.

(** Every step of a goroutine keeps the invariant and the view. *)
Lemma local_step_ok i o l o' es :
  local_step nats_matches i o l = Some (Next o' es) -> obs_ok o ->
  obs_ok o' /\ view_of o' = view_of o /\ o_msg o' = o_msg o /\ o_subject o' = o_subject o.
Proof.
  intros Hl [Hnp Hnc Hcl Hca Hac Hre Hro Hm Hd].
  destruct o as [msg id sj e n c cl a k h p q]; simpl in *.
  destruct l; unfold local_step in Hl; simpl in Hl; repeat case_match; simplify_eq/=;
    (split; [constructor; simpl in *; unfold is_new in *; simpl in *|done]);
    zbool; subst; try rewrite at_rest_round in *; eauto using ping_round_lt;
    repeat match goal with |- context [ping_round ?k] =>
      pose proof (ping_round_new k); generalize dependent (ping_round k); intros end;
    try (intros ? [= <-]; unfold MaxRetransmit; lia); intuition congruence.
Qed.
End Local.

(** ** The map, the requests and the observers *)

Definition task_observer (t : task) : option nat :=
  match t with TPut i _ | TSpawn i _ => Some i | _ => None end.

(** An observer that is not cancelled is in the map under its identifier, or
    about to be put there; the map holds nothing else.  An observer whose
    goroutines were not started belongs to one request in progress. *)
Record owner_inv (m : gmap bytes nat) (vs : list (bytes * bool * bool)) (ts : gmap nat task) : Prop := {
  own_map : forall id i, m !! id = Some i ->
    (exists new, vs !! i = Some (id, false, new)) /\ (forall k c, ts !! k <> Some (TPut i c));
  own_live : forall i id new, vs !! i = Some (id, false, new) ->
    m !! id = Some i \/ exists k c, ts !! k = Some (TPut i c);
  own_new : forall i id b, vs !! i = Some (id, b, true) ->
    exists k t, ts !! k = Some t /\ task_observer t = Some i;
  own_put : forall k i c, ts !! k = Some (TPut i c) -> exists id, vs !! i = Some (id, false, true);
  own_spawn : forall k i c, ts !! k = Some (TSpawn i c) -> exists id b, vs !! i = Some (id, b, true);
  own_unique : forall k t k' t' i, ts !! k = Some t -> ts !! k' = Some t' ->
    task_observer t = Some i -> task_observer t' = Some i -> k = k';
  own_sub : forall k msg o, ts !! k = Some (TSubscribe msg o) -> is_Some (ob_subscribe o)
}.

Definition cancel_view (v : bytes * bool * bool) : bytes * bool * bool := (fst (fst v), true, snd v).
Definition start_view (v : bytes * bool * bool) : bytes * bool * bool := (fst v, false).

Lemma lookup_alter_view {A} (f : A -> A) i (l : list A) j :
  alter f i l !! j = if decide (i = j) then f <$> l !! j else l !! j.
Proof.
  case_decide as H; [subst; apply list_lookup_alter_eq|by apply list_lookup_alter_ne].
Qed.

(** Lookups in changed maps and lists. *)
Ltac lookups :=
  repeat match goal with
  | H : alter _ _ _ !! _ = Some _ |- _ => rewrite lookup_alter_view in H; case_decide; subst
  | H : _ <$> _ = Some _ |- _ => apply fmap_Some in H as (? & ? & ?)
  | H : <[_ := _]> _ !! _ = Some _ |- _ => apply lookup_insert_Some in H as [[? ?]|[? H]]; subst
  | H : delete _ _ !! _ = Some _ |- _ => apply lookup_delete_Some in H as [? H]
  end; simplify_eq/=.

Lemma owner_remove m vs ts id j :
  owner_inv m vs ts -> m !! id = Some j -> owner_inv (delete id m) (alter cancel_view j vs) ts.
Proof.
  intros H Hj. destruct (own_map _ _ _ H _ _ Hj) as [[new Hv] Hnp]. constructor.
  - intros id' i Hi. lookups. destruct (own_map _ _ _ H _ _ Hi) as [[new' Hv'] Hnp'].
    split; [|done]. rewrite lookup_alter_view. case_decide; [congruence|by exists new'].
  - intros i id' new' Hi. rewrite lookup_alter_view in Hi. case_decide as Hji.
    { apply fmap_Some in Hi as (v & _ & Hv2). discriminate Hv2. }
    destruct (own_live _ _ _ H _ _ _ Hi) as [Hm|]; [left|by right].
    rewrite lookup_delete_ne; [done|]. intros ->. congruence.
  - intros i id' b Hi. rewrite lookup_alter_view in Hi. case_decide; subst.
    + rewrite Hv in Hi. unfold cancel_view in Hi. simplify_eq/=. eapply (own_new _ _ _ H); eassumption.
    + eapply (own_new _ _ _ H); eassumption.
  - intros k i c Hk. destruct (own_put _ _ _ H _ _ _ Hk) as [id' Hi]. exists id'.
    rewrite lookup_alter_view. case_decide; [|done]. subst. by destruct (Hnp k c).
  - intros k i c Hk. destruct (own_spawn _ _ _ H _ _ _ Hk) as (id' & b & Hi).
    rewrite lookup_alter_view. case_decide; subst; [|by eauto]. rewrite Hi. simpl. by eexists _, _.
  - apply H.
  - apply H.
Qed.

Lemma owner_put m vs ts k i c id b :
  owner_inv m vs ts -> m !! id = None -> ts !! k = Some (TPut i c) -> vs !! i = Some (id, false, b) ->
  owner_inv (<[id := i]> m) vs (<[k := TSpawn i c]> ts).
Proof.
  intros H Hm Hk Hi. destruct (own_put _ _ _ H _ _ _ Hk) as [id' Hi']. simplify_eq.
  assert (Hother : forall k' c', k' <> k -> ts !! k' <> Some (TPut i c')).
  { intros k' c' Hne Hk'. apply Hne. by apply (own_unique _ _ _ H k' (TPut i c') k (TPut i c) i). }
  constructor.
  - intros id2 i2 H2. lookups.
    + split; [by eexists|]. intros k' c' Hk'. lookups. by eapply Hother.
    + destruct (own_map _ _ _ H _ _ H2) as [? Hnp]. split; [done|].
      intros k' c' Hk'. lookups. by eapply Hnp.
  - intros i2 id2 new Hv. destruct (own_live _ _ _ H _ _ _ Hv) as [Hm2|(k2 & c2 & Hk2)].
    + left. rewrite lookup_insert_ne; [done|]. intros ->. congruence.
    + destruct (decide (k2 = k)) as [->|Hne]; simplify_eq.
      * left. by rewrite lookup_insert_eq.
      * right. exists k2, c2. by rewrite lookup_insert_ne.
  - intros i2 id2 b2 Hv. destruct (own_new _ _ _ H _ _ _ Hv) as (k2 & t & Hk2 & Ht).
    destruct (decide (k2 = k)) as [->|Hne]; simplify_eq/=.
    + exists k, (TSpawn i2 c). by rewrite lookup_insert_eq.
    + exists k2, t. by rewrite lookup_insert_ne.
  - intros k2 i2 c2 H2. lookups. eapply (own_put _ _ _ H); eassumption.
  - intros k2 i2 c2 H2. lookups; [by eexists _, _|]. eapply (own_spawn _ _ _ H); eassumption.
  - intros k1 t1 k2 t2 i2 H1 H2 Ho1 Ho2.
    assert (Hold : forall k' t', <[k := TSpawn i c]> ts !! k' = Some t' -> task_observer t' = Some i2 ->
      exists t'', ts !! k' = Some t'' /\ task_observer t'' = Some i2).
    { intros k' t' Hk' Ht'. lookups; eauto. }
    destruct (Hold _ _ H1 Ho1) as (? & ? & ?), (Hold _ _ H2 Ho2) as (? & ? & ?).
    eapply (own_unique _ _ _ H); eassumption.
  - intros k2 msg o H2. lookups. eapply (own_sub _ _ _ H); eassumption.
Qed.

Definition no_observer (x : option task) : Prop := forall t, x = Some t -> task_observer t = None.

Lemma owner_task m vs ts k x :
  owner_inv m vs ts -> no_observer (ts !! k) -> no_observer x ->
  (forall msg o, x = Some (TSubscribe msg o) -> is_Some (ob_subscribe o)) ->
  owner_inv m vs (partial_alter (fun _ => x) k ts).
Proof.
  intros H Hold Hnew Hsub.
  assert (Hs : forall k' t, partial_alter (fun _ => x) k ts !! k' = Some t -> task_observer t <> None ->
    ts !! k' = Some t).
  { intros k' t Hk' Ht. destruct (decide (k = k')) as [<-|]; [|by rewrite lookup_partial_alter_ne in Hk'].
    rewrite lookup_partial_alter_eq in Hk'. by destruct Ht; apply Hnew. }
  assert (Ht : forall k' t, ts !! k' = Some t -> task_observer t <> None ->
    partial_alter (fun _ => x) k ts !! k' = Some t).
  { intros k' t Hk' Ht. rewrite lookup_partial_alter_ne; [done|]. intros ->. by destruct Ht; apply Hold. }
  constructor.
  - intros id i Hi. destruct (own_map _ _ _ H _ _ Hi) as [? Hnp]. split; [done|].
    intros k' c Hk'. eapply Hnp, Hs; [eassumption|done].
  - intros i id new Hv. destruct (own_live _ _ _ H _ _ _ Hv) as [|(k' & c & Hk')]; [by left|right].
    exists k', c. by apply Ht.
  - intros i id b Hv. destruct (own_new _ _ _ H _ _ _ Hv) as (k' & t & Hk' & Hto).
    exists k', t. split; [|done]. apply Ht; [done|by rewrite Hto].
  - intros k' i c Hk'. eapply (own_put _ _ _ H), Hs; [eassumption|done].
  - intros k' i c Hk'. eapply (own_spawn _ _ _ H), Hs; [eassumption|done].
  - intros k1 t1 k2 t2 i H1 H2 Ho1 Ho2.
    eapply (own_unique _ _ _ H); [apply Hs..| |]; try eassumption; by rewrite ?Ho1, ?Ho2.
  - intros k' msg o Hk'. destruct (decide (k = k')) as [<-|].
    + rewrite lookup_partial_alter_eq in Hk'. by eapply Hsub.
    + rewrite lookup_partial_alter_ne in Hk' by done. eapply (own_sub _ _ _ H); eassumption.
Qed.

Lemma owner_create m vs ts k t id c :
  owner_inv m vs ts -> ts !! k = Some t -> task_observer t = None ->
  owner_inv m (vs ++ [(id, false, true)]) (<[k := TPut (length vs) c]> ts).
Proof.
  intros H Hk Ht.
  assert (Hin : forall i v, vs !! i = Some v -> (vs ++ [(id, false, true)]) !! i = Some v).
  { intros i v Hv. by apply lookup_app_l_Some. }
  assert (Hlt : forall k' t' i, ts !! k' = Some t' -> task_observer t' = Some i -> (i < length vs)%nat).
  { intros k' t' i Hk' Hi. destruct t'; simplify_eq/=.
    - destruct (own_put _ _ _ H _ _ _ Hk') as [? Hv]. by eapply lookup_lt_Some.
    - destruct (own_spawn _ _ _ H _ _ _ Hk') as (? & ? & Hv). by eapply lookup_lt_Some. }
  assert (Hkeep : forall k' t', ts !! k' = Some t' -> task_observer t' <> None ->
    <[k := TPut (length vs) c]> ts !! k' = Some t').
  { intros k' t' Hk' Ht'. rewrite lookup_insert_ne; [done|]. congruence. }
  constructor.
  - intros id' i Hi. destruct (own_map _ _ _ H _ _ Hi) as [[new Hv] Hnp]. split; [eauto|].
    intros k' c' Hk'. lookups; [|by eapply Hnp]. by apply lookup_lt_Some, Nat.lt_irrefl in Hv.
  - intros i id' new Hv. apply lookup_app_Some in Hv as [Hv|[Hle Hv]].
    + destruct (own_live _ _ _ H _ _ _ Hv) as [?|(k' & c' & Hk')]; [by left|right; eauto 6].
    + right. apply list_lookup_singleton_Some in Hv as [Hi _]. exists k, c.
      rewrite lookup_insert_eq. repeat f_equal. lia.
  - intros i id' b Hv. apply lookup_app_Some in Hv as [Hv|[Hle Hv]].
    + destruct (own_new _ _ _ H _ _ _ Hv) as (k' & t' & Hk' & Ht'). exists k', t'.
      split; [|done]. apply Hkeep; [done|by rewrite Ht'].
    + apply list_lookup_singleton_Some in Hv as [Hi _]. exists k, (TPut (length vs) c).
      rewrite lookup_insert_eq. split; [done|]. simpl. f_equal. lia.
  - intros k' i c' Hk'. lookups.
    + exists id. rewrite lookup_app_r, Nat.sub_diag by done. done.
    + destruct (own_put _ _ _ H _ _ _ Hk') as [id' Hv]. eauto.
  - intros k' i c' Hk'. lookups. destruct (own_spawn _ _ _ H _ _ _ Hk') as (id' & b & Hv). eauto.
  - intros k1 t1 k2 t2 i H1 H2 Ho1 Ho2. lookups; simplify_eq/=; try done.
    + pose proof (Hlt _ _ _ H1 Ho1). lia.
    + pose proof (Hlt _ _ _ H2 Ho2). lia.
    + eapply (own_unique _ _ _ H); eassumption.
  - intros k' msg o Hk'. lookups. eapply (own_sub _ _ _ H); eassumption.
Qed.

Lemma owner_start m vs ts k i c :
  owner_inv m vs ts -> ts !! k = Some (TSpawn i c) ->
  owner_inv m (alter start_view i vs) (delete k ts).
Proof.
  intros H Hk. destruct (own_spawn _ _ _ H _ _ _ Hk) as (id & b & Hi).
  assert (Hv : forall j v, alter start_view i vs !! j = Some v ->
    exists new, vs !! j = Some (fst v, new) /\ (j = i -> snd v = false) /\ (j <> i -> new = snd v)).
  { intros j [v x] Hj. rewrite lookup_alter_view in Hj. case_decide; subst.
    - rewrite Hi in Hj. unfold start_view in Hj. simplify_eq/=. exists true. by split_and!.
    - exists x. split_and!; [done|congruence|done]. }
  assert (Hother : forall k' t, ts !! k' = Some t -> task_observer t = Some i -> k' = k).
  { intros k' t Hk' Ht. by apply (own_unique _ _ _ H k' t k (TSpawn i c) i). }
  constructor.
  - intros id' j Hj. destruct (own_map _ _ _ H _ _ Hj) as [[new Hvj] Hnp]. split.
    + rewrite lookup_alter_view. case_decide; [rewrite Hvj; by eexists|by exists new].
    + intros k' c' Hk'. lookups. by eapply Hnp.
  - intros j id' new Hj. destruct (Hv _ _ Hj) as (new' & Hvj & _).
    destruct (own_live _ _ _ H _ _ _ Hvj) as [?|(k' & c' & Hk')]; [by left|right].
    exists k', c'. rewrite lookup_delete_ne; [done|]. intros ->. congruence.
  - intros j id' b' Hj. destruct (Hv _ _ Hj) as (new' & Hvj & Hji & Hne).
    destruct (decide (j = i)) as [->|Hji']; [by specialize (Hji eq_refl)|].
    rewrite (Hne Hji') in Hvj. destruct (own_new _ _ _ H _ _ _ Hvj) as (k' & t & Hk' & Ht).
    exists k', t. split; [|done]. rewrite lookup_delete_ne; [done|]. intros ->. simplify_eq/=.
  - intros k' j c' Hk'. lookups. destruct (own_put _ _ _ H _ _ _ Hk') as [id' Hj]. exists id'.
    rewrite lookup_alter_view. case_decide; [|done]. subst.
    by pose proof (Hother _ _ Hk' eq_refl).
  - intros k' j c' Hk'. lookups. destruct (own_spawn _ _ _ H _ _ _ Hk') as (id' & b' & Hj).
    exists id', b'. rewrite lookup_alter_view. case_decide; [|done]. subst.
    by pose proof (Hother _ _ Hk' eq_refl).
  - intros k1 t1 k2 t2 j H1 H2 Ho1 Ho2. lookups. eapply (own_unique _ _ _ H); eassumption.
  - intros k' msg o Hk'. lookups. eapply (own_sub _ _ _ H); eassumption.
Qed.

(** ** The service *)

Record inv (s : service) : Prop := {
  inv_obs : forall i o, observers s !! i = Some o -> obs_ok o;
  inv_owner : owner_inv (obs s) (view_of <$> observers s) (tasks s)
}.

Lemma upd_observers i f s : observers (upd i f s) = alter f i (observers s).
Proof. by destruct s. Qed.

Lemma views_alter i f g (l : list observer) :
  (forall o, l !! i = Some o -> view_of (f o) = g (view_of o)) ->
  view_of <$> alter f i l = alter g i (view_of <$> l).
Proof.
  intros H. apply list_eq. intros j. rewrite list_lookup_fmap, !lookup_alter_view, list_lookup_fmap.
  case_decide; [subst j|done]. destruct (l !! i) as [o|] eqn:E; [|done]. simpl. by rewrite H.
Qed.

Lemma alter_same {A} (f : A -> A) i (l : list A) : (forall x, l !! i = Some x -> f x = x) -> alter f i l = l.
Proof.
  intros H. apply list_eq. intros j. rewrite lookup_alter_view. case_decide; [subst j|done].
  destruct (l !! i) eqn:E; [|done]. simpl. by rewrite H.
Qed.

Lemma obs_ok_upd i f (l : list observer) :
  (forall j o, l !! j = Some o -> obs_ok o) -> (forall o, l !! i = Some o -> obs_ok o -> obs_ok (f o)) ->
  forall j o, alter f i l !! j = Some o -> obs_ok o.
Proof.
  intros Hl Hf j o. rewrite lookup_alter_view. case_decide; [subst j|by apply Hl].
  intros (o' & Ho & ->)%fmap_Some. by apply Hf, Hl with i.
Qed.

(** A change of one observer that the others do not see. *)
Lemma upd_inv i f s :
  inv s -> (forall o, observers s !! i = Some o -> obs_ok o -> obs_ok (f o) /\ view_of (f o) = view_of o) ->
  inv (upd i f s).
Proof.
  intros [Ho Hw] Hf. destruct s as [m os ts r l g c]; simpl in *. constructor; simpl.
  - apply obs_ok_upd; [done|]. intros o Hi Hok. by apply Hf.
  - rewrite (views_alter i f id), alter_same; [done|done|].
    intros o Hi. apply Hf; [done|by eapply Ho].
Qed.

Lemma add_log_inv es s : inv s -> inv (add_log es s).
Proof. destruct s. by intros [? ?]. Qed.

Lemma crash_inv p s : inv s -> inv (crash p s).
Proof. destruct s. by intros [? ?]. Qed.

Lemma set_responses_inv r s : inv s -> inv (set_responses r s).
Proof. destruct s. by intros [? ?]. Qed.

Lemma set_listener_inv l s : inv s -> inv (set_listener l s).
Proof. destruct s. by intros [? ?]. Qed.

#[local] Hint Resolve add_log_inv crash_inv set_responses_inv set_listener_inv : core.

Lemma set_expired_ok o : obs_ok o -> obs_ok (set_expired false o).
Proof. destruct o. intros []. by constructor. Qed.

Lemma set_cancelled_ok o : obs_ok o -> obs_ok (set_cancelled o).
Proof. destruct o. intros []. by constructor. Qed.

Lemma spawn_ok o : obs_ok o -> is_new o = true -> obs_ok (spawn o).
Proof.
  destruct o as [? ? ? e ? c l ? ? h p q]. intros [Hp Hq Hcl Hca ? Hr ? ? ?]. unfold is_new, spawn in *.
  simpl in *. destruct h; [|done..]. intros _.
  rewrite (proj2 Hp eq_refl), (proj2 Hq eq_refl) in *. simpl in *.
  constructor; unfold is_new; simpl; try done.
  intros _ He. by specialize (Hr eq_refl He).
Qed.

(** Only observers in the map are cancelled, so no channel is closed twice. *)
Lemma map_observer s id j :
  inv s -> obs s !! id = Some j ->
  exists o, observers s !! j = Some o /\ o_id o = id /\ cancelled o = false.
Proof.
  intros [_ Hw] Hj. destruct (own_map _ _ _ Hw _ _ Hj) as [[new Hv] _].
  rewrite list_lookup_fmap in Hv. apply fmap_Some in Hv as (o & Ho & Heq). unfold view_of in Heq.
  exists o. by simplify_eq.
Qed.

Lemma close_cancel_map s id j :
  inv s -> obs s !! id = Some j -> close_cancel j s = upd j set_cancelled s.
Proof.
  intros Hs Hj. destruct (map_observer _ _ _ Hs Hj) as (o & Ho & _ & Hc).
  unfold close_cancel. by rewrite Ho, Hc.
Qed.

Lemma upd_crashed i f s : crashed (upd i f s) = crashed s.
Proof. by destruct s. Qed.

Lemma remove_eq s id :
  inv s -> crashed s = None ->
  remove id s = match obs s !! id with
                | Some j => set_obs (delete id) (upd j set_cancelled s)
                | None => s
                end.
Proof.
  intros Hs Hc. unfold remove. destruct (obs s !! id) as [j|] eqn:Hj; [|done].
  by rewrite (close_cancel_map _ _ _ Hs Hj), upd_crashed, Hc.
Qed.

Lemma put_eq s id i :
  inv s -> crashed s = None -> put id i s = set_obs <[id := i]> (remove id s).
Proof.
  intros Hs Hc. rewrite remove_eq by done. unfold put. destruct (obs s !! id) as [j|] eqn:Hj.
  - rewrite (close_cancel_map _ _ _ Hs Hj), upd_crashed, Hc. destruct s; simpl. by rewrite insert_delete_eq.
  - by rewrite Hc.
Qed.

Lemma remove_inv s id :
  inv s -> crashed s = None ->
  inv (remove id s) /\ crashed (remove id s) = None /\ obs (remove id s) !! id = None /\
  tasks (remove id s) = tasks s.
Proof.
  intros Hs Hc. rewrite remove_eq by done. destruct (obs s !! id) as [j|] eqn:Hj; [|done].
  destruct Hs as [Ho Hw]. destruct s as [m os ts r l g c]; simpl in *. split_and!; try done.
  - constructor; simpl.
    + apply obs_ok_upd; [done|]. intros; by apply set_cancelled_ok.
    + rewrite (views_alter j set_cancelled cancel_view) by (by intros []). by apply owner_remove.
  - apply lookup_delete_eq.
Qed.

Lemma set_task_inv k x s :
  inv s -> no_observer (tasks s !! k) -> no_observer x ->
  (forall msg o, x = Some (TSubscribe msg o) -> is_Some (ob_subscribe o)) -> inv (set_task k x s).
Proof.
  destruct s as [m os ts r l g c]. intros [Ho Hw] Hold Hnew Hsub; simpl in *. constructor; simpl; [done|].
  by apply owner_task.
Qed.

Lemma new_observer_ok msg id subject : obs_ok (new_observer msg id subject).
Proof. by constructor. Qed.

Lemma set_task_crashed k x s : crashed (set_task k x s) = crashed s.
Proof. by destruct s. Qed.

Lemma add_log_crashed es s : crashed (add_log es s) = crashed s.
Proof. by destruct s. Qed.

(** The panic of a callback that sends to an observer whose [Messages] is
    closed. *)
Definition dead_send (p : panic) (s : service) : Prop :=
  exists i o m, p = SendOnClosed i /\ observers s !! i = Some o /\ callback o = Some m /\ closed o = true.

Section Invariant.
Variable CanAccessByKey : bytes -> bytes -> bytes + call_error.
Variable nats_matches : bytes -> bytes -> bool.

Abbreviation step := (step CanAccessByKey nats_matches).

Lemma arrive_inv k msg s :
  inv s -> crashed s = None -> tasks s !! k = None -> parsed msg = true ->
  inv (arrive CanAccessByKey k msg s) /\ crashed (arrive CanAccessByKey k msg s) = None.
Proof.
  clear nats_matches. intros Hs Hc Hk Hp. unfold arrive. pose proof (mux_total msg Hp) as Hm.
  destruct (mux msg) as [| |m|m]; [done|split; [auto|by destruct s]| |done].
  destruct (observe CanAccessByKey m) as [code|id|o]; (split; [|by destruct s]); auto.
  apply set_task_inv; [auto|by destruct s; simpl in *; rewrite Hk|by intros t [= <-]|done].
Qed.

Lemma advance_inv k t ok s :
  inv s -> crashed s = None -> tasks s !! k = Some t ->
  inv (advance k t ok s) /\ crashed (advance k t ok s) = None.
Proof.
  clear nats_matches CanAccessByKey. intros Hs Hc Hk.
  destruct t as [msg o|msg o|i code|i code]; simpl.
  - set (s1 := if ob_unsubscribe o then remove (ob_id o) s else s).
    assert (Hs1 : inv s1 /\ crashed s1 = None /\ tasks s1 = tasks s).
    { unfold s1. destruct (ob_unsubscribe o); [|done].
      by destruct (remove_inv _ (ob_id o) Hs Hc) as (? & ? & _ & ?). }
    destruct Hs1 as (Hi1 & Hc1 & Ht1).
    assert (Hold : no_observer (tasks s1 !! k)) by (rewrite Ht1, Hk; by intros t [= <-]).
    destruct (ob_subscribe o) as [[ch st]|] eqn:Ho.
    + rewrite set_task_crashed. split; [|done]. apply set_task_inv; [done..|by intros t [= <-]|].
      intros ? ? [= <- <-]. by rewrite Ho.
    + rewrite add_log_crashed, set_task_crashed. split; [|done].
      apply add_log_inv, set_task_inv; [done..| |]; by intros.
  - destruct (ob_subscribe o) as [[ch st]|] eqn:Ho; [|done]. destruct ok.
    + destruct Hs as [Hok Hw]. destruct s as [m os ts r l g c]; simpl in *. split; [|done].
      constructor; simpl.
      * intros j o' [Hj|[_ Hj]]%lookup_app_Some; [by eapply Hok|].
        apply list_lookup_singleton_Some in Hj as [_ <-]. apply new_observer_ok.
      * rewrite fmap_app. rewrite <- (length_fmap view_of os). by eapply owner_create.
    + rewrite add_log_crashed, set_task_crashed. split; [|done].
      apply add_log_inv, set_task_inv; [done|rewrite Hk; by intros t [= <-]| |]; by intros.
  - destruct (observers s !! i) as [o|] eqn:Hi; [|done]. rewrite set_task_crashed.
    rewrite put_eq by done. destruct (remove_inv _ (o_id o) Hs Hc) as ([Hok Hw] & Hc' & Hm & Ht).
    assert (Hv : (view_of <$> observers (remove (o_id o) s)) !! i = Some (o_id o, false, is_new o)).
    { rewrite <- Ht in Hk. destruct (own_put _ _ _ Hw _ _ _ Hk) as [id Hv]. rewrite Hv. f_equal.
      rewrite list_lookup_fmap in Hv. apply fmap_Some in Hv as (o' & Ho' & Hv).
      assert (Hsame : view_of o' = (o_id o, cancelled o', is_new o)); [|congruence].
      rewrite remove_eq in Ho' by done. destruct (obs s !! o_id o) as [j|] eqn:Hj; [|by simplify_eq].
      destruct s as [m os ts r l g c]; simpl in *. rewrite lookup_alter_view in Ho'. case_decide; subst.
      - rewrite Hi in Ho'. simplify_eq/=. by destruct o.
      - by simplify_eq. }
    destruct (remove (o_id o) s) as [m os ts r l g c]; simpl in *. split; [|done].
    constructor; simpl; [done|]. rewrite <- Ht in Hk. by eapply owner_put.
  - rewrite add_log_crashed, set_task_crashed, upd_crashed. split; [|done]. apply add_log_inv.
    destruct Hs as [Hok Hw]. destruct s as [m os ts r l g c]; simpl in *.
    destruct (own_spawn _ _ _ Hw _ _ _ Hk) as (id & b & Hv).
    assert (Hn : forall o, os !! i = Some o -> is_new o = true).
    { intros o Ho. rewrite list_lookup_fmap, Ho in Hv. unfold view_of in Hv. by simplify_eq/=. }
    constructor; simpl.
    + apply obs_ok_upd; [done|]. intros o Ho ?. by apply spawn_ok, Hn.
    + rewrite (views_alter i spawn start_view) by (by intros []). by eapply owner_start.
Qed.

Lemma step_inv s a s' :
  inv s -> step s a = Some s' -> inv s' /\ (forall p, crashed s' = Some p -> dead_send p s').
Proof.
  intros Hs Hst. unfold step in Hst. destruct (crashed s) eqn:Hc; [done|].
  assert (Hdone : crashed s' = None -> inv s' -> inv s' /\ (forall p, crashed s' = Some p -> dead_send p s'))
    by (intros ->; done).
  destruct a as [k msg|k ok| | |i l|i]; simpl in Hst.
  - destruct (tasks s !! k) eqn:Hk; [done|]. destruct (parsed msg) eqn:Hp; [|done]. simplify_eq.
    destruct (arrive_inv k msg s Hs Hc Hk Hp). by apply Hdone.
  - apply fmap_Some in Hst as (t & Ht & ->). destruct (advance_inv k t ok s Hs Hc Ht). by apply Hdone.
  - destruct (listener s), (responses s); simplify_eq. apply Hdone; [by destruct s|auto].
  - destruct (listener s) as [i|]; simplify_eq. apply Hdone; [by destruct s|].
    apply set_listener_inv, upd_inv; [done|]. intros [] Ho Hok. split; [by apply set_expired_ok|done].
  - destruct (observers s !! i) as [o|] eqn:Ho; [|done].
    destruct (local_step nats_matches i o l) as [[o' es|p]|] eqn:Hl; simplify_eq.
    + apply Hdone; [by destruct s|]. apply add_log_inv, upd_inv; [done|]. intros o2 Ho2 Hok. simplify_eq.
      by destruct (local_step_ok _ _ _ _ _ _ Hl Hok) as (? & ? & _).
    + split; [auto|]. intros p' Hp'. pose proof (inv_obs _ Hs _ _ Ho) as Hok.
      destruct s; simpl in *; simplify_eq. destruct l; simpl in Hl; repeat case_match; simplify_eq.
      * by eexists i, o, _.
      * exfalso. pose proof (ok_closed _ Hok) as Hcl.
        match goal with H : canceller o = _ |- _ => rewrite H in Hcl end. simpl in Hcl. congruence.
  - destruct (observers s !! i) as [o|] eqn:Ho; [|done]. destruct (pinger o) eqn:Hp; simplify_eq.
    destruct (remove_inv _ (o_id o) Hs Hc) as (Hi & Hc' & _). apply Hdone; [by rewrite upd_crashed|].
    apply upd_inv; [done|]. intros o2 Ho2 Hok.
    assert (Hp2 : pinger o2 = PingRemove).
    { rewrite remove_eq in Ho2 by done. destruct (obs s !! o_id o) as [j|]; [|by simplify_eq].
      destruct s; simpl in *. rewrite lookup_alter_view in Ho2. case_decide; [|by simplify_eq].
      rewrite Ho in Ho2. simpl in Ho2. simplify_eq. by destruct o. }
    clear Hdone. destruct o2, Hok; simpl in *; subst. split; [|done].
    constructor; simpl; try done. split; [done|]. intros Hn. by apply ok_new_ping0 in Hn.
Qed.

Lemma init_inv : inv init.
Proof. clear. constructor; [done|]. constructor; intros; simpl in *; simplify_map_eq. Qed.

Lemma reachable_inv s : reachable CanAccessByKey nats_matches s -> inv s.
Proof. induction 1 as [|s a s' _ IH Hst]; [apply init_inv|by apply (step_inv _ _ _ IH Hst)]. Qed.

Lemma reachable_crashed s p :
  reachable CanAccessByKey nats_matches s -> crashed s = Some p -> dead_send p s.
Proof.
  intros Hr Hp. destruct Hr as [|s a s' Hr Hst]; [done|].
  by apply (step_inv _ _ _ (reachable_inv _ Hr) Hst).
Qed.
End Invariant.
