(* ===== verification/CoapHistory.v ===== *)
(** * What an observer is sent

    Invariants between the log and the observers: what NATS delivered to an
    observer against what its client was sent, the message ids of both senders,
    and the request an observer comes from. *)

From S2P Require Import Prelude JsString GoCodec Subtopics GoAdapters CoapMessage CoapObserve CoapSafety.

Local Open Scope Z_scope.

Lemma sublist_same_length {A} (l k : list A) : l `sublist_of` k -> length l = length k -> l = k.
Proof.
  induction 1 as [|x l k _ IH|x l k H _]; simpl; intros Hl; [done|by rewrite IH by lia|].
  apply sublist_length in H. lia.
Qed.

(** ** Reading the log *)

(** What a message and a notification have in common. *)
Definition content : Type := bytes * list option_value.

Definition message_content (m : GoMessage) : content :=
  (Payload m, [OMedia (coapCT (ContentType m))]).
Definition packet_content (p : coap_packet) : content := (c_payload p, Options OptContentFormat p).

Definition deliveries_of (i : nat) (e : entry) : option (bytes * GoMessage) :=
  match e with Delivered j subject m => if decide (j = i) then Some (subject, m) else None | _ => None end.
Definition notification_of (i : nat) (e : entry) : option coap_packet :=
  match e with Notified j p => if decide (j = i) then Some p else None | _ => None end.
Definition frame_of (i : nat) (e : entry) : option coap_packet :=
  match e with
  | Notified j p | Pinged j p => if decide (j = i) then Some p else None
  | _ => None
  end.

(** Oldest first. *)
Definition delivered (i : nat) (g : list entry) : list (bytes * GoMessage) := omap (deliveries_of i) (reverse g).
Definition notified (i : nat) (g : list entry) : list coap_packet := omap (notification_of i) (reverse g).
Definition frames (i : nat) (g : list entry) : list coap_packet := omap (frame_of i) (reverse g).

(** The messages a client has not been sent yet. *)
Definition owed (o : observer) : list content :=
  match handler o with
  | HandleLoad _ m => [message_content m]
  | HandleSend p => [packet_content p]
  | _ => []
  end ++ match callback o with Some m => [message_content m] | None => [] end.

(** Packets with a message id that are not sent yet. *)
Definition notify_pending (o : observer) : list Z :=
  match handler o with HandleSend p => [c_id p] | _ => [] end.
Definition ping_pending (o : observer) : list Z :=
  match pinger o with PingSend _ id => [id] | _ => [] end.

Definition wrap (n : nat) : Z := Z.of_nat n mod 65536.
(** The first [n] message ids. *)
Definition first_ids (n : nat) : list Z := wrap <$> seq 1 n.

Definition allocated (i : nat) (o : observer) (g : list entry) : list Z :=
  (c_id <$> frames i g) ++ notify_pending o ++ ping_pending o.

(** A packet for the client of a request: its token and path, without the query
    that holds the key. *)
Definition shaped (msg p : coap_packet) : Prop :=
  c_token p = c_token msg /\ Options OptURIQuery p = [] /\ Options OptURIPath p = Options OptURIPath msg.

(** The Observe option of a notification is its message id. *)
Definition numbered (p : coap_packet) : Prop := Options OptObserve p = [OBytes (observeVal (c_id p))].

Definition handler_shaped (o : observer) : Prop :=
  match handler o with
  | HandleRecv n | HandleLoad n _ => shaped (o_msg o) n
  | HandleSend n => shaped (o_msg o) n /\ numbered n
  | _ => True
  end.

Record history_ok (i : nat) (o : observer) (g : list entry) : Prop := {
  h_fifo : (packet_content <$> notified i g) ++ owed o = message_content <$> (snd <$> delivered i g);
  h_msgID : msgID o = wrap (length (allocated i o g));
  h_ids : allocated i o g ≡ₚ first_ids (length (allocated i o g));
  h_order : (c_id <$> notified i g) ++ notify_pending o `sublist_of` first_ids (length (allocated i o g));
  h_shape : Forall (shaped (o_msg o)) (frames i g);
  h_numbered : Forall numbered (notified i g);
  h_handler : handler_shaped o
}.

Lemma omap_reverse_cons {A B} (f : A -> option B) x l :
  omap f (reverse (x :: l)) = omap f (reverse l) ++ option_list (f x).
Proof. by rewrite reverse_cons, omap_app. Qed.

Lemma first_ids_S n : first_ids (S n) = first_ids n ++ [wrap (S n)].
Proof. unfold first_ids. by rewrite seq_S, fmap_app. Qed.

Lemma wrap_S n : (wrap n + 1) mod 65536 = wrap (S n).
Proof. unfold wrap. rewrite Nat2Z.inj_succ, Zplus_mod_idemp_l. done. Qed.

(** ** Local steps *)

Lemma notify_fill_content n m id : packet_content (notify_fill n m id) = message_content m.
Proof.
  unfold notify_fill, packet_content, message_content. rewrite Options_SetOption.
  by rewrite bool_decide_true by done.
Qed.

Lemma notify_fill_id n m id : c_id (notify_fill n m id) = id.
Proof. done. Qed.

(** An entry about another observer, or about none, changes nothing. *)
Definition silent (i : nat) (e : entry) : Prop :=
  deliveries_of i e = None /\ notification_of i e = None /\ frame_of i e = None.

Lemma history_silent i o es g : Forall (silent i) es -> history_ok i o g -> history_ok i o (es ++ g).
Proof.
  induction 1 as [|e es (H1 & H2 & H3) _ IH]; [done|]. intros H. destruct (IH H) as [F M I O P N Q].
  assert (Hd : delivered i (e :: es ++ g) = delivered i (es ++ g))
    by (unfold delivered; by rewrite omap_reverse_cons, H1, app_nil_r).
  assert (Hn : notified i (e :: es ++ g) = notified i (es ++ g))
    by (unfold notified; by rewrite omap_reverse_cons, H2, app_nil_r).
  assert (Hf : frames i (e :: es ++ g) = frames i (es ++ g))
    by (unfold frames; by rewrite omap_reverse_cons, H3, app_nil_r).
  constructor; unfold allocated in *; simpl; by rewrite ?Hd, ?Hn, ?Hf.
Qed.

(** A change that keeps what is owed and pending, and the counter. *)
Lemma history_same i o o' g :
  history_ok i o g -> owed o' = owed o -> notify_pending o' = notify_pending o ->
  ping_pending o' = ping_pending o -> msgID o' = msgID o -> o_msg o' = o_msg o ->
  (handler_shaped o -> handler_shaped o') -> history_ok i o' g.
Proof.
  intros [F M I O P N Q] H1 H2 H3 H4 H5 H6. constructor; unfold allocated in *;
    rewrite ?H1, ?H2, ?H3, ?H4, ?H5; auto.
Qed.

(** One more message id. *)
Lemma history_load i o g l k :
  history_ok i o g -> l ≡ₚ wrap (S k) :: allocated i o g -> k = length (allocated i o g) ->
  length l = S k /\ l ≡ₚ first_ids (length l).
Proof.
  intros [_ _ I _ _ _ _] Hl ->. pose proof (Permutation_length Hl) as Hlen. split; [done|].
  rewrite Hlen. simpl. rewrite first_ids_S, Hl, <- I. by rewrite Permutation_cons_append.
Qed.

Lemma frames_notified i p g : frames i (Notified i p :: g) = frames i g ++ [p].
Proof. unfold frames. rewrite omap_reverse_cons. simpl. by rewrite decide_True. Qed.
Lemma frames_pinged i p g : frames i (Pinged i p :: g) = frames i g ++ [p].
Proof. unfold frames. rewrite omap_reverse_cons. simpl. by rewrite decide_True. Qed.
Lemma frames_delivered i j su m g : frames i (Delivered j su m :: g) = frames i g.
Proof. unfold frames. rewrite omap_reverse_cons. simpl. by rewrite app_nil_r. Qed.
Lemma notified_notified i p g : notified i (Notified i p :: g) = notified i g ++ [p].
Proof. unfold notified. rewrite omap_reverse_cons. simpl. by rewrite decide_True. Qed.
Lemma notified_pinged i j p g : notified i (Pinged j p :: g) = notified i g.
Proof. unfold notified. rewrite omap_reverse_cons. simpl. by rewrite app_nil_r. Qed.
Lemma notified_delivered i j su m g : notified i (Delivered j su m :: g) = notified i g.
Proof. unfold notified. rewrite omap_reverse_cons. simpl. by rewrite app_nil_r. Qed.
Lemma delivered_delivered i su m g : delivered i (Delivered i su m :: g) = delivered i g ++ [(su, m)].
Proof. unfold delivered. rewrite omap_reverse_cons. simpl. by rewrite decide_True. Qed.
Lemma delivered_notified i j p g : delivered i (Notified j p :: g) = delivered i g.
Proof. unfold delivered. rewrite omap_reverse_cons. simpl. by rewrite app_nil_r. Qed.
Lemma delivered_pinged i j p g : delivered i (Pinged j p :: g) = delivered i g.
Proof. unfold delivered. rewrite omap_reverse_cons. simpl. by rewrite app_nil_r. Qed.

Create Rewrite HintDb histdb.
#[export] Hint Rewrite frames_notified frames_pinged frames_delivered notified_notified notified_pinged
  notified_delivered delivered_delivered delivered_notified delivered_pinged : histdb.

Lemma fill_shaped msg n m id : shaped msg n -> shaped msg (notify_fill n m id).
Proof.
  intros (H1 & H2 & H3). unfold shaped, notify_fill.
  rewrite !Options_SetOption. rewrite !bool_decide_false by done. by split_and!.
Qed.

Lemma fill_numbered n m id : numbered (notify_fill n m id).
Proof.
  unfold numbered, notify_fill. rewrite !Options_SetOption.
  by rewrite bool_decide_false, bool_decide_true by done.
Qed.

Lemma init_shaped msg : shaped msg (notify_init msg).
Proof.
  unfold shaped, notify_init. rewrite !Options_RemoveOption. by rewrite bool_decide_true, bool_decide_false.
Qed.

Lemma ping_shaped msg id : shaped msg (pingMsg msg id).
Proof.
  unfold shaped, pingMsg. rewrite !Options_RemoveOption. by rewrite bool_decide_true, bool_decide_false.
Qed.

Lemma history_deliver i o su m g :
  callback o = None -> history_ok i o g -> history_ok i (set_callback (Some m) o) (Delivered i su m :: g).
Proof.
  intros Hc [F M I O P N Q]. destruct o; simpl in *; subst.
  constructor; unfold allocated, owed in *; autorewrite with histdb; simpl in *; try done.
  rewrite !fmap_app, <- F. simpl. by rewrite app_nil_r, app_assoc.
Qed.

Lemma history_notify_load i o n m g :
  handler o = HandleLoad n m -> history_ok i o g ->
  history_ok i (set_handler (HandleSend (notify_fill n m (LoadMessageID o))) (set_msgID (LoadMessageID o) o)) g.
Proof.
  intros Hh H. destruct (H) as [F M I O P N Q]. set (o' := set_handler _ _).
  assert (Hid : LoadMessageID o = wrap (S (length (allocated i o g)))).
  { unfold LoadMessageID. by rewrite M, wrap_S. }
  assert (Hp : allocated i o' g ≡ₚ wrap (S (length (allocated i o g))) :: allocated i o g).
  { rewrite <- Hid. unfold o', allocated, notify_pending, ping_pending. destruct o; simpl in *; subst.
    by rewrite Permutation_middle. }
  destruct (history_load i o g _ _ H Hp eq_refl) as [Hl Hids]. constructor; [|by rewrite Hl; subst o'; destruct o|done| |by subst o'; destruct o|done|].
  - unfold o', owed in *. destruct o; simpl in *; subst. by rewrite notify_fill_content.
  - rewrite Hl, first_ids_S. unfold o', notify_pending in *. destruct o; simpl in *; subst.
    rewrite app_nil_r in O. simpl in Hid. rewrite <- Hid. by apply sublist_app.
  - unfold o', handler_shaped in *. rewrite Hh in Q. destruct o; simpl in *; subst.
    split; [by apply fill_shaped|apply fill_numbered].
Qed.

Lemma history_ping_load i o k g :
  pinger o = PingLoad k -> history_ok i o g ->
  history_ok i (set_pinger (PingSend k (LoadMessageID o)) (set_msgID (LoadMessageID o) o)) g.
Proof.
  intros Hh H. destruct (H) as [F M I O P N Q]. set (o' := set_pinger _ _).
  assert (Hid : LoadMessageID o = wrap (S (length (allocated i o g)))).
  { unfold LoadMessageID. by rewrite M, wrap_S. }
  assert (Hp : allocated i o' g ≡ₚ wrap (S (length (allocated i o g))) :: allocated i o g).
  { rewrite <- Hid. unfold o', allocated, notify_pending, ping_pending. destruct o; simpl in *; subst.
    rewrite !app_assoc, app_nil_r. apply Permutation_app_comm. }
  destruct (history_load i o g _ _ H Hp eq_refl) as [Hl Hids]. constructor; [|by rewrite Hl; subst o'; destruct o|done| |by subst o'; destruct o|done|].
  - unfold o', owed in *. by destruct o.
  - rewrite Hl, first_ids_S. unfold o', notify_pending in *. destruct o; simpl in *; subst.
    by apply sublist_inserts_r.
  - unfold o', handler_shaped in *. by destruct o.
Qed.

Lemma history_sent i o o' g g' p :
  history_ok i o g -> o_msg o' = o_msg o -> frames i g' = frames i g ++ [p] -> shaped (o_msg o) p ->
  Forall numbered (notified i g') -> handler_shaped o' -> msgID o' = msgID o -> allocated i o' g' ≡ₚ allocated i o g ->
  (packet_content <$> notified i g') ++ owed o' = (packet_content <$> notified i g) ++ owed o ->
  delivered i g' = delivered i g ->
  (c_id <$> notified i g') ++ notify_pending o' = (c_id <$> notified i g) ++ notify_pending o ->
  history_ok i o' g'.
Proof.
  intros [F M I O P N Q] Ho Hfr Hp Hnu Hs Hm Ha Hf Hd Hn. pose proof (Permutation_length Ha) as Hl.
  constructor; rewrite ?Hl, ?Hm, ?Hf, ?Hd, ?Hn, ?Ha, ?Ho; try done.
  rewrite Hfr. by apply Forall_app; split; [|constructor].
Qed.

Lemma handler_send_shaped i o g n :
  history_ok i o g -> handler o = HandleSend n -> shaped (o_msg o) n /\ numbered n.
Proof. intros H Hn. pose proof (h_handler _ _ _ H) as Q. unfold handler_shaped in Q. by rewrite Hn in Q. Qed.

Lemma local_step_history nm i o l o' es g :
  local_step nm i o l = Some (Next o' es) -> history_ok i o g -> history_ok i o' (es ++ g).
Proof.
  intros Hl H. destruct l; unfold local_step in Hl; repeat case_match; simplify_eq; simpl;
    try done; try (by apply (history_same _ o); [|destruct o; simpl in *; subst..]).
  - by apply history_deliver.
  - by apply history_notify_load.
  - apply history_sent with o g n; [done|by destruct o|by autorewrite with histdb| | | |by destruct o| |..].
    { by eapply handler_send_shaped. }
    { autorewrite with histdb. apply Forall_app. split; [apply H|].
      constructor; [by eapply handler_send_shaped|done]. }
    { unfold handler_shaped. destruct (handler_send_shaped _ _ _ n H ltac:(done)). by destruct o. }
    all: destruct o; simpl in *; subst.
    all: unfold allocated, notify_pending, owed; autorewrite with histdb.
    + rewrite fmap_app. simpl. by rewrite <- app_assoc.
    + simpl. by rewrite fmap_app, <- app_assoc.
    + done.
    + simpl. by rewrite fmap_app, app_nil_r.
  - by apply history_ping_load.
  - apply history_sent with o g (pingMsg (o_msg o) id);
      [done|by destruct o|by autorewrite with histdb|apply ping_shaped| | |by destruct o| |..].
    { autorewrite with histdb. apply H. }
    { pose proof (h_handler _ _ _ H). by destruct o. }
    all: destruct o; simpl in *; subst.
    all: unfold allocated, notify_pending, ping_pending, owed; autorewrite with histdb; try done.
    rewrite fmap_app. simpl. rewrite app_nil_r, <- app_assoc.
    apply Permutation_app_head, Permutation_app_comm.
  - apply (history_same _ o); [done|destruct o; simpl in *; subst; try done..].
    unfold ping_round. by destruct (S i0 <? MaxRetransmit)%nat.
Qed.

(** ** The service *)

(** The observers an entry and a request are about. *)
Definition entry_observer (e : entry) : option nat :=
  match e with
  | Delivered i _ _ | Notified i _ | Pinged i _ => Some i
  | _ => None
  end.

Definition entry_in (n : nat) (e : entry) : Prop := forall i, entry_observer e = Some i -> (i < n)%nat.

Section History.
Variable CanAccessByKey : bytes -> bytes -> bytes + call_error.
Variable nats_matches : bytes -> bytes -> bool.

(** A request that was checked and asked for an observation, with the identifier
    and the subject of the observation. *)
Definition granted (g : list entry) (msg : coap_packet) (obsID subject : bytes) : Prop :=
  exists o ch st, Requested msg (Proceed o) ∈ g /\ ob_id o = obsID /\
    ob_subscribe o = Some (ch, st) /\ subject = fmtSubject ch st.

Record recorded (s : service) : Prop := {
  r_history : forall i o, observers s !! i = Some o -> history_ok i o (log s);
  r_entries : Forall (entry_in (length (observers s))) (log s);
  r_tasks : forall k t, tasks s !! k = Some t ->
    match t with
    | TUnsubscribe msg o | TSubscribe msg o => Requested msg (Proceed o) ∈ log s
    | _ => True
    end;
  r_observers : forall i o, observers s !! i = Some o -> granted (log s) (o_msg o) (o_id o) (o_subject o);
  r_requested : forall msg a, Requested msg a ∈ log s -> a = observe CanAccessByKey msg;
  r_delivered : forall i o subject m, observers s !! i = Some o -> Delivered i subject m ∈ log s ->
    nats_matches (o_subject o) subject = true
}.

(** A change of the observers that concerns neither the log nor what is owed. *)
Definition similar (o o' : observer) : Prop :=
  o_msg o' = o_msg o /\ o_id o' = o_id o /\ o_subject o' = o_subject o /\ owed o' = owed o /\
  notify_pending o' = notify_pending o /\ ping_pending o' = ping_pending o /\ msgID o' = msgID o /\ (handler_shaped o -> handler_shaped o').

Definition similar_observers (l l' : list observer) : Prop :=
  length l' = length l /\ forall i o', l' !! i = Some o' -> exists o, l !! i = Some o /\ similar o o'.

Lemma similar_refl o : similar o o.
Proof. done. Qed.

Lemma similar_alter i f l :
  (forall o, l !! i = Some o -> similar o (f o)) -> similar_observers l (alter f i l).
Proof.
  intros H. split; [by rewrite length_alter|]. intros j o' Hj. rewrite lookup_alter_view in Hj.
  case_decide; [subst j|by exists o'].
  apply fmap_Some in Hj as (o & Ho & ->). eauto.
Qed.

Lemma similar_observers_refl l : similar_observers l l.
Proof. split; [done|]. intros i o Ho. by exists o. Qed.

#[local] Hint Resolve similar_observers_refl : core.

Lemma similar_trans l1 l2 l3 :
  similar_observers l1 l2 -> similar_observers l2 l3 -> similar_observers l1 l3.
Proof.
  intros [E1 H1] [E2 H2]. split; [congruence|]. intros i o3 H3.
  destruct (H2 _ _ H3) as (o2 & Ho2 & S2). destruct (H1 _ _ Ho2) as (o1 & Ho1 & S1).
  exists o1. split; [done|]. unfold similar in *. intuition congruence.
Qed.

(** What the other parts of the log invariant need of a step. *)
Definition plain (e : entry) : Prop :=
  entry_observer e = None /\ forall msg a, e = Requested msg a -> a = observe CanAccessByKey msg.

Definition tasks_recorded (ts : gmap nat task) (g : list entry) : Prop :=
  forall k t, ts !! k = Some t ->
    match t with
    | TUnsubscribe msg o | TSubscribe msg o => Requested msg (Proceed o) ∈ g
    | _ => True
    end.

Lemma plain_silent i e : plain e -> silent i e.
Proof. intros [H _]. by destruct e. Qed.

Lemma entry_silent i n e : entry_in n e -> (n <= i)%nat -> silent i e.
Proof.
  clear. intros H Hi. destruct e as [| | | |]; repeat split; simpl; try done;
    (destruct (decide _) as [->|]; [|done]); specialize (H _ eq_refl); lia.
Qed.

Lemma recorded_frame s s' es :
  recorded s -> similar_observers (observers s) (observers s') -> log s' = es ++ log s ->
  Forall plain es -> tasks_recorded (tasks s') (log s') -> recorded s'.
Proof.
  intros [Hh He Ht Ho Hr Hd] [Hlen Hsim] Hlog Hes Hts. constructor; [..|done| | |].
  - intros i o' Hi. destruct (Hsim _ _ Hi) as (o & Hio & S). rewrite Hlog.
    apply history_silent; [eapply Forall_impl; [exact Hes|intros; by apply plain_silent]|].
    destruct S as (? & ? & ? & ? & ? & ? & ? & ?). by eapply history_same; [apply Hh| |..].
  - rewrite Hlog, Hlen. apply Forall_app. split; [|done].
    eapply Forall_impl; [exact Hes|]. intros e [He' _] i. by rewrite He'.
  - intros i o' Hi. destruct (Hsim _ _ Hi) as (o & Hio & S & S2 & S3 & _). rewrite S, S2, S3, Hlog.
    destruct (Ho _ _ Hio) as (ob & ch & st & Hin & ?). exists ob, ch, st. split; [set_solver|done].
  - intros msg a. rewrite Hlog. intros [Hin|Hin]%elem_of_app; [|by apply Hr].
    rewrite Forall_forall in Hes. by apply (Hes _ Hin).
  - intros i o' su m Hi. destruct (Hsim _ _ Hi) as (o & Hio & _ & _ & S3 & _). rewrite S3, Hlog.
    intros [Hin|Hin]%elem_of_app; [|by eapply Hd].
    rewrite Forall_forall in Hes. destruct (Hes _ Hin) as [Hx _]. done.
Qed.

Lemma close_cancel_similar j s :
  similar_observers (observers s) (observers (close_cancel j s)) /\
  log (close_cancel j s) = log s /\ tasks (close_cancel j s) = tasks s.
Proof.
  clear. unfold close_cancel. destruct (observers s !! j) as [o|] eqn:Hj; [|by auto].
  destruct (cancelled o); destruct s; simpl in *; (split; [|done]); [by auto|].
  apply similar_alter. by intros [] _.
Qed.

Lemma remove_similar id s :
  similar_observers (observers s) (observers (remove id s)) /\
  log (remove id s) = log s /\ tasks (remove id s) = tasks s.
Proof.
  clear. unfold remove. destruct (obs s !! id) as [j|]; [|by auto].
  pose proof (close_cancel_similar j s) as H. destruct (crashed (close_cancel j s)); [done|].
  by destruct (close_cancel j s).
Qed.

Lemma put_similar id i s :
  similar_observers (observers s) (observers (put id i s)) /\
  log (put id i s) = log s /\ tasks (put id i s) = tasks s.
Proof.
  clear. unfold put. destruct (obs s !! id) as [j|].
  - pose proof (close_cancel_similar j s) as H. destruct (crashed (close_cancel j s)); [done|].
    by destruct (close_cancel j s).
  - destruct (crashed s); [by auto|]. destruct s; by auto.
Qed.

Lemma tasks_more ts es g : tasks_recorded ts g -> tasks_recorded ts (es ++ g).
Proof. clear. intros H k t Hk. specialize (H k t Hk). destruct t; set_solver. Qed.

Lemma tasks_set k x ts g :
  tasks_recorded ts g ->
  match x with
  | Some (TUnsubscribe msg o) | Some (TSubscribe msg o) => Requested msg (Proceed o) ∈ g
  | _ => True
  end ->
  tasks_recorded (partial_alter (fun _ => x) k ts) g.
Proof.
  clear. intros H Hx k' t. destruct (decide (k = k')) as [<-|Hne].
  - rewrite lookup_partial_alter_eq. intros ->. by destruct t.
  - rewrite lookup_partial_alter_ne by done. by apply H.
Qed.

Lemma plain_replied p : plain (Replied p).
Proof. done. Qed.

Lemma plain_requested msg : plain (Requested msg (observe CanAccessByKey msg)).
Proof. split; [done|]. by intros ? ? [= <- <-]. Qed.

#[local] Hint Resolve plain_replied plain_requested tasks_more tasks_set : core.
#[local] Hint Constructors Forall : core.

Lemma arrive_recorded k msg s : recorded s -> recorded (arrive CanAccessByKey k msg s).
Proof.
  intros H. unfold arrive. pose proof (r_tasks _ H) as Ht. destruct s as [m os ts r l g c]; simpl in *.
  destruct (mux msg) as [| |msg'|]; [|..|done].
  - by apply (recorded_frame _ _ [] H); simpl; auto.
  - by apply (recorded_frame _ _ [Replied (not_found msg)] H); simpl; auto; apply (tasks_more _ [_]).
  - destruct (observe CanAccessByKey msg') as [code|id|o] eqn:Ho; simpl.
    + apply (recorded_frame _ _ [Replied (response msg' code false); Requested msg' (Refuse code)] H);
        simpl; rewrite <- ?Ho; auto. by apply (tasks_more _ [_; _]).
    + apply (recorded_frame _ _ [Requested msg' (Acked id)] H); simpl; rewrite <- ?Ho; auto.
      by apply (tasks_more _ [_]).
    + apply (recorded_frame _ _ [Requested msg' (Proceed o)] H); simpl; rewrite <- ?Ho; auto.
      apply tasks_set; [by apply (tasks_more _ [_])|]. rewrite Ho. apply list_elem_of_here.
Qed.

Lemma new_observer_history i msg id subject g :
  Forall (entry_in i) g -> history_ok i (new_observer msg id subject) g.
Proof.
  clear. intros Hg.
  assert (H : history_ok i (new_observer msg id subject) (g ++ [])).
  { apply history_silent; [|done]. eapply Forall_impl; [exact Hg|]. intros e He.
    by eapply entry_silent. }
  by rewrite app_nil_r in H.
Qed.

Lemma subscribe_recorded k msg o ch st s :
  recorded s -> tasks s !! k = Some (TSubscribe msg o) -> ob_subscribe o = Some (ch, st) ->
  recorded (set_task k (Some (TPut (length (observers s)) (ob_code o)))
              (new_obs (new_observer msg (ob_id o) (fmtSubject ch st)) s)).
Proof.
  intros [Hh He Ht Ho Hr Hd] Hk Hs. pose proof (Ht _ _ Hk) as Hreq. simpl in Hreq.
  destruct s as [m os ts r l g c]; simpl in *. constructor; simpl.
  - intros i o' [Hi|[Hle Hi]]%lookup_app_Some; [by apply Hh|].
    apply list_lookup_singleton_Some in Hi as [Hi <-]. replace i with (length os) by lia.
    by apply new_observer_history.
  - eapply Forall_impl; [exact He|]. intros e Hin i Hi. rewrite length_app. specialize (Hin _ Hi). lia.
  - by apply tasks_set.
  - intros i o' [Hi|[_ Hi]]%lookup_app_Some; [by eapply Ho|].
    apply list_lookup_singleton_Some in Hi as [_ <-]. by exists o, ch, st.
  - done.
  - intros i o' su m' [Hi|[Hle Hi]]%lookup_app_Some Hin; [by eapply Hd|].
    rewrite Forall_forall in He. specialize (He _ Hin i eq_refl). lia.
Qed.

Lemma spawn_similar o : is_new o = true -> obs_ok o -> similar o (spawn o).
Proof.
  clear. intros Hn Hok. pose proof (proj2 (ok_new_ping _ Hok) Hn) as Hp.
  unfold is_new, similar, spawn, owed, notify_pending, ping_pending in *.
  destruct o as [? ? ? ? ? ? ? ? ? h p q]; simpl in *; subst.
  destruct h; [|done..]. split_and!; try done. intros _. apply init_shaped.
Qed.

Lemma advance_recorded k t ok s :
  inv s -> recorded s -> tasks s !! k = Some t -> recorded (advance k t ok s).
Proof.
  intros Hinv H Hk. pose proof (r_tasks _ H _ _ Hk) as Hreq.
  destruct t as [msg o|msg o|i code|i code]; simpl in *.
  - set (s1 := if ob_unsubscribe o then remove (ob_id o) s else s).
    assert (Hs1 : similar_observers (observers s) (observers s1) /\ log s1 = log s /\ tasks s1 = tasks s).
    { unfold s1. destruct (ob_unsubscribe o); [apply remove_similar|auto]. }
    destruct Hs1 as (Hsim & Hlog & Hts). pose proof (r_tasks _ H) as Ht. rewrite <- Hts, <- Hlog in Ht.
    destruct (ob_subscribe o) as [[ch st]|].
    + apply (recorded_frame _ _ [] H); destruct s1; simpl in *; auto.
      apply tasks_set; [done|congruence].
    + eapply (recorded_frame _ _ [Replied _] H); destruct s1; simpl in *; auto; [by rewrite Hlog|].
      apply (tasks_more _ [_]). by apply tasks_set.
  - destruct (ob_subscribe o) as [[ch st]|] eqn:Ho; [|done]. destruct ok; [by apply subscribe_recorded|].
    pose proof (r_tasks _ H) as Ht.
    eapply (recorded_frame _ _ [Replied _] H); destruct s; simpl in *; auto.
    apply (tasks_more _ [_]). by apply tasks_set.
  - destruct (observers s !! i) as [o|] eqn:Hi; [|done].
    destruct (put_similar (o_id o) i s) as (Hsim & Hlog & Hts). pose proof (r_tasks _ H) as Ht.
    rewrite <- Hts, <- Hlog in Ht.
    apply (recorded_frame _ _ [] H); destruct (put (o_id o) i s); simpl in *; auto.
  - pose proof (r_tasks _ H) as Ht.
    assert (Hsim : similar_observers (observers s) (observers (upd i spawn s))).
    { rewrite upd_observers. apply similar_alter. intros o Ho. apply spawn_similar; [|by eapply inv_obs].
      destruct (own_spawn _ _ _ (inv_owner _ Hinv) _ _ _ Hk) as (id & b & Hv).
      rewrite list_lookup_fmap, Ho in Hv. unfold view_of in Hv. by simplify_eq/=. }
    eapply (recorded_frame _ _ [Replied _] H); destruct s; simpl in *; auto.
    apply (tasks_more _ [_]). by apply tasks_set.
Qed.

(** The entries of a goroutine are about its own observer, and a delivery is on a
    matching subject. *)
Lemma local_step_entries i o l o' es e :
  local_step nats_matches i o l = Some (Next o' es) -> e ∈ es ->
  entry_observer e = Some i /\
  (forall subject m, e = Delivered i subject m -> nats_matches (o_subject o) subject = true) /\
  (forall msg a, e <> Requested msg a).
Proof.
  clear CanAccessByKey. intros Hl He. destruct l; unfold local_step in Hl; repeat case_match; simplify_eq;
    try (by apply not_elem_of_nil in He); apply list_elem_of_singleton in He as ->;
    split_and!; try done; intros; zbool; by simplify_eq.
Qed.

Lemma local_recorded i o l o' es s :
  inv s -> recorded s -> observers s !! i = Some o -> local_step nats_matches i o l = Some (Next o' es) ->
  recorded (add_log es (upd i (fun _ => o') s)).
Proof.
  intros Hinv [Hh He Ht Ho Hr Hd] Hi Hl.
  destruct (local_step_ok _ _ _ _ _ _ Hl (inv_obs _ Hinv _ _ Hi)) as (_ & Hview & Hmsg & Hsub).
  assert (Hid : o_id o' = o_id o) by (unfold view_of in Hview; congruence).
  pose proof (fun e => local_step_entries i o l o' es e Hl) as Hes.
  pose proof (lookup_lt_Some _ _ _ Hi) as Hlt.
  destruct s as [m os ts r ll g c]; simpl in *. constructor; simpl.
  - intros j oj. rewrite lookup_alter_view. case_decide as Hij.
    + subst j. rewrite Hi. intros [= <-]. eapply local_step_history; [exact Hl|by apply Hh].
    + intros Hj. apply history_silent; [|by apply Hh]. apply Forall_forall. intros e Hin.
      destruct (Hes _ Hin) as (Heo & _). destruct e; simplify_eq/=; repeat split; simpl; by case_decide.
  - rewrite length_alter. apply Forall_app. split; [|done]. apply Forall_forall. intros e Hin j Hj.
    destruct (Hes _ Hin) as (Heo & _). by simplify_eq.
  - intros k t Hk. specialize (Ht _ _ Hk). destruct t; try done; by apply elem_of_app; right.
  - intros j oj. rewrite lookup_alter_view. case_decide; intros Hj.
    + subst j. rewrite Hi in Hj. simplify_eq/=. rewrite Hmsg, Hid, Hsub.
      destruct (Ho _ _ Hi) as (ob & ch & st & Hin & ?). exists ob, ch, st.
      split; [by apply elem_of_app; right|done].
    + destruct (Ho _ _ Hj) as (ob & ch & st & Hin & ?). exists ob, ch, st.
      split; [by apply elem_of_app; right|done].
  - intros msg a [Hin|Hin]%elem_of_app; [|by apply Hr]. by destruct (Hes _ Hin) as [? _].
  - intros j oj su m' Hj Hin. rewrite lookup_alter_view in Hj.
    assert (Hold : forall oj', os !! j = Some oj' -> nats_matches (o_subject oj') su = true).
    { intros oj' Hoj'. apply elem_of_app in Hin as [Hin|Hin]; [|by eapply Hd].
      destruct (Hes _ Hin) as (Heo & Hm & _). simplify_eq/=. by eapply Hm. }
    case_decide; [subst j|by apply Hold]. rewrite Hi in Hj. simplify_eq/=. rewrite Hsub. by apply Hold.
Qed.

Lemma step_recorded s a s' :
  inv s -> recorded s -> step CanAccessByKey nats_matches s a = Some s' -> recorded s'.
Proof.
  intros Hinv H Hst. unfold step in Hst. destruct (crashed s) eqn:Hc; [done|].
  pose proof (r_tasks _ H) as Ht.
  destruct a as [k msg|k ok| | |i l|i]; simpl in Hst.
  - destruct (tasks s !! k); [done|]. destruct (parsed msg); simplify_eq. by apply arrive_recorded.
  - apply fmap_Some in Hst as (t & Hk & ->). by apply advance_recorded.
  - destruct (listener s), (responses s); simplify_eq.
    apply (recorded_frame _ _ [] H); destruct s; simpl in *; auto.
  - destruct (listener s) as [i|]; simplify_eq.
    assert (Hsim : similar_observers (observers s) (observers (upd i (set_expired false) s))).
    { rewrite upd_observers. apply similar_alter. by intros [] _. }
    apply (recorded_frame _ _ [] H); destruct s; simpl in *; auto.
  - destruct (observers s !! i) as [o|] eqn:Ho; [|done].
    destruct (local_step nats_matches i o l) as [[o' es|p]|] eqn:Hl; simplify_eq;
      [by eapply local_recorded|].
    apply (recorded_frame _ _ [] H); destruct s; simpl in *; auto.
  - destruct (observers s !! i) as [o|] eqn:Ho; [|done]. destruct (pinger o) eqn:Hp; simplify_eq.
    destruct (remove_similar (o_id o) s) as (Hsim & Hlog & Hts). rewrite <- Hts, <- Hlog in Ht.
    assert (Hp' : forall o2, observers (remove (o_id o) s) !! i = Some o2 -> ping_pending o2 = []).
    { intros o2 Ho2. destruct (proj2 Hsim _ _ Ho2) as (o1 & Ho1 & S). simplify_eq.
      destruct S as (_ & _ & _ & _ & _ & -> & _). unfold ping_pending. by rewrite Hp. }
    assert (Hsim2 : similar_observers (observers s)
              (observers (upd i (set_pinger PingDone) (remove (o_id o) s)))).
    { eapply similar_trans; [exact Hsim|]. rewrite upd_observers. apply similar_alter.
      intros o2 Ho2. specialize (Hp' _ Ho2). destruct o2. unfold similar, ping_pending in *. simpl in *.
      by rewrite Hp'. }
    apply (recorded_frame _ _ [] H); destruct (remove (o_id o) s); simpl in *; auto.
Qed.

Lemma reachable_recorded s : reachable CanAccessByKey nats_matches s -> recorded s.
Proof.
  induction 1 as [|s a s' Hr IH Hst].
  - constructor; simpl; try done; intros; simplify_map_eq; set_solver.
  - eapply step_recorded; [by eapply reachable_inv|done..].
Qed.
End History.
