(* ===== verification/CoapLife.v ===== *)
(** * The life of an observer

    [observer_step]: what one step of the service does to one observer.  From it,
    how a series of pings ends, and which observers can still be acknowledged. *)

From S2P Require Import Prelude JsString GoCodec Subtopics GoAdapters CoapMessage CoapObserve CoapSafety.

Local Open Scope Z_scope.

#[local] Arguments Unmarshal : simpl never.

Section Life.
Variable CanAccessByKey : bytes -> bytes -> bytes + call_error.
Variable nats_matches : bytes -> bytes -> bool.

Abbreviation step := (step CanAccessByKey nats_matches).
Abbreviation run := (run CanAccessByKey nats_matches).
Abbreviation reachable := (reachable CanAccessByKey nats_matches).

(** ** Runs *)

Lemma coap_run_app s acts1 acts2 :
  run s (acts1 ++ acts2) = match run s acts1 with Some s' => run s' acts2 | None => None end.
Proof. revert s. induction acts1 as [|a acts IH]; intros s; [done|]. simpl. by destruct (step s a). Qed.

Lemma coap_run_reachable s acts s' : reachable s -> run s acts = Some s' -> reachable s'.
Proof.
  revert s. induction acts as [|a acts IH]; intros s Hr; simpl; [by intros [= <-]|].
  destruct (step s a) as [s1|] eqn:Hs; [|done]. apply IH. by econstructor.
Qed.

(** ** One observer *)

Inductive observer_step (s : service) (i : nat) : action -> observer -> observer -> Prop :=
| os_keep a o : observer_step s i a o o
| os_cancel a o id :
    a = PingUnsubscribe i -> obs s !! id = Some i -> pinger o = PingRemove ->
    observer_step s i a o (set_pinger PingDone (set_cancelled o))
| os_cancelled a o id : obs s !! id = Some i -> observer_step s i a o (set_cancelled o)
| os_local l o o' es :
    local_step nats_matches i o l = Some (Next o' es) -> observer_step s i (Local i l) o o'
| os_ack o : listener s = Some i -> observer_step s i StoreAck o (set_expired false o)
| os_removed o : pinger o = PingRemove -> observer_step s i (PingUnsubscribe i) o (set_pinger PingDone o)
| os_spawn k ok o code :
    tasks s !! k = Some (TSpawn i code) -> is_new o = true -> observer_step s i (Advance k ok) o (spawn o).

(** What [remove] does to an observer. *)
Lemma remove_lookup s id i o :
  inv s -> crashed s = None -> observers s !! i = Some o ->
  observers (remove id s) !! i =
    Some (if bool_decide (obs s !! id = Some i) then set_cancelled o else o).
Proof.
  clear. intros Hs Hc Ho. rewrite remove_eq by done. destruct (obs s !! id) as [j|] eqn:Hj.
  - destruct s as [m os ts r l g c]; simpl in *. rewrite lookup_alter_view. case_decide as Hji.
    + subst j. rewrite Ho, bool_decide_true by done. done.
    + rewrite bool_decide_false by congruence. done.
  - by rewrite bool_decide_false.
Qed.

Lemma set_obs_observers f s : observers (set_obs f s) = observers s.
Proof. by destruct s. Qed.
Lemma set_task_observers k x s : observers (set_task k x s) = observers s.
Proof. by destruct s. Qed.
Lemma add_log_observers es s : observers (add_log es s) = observers s.
Proof. by destruct s. Qed.
Lemma set_responses_observers r s : observers (set_responses r s) = observers s.
Proof. by destruct s. Qed.
Lemma set_listener_observers r s : observers (set_listener r s) = observers s.
Proof. by destruct s. Qed.
Lemma crash_observers p s : observers (crash p s) = observers s.
Proof. by destruct s. Qed.

Create Rewrite HintDb coapdb.
#[local] Hint Rewrite set_obs_observers set_task_observers add_log_observers set_responses_observers
  set_listener_observers crash_observers upd_observers : coapdb.

Lemma arrive_observers k msg s : observers (arrive CanAccessByKey k msg s) = observers s.
Proof.
  clear nats_matches. unfold arrive. destruct (mux msg) as [| |m|]; [by autorewrite with coapdb..| |done].
  by destruct (observe CanAccessByKey m); autorewrite with coapdb.
Qed.

(** What removing does to an observer is a step of it. *)
Lemma remove_step s a id i o :
  inv s -> crashed s = None -> observers s !! i = Some o ->
  exists o', observers (remove id s) !! i = Some o' /\ observer_step s i a o o'.
Proof.
  intros Hs Hc Ho. eexists. split; [by apply remove_lookup|].
  case_bool_decide; [by eapply os_cancelled|apply os_keep].
Qed.

Lemma advance_observer k ok t s i o :
  inv s -> crashed s = None -> tasks s !! k = Some t -> observers s !! i = Some o ->
  exists o', observers (advance k t ok s) !! i = Some o' /\ observer_step s i (Advance k ok) o o'.
Proof.
  intros Hs Hc Hk Ho.
  assert (Hkeep : exists o', Some o = Some o' /\ observer_step s i (Advance k ok) o o')
    by (exists o; split; [done|apply os_keep]).
  destruct t as [msg ob|msg ob|j code|j code]; simpl.
  - set (s1 := if ob_unsubscribe ob then remove (ob_id ob) s else s).
    assert (H1 : exists o', observers s1 !! i = Some o' /\ observer_step s i (Advance k ok) o o').
    { unfold s1. destruct (ob_unsubscribe ob); [by apply remove_step|by rewrite Ho]. }
    by destruct (ob_subscribe ob); autorewrite with coapdb.
  - destruct (ob_subscribe ob) as [[ch st]|]; [|by rewrite Ho].
    destruct ok; autorewrite with coapdb; [|by rewrite Ho].
    destruct s; simpl in *. rewrite lookup_app_l by (by eapply lookup_lt_Some). by rewrite Ho.
  - destruct (observers s !! j) as [oj|] eqn:Hj; [|by rewrite Ho]. autorewrite with coapdb.
    rewrite put_eq by done. autorewrite with coapdb. by apply remove_step.
  - autorewrite with coapdb. rewrite lookup_alter_view. case_decide as Hji; [subst j|by rewrite Ho].
    rewrite Ho. exists (spawn o). split; [done|]. eapply os_spawn; [done|].
    destruct (own_spawn _ _ _ (inv_owner _ Hs) _ _ _ Hk) as (id & b & Hv).
    rewrite list_lookup_fmap, Ho in Hv. unfold view_of in Hv. by simplify_eq/=.
Qed.

Lemma step_observer s a s' i o :
  inv s -> step s a = Some s' -> observers s !! i = Some o ->
  exists o', observers s' !! i = Some o' /\ observer_step s i a o o'.
Proof.
  intros Hs Hst Ho. unfold CoapObserve.step in Hst. destruct (crashed s) eqn:Hc; [done|].
  assert (Hkeep : exists o', Some o = Some o' /\ observer_step s i a o o')
    by (exists o; split; [done|apply os_keep]).
  destruct a as [k msg|k ok| | |j l|j]; simpl in Hst.
  - destruct (tasks s !! k); [done|]. destruct (parsed msg); simplify_eq.
    by rewrite arrive_observers, Ho.
  - apply fmap_Some in Hst as (t & Ht & ->). by apply advance_observer.
  - destruct (listener s), (responses s); simplify_eq. autorewrite with coapdb. by rewrite Ho.
  - destruct (listener s) as [j|] eqn:Hl; simplify_eq. autorewrite with coapdb.
    rewrite lookup_alter_view. case_decide as Hji; [subst j|by rewrite Ho].
    rewrite Ho. exists (set_expired false o). split; [done|by apply os_ack].
  - destruct (observers s !! j) as [oj|] eqn:Hj; [|done].
    destruct (local_step nats_matches j oj l) as [[o' es|p]|] eqn:Hl; simplify_eq; autorewrite with coapdb;
      [|by rewrite Ho].
    rewrite lookup_alter_view. case_decide as Hji; [subst j|by rewrite Ho].
    rewrite Ho in Hj |- *. simplify_eq. exists o'. split; [done|by eapply os_local].
  - destruct (observers s !! j) as [oj|] eqn:Hj; [|done]. destruct (pinger oj) eqn:Hp; simplify_eq.
    autorewrite with coapdb. rewrite lookup_alter_view, (remove_lookup _ _ _ _ Hs Hc Ho).
    case_decide as Hji; [subst j|].
    + simplify_eq. eexists. split; [done|]. case_bool_decide; [by eapply os_cancel|by apply os_removed].
    + eexists. split; [done|]. case_bool_decide; [by eapply os_cancelled|apply os_keep].
Qed.

Lemma observer_step_id s i a o o' : observer_step s i a o o' -> o_id o' = o_id o.
Proof.
  destruct 1 as [|a o|a o|l o o' es Hl| | |]; try by destruct o.
  destruct l; unfold local_step in Hl; repeat case_match; simplify_eq; first [done|by destruct o].
Qed.

Lemma observer_step_cancelled s i a o o' :
  observer_step s i a o o' -> cancelled o = true -> cancelled o' = true.
Proof.
  destruct 1 as [|a o|a o|l o o' es Hl| | |]; intros Hc; try by destruct o.
  destruct l; unfold local_step in Hl; repeat case_match; simplify_eq; first [done|by destruct o].
Qed.

(** Observers come from subscriptions only. *)
Lemma remove_length id s : length (observers (remove id s)) = length (observers s).
Proof.
  clear. unfold remove, close_cancel. destruct s as [m os ts r l g c]; simpl.
  repeat (case_match; simpl); rewrite ?length_alter; done.
Qed.

Lemma put_length id i s : length (observers (put id i s)) = length (observers s).
Proof.
  clear. unfold put, close_cancel. destruct s as [m os ts r l g c]; simpl.
  repeat (case_match; simpl); rewrite ?length_alter; done.
Qed.

Lemma step_new_observer s a s' i o' :
  step s a = Some s' -> observers s !! i = None -> observers s' !! i = Some o' -> is_new o' = true.
Proof.
  intros Hst Hi Ho'. unfold CoapObserve.step in Hst. destruct (crashed s) eqn:Hc; [done|].
  assert (Hlen : length (observers s') = length (observers s) -> is_new o' = true).
  { intros Hl. apply lookup_lt_Some in Ho'. apply lookup_ge_None in Hi. lia. }
  destruct a as [k msg|k ok| | |j l|j]; simpl in Hst.
  - destruct (tasks s !! k); [done|]. destruct (parsed msg); simplify_eq.
    apply Hlen. by rewrite arrive_observers.
  - apply fmap_Some in Hst as (t & Ht & ->). destruct t as [msg ob|msg ob|j code|j code]; simpl in *.
    + apply Hlen. destruct (ob_unsubscribe ob), (ob_subscribe ob); autorewrite with coapdb;
        rewrite ?remove_length; done.
    + destruct (ob_subscribe ob) as [[ch st]|]; [|by apply Hlen].
      destruct ok; [|by apply Hlen; autorewrite with coapdb]. autorewrite with coapdb in Ho'.
      destruct s as [m os ts r l g c]; simpl in *.
      apply lookup_app_Some in Ho' as [Ho'|[_ Ho']]; [congruence|].
      by apply list_lookup_singleton_Some in Ho' as [_ <-].
    + apply Hlen. destruct (observers s !! j); [|done]. autorewrite with coapdb. by rewrite put_length.
    + apply Hlen. autorewrite with coapdb. by rewrite length_alter.
  - destruct (listener s), (responses s); simplify_eq. apply Hlen. by autorewrite with coapdb.
  - destruct (listener s); simplify_eq. apply Hlen. autorewrite with coapdb. by rewrite length_alter.
  - destruct (observers s !! j); [|done].
    destruct (local_step _ _ _ _) as [[]|]; simplify_eq; apply Hlen; autorewrite with coapdb;
      rewrite ?length_alter; done.
  - destruct (observers s !! j) as [oj|]; [|done]. destruct (pinger oj); simplify_eq. apply Hlen.
    autorewrite with coapdb. by rewrite length_alter, remove_length.
Qed.

(** ** Series of pings *)

Definition in_series (p : ping_pc) : bool :=
  match p with PingLoad _ | PingSend _ _ | PingSleep _ | PingCheck | PingRemove => true | _ => false end.

Lemma in_series_round k : in_series (ping_round k) = true.
Proof. clear. unfold ping_round. by case_match. Qed.

(** A series that no acknowledgement interrupts goes on, until it removes the
    identifier. *)
Lemma series_step s i a o o' :
  observer_step s i a o o' -> obs_ok o -> in_series (pinger o) = true -> expired o = true ->
  (a = StoreAck -> listener s <> Some i) ->
  (in_series (pinger o') = true /\ expired o' = true) \/ a = PingUnsubscribe i.
Proof.
  intros H Hok Hp He Ha. destruct H as [a o|a o id|a o id|l o o' es Hl|o Hl|o|k ok o code Hk Hn].
  - by left.
  - by right.
  - left. by destruct o.
  - left. destruct l; unfold local_step in Hl; repeat case_match; simplify_eq; try done;
      destruct o; simpl in *; subst; rewrite ?in_series_round; done.
  - by destruct Ha.
  - by right.
  - apply (ok_new_ping _ Hok) in Hn. by rewrite Hn in Hp.
Qed.

Definition answers (i : nat) (s : service) (a : action) : bool :=
  match a with StoreAck => bool_decide (listener s = Some i) | _ => false end.

(** No acknowledgement for [i] is stored in the run. *)
Fixpoint unanswered (i : nat) (s : service) (acts : list action) : bool :=
  match acts with
  | [] => true
  | a :: acts => negb (answers i s a) && match step s a with Some s' => unanswered i s' acts | None => true end
  end.

(** The run removes the identifier on behalf of [i]. *)
Definition removes_during (s : service) (i : nat) (id : bytes) (acts : list action) : Prop :=
  exists acts1 acts2 s1 s2, acts = acts1 ++ PingUnsubscribe i :: acts2 /\
    run s acts1 = Some s1 /\ step s1 (PingUnsubscribe i) = Some s2 /\ obs s2 !! id = None /\
    forall j, obs s1 !! id = Some j -> exists oj, observers s2 !! j = Some oj /\ cancelled oj = true.

Lemma ping_unsubscribe_effect s i o s' :
  inv s -> observers s !! i = Some o -> step s (PingUnsubscribe i) = Some s' ->
  obs s' !! o_id o = None /\
  forall j, obs s !! o_id o = Some j -> exists oj, observers s' !! j = Some oj /\ cancelled oj = true.
Proof.
  intros Hs Ho Hst. unfold CoapObserve.step in Hst. destruct (crashed s) eqn:Hc; [done|].
  rewrite Ho in Hst. destruct (pinger o); simplify_eq.
  destruct (remove_inv _ (o_id o) Hs Hc) as (_ & _ & Hn & _). split; [by destruct (remove (o_id o) s)|].
  intros j Hj. destruct (map_observer _ _ _ Hs Hj) as (oj & Hoj & _ & _).
  autorewrite with coapdb. rewrite lookup_alter_view, (remove_lookup _ _ _ _ Hs Hc Hoj).
  rewrite bool_decide_true by done. case_decide; (eexists; split; [done|by destruct oj]).
Qed.

Lemma series_run s acts s' i o o' :
  inv s -> observers s !! i = Some o -> in_series (pinger o) = true -> expired o = true ->
  unanswered i s acts = true -> run s acts = Some s' -> observers s' !! i = Some o' ->
  (in_series (pinger o') = true /\ expired o' = true) \/ removes_during s i (o_id o) acts.
Proof.
  revert s o. induction acts as [|a acts IH]; intros s o Hs Ho Hp He Hu Hr Ho'; simpl in *.
  { simplify_eq. by left. }
  destruct (step s a) as [s1|] eqn:Hst; [|done]. apply andb_true_iff in Hu as [Ha Hu].
  destruct (step_observer _ _ _ _ _ Hs Hst Ho) as (o1 & Ho1 & Hos).
  destruct (series_step _ _ _ _ _ Hos (inv_obs _ Hs _ _ Ho) Hp He) as [[Hp1 He1]| ->].
  - intros -> Hl. simpl in Ha. by rewrite bool_decide_true in Ha.
  - assert (Hs1 : inv s1) by (by eapply step_inv).
    destruct (IH s1 o1 Hs1 Ho1 Hp1 He1 Hu Hr Ho') as [|Hd]; [by left|right].
    rewrite (observer_step_id _ _ _ _ _ Hos) in Hd.
    destruct Hd as (a1 & a2 & s2 & s3 & -> & Hr1 & Hrest).
    exists (a :: a1), a2, s2, s3. split; [done|]. simpl. by rewrite Hst.
  - right. exists [], acts, s, s1. split_and!; try done; by apply (ping_unsubscribe_effect s i o s1).
Qed.

(** ** Observers that nobody acknowledges any more *)

Lemma cancelled_not_listened s a s' i o :
  inv s -> step s a = Some s' -> observers s !! i = Some o -> cancelled o = true ->
  listener s <> Some i -> listener s' <> Some i.
Proof.
  intros Hs Hst Ho Hc Hl. unfold CoapObserve.step in Hst. destruct (crashed s); [done|].
  assert (Hsame : listener s' = listener s \/ listener s' = None \/ exists id, listener s' = obs s !! id).
  { destruct a as [k msg|k ok| | |j l|j]; simpl in Hst.
    - left. destruct (tasks s !! k); [done|]. destruct (parsed msg); simplify_eq.
      unfold arrive. destruct (mux msg) as [| |m|]; try (by destruct s).
      by destruct (observe CanAccessByKey m); destruct s.
    - left. apply fmap_Some in Hst as (t & Ht & ->). destruct s as [m os ts r l g c].
      destruct t as [msg ob|msg ob|j code|j code]; simpl.
      + set (s1 := if ob_unsubscribe ob then _ else _).
        assert (H1 : listener s1 = l).
        { unfold s1, remove, close_cancel. destruct (ob_unsubscribe ob); [|done]. simpl.
          repeat case_match; done. }
        by destruct (ob_subscribe ob), s1.
      + destruct (ob_subscribe ob) as [[]|]; [|done]. by destruct ok.
      + destruct (os !! j) as [oj|]; [|done]. unfold put, close_cancel. simpl. by repeat case_match.
      + done.
    - destruct (listener s), (responses s) as [|id r]; simplify_eq. right; right. exists id. by destruct s.
    - destruct (listener s); simplify_eq. right; left. by destruct s.
    - left. destruct (observers s !! j) as [oj|]; [|done].
      destruct (local_step nats_matches j oj l) as [[]|]; simplify_eq; by destruct s.
    - left. destruct (observers s !! j) as [oj|]; [|done]. destruct (pinger oj); simplify_eq.
      destruct s as [m os ts r l g c]. unfold remove, close_cancel. simpl. by repeat case_match. }
  destruct Hsame as [-> |[-> |[id ->]]]; [done..|]. intros Hid.
  destruct (map_observer _ _ _ Hs Hid) as (o2 & Ho2 & _ & Hc2). congruence.
Qed.

Lemma cancelled_unanswered s acts i o :
  inv s -> observers s !! i = Some o -> cancelled o = true -> listener s <> Some i ->
  unanswered i s acts = true.
Proof.
  revert s o. induction acts as [|a acts IH]; intros s o Hs Ho Hc Hl; [done|]. simpl.
  apply andb_true_iff. split.
  - destruct a; try done. simpl. by rewrite bool_decide_false.
  - destruct (step s a) as [s1|] eqn:Hst; [|done].
    destruct (step_observer _ _ _ _ _ Hs Hst Ho) as (o1 & Ho1 & Hos).
    apply (IH s1 o1); [by eapply step_inv|done|by eapply observer_step_cancelled|].
    by eapply cancelled_not_listened.
Qed.

(** ** Runs of one observer *)

Fixpoint local_run (i : nat) (o : observer) (ls : list local) : option (observer * list entry) :=
  match ls with
  | [] => Some (o, [])
  | l :: ls =>
      match local_step nats_matches i o l with
      | Some (Next o1 es) => (fun x => (fst x, snd x ++ es)) <$> local_run i o1 ls
      | _ => None
      end
  end.

Lemma run_local s i o ls o' es :
  crashed s = None -> observers s !! i = Some o -> local_run i o ls = Some (o', es) ->
  run s (Local i <$> ls) = Some (add_log es (upd i (fun _ => o') s)).
Proof.
  revert s o es.
  induction ls as [|l ls IH]; intros s o es Hc Ho Hl; simpl in Hl.
  - simplify_eq. simpl. destruct s as [m os ts r ll g c]; simpl in *. do 2 f_equal.
    rewrite alter_same; [done|]. intros x Hx. by simplify_eq.
  - destruct (local_step nats_matches i o l) as [[o1 es1|]|] eqn:Hs; [|done..].
    apply fmap_Some in Hl as ([o2 es2] & Hl & ?). simplify_eq/=.
    replace (step s (Local i l)) with (Some (add_log es1 (upd i (fun _ => o1) s)))
      by (unfold CoapObserve.step; by rewrite Hc, Ho, Hs).
    rewrite (IH (add_log es1 (upd i (fun _ => o1) s)) o1 es2); [|by destruct s| |done].
    + destruct s as [m os ts r ll g c]; simpl. rewrite app_assoc. do 2 f_equal.
      apply list_eq. intros j. rewrite !lookup_alter_view. case_decide; [|done]. by destruct (os !! j).
    + autorewrite with coapdb. rewrite lookup_alter_view, decide_True by done. by rewrite Ho.
Qed.

(** A tick, and four pings without an acknowledgement. *)
Definition ping_series : list local :=
  [Tick; PingStoreExpired] ++ concat (replicate MaxRetransmit [PingLoadID; PingTransmit; PingWake]) ++
  [PingLast].

Definition later_id (o : observer) (k : Z) : Z := (msgID o + k) mod 65536.

Definition pings (i : nat) (o : observer) : list entry :=
  (fun k => Pinged i (pingMsg (o_msg o) (later_id o k))) <$> [4; 3; 2; 1].

Lemma ping_series_run i o :
  pinger o = PingSelect -> expired o = false ->
  local_run i o ping_series =
    Some (set_pinger PingRemove (set_expired true (set_msgID (later_id o 4) o)), pings i o).
Proof.
  clear CanAccessByKey. destruct o; simpl. intros -> ->. unfold pings, later_id.
  cbv -[Z.add Z.modulo pingMsg].
  by rewrite !Zplus_mod_idemp_l, <- !Z.add_assoc, !Zplus_mod_idemp_l, <- !Z.add_assoc.
Qed.

Definition removal (i : nat) : list action := (Local i <$> ping_series) ++ [PingUnsubscribe i].

(** The observer after its removal. *)
Definition removed_observer (o : observer) : observer :=
  set_pinger PingDone (set_cancelled (set_expired true (set_msgID (later_id o 4) o))).

Lemma removal_run s i o :
  inv s -> crashed s = None -> obs s !! o_id o = Some i -> observers s !! i = Some o ->
  pinger o = PingSelect -> expired o = false ->
  exists s', run s (removal i) = Some s' /\ obs s' !! o_id o = None /\ crashed s' = None /\
    log s' = pings i o ++ log s /\ observers s' !! i = Some (removed_observer o).
Proof.
  intros Hs Hc Hm Ho Hp He. unfold removal. rewrite coap_run_app.
  rewrite (run_local _ _ _ _ _ _ Hc Ho (ping_series_run i o Hp He)).
  set (o1 := set_pinger PingRemove _). set (s1 := add_log _ _).
  assert (Hs1 : inv s1).
  { unfold s1. apply add_log_inv, upd_inv; [done|]. intros o2 Ho2 _. assert (o2 = o) as -> by congruence. clear Ho2.
    pose proof (inv_obs _ Hs _ _ Ho) as [Hpn ? ? ? ? ? ? ? ?].
    assert (Hn : is_new o = false).
    { destruct (is_new o) eqn:E; [|done]. by rewrite (proj2 Hpn eq_refl) in Hp. }
    unfold o1. split; [|by destruct o].
    destruct o; unfold is_new in *; simpl in *. constructor; simpl; try done.
    - unfold is_new; simpl. by rewrite Hn.
    - apply Z.mod_pos_bound. lia. }
  assert (Ho1 : observers s1 !! i = Some o1).
  { unfold s1. autorewrite with coapdb. rewrite lookup_alter_view, decide_True by done. by rewrite Ho. }
  assert (Hc1 : crashed s1 = None) by (by destruct s).
  assert (Hid : o_id o1 = o_id o) by (by destruct o).
  assert (Hm1 : obs s1 !! o_id o = Some i) by (by destruct s).
  assert (Hp1 : pinger o1 = PingRemove) by (by destruct o).
  assert (Hg1 : log s1 = pings i o ++ log s) by (by destruct s).
  destruct (remove_inv _ (o_id o) Hs1 Hc1) as (_ & Hc2 & Hn2 & _).
  pose proof (remove_lookup s1 (o_id o) i o1 Hs1 Hc1 Ho1) as Ho2.
  rewrite bool_decide_true in Ho2 by done.
  assert (Hg2 : log (remove (o_id o) s1) = log s1).
  { rewrite remove_eq, Hm1 by done. by destruct s1. }
  clearbody s1. simpl. unfold CoapObserve.step. rewrite Hc1, Ho1, Hp1, Hid.
  eexists. split; [done|]. destruct (remove (o_id o) s1) as [m os ts r ll g c]; simpl in *. subst.
  split_and!; try done.
  rewrite lookup_alter_view, decide_True, Ho2 by done. unfold o1, removed_observer. by destruct o.
Qed.

(** What an observer in the map looks like between two series. *)
Lemma registered_observer s i o :
  inv s -> obs s !! o_id o = Some i -> observers s !! i = Some o -> is_new o = false ->
  cancelled o = false /\ closed o = false /\ active o = true /\ canceller o = CancelWait.
Proof.
  clear. intros Hs Hm Ho Hn. destruct (map_observer _ _ _ Hs Hm) as (o' & Ho' & _ & Hc). simplify_eq.
  pose proof (inv_obs _ Hs _ _ Ho) as [_ Hq Hcl Hca Hac _ _ _ _]. split; [done|].
  rewrite Hcl. destruct (canceller o) eqn:E; simpl in *.
  - by rewrite (proj1 Hq eq_refl) in Hn.
  - split_and!; try done. destruct (active o); [done|]. by rewrite Hac in Hc.
  - by rewrite Hca in Hc.
  - by rewrite Hca in Hc.
  - by rewrite Hca in Hc.
Qed.

(** A message that comes when the observer is cancelled and its subscription is
    not ended yet. *)
Definition late_message (i : nat) (subject data : bytes) : list action :=
  Local i <$> [CancelAwake; Deliver subject data; CloseMessages; SendClosed].

Lemma late_message_run s i o subject data m :
  crashed s = None -> observers s !! i = Some o ->
  cancelled o = true -> closed o = false -> active o = true -> canceller o = CancelWait ->
  callback o = None -> nats_matches (o_subject o) subject = true -> Unmarshal data empty_message = Done m ->
  exists s', run s (late_message i subject data) = Some s' /\ crashed s' = Some (SendOnClosed i).
Proof.
  intros Hc Ho Hca Hcl Hac Hq Hcb Hm Hu.
  change (late_message i subject data) with
    ((Local i <$> [CancelAwake; Deliver subject data; CloseMessages]) ++ [Local i SendClosed]).
  assert (Hl : local_run i o [CancelAwake; Deliver subject data; CloseMessages] =
    Some (set_canceller CancelStore (set_closed (set_callback (Some m) o)), [Delivered i subject m])).
  { destruct o; simpl in *; subst; simpl. by rewrite Hm, Hu. }
  rewrite coap_run_app, (run_local _ _ _ _ _ _ Hc Ho Hl). simpl. unfold CoapObserve.step.
  replace (crashed _) with (@None panic) by (by destruct s). autorewrite with coapdb.
  rewrite lookup_alter_view, decide_True, Ho by done. simpl.
  destruct o; simpl. eexists. split; [done|]. by destruct s.
Qed.
End Life.
