(* ===== verification/CoapProperties.v ===== *)
(** * What CoAP observation guarantees

    Who may observe, what an observer is sent, when the map forgets it, and the
    ways in which an observation ends too early or takes the adapter down. *)

From S2P Require Import Prelude JsString GoCodec Subtopics GoAdapters CoapMessage CoapObserve CoapSafety CoapHistory CoapLife.

Local Open Scope Z_scope.

#[local] Arguments Unmarshal : simpl never.

(** ** Helpers *)

(** What an accepted request proves about its query, where [lets_in key channel
    publisher] is what is known of the access call. *)
Definition observes_with (lets_in : bytes -> bytes -> bytes -> Prop) (msg : coap_packet) (obsID subject : bytes) : Prop :=
  let r := as_request msg in
  exists q params key publisher st,
    URIQuery r = Some q /\ ParseQuery q = Some params /\
    query_values (js "authorization") params = [key] /\
    fmtSubtopic (path_string r) = Some st /\
    lets_in key (coap_id (path_string r)) publisher /\
    obsID = obsID_of (c_token msg) publisher (coap_id (path_string r)) /\
    subject = fmtSubject (coap_id (path_string r)) st /\
    c_type msg <> Acknowledgement /\ observe_option msg = Some 0.

(** The Things service grants the channel; or the call fails without a gRPC status,
    and [authorize] goes on with an empty publisher. *)
Definition access_granted (CanAccessByKey : bytes -> bytes -> bytes + call_error) (key ch publisher : bytes) : Prop :=
  CanAccessByKey key ch = inl publisher.
Definition access_failed_open (CanAccessByKey : bytes -> bytes -> bytes + call_error) (key ch publisher : bytes) : Prop :=
  CanAccessByKey key ch = inr PlainError /\ publisher = [].

Lemma observes_with_impl (P Q : bytes -> bytes -> bytes -> Prop) msg obsID subject :
  (forall k c p, P k c p -> Q k c p) -> observes_with P msg obsID subject -> observes_with Q msg obsID subject.
Proof.
  intros H (q & params & key & publisher & st & ? & ? & ? & ? & Hp & ?).
  exists q, params, key, publisher, st. auto 10.
Qed.

Lemma observe_granted CanAccessByKey msg o ch st :
  observe CanAccessByKey msg = Proceed o -> ob_subscribe o = Some (ch, st) ->
  observes_with (fun k c p => access_granted CanAccessByKey k c p \/ access_failed_open CanAccessByKey k c p)
    msg (ob_id o) (fmtSubject ch st).
Proof.
  unfold observe, observes_with, access_granted, access_failed_open. cbv zeta. set (r := as_request msg).
  destruct (coap_id (path_string r)) as [|c cs] eqn:Hid; [done|].
  destruct (fmtSubtopic (path_string r)) as [sub|] eqn:Hst; [|done].
  unfold coap_authorize. destruct (URIQuery r) as [q|] eqn:Hq; [|done].
  destruct (ParseQuery q) as [params|] eqn:Hp; [|done].
  destruct (query_values (js "authorization") params) as [|key [|? ?]] eqn:Hk; [done| |done].
  destruct (CanAccessByKey key (c :: cs)) as [pub|[d|]] eqn:Ha; [|done|];
    (case_bool_decide as Hty; [done|]); intros [= <-]; simpl;
    (case_bool_decide as Hob; [|done]); intros [= <- <-]; naive_solver.
Qed.

Lemma observe_acked CanAccessByKey msg id :
  observe CanAccessByKey msg = Acked id -> c_type msg = Acknowledgement.
Proof. unfold observe. intros H. repeat case_match; simplify_eq. by zbool. Qed.

Lemma mux_observe_type msg msg' : mux msg = MuxObserve msg' -> c_type msg' = c_type msg.
Proof.
  unfold mux, SetPathString. intros H. repeat case_match; simplify_eq; try done.
  destruct (skip_slashes _); by simplify_eq/=.
Qed.

(** The value of an Observe option as a client reads it. *)
Definition observe_value (p : coap_packet) : option Z :=
  match first_option OptObserve p with
  | Some v => match parseOptionValue OptObserve (toBytes v) with Some (OUint n) => Some n | _ => None end
  | None => None
  end.

(** The comparison of RFC 7641, section 3.4, for notifications that arrive within
    128 seconds: is the one with value [v2] newer than the one with [v1]? *)
Definition fresher (v1 v2 : Z) : bool :=
  (v1 <? v2) && (v2 - v1 <? 2 ^ 23) || (v2 <? v1) && (2 ^ 23 <? v1 - v2).

Lemma land_255 x : 0 <= x -> Z.land x 255 = x mod 256.
Proof. intros _. change 255 with (Z.ones 8). by rewrite Z.land_ones. Qed.

Lemma observeVal_bytes id :
  0 <= id < 65536 -> observeVal id = [0; id / 256; id mod 256].
Proof.
  intros Hid. unfold observeVal, PutUint64. cbn [fmap list_fmap drop].
  rewrite !Z.shiftr_div_pow2, !land_255 by (try lia; apply Z.div_pos; lia).
  change (2 ^ (8 * 2)) with 65536. change (2 ^ (8 * 1)) with 256. change (2 ^ (8 * 0)) with 1.
  rewrite Z.div_1_r. repeat f_equal.
  - rewrite Z.div_small by lia. done.
  - rewrite Z.mod_small; [done|]. split; [apply Z.div_pos; lia|apply Z.div_lt_upper_bound; lia].
Qed.

Lemma lor_shift_byte a b : 0 <= b < 256 -> Z.lor (Z.shiftl a 8) b = a * 256 + b.
Proof.
  intros Hb. rewrite <- Z.add_lor_land, Z.shiftl_mul_pow2 by lia. change (2 ^ 8) with 256.
  replace (Z.land (a * 256) b) with 0; [lia|]. symmetry. apply Z.bits_inj'. intros n Hn.
  rewrite Z.land_spec, Z.bits_0. destruct (Z.lt_ge_cases n 8) as [Hlt|Hge].
  - change 256 with (2 ^ 8). by rewrite Z.mul_pow2_bits_low.
  - rewrite (Z.bits_above_log2 b n), andb_false_r; [done|lia|].
    destruct (Z.eq_dec b 0) as [->|]; [cbn; lia|]. apply Z.log2_lt_pow2; [lia|].
    apply Z.lt_le_trans with (2 ^ 8); [lia|]. by apply Z.pow_le_mono_r.
Qed.

Lemma decode_observeVal id : 0 <= id < 65536 -> decodeInt (observeVal id) = id.
Proof.
  intros Hid. rewrite observeVal_bytes by done. unfold decodeInt. cbn [foldl].
  assert (0 <= id / 256 < 256) by (split; [apply Z.div_pos; lia|apply Z.div_lt_upper_bound; lia]).
  rewrite !lor_shift_byte by (try lia; apply Z.mod_pos_bound; lia).
  pose proof (Z.div_mod id 256). lia.
Qed.

Lemma numbered_value p : numbered p -> 0 <= c_id p < 65536 -> observe_value p = Some (c_id p).
Proof.
  unfold numbered, observe_value, first_option. intros -> Hid. cbn [head toBytes].
  unfold parseOptionValue. change (optionDefs OptObserve) with (OptionDef ValueUint 0 3).
  cbn [valueFormat minLen maxLen]. cbv zeta. by rewrite decode_observeVal, observeVal_bytes.
Qed.

Lemma wrap_range n : 0 <= wrap n < 65536.
Proof. by apply Z.mod_pos_bound. Qed.

Lemma fresher_wrap n : fresher (wrap n) (wrap (S n)) = true <-> wrap (S n) <> 0.
Proof.
  pose proof (wrap_range n) as Hn. rewrite <- wrap_S. unfold fresher.
  destruct (Z.eq_dec (wrap n) 65535) as [E|E].
  - rewrite E. vm_compute. by split.
  - rewrite Z.mod_small by lia. change (2 ^ 23) with 8388608. split; [lia|]. intros _.
    rewrite orb_true_iff, !andb_true_iff, !Z.ltb_lt. lia.
Qed.

(** ** A sample service *)

Definition observe_request (token : bytes) (observe : Z) : coap_packet := {|
  c_type := Confirmable; c_code := GET; c_id := 7; c_token := token; c_payload := [];
  c_opts := [(OptObserve, OUint observe); (OptURIPath, OString (js "channels"));
             (OptURIPath, OString (js "c1")); (OptURIPath, OString (js "messages"));
             (OptURIPath, OString (js "temp")); (OptURIQuery, OString (js "authorization=k1"))] |}.

Definition sample_subject : bytes := js "channel.c1.temp".
Definition sample_content : GoMessage := message (js "mqtt") (js "c1") (js "temp") (js "a2") [] [49].
Definition sample_data : bytes := match Marshal sample_content with Done d => d | _ => [] end.

(** One request of task [k], run to its end. *)
Definition registration (k : nat) (msg : coap_packet) : list action :=
  Packet k msg :: replicate 4 (Advance k true).

Definition same_subject (subscription subject : bytes) : bool := bool_decide (subscription = subject).

Definition sample_after (acts : list action) : service :=
  default init (run sample_access same_subject init acts).

Lemma sample_after_run acts :
  is_Some (run sample_access same_subject init acts) ->
  run sample_access same_subject init acts = Some (sample_after acts).
Proof. intros [s H]. unfold sample_after. by rewrite H. Qed.

Lemma sample_after_reachable acts :
  is_Some (run sample_access same_subject init acts) ->
  reachable sample_access same_subject (sample_after acts).
Proof.
  intros H. eapply coap_run_reachable; [apply reach_init|by apply sample_after_run].
Qed.

Definition sample_observed : service := sample_after (registration 0 (observe_request [1] 0)).

Definition sample_id : bytes := js "01-a1-c1".

Example sample_registered :
  obs sample_observed !! sample_id = Some 0%nat /\
  (o_subject <$> observers sample_observed) = [sample_subject] /\
  (pinger <$> observers sample_observed) = [PingSelect] /\
  log sample_observed !! 0%nat =
    Some (Replied (response (observe_request [1] 0) Content true)).
Proof. split_and!; vm_compute; reflexivity. Qed.

(** A message from NATS to the client. *)
Definition delivery (i : nat) : list action :=
  Local i <$> [Deliver sample_subject sample_data; Rendezvous; NotifyLoad; NotifySend].

Example sample_notified :
  let s := sample_after (registration 0 (observe_request [1] 0) ++ delivery 0 ++ delivery 0) in
  (fun p => (c_id p, c_payload p, observe_value p)) <$> notified 0 (log s) =
    [(1, [49], Some 1); (2, [49], Some 2)].
Proof. vm_compute. reflexivity. Qed.

Section Properties.
Variable CanAccessByKey : bytes -> bytes -> bytes + call_error.
Variable nats_matches : bytes -> bytes -> bool.

Abbreviation step := (step CanAccessByKey nats_matches).
Abbreviation run := (run CanAccessByKey nats_matches).
Abbreviation reachable := (reachable CanAccessByKey nats_matches).

(** ** Who observes, and what *)

(** An observer that was put into the map and not cancelled. *)
Definition registered (s : service) (i : nat) (o : observer) : Prop :=
  observers s !! i = Some o /\ cancelled o = false /\ (forall k c, tasks s !! k <> Some (TPut i c)).

(** C29: The map of the service is the set of live observers: in every reachable
    state, an identifier leads to an observer exactly when the observer has that
    identifier, was put into the map, and was not cancelled.  So an identifier has
    one live observer at most. *)
Theorem coap_registered s id i :
  reachable s -> (obs s !! id = Some i <-> exists o, registered s i o /\ o_id o = id).
Proof.
  intros Hr%reachable_inv. destruct (Hr) as [_ Hw]. split.
  - intros Hi. destruct (map_observer _ _ _ Hr Hi) as (o & Ho & Hid & Hc). exists o.
    split; [|done]. split_and!; [done..|]. by apply (own_map _ _ _ Hw _ _ Hi).
  - intros (o & (Ho & Hc & Hn) & <-).
    destruct (own_live _ _ _ Hw i (o_id o) (is_new o)) as [|(k & c & Hk)]; [|done|by destruct (Hn k c)].
    rewrite list_lookup_fmap, Ho. simpl. unfold view_of. by rewrite Hc.
Qed.

(** C30: Only authorised clients observe: every observer there ever was comes from a
    request with Observe 0 whose query has one key, and is subscribed to the subject
    of the channel and subtopic of its path; and the Things service granted this key
    this channel, or else the access call failed without a gRPC status, in which
    case [authorize] lets the client in with an empty publisher.  Where every
    failure of the call has a status, the channel was granted. *)
Theorem coap_observer_authorised s i o :
  reachable s -> observers s !! i = Some o ->
  observes_with (fun k c p => access_granted CanAccessByKey k c p \/ access_failed_open CanAccessByKey k c p)
    (o_msg o) (o_id o) (o_subject o) /\
  ((forall key ch, CanAccessByKey key ch <> inr PlainError) ->
   observes_with (access_granted CanAccessByKey) (o_msg o) (o_id o) (o_subject o)).
Proof.
  intros Hr%reachable_recorded Ho. destruct (r_observers _ _ _ Hr _ _ Ho) as (ob & ch & st & Hin & <- & Hs & ->).
  apply (r_requested _ _ _ Hr) in Hin. pose proof (observe_granted _ _ _ _ _ (eq_sym Hin) Hs) as H. split; [done|].
  intros Hst. revert H. apply observes_with_impl. intros k c p [?|[Hp _]]; [done|]. by apply Hst in Hp.
Qed.

(** C31: A client is sent what NATS delivers to its observer: the notifications so
    far, followed by what its goroutines hold, are the delivered messages in
    order, each with its payload and content format, none lost, repeated or
    reordered.  The messages came on subjects its subscription matches; every
    packet to the client has the token and the path of its request, and not the
    query with the key. *)
Theorem coap_notifications s i o :
  reachable s -> observers s !! i = Some o ->
  (packet_content <$> notified i (log s)) ++ owed o = message_content <$> (snd <$> delivered i (log s)) /\
  (forall subject m, Delivered i subject m ∈ log s -> nats_matches (o_subject o) subject = true) /\
  Forall (shaped (o_msg o)) (frames i (log s)).
Proof.
  intros Hr%reachable_recorded Ho. pose proof (r_history _ _ _ Hr _ _ Ho) as H.
  split_and!; [apply H| |apply H]. intros subject m. by apply (r_delivered _ _ _ Hr).
Qed.

(** The message ids of the packets to one client, from both senders, are the
    numbers from 1 on, modulo 2^16, each used once: the ids sent, together with
    those taken and about to be sent, are a permutation of the first ones, and
    the notifications have theirs in order. *)
Theorem coap_message_ids s i o :
  reachable s -> observers s !! i = Some o ->
  let n := length (allocated i o (log s)) in
  allocated i o (log s) ≡ₚ first_ids n /\ msgID o = wrap n /\
  (c_id <$> notified i (log s)) ++ notify_pending o `sublist_of` first_ids n.
Proof.
  intros Hr%reachable_recorded Ho. pose proof (r_history _ _ _ Hr _ _ Ho) as H. split_and!; apply H.
Qed.

(** As long as a client was not pinged, its notifications have the Observe values
    1, 2, 3 and so on, modulo 2^16.  By the rule of RFC 7641 a notification is
    newer than the one before unless the counter came back to 0; and the first one
    is not newer than the response to the registration, which has the value 1
    too. *)
Theorem coap_observe_sequence s i o k p q :
  reachable s -> observers s !! i = Some o ->
  length (frames i (log s)) = length (notified i (log s)) -> ping_pending o = [] ->
  notified i (log s) !! k = Some p -> notified i (log s) !! S k = Some q ->
  observe_value p = Some (wrap (S k)) /\ observe_value q = Some (wrap (S (S k))) /\
  (fresher (wrap (S k)) (wrap (S (S k))) = true <-> wrap (S (S k)) <> 0) /\
  (forall msg code, observe_value (response msg code true) = Some (wrap 1)) /\ fresher (wrap 1) (wrap 1) = false.
Proof.
  intros Hr%reachable_recorded Ho Hf Hpp Hp Hq. pose proof (r_history _ _ _ Hr _ _ Ho) as H.
  destruct H as [_ _ _ Hs _ Hnum _]. unfold allocated in Hs. rewrite Hpp, app_nil_r in Hs.
  set (l := notified i (log s)) in *.
  assert (Hids : (c_id <$> l) ++ notify_pending o = first_ids (length (l ++ ((fun _ => p) <$> notify_pending o)))).
  { rewrite !length_app, !length_fmap in *. rewrite Hf in Hs.
    assert (Hlen : length ((c_id <$> l) ++ notify_pending o) = length (first_ids (length l + length (notify_pending o)))).
    { unfold first_ids. by rewrite length_app, !length_fmap, length_seq. }
    by apply sublist_same_length. }
  assert (Hval : forall j x, l !! j = Some x -> observe_value x = Some (wrap (S j))).
  { intros j x Hx. rewrite Forall_forall in Hnum.
    assert (Hid : c_id x = wrap (S j)).
    { assert (Hl : ((c_id <$> l) ++ notify_pending o) !! j = Some (c_id x)).
      { apply lookup_app_l_Some. by rewrite list_lookup_fmap, Hx. }
      rewrite Hids in Hl. unfold first_ids in Hl. rewrite list_lookup_fmap in Hl.
      apply fmap_Some in Hl as (n & Hn & ->). apply lookup_seq in Hn as [-> _]. done. }
    rewrite <- Hid. apply numbered_value; [apply Hnum; by eapply list_elem_of_lookup_2|].
    rewrite Hid. apply wrap_range. }
  split_and!; [by apply Hval|by apply Hval|apply fresher_wrap|..]; done.
Qed.

(** ** The end of an observation *)

(** C32: The adapter can panic in one way only: the NATS callback of a cancelled
    observer sends on its channel [Messages] after [cancel] closed it.  No channel
    is closed twice, whatever the interleaving of registrations, replacements,
    removals and pings. *)
Theorem coap_only_panic s p :
  reachable s -> crashed s = Some p ->
  exists i o m, p = SendOnClosed i /\ observers s !! i = Some o /\ callback o = Some m /\
    cancelled o = true /\ closed o = true.
Proof.
  intros Hr Hp. destruct (reachable_crashed _ _ _ _ Hr Hp) as (i & o & m & -> & Ho & Hm & Hc).
  pose proof (inv_obs _ (reachable_inv _ _ _ Hr) _ _ Ho) as Hok.
  exists i, o, m. split_and!; try done. apply (ok_cancelled _ Hok).
  rewrite (ok_closed _ Hok) in Hc. by destruct (canceller o).
Qed.

(** A client that does not answer is removed: from the tick on, its observer is
    pinged four times with consecutive message ids, the identifier leaves the map,
    and the observer is cancelled. *)
Theorem coap_silent_removed s i o :
  reachable s -> crashed s = None -> registered s i o -> pinger o = PingSelect -> expired o = false ->
  exists s', run s (removal i) = Some s' /\ obs s' !! o_id o = None /\
    log s' = pings i o ++ log s /\ exists o', observers s' !! i = Some o' /\ cancelled o' = true.
Proof.
  intros Hr Hc (Ho & Hca & Hn) Hp He. pose proof (reachable_inv _ _ _ Hr) as Hs.
  assert (Hm : obs s !! o_id o = Some i).
  { destruct (own_live _ _ _ (inv_owner _ Hs) i (o_id o) (is_new o)) as [|(k & c & Hk)]; [|done|by destruct (Hn k c)].
    rewrite list_lookup_fmap, Ho. simpl. unfold view_of. by rewrite Hca. }
  destruct (removal_run CanAccessByKey nats_matches _ _ _ Hs Hc Hm Ho Hp He) as (s' & Hrun & Hm' & _ & Hl & Ho').
  exists s'. split_and!; try done. exists (removed_observer o). split; [done|by destruct o].
Qed.

(** That panic is within reach of every observation whose client falls silent:
    when its observer is removed, a message of its channel that arrives before the
    subscription is ended is handed to the callback, [cancel] closes [Messages],
    and the callback takes the adapter down, with all other clients. *)
Theorem coap_crash s i o subject data m :
  reachable s -> crashed s = None -> obs s !! o_id o = Some i -> observers s !! i = Some o ->
  pinger o = PingSelect -> expired o = false -> callback o = None ->
  nats_matches (o_subject o) subject = true -> Unmarshal data empty_message = Done m ->
  exists s', run s (removal i ++ late_message i subject data) = Some s' /\
    crashed s' = Some (SendOnClosed i).
Proof.
  intros Hr%reachable_inv Hc Hm Ho Hp He Hcb Hsub Hu.
  assert (Hn : is_new o = false).
  { destruct (is_new o) eqn:E; [|done]. pose proof (ok_new_ping _ (inv_obs _ Hr _ _ Ho)) as [_ H].
    by rewrite (H E) in Hp. }
  destruct (registered_observer _ _ _ Hr Hm Ho Hn) as (Hca & Hcl & Hac & Hq).
  destruct (removal_run CanAccessByKey nats_matches _ _ _ Hr Hc Hm Ho Hp He) as (s' & Hrun & _ & Hc' & _ & Ho').
  rewrite coap_run_app, Hrun. eapply late_message_run; [done|exact Ho'|..]; by try (by destruct o).
Qed.

(** A client that registers again while its old observer is being pinged loses
    the new observation as well.  The old observer was cancelled by the new one;
    nothing acknowledges it any more, so its series of pings can only end by
    removing the identifier, and with it the observer that is registered under it
    by then. *)
Theorem coap_stale_ping s i o acts s' o' :
  reachable s -> observers s !! i = Some o -> in_series (pinger o) = true -> expired o = true ->
  cancelled o = true -> listener s <> Some i ->
  run s acts = Some s' -> observers s' !! i = Some o' ->
  in_series (pinger o') = true \/ removes_during CanAccessByKey nats_matches s i (o_id o) acts.
Proof.
  intros Hr%reachable_inv Ho Hp He Hc Hl Hrun Ho'.
  destruct (series_run CanAccessByKey nats_matches s acts s' i o o') as [[? _]|?]; try done; [|by left|by right].
  by apply (cancelled_unanswered _ _ s acts i o).
Qed.

(** ** Acknowledgements *)

(** An acknowledgement as RFC 7252 has it: an empty message, without options. *)
Definition bare_ack (a : action) : Prop :=
  match a with
  | Packet _ msg => c_type msg = Acknowledgement -> Options OptURIPath msg = []
  | _ => True
  end.

Record unheard (s : service) : Prop := {
  un_responses : responses s = [];
  un_listener : listener s = None;
  un_expired : forall i o, observers s !! i = Some o -> in_series (pinger o) = true -> expired o = true
}.

Lemma arrive_unheard k msg s :
  bare_ack (Packet k msg) -> responses s = [] -> responses (arrive CanAccessByKey k msg s) = [].
Proof.
  clear nats_matches. simpl. intros Hb Hs. unfold arrive.
  destruct (mux msg) as [| |m|m] eqn:Hm; [by destruct s..| |done].
  destruct (observe CanAccessByKey m) as [code|id|o] eqn:Ha; [by destruct s| |by destruct s].
  apply observe_acked in Ha. rewrite (mux_observe_type _ _ Hm) in Ha.
  by rewrite (mux_no_path _ (Hb Ha)) in Hm.
Qed.

Lemma remove_queue id s : responses (remove id s) = responses s /\ listener (remove id s) = listener s.
Proof.
  clear. unfold remove, close_cancel. destruct s as [m os ts r l g c]; simpl. by repeat (case_match; simpl).
Qed.

Lemma advance_queue k t ok s :
  responses (advance k t ok s) = responses s /\ listener (advance k t ok s) = listener s.
Proof.
  clear. destruct t as [msg ob|msg ob|j code|j code]; simpl.
  - set (s1 := if ob_unsubscribe ob then remove (ob_id ob) s else s).
    assert (H1 : responses s1 = responses s /\ listener s1 = listener s).
    { unfold s1. destruct (ob_unsubscribe ob); [apply remove_queue|done]. }
    by destruct (ob_subscribe ob), s1.
  - destruct (ob_subscribe ob) as [[]|]; [|done]. destruct ok; by destruct s.
  - destruct (observers s !! j) as [oj|]; [|done]. unfold put, close_cancel.
    destruct s as [m os ts r l g c]; simpl. by repeat (case_match; simpl).
  - by destruct s.
Qed.

(** Nothing sets the flag back when nothing is acknowledged. *)
Lemma observer_step_expired s i a o o' :
  observer_step nats_matches s i a o o' -> listener s <> Some i -> obs_ok o ->
  (in_series (pinger o) = true -> expired o = true) -> in_series (pinger o') = true -> expired o' = true.
Proof.
  intros H Hl Hok He Hp. destruct H as [a o|a o id|a o id|l o o' es Hls|o Hl2|o|k ok o code Hk Hn];
    try (destruct o; simpl in *; by auto).
  destruct l; unfold local_step in Hls; repeat case_match; simplify_eq; auto; destruct o; simpl in *; subst; auto.
Qed.

Lemma step_unheard s a s' :
  inv s -> unheard s -> bare_ack a -> step s a = Some s' -> unheard s'.
Proof.
  intros Hs [Hr Hl He] Hb Hst.
  assert (Hexp : forall i o', observers s' !! i = Some o' -> in_series (pinger o') = true -> expired o' = true).
  { intros i o' Ho' Hp. destruct (observers s !! i) as [o|] eqn:Ho.
    - destruct (step_observer _ _ _ _ _ _ _ Hs Hst Ho) as (o2 & Ho2 & Hos). simplify_eq.
      eapply observer_step_expired; [exact Hos|by rewrite Hl|by eapply inv_obs| |done]. by apply He with i.
    - pose proof (step_new_observer _ _ _ _ _ _ _ Hst Ho Ho') as Hn.
      assert (Hs' : inv s') by (by eapply step_inv).
      apply (ok_new_ping _ (inv_obs _ Hs' _ _ Ho')) in Hn. by rewrite Hn in Hp. }
  unfold CoapObserve.step in Hst. destruct (crashed s); [done|].
  enough (responses s' = [] /\ listener s' = None) as [? ?] by done.
  destruct a as [k msg|k ok| | |j l|j]; simpl in Hst.
  - destruct (tasks s !! k); [done|]. destruct (parsed msg); simplify_eq.
    split; [by apply arrive_unheard|]. rewrite <- Hl. unfold arrive.
    destruct (mux msg) as [| |m|]; try (by destruct s).
    by destruct (observe CanAccessByKey m); destruct s.
  - apply fmap_Some in Hst as (t & _ & ->). by destruct (advance_queue k t ok s) as [-> ->].
  - by rewrite Hl, Hr in Hst.
  - by rewrite Hl in Hst.
  - destruct (observers s !! j); [|done].
    destruct (local_step _ _ _ _) as [[]|]; simplify_eq; by destruct s.
  - destruct (observers s !! j) as [oj|]; [|done]. destruct (pinger oj); simplify_eq.
    destruct (remove_queue (o_id oj) s) as [H1 H2]. destruct (remove (o_id oj) s); simpl in *. by subst.
Qed.

Lemma run_unheard s acts s' :
  inv s -> unheard s -> Forall bare_ack acts -> run s acts = Some s' ->
  inv s' /\ unheard s' /\ forall i, unanswered CanAccessByKey nats_matches i s acts = true.
Proof.
  revert s. induction acts as [|a acts IH]; intros s Hs Hu Hb Hr; simpl in *; [by simplify_eq|].
  apply Forall_cons in Hb as [Ha Hb]. destruct (step s a) as [s1|] eqn:Hst; [|done].
  destruct (IH s1) as (? & ? & Hun); [by eapply step_inv|by eapply step_unheard|done..|].
  split_and!; try done. intros i. rewrite Hun, andb_true_r. destruct a; try done.
  simpl. by rewrite (un_listener _ Hu).
Qed.

Lemma init_unheard : unheard init.
Proof. clear. by constructor. Qed.

(** Acknowledgements as RFC 7252 prescribes them (empty messages) are never
    counted, since the handler is chosen by the path of a message: with such
    clients no acknowledgement reaches the service, and an observer that is being
    pinged ends by being removed, whether its client answers or not. *)
Theorem coap_bare_acks acts1 acts2 s s' i o o' :
  Forall bare_ack (acts1 ++ acts2) -> run init acts1 = Some s -> run s acts2 = Some s' ->
  observers s !! i = Some o -> in_series (pinger o) = true -> observers s' !! i = Some o' ->
  responses s' = [] /\ listener s' = None /\
  (in_series (pinger o') = true \/ removes_during CanAccessByKey nats_matches s i (o_id o) acts2).
Proof.
  intros [Hb1 Hb2]%Forall_app Hr1 Hr2 Ho Hp Ho'.
  destruct (run_unheard _ _ _ init_inv init_unheard Hb1 Hr1) as (Hs & Hu & _).
  destruct (run_unheard _ _ _ Hs Hu Hb2 Hr2) as (Hs' & Hu' & Hun).
  split_and!; [apply Hu'..|].
  destruct (series_run CanAccessByKey nats_matches s acts2 s' i o o') as [[? _]|?]; try done;
    [by apply (un_expired _ Hu i)|by left|by right].
Qed.
End Properties.

(** ** Witnesses *)

Ltac by_run := vm_compute; eexists; reflexivity.

Definition notified_twice : list action := registration 0 (observe_request [1] 0) ++ delivery 0 ++ delivery 0.
Definition sample_notified_state : service := sample_after notified_twice.

Lemma observed_reachable : reachable sample_access same_subject sample_observed.
Proof. apply sample_after_reachable. by_run. Qed.

Lemma notified_reachable : reachable sample_access same_subject sample_notified_state.
Proof. apply sample_after_reachable. by_run. Qed.

Definition no_observer_here : observer := new_observer (observe_request [] 0) [] [].
Definition observer_of (s : service) (i : nat) : observer := default no_observer_here (observers s !! i).

Lemma observer_of_lookup s i : is_Some (observers s !! i) -> observers s !! i = Some (observer_of s i).
Proof. intros [o H]. unfold observer_of. by rewrite H. Qed.

Lemma coap_registered_witness :
  exists o, registered sample_observed 0 o /\ o_id o = sample_id.
Proof. apply (proj1 (coap_registered _ _ _ _ _ observed_reachable)). vm_compute. reflexivity. Defined.

Lemma coap_observer_authorised_witness :
  let o := observer_of sample_observed 0 in
  observes_with (fun k c p => access_granted sample_access k c p \/ access_failed_open sample_access k c p)
    (o_msg o) (o_id o) (o_subject o).
Proof.
  apply (coap_observer_authorised sample_access same_subject sample_observed 0); [apply observed_reachable|].
  apply observer_of_lookup. by_run.
Defined.

Lemma coap_notifications_witness :
  let o := observer_of sample_notified_state 0 in
  (packet_content <$> notified 0 (log sample_notified_state)) ++ owed o =
    message_content <$> (snd <$> delivered 0 (log sample_notified_state)) /\
  length (delivered 0 (log sample_notified_state)) = 2%nat.
Proof.
  split; [|vm_compute; reflexivity].
  apply (coap_notifications sample_access same_subject sample_notified_state 0 _ notified_reachable).
  apply observer_of_lookup. by_run.
Defined.

Lemma coap_message_ids_witness :
  let l := allocated 0 (observer_of sample_notified_state 0) (log sample_notified_state) in
  l ≡ₚ first_ids (length l) /\ length l = 2%nat.
Proof.
  destruct (coap_message_ids sample_access same_subject sample_notified_state 0
    (observer_of sample_notified_state 0) notified_reachable) as (Hp & _).
  - apply observer_of_lookup. by_run.
  - split; [exact Hp|vm_compute; reflexivity].
Defined.

Definition sample_notification (k : nat) : coap_packet :=
  default (not_found (observe_request [] 0)) (notified 0 (log sample_notified_state) !! k).

Lemma coap_observe_sequence_witness :
  observe_value (sample_notification 0) = Some (wrap 1) /\
  observe_value (sample_notification 1) = Some (wrap 2) /\ fresher (wrap 1) (wrap 2) = true.
Proof.
  destruct (coap_observe_sequence sample_access same_subject sample_notified_state 0
    (observer_of sample_notified_state 0) 0 (sample_notification 0) (sample_notification 1)
    notified_reachable) as (Hp & Hq & Hf & _).
  - apply observer_of_lookup. by_run.
  - vm_compute. reflexivity.
  - vm_compute. reflexivity.
  - vm_compute. reflexivity.
  - vm_compute. reflexivity.
  - split_and!; [exact Hp|exact Hq|]. apply Hf. discriminate.
Defined.

Definition crash_run : list action :=
  registration 0 (observe_request [1] 0) ++ removal 0 ++ late_message 0 sample_subject sample_data.

Lemma coap_only_panic_witness :
  exists i o m, SendOnClosed 0 = SendOnClosed i /\ observers (sample_after crash_run) !! i = Some o /\
    callback o = Some m /\ cancelled o = true /\ closed o = true.
Proof.
  apply (coap_only_panic sample_access same_subject); [apply sample_after_reachable; by_run|].
  vm_compute. reflexivity.
Defined.

Lemma coap_silent_removed_witness :
  exists s', run sample_access same_subject sample_observed (removal 0) = Some s' /\
    obs s' !! sample_id = None /\ length (frames 0 (log s')) = 4%nat.
Proof.
  destruct (coap_silent_removed sample_access same_subject sample_observed 0
    (observer_of sample_observed 0) observed_reachable) as (s' & Hr & Hm & Hl & _).
  - vm_compute. reflexivity.
  - split_and!; [apply observer_of_lookup; by_run|vm_compute; reflexivity|].
    intros k c. replace (tasks sample_observed) with (∅ : gmap nat task) by (vm_compute; reflexivity).
    by rewrite lookup_empty.
  - vm_compute. reflexivity.
  - vm_compute. reflexivity.
  - exists s'. split; [done|]. rewrite Hl. split; [exact Hm|vm_compute; reflexivity].
Defined.

Lemma coap_crash_witness :
  exists s', run sample_access same_subject sample_observed
      (removal 0 ++ late_message 0 sample_subject sample_data) = Some s' /\
    crashed s' = Some (SendOnClosed 0).
Proof.
  apply (coap_crash sample_access same_subject sample_observed 0 (observer_of sample_observed 0)
    sample_subject sample_data sample_content observed_reachable).
  - vm_compute. reflexivity.
  - vm_compute. reflexivity.
  - apply observer_of_lookup. by_run.
  - vm_compute. reflexivity.
  - vm_compute. reflexivity.
  - vm_compute. reflexivity.
  - vm_compute. reflexivity.
  - vm_compute. reflexivity.
Defined.

(** The client registers again while its first observer waits for an answer to
    the first ping. *)
Definition registered_again : list action :=
  registration 0 (observe_request [1] 0) ++
  (Local 0 <$> [Tick; PingStoreExpired; PingLoadID; PingTransmit]) ++
  registration 1 (observe_request [1] 0) ++
  (Local 0 <$> [CancelAwake; CloseMessages; CancelStoreExpired]).

Definition rest_of_series : list action :=
  (Local 0 <$> PingWake :: concat (replicate 3 [PingLoadID; PingTransmit; PingWake]) ++ [PingLast]) ++
  [PingUnsubscribe 0].

Definition sample_again : service := sample_after registered_again.

Lemma coap_stale_ping_witness :
  exists s', run sample_access same_subject sample_again rest_of_series = Some s' /\
    removes_during sample_access same_subject sample_again 0 sample_id rest_of_series /\
    obs sample_again !! sample_id = Some 1%nat /\ obs s' !! sample_id = None /\
    (fun o => (expired o, cancelled o, pinger o)) <$> observers s' !! 1%nat = Some (false, true, PingSelect).
Proof.
  destruct (run sample_access same_subject sample_again rest_of_series) as [s'|] eqn:Hr; [|by vm_compute in Hr].
  exists s'. split; [done|].
  assert (Hs' : s' = default init (run sample_access same_subject sample_again rest_of_series)) by (by rewrite Hr).
  split; [|rewrite Hs'; split_and!; vm_compute; reflexivity].
  destruct (coap_stale_ping sample_access same_subject sample_again 0 (observer_of sample_again 0)
    rest_of_series s' (observer_of s' 0)) as [Hp|Hd].
  - apply sample_after_reachable. by_run.
  - apply observer_of_lookup. by_run.
  - vm_compute. reflexivity.
  - vm_compute. reflexivity.
  - vm_compute. reflexivity.
  - vm_compute. discriminate.
  - exact Hr.
  - apply observer_of_lookup. rewrite Hs'. by_run.
  - exfalso. rewrite Hs' in Hp. vm_compute in Hp. discriminate.
  - exact Hd.
Defined.

(** A ping, the acknowledgement of the client, and the rest of the series. *)
Definition first_ping : list action :=
  registration 0 (observe_request [1] 0) ++
  (Local 0 <$> [Tick; PingStoreExpired; PingLoadID; PingTransmit]).
Definition empty_ack : coap_packet := Build_coap_packet Acknowledgement 0 1 [] [] [].
Definition sample_pinged : service := sample_after first_ping.

Lemma coap_bare_acks_witness :
  exists s', run sample_access same_subject sample_pinged (Packet 5 empty_ack :: rest_of_series) = Some s' /\
    removes_during sample_access same_subject sample_pinged 0 sample_id (Packet 5 empty_ack :: rest_of_series).
Proof.
  destruct (run sample_access same_subject sample_pinged (Packet 5 empty_ack :: rest_of_series))
    as [s'|] eqn:Hr; [|by vm_compute in Hr].
  exists s'. split; [done|].
  assert (Hs' : s' = default init (run sample_access same_subject sample_pinged
    (Packet 5 empty_ack :: rest_of_series))) by (by rewrite Hr).
  destruct (coap_bare_acks sample_access same_subject first_ping (Packet 5 empty_ack :: rest_of_series)
    sample_pinged s' 0 (observer_of sample_pinged 0) (observer_of s' 0)) as (_ & _ & [Hp|Hd]).
  - repeat constructor. discriminate.
  - apply sample_after_run. by_run.
  - exact Hr.
  - apply observer_of_lookup. by_run.
  - vm_compute. reflexivity.
  - apply observer_of_lookup. rewrite Hs'. by_run.
  - exfalso. rewrite Hs' in Hp. vm_compute in Hp. discriminate.
  - exact Hd.
Defined.

(** C33: Option values are well typed: whatever options arrive, with any numbers and
    bytes, those that the parser of the CoAP library keeps have a value of the type
    that RFC 7252 gives the option (text, bytes, a number, or a media type), so
    neither the type assertion in [optionStrings] nor the loop of [SetPathString]
    can panic in [mux]. *)
Theorem coap_mux_typed ty code id token payload raw :
  let opts := omap (fun x => (fst x,.) <$> parseOptionValue (fst x) (snd x)) raw in
  let msg := Build_coap_packet ty code id token payload opts in
  forallb well_typed opts = true /\ mux msg <> MuxPanic.
Proof.
  cbv zeta. set (opts := omap _ raw). assert (Hw : forallb well_typed opts = true).
  { apply forallb_forall. intros [o v] Hin%list_elem_of_In.
    apply list_elem_of_omap in Hin as ([o' b] & _ & Hx). simpl in Hx.
    apply fmap_Some in Hx as (v' & Hv & ?). simplify_eq. by eapply parseOptionValue_typed. }
  split; [done|]. by apply mux_total.
Qed.
