(* ===== verification/ThingsEvents.v ===== *)
(** * The event stream of the Things service

    The decorator of [things/redis/streams.go], which reports the successful
    changes of the service on a Redis stream for other adapters to follow, and the
    encoding of its events ([things/redis/events.go]).  The changes themselves are
    those of [ThingsList], with metadata as Go holds them. *)

From S2P Require Import Prelude JsString ThingsCache Things ThingsList.
From stdpp Require Import gmap sets.

(** ** JSON *)

(** What [encoding/json] makes of a document; [JOther] is the text of a number, a
    boolean, null or an array. *)
Inductive json :=
| JString (s : text)
| JObject (members : list (text * json))
| JOther (literal : text).

(** A Go map; [None] is nil. *)
Definition metadata : Type := option (list (text * json)).

(** [Marshal], and [Unmarshal] into a map: an object that was written is read
    back, and braces are an empty one. *)
Class JsonText := {
  marshal : json -> text;
  unmarshal : text -> option (list (text * json))
}.
Class JsonTextOk (J : JsonText) : Prop := {
  unmarshal_marshal_object m : unmarshal (marshal (JObject m)) = Some m;
  unmarshal_empty : unmarshal (js "{}") = Some []
}.

(** The member of an object with a name. *)
Definition field (name : text) (m : list (text * json)) : option json :=
  match List.find (fun kv => bool_decide (fst kv = name)) m with
  | Some kv => Some (snd kv)
  | None => None
  end.

(** ** Events *)

(** The fields of an entry of the stream. *)
Abbreviation event := (gmap text text).

Definition thingCreate : text := js "thing.create".
Definition thingUpdate : text := js "thing.update".
Definition thingRemove : text := js "thing.remove".
Definition thingConnect : text := js "thing.connect".
Definition thingDisconnect : text := js "thing.disconnect".
Definition channelCreate : text := js "channel.create".
Definition channelUpdate : text := js "channel.update".
Definition channelRemove : text := js "channel.remove".

Section Encode.
Context {JT : JsonText}.

(** The end of [Encode]: the name and the metadata, where there are any. *)
Definition encode_info (i : info metadata) (val : event) : event :=
  let val := match i_name i with [] => val | _ :: _ => <[js "name" := i_name i]> val end in
  match i_meta i with
  | None => val
  | Some m => <[js "metadata" := marshal (JObject m)]> val
  end.

Definition createEvent (operation id owner : text) (i : info metadata) : event :=
  encode_info i (<[js "id" := id]> (<[js "owner" := owner]> {[js "operation" := operation]})).

Definition updateEvent (operation id : text) (i : info metadata) : event :=
  encode_info i (<[js "id" := id]> {[js "operation" := operation]}).

Definition removeEvent (operation id : text) : event := <[js "id" := id]> {[js "operation" := operation]}.

Definition connectionEvent (operation chanID thingID : text) : event :=
  <[js "chan_id" := chanID]> (<[js "thing_id" := thingID]> {[js "operation" := operation]}).

End Encode.

(** ** The decorator *)

Section Decorator.
Context {S : Type} `{HS : Caches S} {U : Uuid} {JT : JsonText} {J : Json metadata}.
Variable auth : text -> option text.

Abbreviation catalog := (catalog S metadata).
Abbreviation change := (change (M := metadata)).

Definition succeeded {A} (r : service S * result A) : bool :=
  match snd r with Ok _ => true | Err _ => false end.

Definition nameless : info metadata := Info [] None.

(** The events of a request that is answered in the state [c].  The service puts
    the owner into new things and channels. *)
Definition events_of (ch : change) (c : catalog) : list event :=
  match ch with
  | NewThings token ths =>
      if succeeded (CreateThings auth token (fst <$> ths) (core c))
      then (fun th => createEvent thingCreate (fst (snd (fst th))) (default [] (auth token)) (snd th)) <$> ths
      else []
  | NewChannels token chs =>
      if succeeded (CreateChannels auth token (fst <$> chs) (core c))
      then (fun row => createEvent channelCreate (fst row) (default [] (auth token)) (snd row)) <$> chs
      else []
  | ChangeThing token id i =>
      match UpdateThing auth token id i c with Ok _ => [updateEvent thingUpdate id i] | Err _ => [] end
  | ChangeChannel token id i =>
      match UpdateChannel auth token id i c with Ok _ => [updateEvent channelUpdate id i] | Err _ => [] end
  | Core (RCreateThings token ths) =>
      if succeeded (CreateThings auth token ths (core c))
      then (fun th => createEvent thingCreate (fst (snd th)) (default [] (auth token)) nameless) <$> ths
      else []
  | Core (RCreateChannels token ids) =>
      if succeeded (CreateChannels auth token ids (core c))
      then (fun id => createEvent channelCreate id (default [] (auth token)) nameless) <$> ids
      else []
  | Core (RRemoveThing token id) =>
      if succeeded (RemoveThing auth token id (core c)) then [removeEvent thingRemove id] else []
  | Core (RRemoveChannel token id) =>
      if succeeded (RemoveChannel auth token id (core c)) then [removeEvent channelRemove id] else []
  | Core (RConnect token chIDs thIDs) =>
      if succeeded (Connect auth token chIDs thIDs (core c))
      then chIDs ≫= fun chID => connectionEvent thingConnect chID <$> thIDs
      else []
  | Core (RDisconnect token chanID thingID) =>
      if succeeded (Disconnect auth token chanID thingID (core c))
      then [connectionEvent thingDisconnect chanID thingID]
      else []
  | Core _ => []
  end.

(** [stream_up]: the Redis of the stream answers; errors of [XAdd] are dropped. *)
Record event_store := EventStore { es_catalog : catalog; stream : list event; stream_up : bool }.

Definition es_apply (ch : change) (es : event_store) : event_store :=
  EventStore (apply_change auth ch (es_catalog es))
    (if stream_up es then stream es ++ events_of ch (es_catalog es) else stream es) (stream_up es).

End Decorator.

(** ** Following the stream *)

(** [read] of the adapters' consumers. *)
Definition read (e : event) (key def : text) : text := default def (e !! key).

Definition operation (e : event) : text := read e (js "operation") [].

Inductive decode_error := BadJson | errMetadataType | errMetadataFormat | errMetadataKey.

(** The string under a member of the object that an adapter has in the metadata. *)
Definition decode_member {JT : JsonText} (protocol key : text) (e : event) : text + decode_error :=
  match unmarshal (read e (js "metadata") (js "{}")) with
  | None => inr BadJson
  | Some m =>
      match field protocol m with
      | None => inr errMetadataType
      | Some (JObject pm) =>
          match field key pm with
          | Some (JString v) => inl v
          | _ => inr errMetadataKey
          end
      | Some _ => inr errMetadataFormat
      end
  end.

Inductive handle_error := DecodeFailed (e : decode_error) | RouteFailed.

(** The loop of [Subscribe] over the messages of a read, with the state after it
    and the messages acknowledged: its [break] leaves the loop at the first error
    other than [errMetadataType], and the rest of the read with it. *)
Section Subscribe.
Context {St : Type}.
Variable handle : event -> St -> St * option handle_error.

Definition fatal (err : option handle_error) : bool :=
  match err with
  | None | Some (DecodeFailed errMetadataType) => false
  | Some _ => true
  end.

Fixpoint handle_batch (batch : list event) (s : St) : St * list event :=
  match batch with
  | [] => (s, [])
  | e :: batch =>
      let '(s, err) := handle e s in
      if fatal err then (s, [])
      else let '(s, acked) := handle_batch batch s in (s, e :: acked)
  end.

(** Read after read. *)
Definition handle_reads (reads : list (list event)) (s : St) : St :=
  foldl (fun s batch => fst (handle_batch batch s)) s reads.

Lemma handle_batch_app es1 e es2 s s1 :
  handle_batch es1 s = (s1, es1) -> fatal (snd (handle e s1)) = true ->
  handle_batch (es1 ++ e :: es2) s = (fst (handle e s1), es1).
Proof.
  revert s. induction es1 as [|e1 es1 IH]; intros s; simpl.
  - intros [= ->] Hf. destruct (handle e s1) as [s' err]. simpl in *. by rewrite Hf.
  - destruct (handle e1 s) as [s' err]. destruct (fatal err); [done|].
    destruct (handle_batch es1 s') as [s'' acked] eqn:E. intros [= -> ->] Hf. by rewrite (IH s').
Qed.
End Subscribe.

(** ** An encoding of objects as text *)

Fixpoint json_tree (j : json) : gen_tree text :=
  match j with
  | JString s => GenNode 0 [GenLeaf s]
  | JObject m => GenNode 1 ((fun kv => GenNode 2 [GenLeaf (fst kv); json_tree (snd kv)]) <$> m)
  | JOther s => GenLeaf s
  end.

Fixpoint tree_json (t : gen_tree text) : json :=
  match t with
  | GenLeaf s => JOther s
  | GenNode 0 [GenLeaf s] => JString s
  | GenNode _ ts =>
      JObject ((fix members (ts : list (gen_tree text)) : list (text * json) :=
        match ts with
        | GenNode _ [GenLeaf k; v] :: ts => (k, tree_json v) :: members ts
        | _ => []
        end) ts)
  end.

Lemma json_induction (P : json -> Prop) :
  (forall s, P (JString s)) -> (forall s, P (JOther s)) ->
  (forall m, Forall (fun kv => P (snd kv)) m -> P (JObject m)) -> forall j, P j.
Proof.
  intros Hs Ho Hm. fix IH 1. intros [s|m|s]; [apply Hs| |apply Ho].
  apply Hm. induction m as [|[k v] m IHm]; constructor; [apply IH|exact IHm].
Qed.

Lemma tree_json_tree j : tree_json (json_tree j) = j.
Proof.
  induction j as [s|s|m Hm] using json_induction; [done|done|]. simpl. f_equal.
  induction Hm as [|[k v] m Hv _ IH]; [done|]. csimpl. simpl in Hv. by rewrite Hv, IH.
Qed.

Definition coded_json : JsonText := {|
  marshal j := [Zpos (encode (json_tree j))];
  unmarshal s :=
    if bool_decide (s = js "{}") then Some []
    else match s with
         | [Zpos p] => match decode p with Some t => match tree_json t with JObject m => Some m | _ => None end | None => None end
         | _ => None
         end
|}.

Lemma coded_json_ok : JsonTextOk coded_json.
Proof.
  split; [|done]. intros m. unfold marshal, unmarshal, coded_json.
  rewrite bool_decide_eq_false_2 by by vm_compute. by rewrite decode_encode, tree_json_tree.
Qed.
