(* ===== verification/Base64.v ===== *)
(** * Base64

    [StdEncoding] of [encoding/base64], which the LoRa adapter decodes payloads
    with: line breaks are skipped, the last group may be padded, and the bits that
    are left over are not looked at. *)

From S2P Require Import Prelude JsString.

Local Open Scope Z_scope.

Definition PAD : Z := 61.

Definition char_value (c : Z) : option Z :=
  if (65 <=? c) && (c <=? 90) then Some (c - 65)
  else if (97 <=? c) && (c <=? 122) then Some (c - 71)
  else if (48 <=? c) && (c <=? 57) then Some (c + 4)
  else if c =? 43 then Some 62
  else if c =? 47 then Some 63
  else None.

Definition value_char (v : Z) : Z :=
  if v <? 26 then v + 65 else if v <? 52 then v + 71 else if v <? 62 then v - 4 else if v =? 62 then 43 else 47.

(** The last group: its second, third and fourth characters. *)
Definition last_group (x : Z) (b c d : Z) : option (list Z) :=
  match char_value b with
  | None => None
  | Some y =>
      if (c =? PAD) && (d =? PAD) then Some [x * 4 + y / 16]
      else
        match char_value c with
        | None => None
        | Some z =>
            if d =? PAD then Some [x * 4 + y / 16; y mod 16 * 16 + z / 4]
            else
              match char_value d with
              | None => None
              | Some w => Some [x * 4 + y / 16; y mod 16 * 16 + z / 4; z mod 4 * 64 + w]
              end
        end
  end.

Fixpoint decode_groups (s : list Z) : option (list Z) :=
  match s with
  | [] => Some []
  | a :: b :: c :: d :: s' =>
      match char_value a with
      | None => None
      | Some x =>
          match s' with
          | [] => last_group x b c d
          | _ :: _ =>
              match char_value b, char_value c, char_value d, decode_groups s' with
              | Some y, Some z, Some w, Some bs =>
                  Some ([x * 4 + y / 16; y mod 16 * 16 + z / 4; z mod 4 * 64 + w] ++ bs)
              | _, _, _, _ => None
              end
          end
      end
  | _ => None
  end.

Definition is_break (c : Z) : bool := (c =? 10) || (c =? 13).

Definition DecodeString (s : list Z) : option (list Z) := decode_groups (filter (fun c => is_break c = false) s).

(** The encoding, which devices use. *)
Fixpoint EncodeToString (bs : list Z) : list Z :=
  match bs with
  | [] => []
  | [a] => [value_char (a / 4); value_char (a mod 4 * 16); PAD; PAD]
  | [a; b] => [value_char (a / 4); value_char (a mod 4 * 16 + b / 16); value_char (b mod 16 * 4); PAD]
  | a :: b :: c :: bs' =>
      [value_char (a / 4); value_char (a mod 4 * 16 + b / 16); value_char (b mod 16 * 4 + c / 64);
       value_char (c mod 64)] ++ EncodeToString bs'
  end.

(** ** Decoding inverts encoding *)

Definition is_byte (b : Z) : Prop := 0 <= b < 256.

Definition value_ok (v : Z) : bool :=
  bool_decide (char_value (value_char v) = Some v) && negb (value_char v =? PAD) && negb (is_break (value_char v)).

Lemma value_spec v :
  0 <= v < 64 ->
  char_value (value_char v) = Some v /\ (value_char v =? PAD) = false /\ is_break (value_char v) = false.
Proof.
  intros Hv. assert (Hall : forallb value_ok (seqZ 0 64) = true) by (vm_compute; reflexivity).
  pose proof (proj1 (forallb_forall _ _) Hall v) as H.
  rewrite <- list_elem_of_In, elem_of_seqZ in H. specialize (H Hv). unfold value_ok in H.
  rewrite !andb_true_iff, !negb_true_iff, bool_decide_eq_true in H. tauto.
Qed.

(** Induction by groups of three. *)
Lemma groups_ind (P : list Z -> Prop) :
  P [] -> (forall a, P [a]) -> (forall a b, P [a; b]) -> (forall a b c bs, P bs -> P (a :: b :: c :: bs)) ->
  forall bs, P bs.
Proof.
  intros H0 H1 H2 H3. fix IH 1. intros [|a [|b [|c bs]]]; [done|apply H1|apply H2|]. apply H3, IH.
Qed.

(** The six-bit values of a group. *)
Lemma group_values a b c :
  is_byte a -> is_byte b -> is_byte c ->
  0 <= a / 4 < 64 /\ 0 <= a mod 4 * 16 + b / 16 < 64 /\ 0 <= b mod 16 * 4 + c / 64 < 64 /\ 0 <= c mod 64 < 64.
Proof. unfold is_byte. intros. split_and!; Z.to_euclidean_division_equations; lia. Qed.

Lemma encode_no_breaks bs : Forall is_byte bs -> Forall (fun c => is_break c = false) (EncodeToString bs).
Proof.
  assert (H0 : is_byte 0) by (unfold is_byte; lia).
  induction bs as [|a|a b|a b c bs IH] using groups_ind; intros H;
    repeat match goal with H : Forall _ (_ :: _) |- _ => apply Forall_cons in H as [? H] end; simpl.
  - done.
  - destruct (group_values a 0 0) as (? & G2 & _); [done..|]. rewrite Z.add_0_r in G2.
    repeat constructor; by apply value_spec.
  - destruct (group_values a b 0) as (? & ? & G3 & _); [done..|]. rewrite Z.add_0_r in G3.
    repeat constructor; by apply value_spec.
  - destruct (group_values a b c) as (? & ? & ? & ?); [done..|].
    repeat (constructor; [by apply value_spec|]). by apply IH.
Qed.

Lemma decode_encode bs : Forall is_byte bs -> decode_groups (EncodeToString bs) = Some bs.
Proof.
  assert (H0 : is_byte 0) by (unfold is_byte; lia).
  induction bs as [|a|a b|a b c bs IH] using groups_ind; intros H;
    repeat match goal with H : Forall _ (_ :: _) |- _ => apply Forall_cons in H as [? H] end.
  - done.
  - destruct (group_values a 0 0) as (G1 & G2 & _); [done..|]. rewrite Z.add_0_r in G2.
    destruct (value_spec _ G1) as (E1 & _), (value_spec _ G2) as (E2 & _).
    cbn [EncodeToString decode_groups]. rewrite E1. unfold last_group. rewrite E2. simpl. f_equal. f_equal.
    unfold is_byte in *. Z.to_euclidean_division_equations; lia.
  - destruct (group_values a b 0) as (G1 & G2 & G3 & _); [done..|]. rewrite Z.add_0_r in G3.
    destruct (value_spec _ G1) as (E1 & _), (value_spec _ G2) as (E2 & _), (value_spec _ G3) as (E3 & N3 & _).
    cbn [EncodeToString decode_groups]. rewrite E1. unfold last_group. rewrite E2, N3, E3. simpl.
    f_equal. unfold is_byte in *. f_equal; [|f_equal]; Z.to_euclidean_division_equations; lia.
  - destruct (group_values a b c) as (G1 & G2 & G3 & G4); [done..|].
    destruct (value_spec _ G1) as (E1 & _), (value_spec _ G2) as (E2 & _),
      (value_spec _ G3) as (E3 & N3 & _), (value_spec _ G4) as (E4 & N4 & _).
    specialize (IH H). cbn [EncodeToString app decode_groups]. rewrite E1.
    assert (Hb : [a / 4 * 4 + (a mod 4 * 16 + b / 16) / 16;
      (a mod 4 * 16 + b / 16) mod 16 * 16 + (b mod 16 * 4 + c / 64) / 4;
      (b mod 16 * 4 + c / 64) mod 4 * 64 + c mod 64] = [a; b; c]).
    { unfold is_byte in *. f_equal; [|f_equal; [|f_equal]]; Z.to_euclidean_division_equations; lia. }
    destruct (EncodeToString bs) as [|x s] eqn:Es.
    + assert (bs = []) as -> by by destruct bs as [|? [|? [|? ?]]].
      unfold last_group. rewrite E2, N3, E3, N4, E4, Hb. by rewrite andb_false_r.
    + injection Hb as Ha' Hb' Hc'. by rewrite E2, E3, E4, IH, Ha', Hb', Hc'.
Qed.

Lemma DecodeString_encode bs : Forall is_byte bs -> DecodeString (EncodeToString bs) = Some bs.
Proof.
  intros H. unfold DecodeString.
  assert (filter (fun c => is_break c = false) (EncodeToString bs) = EncodeToString bs) as ->.
  { pose proof (encode_no_breaks bs H) as Hn. induction Hn as [|x s Hx _ IH]; [done|].
    by rewrite filter_cons, decide_True, IH. }
  by apply decode_encode.
Qed.
