(* ===== verification/RouteMap.v ===== *)
(** * Route maps

    The Redis repositories in which the LoRa and OPC-UA adapters keep which thing
    stands for which device, in both directions ([lora/redis/routemap.go],
    [opcua/redis/routemap.go]), and the two maps they stand for.  The keyspace is
    that of [ThingsCache]. *)

From S2P Require Import Prelude JsString ThingsCache.
From stdpp Require Import gmap.

Local Open Scope Z_scope.

Definition COLON : Z := 58.

(** ** The repositories *)

(** [mkey] and [lkey] build the keys of the two directions. *)
Section Repository.
Variable mkey lkey : text -> text.

Definition rm_save (mfxID ext : text) (s : redis) : redis := set (lkey ext) mfxID (set (mkey mfxID) ext s).

Definition rm_get (s : redis) (ext : text) : option text := get s (lkey ext).

(** [None] is an error; nothing is changed then. *)
Definition rm_remove (mfxID : text) (s : redis) : option redis :=
  match get s (mkey mfxID) with
  | None => None
  | Some ext => Some (del (lkey ext) (del (mkey mfxID) s))
  end.

End Repository.

(** The keys of LoRa: [<prefix>:mfx:lora:<id>] and [<prefix>:lora:mfx:<device>]. *)
Definition lora_mkey (prefix mfxID : text) : text := prefix ++ COLON :: js "mfx:lora" ++ COLON :: mfxID.
Definition lora_lkey (prefix loraID : text) : text := prefix ++ COLON :: js "lora:mfx" ++ COLON :: loraID.

(** Those of OPC-UA: [<prefix>:<id>] for both directions. *)
Definition opcua_key (prefix id : text) : text := prefix ++ COLON :: id.

(** ** What they stand for *)

Record routes := Routes { device_of : gmap text text; thing_of : gmap text text }.

Definition no_routes : routes := Routes ∅ ∅.

Definition add_route (mfxID ext : text) (r : routes) : routes :=
  Routes (<[mfxID := ext]> (device_of r)) (<[ext := mfxID]> (thing_of r)).

Definition remove_route (mfxID : text) (r : routes) : option routes :=
  match device_of r !! mfxID with
  | None => None
  | Some ext => Some (Routes (delete mfxID (device_of r)) (delete ext (thing_of r)))
  end.

(** Each thing has a device of its own. *)
Definition paired (r : routes) : Prop := forall t d, device_of r !! t = Some d <-> thing_of r !! d = Some t.

(** ** Refinement *)

Section Refinement.
Variable mkey lkey : text -> text.
Context `{!Inj (=) (=) mkey, !Inj (=) (=) lkey}.
Hypothesis mkey_lkey : forall a b, mkey a <> lkey b.

Definition holds (s : redis) (r : routes) : Prop :=
  (forall t, get s (mkey t) = device_of r !! t) /\ (forall d, get s (lkey d) = thing_of r !! d).

Lemma holds_empty : holds ∅ no_routes.
Proof. split; intros x; unfold get, no_routes; simpl; by rewrite !lookup_empty. Qed.

Lemma holds_save s r t d : holds s r -> holds (rm_save mkey lkey t d s) (add_route t d r).
Proof.
  intros [H1 H2]. unfold rm_save. split; intros x; simpl; rewrite !get_set.
  - destruct (decide (mkey x = lkey d)) as [E|_]; [by apply mkey_lkey in E|].
    destruct (decide (mkey x = mkey t)) as [->%(inj mkey)|Hn]; [by rewrite lookup_insert_eq|].
    rewrite lookup_insert_ne by congruence. apply H1.
  - destruct (decide (lkey x = lkey d)) as [->%(inj lkey)|Hn]; [by rewrite lookup_insert_eq|].
    rewrite lookup_insert_ne by congruence.
    destruct (decide (lkey x = mkey t)) as [E|_]; [by apply symmetry, mkey_lkey in E|]. apply H2.
Qed.

Lemma holds_remove s r t :
  holds s r ->
  match rm_remove mkey lkey t s, remove_route t r with
  | Some s', Some r' => holds s' r'
  | None, None => True
  | _, _ => False
  end.
Proof.
  intros [H1 H2]. unfold rm_remove, remove_route. rewrite H1. destruct (device_of r !! t) as [d|]; [|done].
  split; intros x; simpl; rewrite !get_del.
  - destruct (decide (mkey x = lkey d)) as [E|_]; [by apply mkey_lkey in E|].
    destruct (decide (mkey x = mkey t)) as [->%(inj mkey)|Hn]; [by rewrite lookup_delete_eq|].
    rewrite lookup_delete_ne by congruence. apply H1.
  - destruct (decide (lkey x = lkey d)) as [->%(inj lkey)|Hn]; [by rewrite lookup_delete_eq|].
    rewrite lookup_delete_ne by congruence.
    destruct (decide (lkey x = mkey t)) as [E|_]; [by apply symmetry, mkey_lkey in E|]. apply H2.
Qed.

(** Other keys are left alone. *)
Lemma holds_other s s' r :
  (forall t, get s' (mkey t) = get s (mkey t)) -> (forall d, get s' (lkey d) = get s (lkey d)) ->
  holds s r -> holds s' r.
Proof. intros Hm Hl [H1 H2]. split; intros x; [rewrite Hm; apply H1|rewrite Hl; apply H2]. Qed.

End Refinement.

Lemma paired_empty : paired no_routes.
Proof. intros t d. simpl. by rewrite !lookup_empty. Qed.

(** A thing that keeps its device, and a device no other thing has. *)
Lemma paired_add t d r :
  paired r -> device_of r !! t = None \/ device_of r !! t = Some d ->
  (forall t', device_of r !! t' = Some d -> t' = t) -> paired (add_route t d r).
Proof.
  intros Hp Ht Hd t' d'. simpl.
  destruct (decide (t' = t)) as [->|Ht'], (decide (d' = d)) as [->|Hd'];
    rewrite ?lookup_insert_eq, ?lookup_insert_ne by congruence.
  - done.
  - split; [naive_solver|]. intros H%Hp. naive_solver.
  - split; [intros H; naive_solver|naive_solver].
  - apply Hp.
Qed.

Lemma paired_remove t r r' : paired r -> remove_route t r = Some r' -> paired r'.
Proof.
  intros Hp. unfold remove_route. destruct (device_of r !! t) as [d|] eqn:Hd; [|done]. intros [= <-].
  intros t' d'. simpl. apply Hp in Hd as Ht.
  destruct (decide (t' = t)) as [->|Ht'], (decide (d' = d)) as [->|Hd'];
    rewrite ?lookup_delete_eq, ?lookup_delete_ne by congruence; try done.
  - split; [done|]. intros H%Hp. congruence.
  - split; [|done]. intros H%Hp. congruence.
Qed.

(** ** The keys *)

#[export] Instance lora_mkey_inj p : Inj (=) (=) (lora_mkey p).
Proof. intros a b. unfold lora_mkey. intros H%app_inv_head. by simplify_eq. Qed.
#[export] Instance lora_lkey_inj p : Inj (=) (=) (lora_lkey p).
Proof. intros a b. unfold lora_lkey. intros H%app_inv_head. by simplify_eq. Qed.

Lemma lora_keys_ne p a b : lora_mkey p a <> lora_lkey p b.
Proof. unfold lora_mkey, lora_lkey. intros H%app_inv_head. by simplify_eq. Qed.
