(* ===== verification/LoraAdapter.v ===== *)
(** * The LoRa adapter

    The adapter that follows the event stream of the Things service to learn which
    thing stands for which device, and which channel for which application
    ([lora/redis/streams.go]), and publishes the messages of LoRa devices on NATS
    ([lora/service.go], [lora/nats/publisher.go]). *)

From S2P Require Import Prelude JsString ThingsCache Things ThingsList ThingsEvents RouteMap Base64 GoCodec.
From stdpp Require Import gmap.

Local Open Scope Z_scope.

Definition things_prefix : text := js "thing".
Definition channels_prefix : text := js "channel".

(** ** Events *)

Section Events.
Context {JT : JsonText}.

(** [decode...] and [handle...] of a creation or an update. *)
Definition lora_create (prefix key : text) (e : event) (s : redis) : redis * option handle_error :=
  match decode_member (js "lora") key e with
  | inl v => (rm_save (lora_mkey prefix) (lora_lkey prefix) (read e (js "id") []) v s, None)
  | inr err => (s, Some (DecodeFailed err))
  end.

Definition lora_remove (prefix : text) (e : event) (s : redis) : redis * option handle_error :=
  match rm_remove (lora_mkey prefix) (lora_lkey prefix) (read e (js "id") []) s with
  | Some s' => (s', None)
  | None => (s, Some RouteFailed)
  end.

Definition lora_handle (e : event) (s : redis) : redis * option handle_error :=
  let op := operation e in
  if bool_decide (op = thingCreate) || bool_decide (op = thingUpdate) then
    lora_create things_prefix (js "devEUI") e s
  else if bool_decide (op = thingRemove) then lora_remove things_prefix e s
  else if bool_decide (op = channelCreate) || bool_decide (op = channelUpdate) then
    lora_create channels_prefix (js "appID") e s
  else if bool_decide (op = channelRemove) then lora_remove channels_prefix e s
  else (s, None).

End Events.

Definition thing_route (s : redis) (devEUI : text) : option text := rm_get (lora_lkey things_prefix) s devEUI.
Definition channel_route (s : redis) (appID : text) : option text := rm_get (lora_lkey channels_prefix) s appID.

(** ** Messages *)

(** The fields of a decoded [lora.Message] that are read; [Object] is [None] when
    nil. *)
Record lora_message := LoraMessage {
  ApplicationID : text;
  DevEUI : text;
  Data : bytes;
  Object : option json
}.

Inductive lora_error := ErrNotFoundDev | ErrNotFoundApp | ErrMalformedMessage | ErrNotPublished.

Section Publish.
Context {JT : JsonText}.
Variable broker_publish : bytes -> bytes -> bool.                 (* subject, data *)

Definition lora_payload (m : lora_message) : option bytes :=
  match Object m with
  | None => DecodeString (Data m)
  | Some o => Some (marshal o)
  end.

Definition lora_msg (thing channel : text) (payload : bytes) : GoMessage :=
  Build_GoMessage channel [] [] thing [] (js "lora") (js "Content-Type") payload [].

(** [natsPublisher.Publish]. *)
Definition lora_nats_publish (msg : GoMessage) : option lora_error * list (bytes * bytes) :=
  match Marshal msg with
  | Done data =>
      let subject := js "channel." ++ Channel msg in
      if broker_publish subject data then (None, [(subject, data)]) else (Some ErrNotPublished, [])
  | _ => (Some ErrNotPublished, [])
  end.

(** [adapterService.Publish]. *)
Definition lora_publish (s : redis) (m : lora_message) : option lora_error * list (bytes * bytes) :=
  match thing_route s (DevEUI m) with
  | None => (Some ErrNotFoundDev, [])
  | Some thing =>
      match channel_route s (ApplicationID m) with
      | None => (Some ErrNotFoundApp, [])
      | Some channel =>
          match lora_payload m with
          | None => (Some ErrMalformedMessage, [])
          | Some payload => lora_nats_publish (lora_msg thing channel payload)
          end
      end
  end.

End Publish.
