(* ===== verification/LoraProperties.v ===== *)
(** * What the LoRa adapter guarantees, and what it does not

    The routes that follow from an orderly stream, what is published for a device,
    and the ways in which the stream of the Things service leads the adapter
    astray: a failing event that takes the rest of a read with it, removals and
    claims by other users, and disconnections that nothing follows. *)

From S2P Require Import Prelude JsString ThingsCache Things ThingsSafety ThingsProperties ThingsList ThingsListProperties ThingsEvents RouteMap Base64 GoCodec LoraAdapter.
From stdpp Require Import gmap sets.

Local Open Scope Z_scope.

#[local] Arguments Marshal : simpl never.

(** ** Events as the route maps see them *)

Inductive route_event := Claim (id ext : text) | Forget (id : text) | Neutral | Failing.

Section View.
Context {JT : JsonText}.

Definition create_view (key : text) (e : event) : route_event :=
  match decode_member (js "lora") key e with
  | inl v => Claim (read e (js "id") []) v
  | inr errMetadataType => Neutral
  | inr _ => Failing
  end.

Definition thing_view (e : event) : route_event :=
  let op := operation e in
  if bool_decide (op = thingCreate) || bool_decide (op = thingUpdate) then create_view (js "devEUI") e
  else if bool_decide (op = thingRemove) then Forget (read e (js "id") [])
  else Neutral.

Definition channel_view (e : event) : route_event :=
  let op := operation e in
  if bool_decide (op = channelCreate) || bool_decide (op = channelUpdate) then create_view (js "appID") e
  else if bool_decide (op = channelRemove) then Forget (read e (js "id") [])
  else Neutral.

(** The effect on the maps; [None] is an error that stops the read. *)
Definition follow (v : route_event) (r : routes) : option routes :=
  match v with
  | Claim t d => Some (add_route t d r)
  | Forget t => remove_route t r
  | Neutral => Some r
  | Failing => None
  end.

(** The two maps in one keyspace. *)
Definition lora_holds (s : redis) (rt rc : routes) : Prop :=
  holds (lora_mkey things_prefix) (lora_lkey things_prefix) s rt /\
  holds (lora_mkey channels_prefix) (lora_lkey channels_prefix) s rc.

Lemma thing_channel_keys a b :
  lora_mkey things_prefix a <> lora_mkey channels_prefix b /\ lora_mkey things_prefix a <> lora_lkey channels_prefix b /\
  lora_lkey things_prefix a <> lora_mkey channels_prefix b /\ lora_lkey things_prefix a <> lora_lkey channels_prefix b.
Proof. done. Qed.

Lemma lora_holds_empty : lora_holds ∅ no_routes no_routes.
Proof. split; apply holds_empty. Qed.

Lemma save_other (m l : text -> text) k t d s : k <> m t -> k <> l d -> get (rm_save m l t d s) k = get s k.
Proof. intros H1 H2. unfold rm_save. rewrite !get_set. by rewrite !decide_False by congruence. Qed.

Lemma remove_other (m l : text -> text) k t d s : k <> m t -> k <> l d -> get (del (l d) (del (m t) s)) k = get s k.
Proof. intros H1 H2. rewrite !get_del. by rewrite !decide_False by congruence. Qed.

Lemma lora_save_thing s rt rc t d :
  lora_holds s rt rc ->
  lora_holds (rm_save (lora_mkey things_prefix) (lora_lkey things_prefix) t d s) (add_route t d rt) rc.
Proof.
  intros [Ht Hc]. split; [apply holds_save; try apply _; [apply lora_keys_ne|done]|].
  apply (holds_other _ _ s); [intros x..|done];
    apply save_other; apply not_eq_sym, thing_channel_keys.
Qed.

Lemma lora_save_channel s rt rc t d :
  lora_holds s rt rc ->
  lora_holds (rm_save (lora_mkey channels_prefix) (lora_lkey channels_prefix) t d s) rt (add_route t d rc).
Proof.
  intros [Ht Hc]. split; [|apply holds_save; try apply _; [apply lora_keys_ne|done]].
  apply (holds_other _ _ s); [intros x..|done]; apply save_other; apply thing_channel_keys.
Qed.

Lemma lora_remove_thing s rt rc e :
  lora_holds s rt rc ->
  match remove_route (read e (js "id") []) rt with
  | Some rt' => exists s', lora_remove things_prefix e s = (s', None) /\ lora_holds s' rt' rc
  | None => lora_remove things_prefix e s = (s, Some RouteFailed)
  end.
Proof.
  intros [Ht Hc]. set (t := read e (js "id") []).
  pose proof (holds_remove _ _ (lora_keys_ne things_prefix) _ _ t Ht) as H.
  unfold lora_remove. fold t. unfold rm_remove in *.
  destruct (get s (lora_mkey things_prefix t)) as [d|], (remove_route t rt) as [rt'|]; try done.
  eexists. split; [done|]. split; [done|].
  apply (holds_other _ _ s); [intros x..|done];
    (apply remove_other; apply not_eq_sym, thing_channel_keys).
Qed.

Lemma lora_remove_channel s rt rc e :
  lora_holds s rt rc ->
  match remove_route (read e (js "id") []) rc with
  | Some rc' => exists s', lora_remove channels_prefix e s = (s', None) /\ lora_holds s' rt rc'
  | None => lora_remove channels_prefix e s = (s, Some RouteFailed)
  end.
Proof.
  intros [Ht Hc]. set (t := read e (js "id") []).
  pose proof (holds_remove _ _ (lora_keys_ne channels_prefix) _ _ t Hc) as H.
  unfold lora_remove. fold t. unfold rm_remove in *.
  destruct (get s (lora_mkey channels_prefix t)) as [d|], (remove_route t rc) as [rc'|]; try done.
  eexists. split; [done|]. split; [|done].
  apply (holds_other _ _ s); [intros x..|done]; (apply remove_other; apply thing_channel_keys).
Qed.

(** One event: the handler does what the views say. *)
Lemma lora_handle_follows s rt rc e :
  lora_holds s rt rc ->
  match follow (thing_view e) rt, follow (channel_view e) rc with
  | Some rt', Some rc' =>
      exists s' err, lora_handle e s = (s', err) /\ fatal err = false /\ lora_holds s' rt' rc'
  | _, _ => exists err, lora_handle e s = (s, err) /\ fatal err = true
  end.
Proof.
  intros H. unfold lora_handle, thing_view, channel_view. set (op := operation e).
  destruct (bool_decide (op = thingCreate) || bool_decide (op = thingUpdate)) eqn:E1.
  - assert (channel_view_neutral : bool_decide (op = channelCreate) || bool_decide (op = channelUpdate) = false /\
      bool_decide (op = channelRemove) = false).
    { apply orb_true_iff in E1 as [->%bool_decide_eq_true| ->%bool_decide_eq_true]; by vm_compute. }
    destruct channel_view_neutral as [-> ->]. unfold lora_create, create_view.
    destruct (decode_member _ _ e) as [d|[]]; simpl.
    2-5: by eexists _, _ || by eexists.
    eexists _, _. split_and!; [done|done|]. by apply lora_save_thing.
  - destruct (bool_decide (op = thingRemove)) eqn:E2.
    { apply bool_decide_eq_true in E2. rewrite E2. simpl.
      pose proof (lora_remove_thing s rt rc e H) as Hr.
      destruct (remove_route _ rt) as [rt'|]; [|by eexists].
      destruct Hr as (s' & -> & Hs). by eexists _, _. }
    destruct (bool_decide (op = channelCreate) || bool_decide (op = channelUpdate)) eqn:E3.
    { simpl. unfold lora_create, create_view.
      destruct (decode_member _ _ e) as [d|[]]; simpl.
      2-5: by eexists _, _ || by eexists.
      eexists _, _. split_and!; [done|done|]. by apply lora_save_channel. }
    simpl. destruct (bool_decide (op = channelRemove)); [|by eexists _, _]. simpl.
    pose proof (lora_remove_channel s rt rc e H) as Hr.
    destruct (remove_route _ rc) as [rc'|]; [|by eexists].
    destruct Hr as (s' & -> & Hs). by eexists _, _.
Qed.

(** ** Orderly streams *)

(** What each thing, or channel, last claimed. *)
Definition claim (m : gmap text text) (v : route_event) : gmap text text :=
  match v with
  | Claim t d => <[t := d]> m
  | Forget t => delete t m
  | Neutral | Failing => m
  end.

(** A claim is of a device that no other thing has, by a thing that has no other
    device; what is removed had a claim; and no event fails. *)
Fixpoint orderly_events (m : gmap text text) (vs : list route_event) : Prop :=
  match vs with
  | [] => True
  | v :: vs =>
      match v with
      | Claim t d => (m !! t = None \/ m !! t = Some d) /\ forall t', m !! t' = Some d -> t' = t
      | Forget t => is_Some (m !! t)
      | Neutral => True
      | Failing => False
      end /\ orderly_events (claim m v) vs
  end.

(** The maps hold the claims. *)
Definition claimed (m : gmap text text) (r : routes) : Prop := device_of r = m /\ paired r.

Lemma follow_claimed m v vs r :
  claimed m r -> orderly_events m (v :: vs) ->
  exists r', follow v r = Some r' /\ claimed (claim m v) r' /\ orderly_events (claim m v) vs.
Proof.
  intros [<- Hp] [Hv Hvs]. destruct v as [t d|t| |]; simpl in *; [| |by exists r|done].
  - destruct Hv as [H1 H2]. eexists. split_and!; [done| |done]. split; [done|]. by apply paired_add.
  - destruct Hv as [d Hd]. destruct (remove_route t r) as [r'|] eqn:E.
    + exists r'. split_and!; [done| |done]. split; [|by eapply paired_remove].
      unfold remove_route in E. rewrite Hd in E. by injection E as <-.
    + unfold remove_route in E. by rewrite Hd in E.
Qed.

Definition lora_state (s : redis) (mt mc : gmap text text) : Prop :=
  exists rt rc, lora_holds s rt rc /\ claimed mt rt /\ claimed mc rc.

Lemma orderly_batch es s mt mc tes ces :
  lora_state s mt mc ->
  orderly_events mt ((thing_view <$> es) ++ tes) -> orderly_events mc ((channel_view <$> es) ++ ces) ->
  exists s', handle_batch lora_handle es s = (s', es) /\
    lora_state s' (foldl claim mt (thing_view <$> es)) (foldl claim mc (channel_view <$> es)) /\
    orderly_events (foldl claim mt (thing_view <$> es)) tes /\
    orderly_events (foldl claim mc (channel_view <$> es)) ces.
Proof.
  revert s mt mc. induction es as [|e es IH]; intros s mt mc Hs Ht Hc; [by exists s|].
  destruct Hs as (rt & rc & Hs & Hmt & Hmc).
  destruct (follow_claimed _ _ _ _ Hmt Ht) as (rt' & Ert & Hmt' & Ht').
  destruct (follow_claimed _ _ _ _ Hmc Hc) as (rc' & Erc & Hmc' & Hc').
  pose proof (lora_handle_follows s rt rc e Hs) as H. rewrite Ert, Erc in H.
  destruct H as (s1 & err & He & Hf & Hs1).
  destruct (IH s1 _ _ ltac:(by exists rt', rc') Ht' Hc') as (s' & Hb & Hrest).
  exists s'. split; [|done]. simpl. by rewrite He, Hf, Hb.
Qed.

Lemma orderly_reads reads s mt mc :
  lora_state s mt mc ->
  orderly_events mt (thing_view <$> mjoin reads) -> orderly_events mc (channel_view <$> mjoin reads) ->
  lora_state (handle_reads lora_handle reads s)
    (foldl claim mt (thing_view <$> mjoin reads)) (foldl claim mc (channel_view <$> mjoin reads)).
Proof.
  revert s mt mc. induction reads as [|es reads IH]; intros s mt mc Hs Ht Hc; [done|].
  cbn [mjoin list_join] in *. rewrite !fmap_app in *.
  destruct (orderly_batch es s mt mc _ _ Hs Ht Hc) as (s' & Hb & Hs' & Ht' & Hc').
  rewrite !foldl_app. simpl. rewrite Hb. by apply IH.
Qed.

(** C36: The routes follow an orderly stream, however it is cut into reads: the adapter
    takes a device for a thing, or an application for a channel, exactly when that
    was the last claim of the thing, or channel, in the stream and was not removed
    since.  Orderly means: each device is claimed by one thing at a time and each
    thing has one device, only what has a route is removed, and no metadata is
    malformed. *)
Theorem lora_routes reads :
  let ts := thing_view <$> mjoin reads in
  let cs := channel_view <$> mjoin reads in
  orderly_events ∅ ts -> orderly_events ∅ cs ->
  let s := handle_reads lora_handle reads ∅ in
  (forall d t, thing_route s d = Some t <-> foldl claim ∅ ts !! t = Some d) /\
  (forall a c, channel_route s a = Some c <-> foldl claim ∅ cs !! c = Some a).
Proof.
  intros ts cs Ht Hc s.
  destruct (orderly_reads reads ∅ ∅ ∅) as (rt & rc & [[_ H1] [_ H2]] & [Hm1 Hp1] & [Hm2 Hp2]); [|done..|].
  - exists no_routes, no_routes. split_and!; [apply lora_holds_empty|by split; [|apply paired_empty]..].
  - unfold thing_route, channel_route, rm_get. fold s in H1, H2. subst ts cs.
    split; intros x y; [rewrite H1, <- Hm1|rewrite H2, <- Hm2]; symmetry; [apply Hp1|apply Hp2].
Qed.

(** ** Publishing *)

Variable broker_publish : bytes -> bytes -> bool.

(** What is published for a LoRa message: exactly one publication, on the channel
    of the application and under the thing of the device, with the decoded object
    or else the bytes that the device sent in Base64, if both have routes and NATS
    takes it; nothing otherwise, with the error that says which route is missing. *)
Theorem lora_published s m :
  match lora_publish broker_publish s m with
  | (None, out) =>
      exists t c payload data,
        thing_route s (DevEUI m) = Some t /\ channel_route s (ApplicationID m) = Some c /\
        (Object m = None -> forall bs, Forall is_byte bs -> Data m = EncodeToString bs -> payload = bs) /\
        (forall o, Object m = Some o -> payload = marshal o) /\
        Marshal (lora_msg t c payload) = Done data /\ out = [(js "channel." ++ c, data)]
  | (Some e, out) =>
      out = [] /\
      match e with
      | ErrNotFoundDev => thing_route s (DevEUI m) = None
      | ErrNotFoundApp => is_Some (thing_route s (DevEUI m)) /\ channel_route s (ApplicationID m) = None
      | ErrMalformedMessage => Object m = None /\ DecodeString (Data m) = None
      | ErrNotPublished => is_Some (thing_route s (DevEUI m)) /\ is_Some (channel_route s (ApplicationID m))
      end
  end.
Proof.
  unfold lora_publish. destruct (thing_route s (DevEUI m)) as [t|]; [|done].
  destruct (channel_route s (ApplicationID m)) as [c|]; [|by split].
  destruct (lora_payload m) as [payload|] eqn:Hp; unfold lora_payload in Hp.
  - unfold lora_nats_publish. destruct (Marshal (lora_msg t c payload)) as [data| |] eqn:Hm; [|by split_and!..].
    simpl. destruct (broker_publish _ data); [|by split_and!].
    exists t, c, payload, data. split_and!; try done.
    + intros Ho bs Hb Hd. rewrite Ho, Hd, DecodeString_encode in Hp by done. congruence.
    + intros o Ho. rewrite Ho in Hp. congruence.
  - by destruct (Object m).
Qed.

(** ** Where the stream leads the adapter astray *)

Lemma remove_view id :
  thing_view (removeEvent thingRemove id) = Forget id /\ channel_view (removeEvent thingRemove id) = Neutral.
Proof. by split. Qed.

(** The removal of a thing that has no route, as every thing that is no LoRa
    device, takes the rest of its read with it: the events after it are neither
    handled nor acknowledged, and Redis does not deliver them again. *)
Theorem lora_read_lost es t es' s s1 :
  handle_batch lora_handle es s = (s1, es) -> get s1 (lora_mkey things_prefix t) = None ->
  handle_batch lora_handle (es ++ removeEvent thingRemove t :: es') s = (s1, es).
Proof.
  intros Hes Ht. assert (He : lora_handle (removeEvent thingRemove t) s1 = (s1, Some RouteFailed)).
  { change (lora_handle (removeEvent thingRemove t) s1) with (lora_remove things_prefix (removeEvent thingRemove t) s1).
    unfold lora_remove, rm_remove. change (read (removeEvent thingRemove t) (js "id") []) with t. by rewrite Ht. }
  rewrite (handle_batch_app _ _ _ _ _ s1 Hes); rewrite He; done.
Qed.

End View.

(** ** With the Things service *)

Section Things.
Context {S : Type} `{HS : Caches S} {U : Uuid} {JT : JsonText} {J : Json metadata}.
Variable auth : text -> option text.
Variable broker_publish : bytes -> bytes -> bool.
Implicit Types es : event_store (S := S).

(** Any user can cut off another user's device: a request of [bob] to remove the
    thing of [alice] changes nothing that she sees, but it succeeds and is reported
    on the stream, and the adapter that follows it refuses the messages of her
    device from then on. *)
Theorem lora_foreign_removal es alice bob ta tb t d s rt rc :
  auth ta = Some alice -> auth tb = Some bob -> bob <> alice -> stream_up es = true ->
  lora_holds s rt rc -> device_of rt !! t = Some d ->
  let es' := es_apply auth (Core (RRemoveThing tb t)) es in
  ViewThing auth ta t (es_catalog es') = ViewThing auth ta t (es_catalog es) /\
  stream es' = stream es ++ [removeEvent thingRemove t] /\
  exists s', handle_batch lora_handle [removeEvent thingRemove t] s = (s', [removeEvent thingRemove t]) /\
    forall m, DevEUI m = d -> lora_publish broker_publish s' m = (Some ErrNotFoundDev, []).
Proof.
  intros Ha Hb Hne Hup Hs Hd es'. split_and!.
  - assert (Hu : user_of (M := metadata) auth (Core (RRemoveThing tb t)) <> Some alice).
    { unfold user_of. simpl. congruence. }
    pose proof (change_same auth alice _ (es_catalog es) Hu) as Hr.
    apply (view_thing_same auth ta alice t _ _ Ha Hr).
  - subst es'. unfold es_apply. simpl. rewrite Hup. do 2 f_equal. unfold succeeded, RemoveThing, as_owner.
    by rewrite Hb.
  - pose proof (lora_handle_follows s rt rc (removeEvent thingRemove t) Hs) as H.
    destruct (remove_view t) as [Ev1 Ev2]. rewrite Ev1, Ev2 in H. simpl in H. unfold remove_route in H. rewrite Hd in H.
    destruct H as (s' & err & He & Hf & [[_ Hg] _]). exists s'. split.
    + cbn [handle_batch]. by rewrite He, Hf.
    + intros m Hm. unfold lora_publish, thing_route, rm_get. rewrite Hm, Hg. simpl. by rewrite lookup_delete_eq.
Qed.
(** What the creation of a channel for an application is to the adapter. *)
Definition for_application (a : text) (name : text) : info metadata :=
  Info name (Some [(js "lora", JObject [(js "appID", JString a)])]).

Lemma application_event {JOk : JsonTextOk JT} a name id owner :
  let e := createEvent channelCreate id owner (for_application a name) in
  thing_view e = Neutral /\ channel_view e = Claim id a.
Proof.
  intros e.
  assert (Hop : operation e = channelCreate /\ read e (js "id") [] = id /\
    read e (js "metadata") (js "{}") = marshal (JObject [(js "lora", JObject [(js "appID", JString a)])])).
  { subst e. unfold operation, read, createEvent, encode_info, for_application. simpl.
    destruct name; split_and!; by simplify_map_eq. }
  destruct Hop as (Hop & Hid & Hmeta). unfold thing_view, channel_view, create_view, decode_member.
  rewrite Hop, Hid, Hmeta, unmarshal_marshal_object. by split.
Qed.

(** Any user can take over the messages of another user's application: when [bob]
    creates a channel whose metadata names the application, the adapter that
    follows the event publishes the messages of all its devices on his channel,
    each still under the thing it belongs to. *)
Theorem lora_takeover {JOk : JsonTextOk JT} es bob tb a name id s rt rc :
  auth tb = Some bob -> stream_up es = true ->
  succeeded (CreateChannels auth tb [id] (core (es_catalog es))) = true ->
  lora_holds s rt rc ->
  let es' := es_apply auth (NewChannels tb [(id, for_application a name)]) es in
  exists e s',
    stream es' = stream es ++ [e] /\ handle_batch lora_handle [e] s = (s', [e]) /\
    forall m t payload data,
      ApplicationID m = a -> thing_route s (DevEUI m) = Some t -> lora_payload m = Some payload ->
      Marshal (lora_msg t id payload) = Done data -> broker_publish (js "channel." ++ id) data = true ->
      lora_publish broker_publish s' m = (None, [(js "channel." ++ id, data)]).
Proof.
  intros Hb Hup Hok Hs es'. exists (createEvent channelCreate id bob (for_application a name)).
  pose proof (lora_handle_follows s rt rc (createEvent channelCreate id bob (for_application a name)) Hs) as H.
  destruct (application_event a name id bob) as [Ev1 Ev2]. rewrite Ev1, Ev2 in H. simpl in H.
  destruct H as (s' & err & He & Hf & [[_ Ht] [_ Hc]]). destruct Hs as [[_ Ht0] _].
  exists s'. split_and!; [|cbn [handle_batch]; by rewrite He, Hf|].
  - subst es'. unfold es_apply. simpl. rewrite Hup, Hok, Hb. done.
  - intros m t payload data Ha Hr Hp Hm Hbr. unfold lora_publish, thing_route, channel_route, rm_get in *.
    rewrite Ht0 in Hr. rewrite Ht, Hr, Ha, Hc. simpl. rewrite lookup_insert_eq, Hp.
    unfold lora_nats_publish. rewrite Hm. cbv zeta.
    change (Channel (lora_msg t id payload)) with id. by rewrite Hbr.
Qed.

(** *** Disconnections *)

Lemma disconnected_by_id {HSok : CachesOk S} {HU : UuidOk U} issued (sv : service S) c t o tok :
  orderly_reach auth issued sv -> up sv = true -> auth tok = Some o -> (c, t, o) ∈ connections (db sv) ->
  succeeded (Disconnect auth tok c t sv) = true /\
  snd (CanAccessByID c t (fst (Disconnect auth tok c t sv))) = Err ErrUnauthorizedAccess.
Proof.
  intros Hi%inv_orderly Hup Htok Hc.
  destruct (inv_conn _ _ _ Hi _ _ _ Hc) as [Hch [k Hk]]. destruct (inv_thing _ _ _ Hi _ _ _ Hk) as [Ht _].
  unfold Disconnect, as_owner. rewrite Htok. unfold disconnect_db, disconnect_cache, on_cache. simpl. rewrite Hup.
  unfold delete_connection. rewrite Hch, Ht, bool_decide_eq_true_2 by done. split; [done|].
  unfold CanAccessByID, cached_conn, commit. simpl. autorewrite with cachedb.
  rewrite bool_decide_eq_true_2 by done. simpl.
  destruct (has_thing_by_id _ c t) eqn:Hh; [|done].
  apply has_thing_by_id_spec in Hh as (u & v & Hu & Hv & [o' Ho']%connected_spec). simplify_eq. simpl in Ho'.
  apply elem_of_difference in Ho' as [Ho' Hn]. destruct (inv_conn _ _ _ Hi _ _ _ Ho') as [_ [k' Hk']].
  assert (o' = o) as -> by exact (inv_owner _ _ _ Hi _ _ _ _ _ Hk' Hk). set_solver.
Qed.

(** Connections mean nothing to the adapter: when a thing is disconnected from a
    channel, the service denies it access and reports the disconnection, and the
    adapter goes on publishing the messages of its device on the channel. *)
Theorem lora_disconnected {HSok : CachesOk S} {HU : UuidOk U} es issued tok o c t :
  orderly_reach auth issued (core (es_catalog es)) -> up (core (es_catalog es)) = true -> stream_up es = true ->
  auth tok = Some o -> (c, t, o) ∈ connections (tables (es_catalog es)) ->
  let es' := es_apply auth (Core (RDisconnect tok c t)) es in
  snd (CanAccessByID c t (core (es_catalog es'))) = Err ErrUnauthorizedAccess /\
  exists e, stream es' = stream es ++ [e] /\
    forall s m, lora_publish broker_publish (fst (handle_batch lora_handle [e] s)) m = lora_publish broker_publish s m.
Proof.
  intros Hr Hup Hes Htok Hc es'. destruct (disconnected_by_id _ _ _ _ _ _ Hr Hup Htok Hc) as [Hs Ha].
  split; [done|]. exists (connectionEvent thingDisconnect c t). split; [|done].
  subst es'. unfold es_apply. simpl. by rewrite Hes, Hs.
Qed.

End Things.

(** ** Witnesses *)

Definition all_taken (subject data : bytes) : bool := true.

#[local] Existing Instance hex_uuid.
#[local] Existing Instance hex_uuid_ok.
#[local] Existing Instance coded_json.
#[local] Existing Instance coded_json_ok.

#[local] Instance sample_json : Json metadata := {|
  no_metadata := None;
  no_members := fun m => match m with None | Some [] => true | _ => false end;
  json_contains := fun _ _ => false;
  through_jsonb := fun m => m
|}.

Definition lora_thing (dev : text) : info metadata :=
  Info [] (Some [(js "lora", JObject [(js "devEUI", JString dev)])]).

Definition created_device : event := createEvent thingCreate (js "a1") (js "alice") (lora_thing (js "D1")).
Definition created_application : event :=
  createEvent channelCreate (js "c1") (js "alice") (for_application (js "7") []).

Definition lora_sample : redis := handle_reads lora_handle [[created_device]; [created_application]] ∅.

Definition temperature : lora_message := LoraMessage (js "7") (js "D1") (EncodeToString [50; 49]) None.

Lemma lora_routes_witness : thing_route lora_sample (js "D1") = Some (js "a1").
Proof.
  destruct (lora_routes [[created_device]; [created_application]]) as [Ht _].
  - change (orderly_events ∅ [thing_view created_device; thing_view created_application]).
    assert (thing_view created_device = Claim (js "a1") (js "D1")) as -> by (vm_compute; reflexivity).
    assert (thing_view created_application = Neutral) as -> by (vm_compute; reflexivity).
    split; [|done]. split; [left; reflexivity|]. intros t' H. simpl in H. by rewrite lookup_empty in H.
  - change (orderly_events ∅ [channel_view created_device; channel_view created_application]).
    assert (channel_view created_device = Neutral) as -> by (vm_compute; reflexivity).
    assert (channel_view created_application = Claim (js "c1") (js "7")) as -> by (vm_compute; reflexivity).
    split; [done|]. split; [|done]. split; [left; reflexivity|]. intros t' H. simpl in H. by rewrite lookup_empty in H.
  - apply Ht. vm_compute. reflexivity.
Defined.

Example lora_sample_published :
  fst <$> snd (lora_publish all_taken lora_sample temperature) = [js "channel.c1"].
Proof. vm_compute. reflexivity. Qed.

(** A read that removes a thing without a device before it creates one. *)
Lemma lora_read_lost_witness :
  handle_batch lora_handle ([] ++ removeEvent thingRemove (js "a9") :: [created_device]) ∅ = (∅, []) /\
  is_Some (thing_route (fst (handle_batch lora_handle [created_device] ∅)) (js "D1")).
Proof.
  split; [|vm_compute; by eexists]. apply (lora_read_lost [] (js "a9") [created_device] ∅ ∅); vm_compute; reflexivity.
Defined.

Definition routed : redis :=
  rm_save (lora_mkey things_prefix) (lora_lkey things_prefix) (js "a1") (js "D1") ∅.

Lemma routed_holds : lora_holds routed (add_route (js "a1") (js "D1") no_routes) no_routes.
Proof. apply lora_save_thing, lora_holds_empty. Qed.

Definition sample_store : event_store (S := keyspace) := EventStore (Catalog sample_service ∅ ∅) [] true.

Lemma lora_foreign_removal_witness :
  exists s', handle_batch lora_handle [removeEvent thingRemove (js "a1")] routed =
      (s', [removeEvent thingRemove (js "a1")]) /\
    lora_publish all_taken s' temperature = (Some ErrNotFoundDev, []).
Proof.
  destruct (lora_foreign_removal two_users all_taken sample_store (js "alice") (js "bob") (js "tok") (js "tok2")
    (js "a1") (js "D1") routed (add_route (js "a1") (js "D1") no_routes) no_routes) as (_ & _ & s' & Hs & Hp).
  - vm_compute. reflexivity.
  - vm_compute. reflexivity.
  - vm_compute. discriminate.
  - reflexivity.
  - exact routed_holds.
  - vm_compute. reflexivity.
  - exists s'. split; [exact Hs|]. apply Hp. vm_compute. reflexivity.
Defined.

Definition sample_data : bytes :=
  match Marshal (lora_msg (js "a1") (js "c9") [50; 49]) with Done d => d | _ => [] end.

Lemma lora_takeover_witness :
  exists e s', handle_batch lora_handle [e] routed = (s', [e]) /\
    lora_publish all_taken s' temperature = (None, [(js "channel.c9", sample_data)]).
Proof.
  destruct (lora_takeover two_users all_taken sample_store (js "bob") (js "tok2") (js "7") [] (js "c9") routed
    (add_route (js "a1") (js "D1") no_routes) no_routes) as (e & s' & _ & Hs & Hp).
  - vm_compute. reflexivity.
  - reflexivity.
  - vm_compute. reflexivity.
  - exact routed_holds.
  - exists e, s'. split; [exact Hs|].
    apply (Hp temperature (js "a1") [50; 49] sample_data); vm_compute; reflexivity.
Defined.

Lemma lora_disconnected_witness :
  let es' := es_apply sample_auth (Core (RDisconnect (js "tok") (js "c1") (js "a1"))) sample_store in
  snd (CanAccessByID (js "c1") (js "a1") (core (es_catalog es'))) = Err ErrUnauthorizedAccess.
Proof.
  refine (proj1 (lora_disconnected sample_auth all_taken sample_store {[js "a1"]} (js "tok") (js "alice") (js "c1")
    (js "a1") sample_reach _ _ _ sample_connection)); vm_compute; reflexivity.
Defined.
