(* ===== verification/OpcuaAdapter.v ===== *)
(** * The OPC-UA adapter

    Like the LoRa adapter it follows the event stream of the Things service
    ([opcua/redis/streams.go]), with a third route map for the connections of
    things and channels ([opcua/service.go]), and it publishes what its
    subscriptions to OPC-UA servers bring ([opcua/gopcua/subscribe.go]) for
    connected things only.  A subscription is the address of a server and a node;
    what the servers send is the environment. *)

From S2P Require Import Prelude JsString ThingsCache Things ThingsList ThingsEvents RouteMap GoCodec.
From stdpp Require Import gmap sets pretty.

Local Open Scope Z_scope.

#[local] Arguments Marshal : simpl never.

Record opcua_state := OpcuaState {
  maps : redis;
  subscriptions : list (text * text)       (* server, node; oldest first *)
}.

Definition thing_key : text -> text := opcua_key (js "thing").
Definition channel_key : text -> text := opcua_key (js "channel").
Definition connection_key : text -> text := opcua_key (js "connection").

Definition pair_key (chanID thingID : text) : text := chanID ++ COLON :: thingID.

(** ** Events *)

Section Events.
Context {JT : JsonText}.

(** The decoders also refuse an empty string. *)
Definition opcua_decode (key : text) (e : event) : text + decode_error :=
  match decode_member (js "opcua") key e with
  | inl [] => inr errMetadataKey
  | r => r
  end.

Definition on_maps (f : redis -> redis) (st : opcua_state) : opcua_state :=
  OpcuaState (f (maps st)) (subscriptions st).

Definition opcua_create (mapkey : text -> text) (key : text) (e : event) (st : opcua_state) :
    opcua_state * option handle_error :=
  match opcua_decode key e with
  | inl v => (on_maps (rm_save mapkey mapkey (read e (js "id") []) v) st, None)
  | inr err => (st, Some (DecodeFailed err))
  end.

Definition opcua_remove (mapkey : text -> text) (id : text) (st : opcua_state) : opcua_state * option handle_error :=
  match rm_remove mapkey mapkey id (maps st) with
  | Some s => (OpcuaState s (subscriptions st), None)
  | None => (st, Some RouteFailed)
  end.

(** [ConnectThing]; the subscription is started whatever becomes of it. *)
Definition ConnectThing (chanID thingID : text) (st : opcua_state) : opcua_state * option handle_error :=
  match rm_get channel_key (maps st) chanID with
  | None => (st, Some RouteFailed)
  | Some serverURI =>
      match rm_get thing_key (maps st) thingID with
      | None => (st, Some RouteFailed)
      | Some nodeID =>
          let c := pair_key chanID thingID in
          (OpcuaState (rm_save connection_key connection_key c c (maps st))
             (subscriptions st ++ [(serverURI, nodeID)]), None)
      end
  end.

Definition DisconnectThing (chanID thingID : text) (st : opcua_state) : opcua_state * option handle_error :=
  opcua_remove connection_key (pair_key chanID thingID) st.

Definition opcua_handle (e : event) (st : opcua_state) : opcua_state * option handle_error :=
  let op := operation e in
  if bool_decide (op = thingCreate) || bool_decide (op = thingUpdate) then opcua_create thing_key (js "nodeID") e st
  else if bool_decide (op = thingRemove) then opcua_remove thing_key (read e (js "id") []) st
  else if bool_decide (op = channelCreate) || bool_decide (op = channelUpdate) then
    opcua_create channel_key (js "serverURI") e st
  else if bool_decide (op = channelRemove) then opcua_remove channel_key (read e (js "id") []) st
  else if bool_decide (op = thingConnect) then
    ConnectThing (read e (js "chan_id") []) (read e (js "thing_id") []) st
  else if bool_decide (op = thingDisconnect) then
    DisconnectThing (read e (js "chan_id") []) (read e (js "thing_id") []) st
  else (st, None).

End Events.

(** ** Messages *)

(** The values of a notification; a float is given by its text, and of every other
    type the adapter makes the number 0. *)
Inductive opcua_data :=
| DBool (b : bool)
| DInt (z : Z)
| DFloat (printed : text)
| DString (s : text)
| DOther.

Definition print_data (d : opcua_data) : text :=
  match d with
  | DBool true => js "true"
  | DBool false => js "false"
  | DInt z => js (pretty z)
  | DFloat t => t
  | DString s => s
  | DOther => js "0"
  end.

Record opcua_message := OpcuaMessage {
  ServerURI : text;
  NodeID : text;
  om_type : text;
  om_time : Z;
  om_data : opcua_data
}.

Definition QUOTE : Z := 34.

(** The format of [publish]: an array of one object with the members n, t and v. *)
Definition senml (m : opcua_message) : bytes :=
  js "[{" ++ QUOTE :: js "n" ++ QUOTE :: js ":" ++ QUOTE :: om_type m ++ QUOTE :: js ", " ++
  QUOTE :: js "t" ++ QUOTE :: js ": " ++ js (pretty (om_time m)) ++ js ", " ++
  QUOTE :: js "v" ++ QUOTE :: js ":" ++ print_data (om_data m) ++ js "}]".

Inductive opcua_error := errNotFoundServerURI | errNotFoundNodeID | errNotFoundConn | errNotPublished.

Section Publish.
Variable broker_publish : bytes -> bytes -> bool.                 (* subject, data *)

Definition opcua_msg (thingID chanID : text) (payload : bytes) : GoMessage :=
  Build_GoMessage chanID [] [] thingID [] (js "opcua") (js "Content-Type") payload [].

Definition opcua_nats_publish (msg : GoMessage) : option opcua_error * list (bytes * bytes) :=
  match Marshal msg with
  | Done data =>
      let subject := js "channel." ++ Channel msg in
      if broker_publish subject data then (None, [(subject, data)]) else (Some errNotPublished, [])
  | _ => (Some errNotPublished, [])
  end.

Definition opcua_publish (st : opcua_state) (m : opcua_message) : option opcua_error * list (bytes * bytes) :=
  match rm_get channel_key (maps st) (ServerURI m) with
  | None => (Some errNotFoundServerURI, [])
  | Some chanID =>
      match rm_get thing_key (maps st) (NodeID m) with
      | None => (Some errNotFoundNodeID, [])
      | Some thingID =>
          match rm_get connection_key (maps st) (pair_key chanID thingID) with
          | None => (Some errNotFoundConn, [])
          | Some _ => opcua_nats_publish (opcua_msg thingID chanID (senml m))
          end
      end
  end.

(** ** Notifications *)

(** The values of OPC-UA that [runHandler] tells apart. *)
Inductive variant :=
| VBoolean (b : bool)
| VInt64 (z : Z)
| VUint64 (z : Z)
| VFloat (printed : text)
| VDouble (printed : text)
| VString (s : text)
| VOther (type : text).

(** [Type().String()]. *)
Definition variant_type (v : variant) : text :=
  match v with
  | VBoolean _ => js "TypeIDBoolean"
  | VInt64 _ => js "TypeIDInt64"
  | VUint64 _ => js "TypeIDUint64"
  | VFloat _ => js "TypeIDFloat"
  | VDouble _ => js "TypeIDDouble"
  | VString _ => js "TypeIDString"
  | VOther t => t
  end.

Definition variant_data (v : variant) : opcua_data :=
  match v with
  | VBoolean b => DBool b
  | VInt64 z | VUint64 z => DInt z
  | VFloat t | VDouble t => DFloat t
  | VString s => DString s
  | VOther _ => DOther
  end.

(** What a subscription delivers; an item has its value and its time. *)
Inductive notice :=
| NoticeError
| DataChange (items : list (variant * Z))
| OtherNotice.

Definition item_message (sub : text * text) (item : variant * Z) : opcua_message :=
  OpcuaMessage (fst sub) (snd sub) (variant_type (fst item)) (snd item) (variant_data (fst item)).

(** One round of the loop of [runHandler]: errors are logged and the items after
    them are published. *)
Definition handle_notice (st : opcua_state) (sub : text * text) (n : notice) : list (bytes * bytes) :=
  match n with
  | DataChange items => items ≫= fun item => snd (opcua_publish st (item_message sub item))
  | NoticeError | OtherNotice => []
  end.

End Publish.

(** ** Connections *)

Section Connections.
Context {JT : JsonText}.
Variable broker_publish : bytes -> bytes -> bool.

(** The connections after an event that was handled with a result. *)
Definition link (L : gset text) (e : event) (err : option handle_error) : gset text :=
  let c := pair_key (read e (js "chan_id") []) (read e (js "thing_id") []) in
  match err with
  | Some _ => L
  | None =>
      if bool_decide (operation e = thingConnect) then {[c]} ∪ L
      else if bool_decide (operation e = thingDisconnect) then L ∖ {[c]} else L
  end.

(** States of the adapter, with the connections that the events it handled made and
    did not end.  Events that a failed read lost are not handled. *)
Inductive opcua_reach : gset text -> opcua_state -> Prop :=
| opcua_init : opcua_reach ∅ (OpcuaState ∅ [])
| opcua_event L st e st' err :
    opcua_reach L st -> opcua_handle e st = (st', err) -> opcua_reach (link L e err) st'.

Definition links_hold (L : gset text) (s : redis) : Prop :=
  forall c, get s (connection_key c) = if bool_decide (c ∈ L) then Some c else None.

#[local] Instance connection_key_inj : Inj (=) (=) connection_key.
Proof. by intros a b [= ->]. Qed.

Lemma other_keys a b : thing_key a <> connection_key b /\ channel_key a <> connection_key b.
Proof. done. Qed.

Lemma links_other L s k v : (forall c, k <> connection_key c) -> links_hold L s -> links_hold L (set k v s).
Proof. intros Hk H c. rewrite get_set, decide_False by by apply not_eq_sym. apply H. Qed.

Lemma links_del L s k : (forall c, k <> connection_key c) -> links_hold L s -> links_hold L (del k s).
Proof. intros Hk H c. rewrite get_del, decide_False by by apply not_eq_sym. apply H. Qed.

Lemma links_save L s c : links_hold L s -> links_hold ({[c]} ∪ L) (rm_save connection_key connection_key c c s).
Proof.
  clear JT broker_publish. intros H x. unfold rm_save. rewrite !get_set.
  destruct (decide (connection_key x = connection_key c)) as [->%(inj connection_key)|Hn].
  - rewrite bool_decide_eq_true_2 by set_solver. done.
  - rewrite H. assert (x <> c) by congruence. by rewrite (bool_decide_ext (x ∈ {[c]} ∪ L) (x ∈ L)) by set_solver.
Qed.

Lemma links_remove L s c s' :
  links_hold L s -> rm_remove connection_key connection_key c s = Some s' -> links_hold (L ∖ {[c]}) s'.
Proof.
  clear JT broker_publish. intros H. unfold rm_remove. rewrite H. case_bool_decide; [|done]. intros [= <-] x.
  rewrite !get_del. destruct (decide (connection_key x = connection_key c)) as [->%(inj connection_key)|Hn].
  - rewrite bool_decide_eq_false_2 by set_solver. done.
  - rewrite H. assert (x <> c) by congruence. by rewrite (bool_decide_ext (x ∈ L ∖ {[c]}) (x ∈ L)) by set_solver.
Qed.

Lemma create_links k key L e st st' err :
  (forall a b, k a <> connection_key b) -> links_hold L (maps st) ->
  opcua_create k key e st = (st', err) -> links_hold L (maps st').
Proof.
  intros Hk H. unfold opcua_create. destruct (opcua_decode key e); intros [= <- <-]; [|done].
  simpl. unfold rm_save. by apply links_other, links_other.
Qed.

Lemma remove_links k L id st st' err :
  (forall a b, k a <> connection_key b) -> links_hold L (maps st) ->
  opcua_remove k id st = (st', err) -> links_hold L (maps st').
Proof.
  intros Hk H. unfold opcua_remove, rm_remove. destruct (get _ _); intros [= <- <-]; [|done].
  simpl. by apply links_del, links_del.
Qed.

Lemma opcua_links L st : opcua_reach L st -> links_hold L (maps st).
Proof.
  induction 1 as [|L st e st' err _ IH Hh]; [intros c; unfold get; simpl; by rewrite lookup_empty|].
  revert Hh. unfold opcua_handle, link. set (op := operation e).
  destruct (bool_decide (op = thingCreate) || bool_decide (op = thingUpdate)) eqn:E1.
  { assert (bool_decide (op = thingConnect) = false /\ bool_decide (op = thingDisconnect) = false) as [-> ->].
    { apply orb_true_iff in E1 as [->%bool_decide_eq_true| ->%bool_decide_eq_true]; by vm_compute. }
    intros H. destruct err; (eapply create_links; [|exact IH|exact H]); apply other_keys. }
  destruct (bool_decide (op = thingRemove)) eqn:E2.
  { apply bool_decide_eq_true in E2 as ->. intros H.
    destruct err; (eapply remove_links; [|exact IH|exact H]); apply other_keys. }
  destruct (bool_decide (op = channelCreate) || bool_decide (op = channelUpdate)) eqn:E3.
  { assert (bool_decide (op = thingConnect) = false /\ bool_decide (op = thingDisconnect) = false) as [-> ->].
    { apply orb_true_iff in E3 as [->%bool_decide_eq_true| ->%bool_decide_eq_true]; by vm_compute. }
    intros H. destruct err; (eapply create_links; [|exact IH|exact H]); intros; apply (other_keys a b). }
  destruct (bool_decide (op = channelRemove)) eqn:E4.
  { apply bool_decide_eq_true in E4 as ->. intros H.
    destruct err; (eapply remove_links; [|exact IH|exact H]); intros; apply (other_keys a b). }
  set (c := pair_key _ _). destruct (bool_decide (op = thingConnect)).
  { unfold ConnectThing. destruct (rm_get channel_key _ _); [|by intros [= <- <-]].
    destruct (rm_get thing_key _ _); [|by intros [= <- <-]]. intros [= <- <-]. by apply links_save. }
  destruct (bool_decide (op = thingDisconnect)); [|intros [= <- <-]; done].
  unfold DisconnectThing, opcua_remove. fold c. destruct (rm_remove _ _ _ _) as [s|] eqn:E; intros [= <- <-]; [|done].
  by eapply links_remove.
Qed.

(** C37: Only connected things publish through the adapter: whatever is published for
    a notification goes out on the channel that its server is routed to, under the
    thing that its node is routed to, and the two are connected by the events the
    adapter handled; without the connection nothing is published. *)
Theorem opcua_published_connected L st m :
  opcua_reach L st ->
  match opcua_publish broker_publish st m with
  | (None, out) =>
      exists c t data,
        rm_get channel_key (maps st) (ServerURI m) = Some c /\ rm_get thing_key (maps st) (NodeID m) = Some t /\
        pair_key c t ∈ L /\
        Marshal (opcua_msg t c (senml m)) = Done data /\ out = [(js "channel." ++ c, data)]
  | (Some e, out) =>
      out = [] /\
      (e = errNotFoundConn -> exists c t,
         rm_get channel_key (maps st) (ServerURI m) = Some c /\ rm_get thing_key (maps st) (NodeID m) = Some t /\
         pair_key c t ∉ L)
  end.
Proof.
  intros Hr%opcua_links. unfold opcua_publish.
  destruct (rm_get channel_key _ _) as [c|]; [|done]. destruct (rm_get thing_key _ _) as [t|]; [|done].
  unfold rm_get. rewrite Hr. case_bool_decide as Hin.
  - unfold opcua_nats_publish. destruct (Marshal _) as [data| |] eqn:Hm; [|by split..].
    cbv zeta. change (Channel (opcua_msg t c (senml m))) with c.
    destruct (broker_publish _ _); [|by split]. by exists c, t, data.
  - split; [done|]. intros _. by exists c, t.
Qed.

(** The same for notifications: each item is published or left out on its own. *)
Lemma notice_published L st sub n subject data :
  opcua_reach L st -> (subject, data) ∈ handle_notice broker_publish st sub n ->
  exists items item c t, n = DataChange items /\ item ∈ items /\
    rm_get channel_key (maps st) (fst sub) = Some c /\ rm_get thing_key (maps st) (snd sub) = Some t /\
    pair_key c t ∈ L /\ subject = js "channel." ++ c /\
    Marshal (opcua_msg t c (senml (item_message sub item))) = Done data.
Proof.
  intros Hr%opcua_links. destruct n as [|items|]; [by intros ?%elem_of_nil| |by intros ?%elem_of_nil].
  intros (item & Hin & Hitem)%list_elem_of_bind. exists items, item. revert Hin. unfold opcua_publish.
  change (ServerURI (item_message sub item)) with (fst sub). change (NodeID (item_message sub item)) with (snd sub).
  destruct (rm_get channel_key _ _) as [c|]; [|by intros ?%elem_of_nil].
  destruct (rm_get thing_key _ _) as [t|]; [|by intros ?%elem_of_nil].
  unfold rm_get. rewrite Hr. case_bool_decide as Hl; [|by intros ?%elem_of_nil].
  unfold opcua_nats_publish. destruct (Marshal _) as [d| |] eqn:Hm; [|by intros ?%elem_of_nil..].
  cbv zeta. change (Channel (opcua_msg t c (senml (item_message sub item)))) with c.
  destruct (broker_publish _ _); [|by intros ?%elem_of_nil]. intros [= -> ->]%list_elem_of_singleton.
  by exists c, t.
Qed.

(** A connection of a thing or a channel without a route, as most are, stops the
    adapter's read: nothing of it is handled from there on, and the connection is
    not made up for when the route comes later. *)
Theorem opcua_read_lost es c t es' st st1 :
  handle_batch opcua_handle es st = (st1, es) ->
  rm_get channel_key (maps st1) c = None \/ rm_get thing_key (maps st1) t = None ->
  handle_batch opcua_handle (es ++ connectionEvent thingConnect c t :: es') st = (st1, es).
Proof.
  intros Hes Hn.
  assert (He : opcua_handle (connectionEvent thingConnect c t) st1 = (st1, Some RouteFailed)).
  { change (opcua_handle (connectionEvent thingConnect c t) st1) with (ConnectThing c t st1).
    unfold ConnectThing. destruct (rm_get channel_key _ _); [|done].
    destruct Hn as [Hn|Hn]; [done|]. by rewrite Hn. }
  rewrite (handle_batch_app _ _ _ _ _ st1 Hes); rewrite He; done.
Qed.

(** What the creation of a thing for a node is to the adapter. *)
Definition for_node (n name : text) : info metadata :=
  Info name (Some [(js "opcua", JObject [(js "nodeID", JString n)])]).

Lemma node_event {JOk : JsonTextOk JT} n name id owner st :
  n <> [] ->
  opcua_handle (createEvent thingCreate id owner (for_node n name)) st =
    (on_maps (rm_save thing_key thing_key id n) st, None).
Proof.
  intros Hn. set (e := createEvent _ _ _ _).
  assert (Hop : operation e = thingCreate /\ read e (js "id") [] = id /\
    read e (js "metadata") (js "{}") = marshal (JObject [(js "opcua", JObject [(js "nodeID", JString n)])])).
  { subst e. unfold operation, read, createEvent, encode_info, for_node. simpl.
    destruct name; split_and!; by simplify_map_eq. }
  destruct Hop as (Hop & Hid & Hmeta). unfold opcua_handle. rewrite Hop.
  change (bool_decide (thingCreate = thingCreate)) with true. cbn [orb].
  unfold opcua_create, opcua_decode, decode_member. rewrite Hid, Hmeta, unmarshal_marshal_object.
  cbn. by destruct n.
Qed.

(** Identifiers and nodes share their keys: a user who creates a thing [b] with
    the identifier [a] of another thing as its node puts [b] in the place of the
    node of [a], and when [a] is connected to a channel the adapter subscribes to
    a node named [b] in its stead. *)
Theorem opcua_node_replaced {JOk : JsonTextOk JT} st a b owner name c uri n :
  a <> [] -> rm_get channel_key (maps st) c = Some uri -> rm_get thing_key (maps st) a = Some n ->
  handle_batch opcua_handle [createEvent thingCreate b owner (for_node a name); connectionEvent thingConnect c a] st =
  (OpcuaState (rm_save connection_key connection_key (pair_key c a) (pair_key c a)
      (rm_save thing_key thing_key b a (maps st)))
     (subscriptions st ++ [(uri, b)]),
   [createEvent thingCreate b owner (for_node a name); connectionEvent thingConnect c a]).
Proof.
  intros Ha Hc Hn. cbn [handle_batch]. rewrite node_event by done. cbn [fatal].
  set (st1 := on_maps _ _). change (opcua_handle (connectionEvent thingConnect c a) st1) with (ConnectThing c a st1).
  unfold ConnectThing.
  assert (rm_get channel_key (maps st1) c = Some uri) as ->.
  { subst st1. unfold rm_get, rm_save in *. simpl. by rewrite !get_set, !decide_False by done. }
  assert (rm_get thing_key (maps st1) a = Some b) as ->.
  { subst st1. unfold rm_get, rm_save. simpl. by rewrite get_set, decide_True by done. }
  done.
Qed.

End Connections.

(** ** Witnesses *)

#[local] Existing Instance coded_json.
#[local] Existing Instance coded_json_ok.

Definition opcua_channel (uri : text) : info metadata :=
  Info [] (Some [(js "opcua", JObject [(js "serverURI", JString uri)])]).

Definition opcua_events : list event := [
  createEvent thingCreate (js "a1") (js "alice") (for_node (js "n1") []);
  createEvent channelCreate (js "c1") (js "alice") (opcua_channel (js "uri"));
  connectionEvent thingConnect (js "c1") (js "a1")].

(** Handling events one by one. *)
Definition opcua_run (es : list event) : gset text * opcua_state :=
  foldl (fun '(L, st) e => let '(st', err) := opcua_handle e st in (link L e err, st')) (∅, OpcuaState ∅ []) es.

Lemma opcua_run_reach es : opcua_reach (fst (opcua_run es)) (snd (opcua_run es)).
Proof.
  induction es as [|e es IH] using rev_ind; [constructor|]. unfold opcua_run in *. rewrite foldl_app. simpl.
  destruct (foldl _ _ es) as [L st]. simpl in *. destruct (opcua_handle e st) as [st' err] eqn:E.
  by eapply opcua_event.
Qed.

Definition reading : opcua_message := OpcuaMessage (js "uri") (js "n1") (js "Int64") 5 (DInt 21).

Definition accept_all (subject data : bytes) : bool := true.

Lemma opcua_published_connected_witness :
  (fst <$> snd (opcua_publish accept_all (snd (opcua_run opcua_events)) reading)) = [js "channel.c1"] /\
  pair_key (js "c1") (js "a1") ∈ fst (opcua_run opcua_events).
Proof.
  split; [vm_compute; reflexivity|].
  pose proof (opcua_published_connected accept_all (fst (opcua_run opcua_events)) (snd (opcua_run opcua_events))
    reading (opcua_run_reach opcua_events)) as H.
  destruct (opcua_publish accept_all (snd (opcua_run opcua_events)) reading) as [[e|] out] eqn:E;
    [by vm_compute in E|].
  destruct H as (c & t & data & Hc & Ht & Hin & _).
  assert (Hc' : rm_get channel_key (maps (snd (opcua_run opcua_events))) (js "uri") = Some (js "c1"))
    by (vm_compute; reflexivity).
  assert (Ht' : rm_get thing_key (maps (snd (opcua_run opcua_events))) (js "n1") = Some (js "a1"))
    by (vm_compute; reflexivity).
  change (ServerURI reading) with (js "uri") in Hc. change (NodeID reading) with (js "n1") in Ht.
  rewrite Hc' in Hc. rewrite Ht' in Ht. injection Hc as <-. injection Ht as <-. exact Hin.
Defined.

(** A connection of a thing that is no node, and a channel created after it. *)
Lemma opcua_read_lost_witness :
  let created := createEvent channelCreate (js "c1") (js "alice") (opcua_channel (js "uri")) in
  handle_batch opcua_handle ([] ++ connectionEvent thingConnect (js "c8") (js "a8") :: [created])
    (OpcuaState ∅ []) = (OpcuaState ∅ [], []).
Proof.
  apply (opcua_read_lost [] (js "c8") (js "a8") _ (OpcuaState ∅ []) (OpcuaState ∅ []));
    [reflexivity|left; vm_compute; reflexivity].
Defined.

Lemma opcua_node_replaced_witness :
  subscriptions (fst (handle_batch opcua_handle
    [createEvent thingCreate (js "b1") (js "bob") (for_node (js "a1") []); connectionEvent thingConnect (js "c1") (js "a1")]
    (OpcuaState (maps (snd (opcua_run (take 2 opcua_events)))) []))) = [(js "uri", js "b1")].
Proof.
  rewrite (opcua_node_replaced (OpcuaState (maps (snd (opcua_run (take 2 opcua_events)))) []) (js "a1") (js "b1")
    (js "bob") [] (js "c1") (js "uri") (js "n1")); [reflexivity|vm_compute; discriminate|vm_compute; reflexivity..].
Defined.
