(* ===== verification/Authn.v ===== *)
(** * The authn service

    Keys and tokens: the JWT tokenizer of [authn/jwt/], the key repository of
    [authn/postgres/], the service of [authn/service.go], and its endpoints over
    HTTP and gRPC.  A time is a number of nanoseconds since 1970; a request reads
    the clock once. *)

From S2P Require Import Prelude JsString ThingsCache Things.
From stdpp Require Import gmap.

Local Open Scope Z_scope.

(** ** Errors *)

Inductive outcome (E A : Type) := Done (a : A) | Failed (e : E).
Arguments Done {E A}.
Arguments Failed {E A}.

Definition bind_outcome {E A B} (o : outcome E A) (k : A -> outcome E B) : outcome E B :=
  match o with Done a => k a | Failed e => Failed e end.

Inductive authn_error :=
| ErrInvalidKeyIssuedAt
| ErrKeyExpired
| ErrUnauthorizedAccess
| ErrMalformedEntity
| ErrNotFound
| ErrConflict
| ErrOther.            (* of the database or of the identity provider, passed on *)

#[export] Instance authn_error_eq_dec : EqDecision authn_error.
Proof. solve_decision. Defined.

Abbreviation answer := (outcome authn_error).

(** ** Time *)

Definition second : Z := 1000000000.
Definition zero_time : Z := -62135596800 * second.
Definition IsZero (t : Z) : bool := t =? zero_time.
Definition Unix (t : Z) : Z := t / second.
Definition from_Unix (s : Z) : Z := s * second.

(** The arithmetic of [time.Duration]. *)
Definition wrap64 (z : Z) : Z := (z + 2 ^ 63) mod 2 ^ 64 - 2 ^ 63.

(** ** Keys *)

Definition UserKey : N := 0.
Definition RecoveryKey : N := 1.
Definition APIKey : N := 2.

Record Key := MkKey {
  kID : text;
  kType : N;
  kIssuer : text;
  kSecret : text;
  kIssuedAt : Z;
  kExpiresAt : Z
}.

Definition Expired (k : Key) (now : Z) : bool := kExpiresAt k <? now.

(** ** Tokens *)

Record claims := Claims {
  c_Id : text;
  c_Issuer : text;
  c_Subject : text;
  c_IssuedAt : Z;
  c_ExpiresAt : Z;
  c_NotBefore : Z;
  c_Type : option N
}.

(** What jwt-go does with strings: [sign] is [SignedString] with HS256, [unsign]
    is [ParseUnverified] for an HMAC method, [verifies] checks the signature.
    [utf8_text] is what [encoding/json] makes of a string. *)
Class Jwt := {
  sign : text -> claims -> text;
  unsign : text -> option claims;
  verifies : text -> text -> bool;
  utf8_text : text -> text
}.

Definition utf8_claims `{Jwt} (c : claims) : claims :=
  Claims (utf8_text (c_Id c)) (utf8_text (c_Issuer c)) (utf8_text (c_Subject c))
    (c_IssuedAt c) (c_ExpiresAt c) (c_NotBefore c) (c_Type c).

Definition AT_SIGN : Z := 64.

(** A signed token reads back, verifies and is not empty; a verified token is in the alphabet of
    JWT; JSON mends malformed UTF-8 once and leaves ASCII alone. *)
Class JwtOk (J : Jwt) : Prop := {
  unsign_sign : forall s c, unsign (sign s c) = Some (utf8_claims c);
  verifies_sign : forall s c, verifies s (sign s c) = true;
  token_nonempty : forall s c, sign s c <> [];
  token_alphabet : forall s tok, is_Some (unsign tok) -> verifies s tok = true -> AT_SIGN ∉ tok;
  utf8_idem : forall s, utf8_text (utf8_text s) = utf8_text s;
  utf8_ascii : forall s, Forall (fun c => 0 <= c < 128) s -> utf8_text s = s
}.

Definition ValidationErrorSignatureInvalid : Z := 4.
Definition ValidationErrorExpired : Z := 16.
Definition ValidationErrorIssuedAt : Z := 32.
Definition ValidationErrorNotValidYet : Z := 128.
Definition ValidationErrorClaimsInvalid : Z := 512.

Definition flag (b : bool) (f : Z) : Z := if b then 0 else f.

Definition verifyExp (exp now : Z) : bool := if exp =? 0 then true else now <=? exp.
Definition verifyIat (iat now : Z) : bool := if iat =? 0 then true else iat <=? now.
Definition verifyNbf (nbf now : Z) : bool := if nbf =? 0 then true else nbf <=? now.

(** [StandardClaims.Valid]: the flags of the error. *)
Definition StandardClaims_Valid (now : Z) (c : claims) : Z :=
  Z.lor (flag (verifyExp (c_ExpiresAt c) (Unix now)) ValidationErrorExpired)
    (Z.lor (flag (verifyIat (c_IssuedAt c) (Unix now)) ValidationErrorIssuedAt)
      (flag (verifyNbf (c_NotBefore c) (Unix now)) ValidationErrorNotValidYet)).

Definition Valid (now : Z) (c : claims) : Z :=
  match c_Type c with
  | None => ValidationErrorClaimsInvalid
  | Some ty => if (APIKey <? ty)%N then ValidationErrorClaimsInvalid else StandardClaims_Valid now c
  end.

Definition toKey (c : claims) : Key :=
  MkKey (c_Id c) (default 0%N (c_Type c)) (c_Issuer c) (c_Subject c) (from_Unix (c_IssuedAt c))
    (if c_ExpiresAt c =? 0 then zero_time else from_Unix (c_ExpiresAt c)).

(** The claims that [tokenizer.Issue] signs. *)
Definition claims_of (k : Key) : claims :=
  Claims (kID k) (kIssuer k) (kSecret k) (Unix (kIssuedAt k))
    (if IsZero (kExpiresAt k) then 0 else Unix (kExpiresAt k)) 0 (Some (kType k)).

(** ** The key repository *)

Record dbKey := DbKey { d_type : N; d_issued_at : Z; d_expires_at : option Z }.

(** The rows of [keys]; the primary key is the issuer with the identifier. *)
Abbreviation keys := (gmap (text * text) dbKey).

(** The column types of PostgreSQL: a [TIMESTAMP] keeps microseconds, a
    [VARCHAR(254)] refuses longer text. *)
Class Columns := { timestamp : Z -> Z; varchar254 : text -> bool }.

(** Less than a microsecond is lost. *)
Class ColumnsOk (P : Columns) : Prop := timestamp_near : forall t, Z.abs (timestamp t - t) < 1000.

Section Authn.
Context {J : Jwt} {U : Uuid} {P : Columns}.
Variable secret : text.

Definition tokenizer_Issue (k : Key) : text := sign secret (claims_of k).

Definition Parse (now : Z) (token : text) : answer Key :=
  match unsign token with
  | None => Failed ErrUnauthorizedAccess
  | Some c =>
      let flags := Z.lor (Valid now c) (flag (verifies secret token) ValidationErrorSignatureInvalid) in
      if flags =? 0 then Done (toKey c)
      else if flags =? ValidationErrorExpired
      then if bool_decide (c_Type c = Some APIKey) then Done (toKey c) else Failed ErrKeyExpired
      else Failed ErrUnauthorizedAccess
  end.

Definition toDBKey (k : Key) : dbKey :=
  DbKey (kType k) (timestamp (kIssuedAt k))
    (if IsZero (kExpiresAt k) then None else Some (timestamp (kExpiresAt k))).

Definition fromDBKey (issuer id : text) (d : dbKey) : Key :=
  MkKey id (d_type d) issuer [] (d_issued_at d) (default zero_time (d_expires_at d)).

Definition Save (k : Key) (ks : keys) : keys * answer text :=
  match canon (kID k) with
  | None => (ks, Failed ErrOther)
  | Some u =>
      if negb (varchar254 (kIssuer k)) then (ks, Failed ErrOther)
      else if bool_decide (is_Some (ks !! (kIssuer k, u))) then (ks, Failed ErrConflict)
      else (<[(kIssuer k, u) := toDBKey k]> ks, Done (kID k))
  end.

Definition repo_Retrieve (issuer id : text) (ks : keys) : answer Key :=
  match canon id with
  | None => Failed ErrNotFound
  | Some u =>
      match ks !! (issuer, u) with
      | None => Failed ErrNotFound
      | Some d => Done (fromDBKey issuer u d)
      end
  end.

Definition repo_Remove (issuer id : text) (ks : keys) : keys * answer unit :=
  match canon id with
  | None => (ks, Failed ErrOther)
  | Some u => (delete (issuer, u) ks, Done tt)
  end.

(** ** The service *)

Definition loginDuration : Z := 10 * 3600 * second.
Definition resetDuration : Z := 5 * 60 * second.
Definition issuerName : text := js "mainflux.authn".

Definition login (now : Z) (token : text) : answer text :=
  bind_outcome (Parse now token) (fun c =>
    if negb (kType c =? UserKey)%N then Failed ErrUnauthorizedAccess
    else match kSecret c with [] => Failed ErrUnauthorizedAccess | _ :: _ => Done (kSecret c) end).

(** The key that [tempKey] signs, and the one it returns. *)
Definition temporary (duration : Z) (k : Key) : Key :=
  MkKey (kID k) (kType k) issuerName (kSecret k) (kIssuedAt k) (kIssuedAt k + duration).
Definition with_secret (s : text) (k : Key) : Key :=
  MkKey (kID k) (kType k) (kIssuer k) s (kIssuedAt k) (kExpiresAt k).
Definition tempKey (duration : Z) (k : Key) : Key :=
  with_secret (tokenizer_Issue (temporary duration k)) (temporary duration k).

Definition loginKey (issuer : text) (k : Key) : Key := tempKey loginDuration (with_secret issuer k).

Definition resetKey (now : Z) (issuer : text) (k : Key) : answer Key :=
  bind_outcome (login now issuer) (fun email => Done (tempKey resetDuration (with_secret email k))).

(** [newID] is what the identity provider returns, if it does. *)
Definition user_key (email id : text) (k : Key) : Key :=
  MkKey id (kType k) email (kSecret k) (kIssuedAt k) (kExpiresAt k).

Definition userKey (now : Z) (newID : option text) (issuer : text) (k : Key) (ks : keys) : keys * answer Key :=
  match login now issuer with
  | Failed e => (ks, Failed e)
  | Done email =>
      match newID with
      | None => (ks, Failed ErrOther)
      | Some id =>
          let k := user_key email id k in
          let k := with_secret (tokenizer_Issue k) k in
          let '(ks, r) := Save k ks in
          (ks, bind_outcome r (fun _ => Done k))
      end
  end.

Definition Issue (now : Z) (newID : option text) (issuer : text) (k : Key) (ks : keys) : keys * answer Key :=
  if IsZero (kIssuedAt k) then (ks, Failed ErrInvalidKeyIssuedAt)
  else if (kType k =? APIKey)%N then userKey now newID issuer k ks
  else if (kType k =? RecoveryKey)%N then (ks, resetKey now issuer k)
  else (ks, Done (loginKey issuer k)).

Definition Revoke (now : Z) (issuer id : text) (ks : keys) : keys * answer unit :=
  match login now issuer with
  | Failed e => (ks, Failed e)
  | Done email => repo_Remove email id ks
  end.

Definition Retrieve (now : Z) (issuer id : text) (ks : keys) : answer Key :=
  bind_outcome (login now issuer) (fun email => repo_Retrieve email id ks).

Definition Identify (now : Z) (token : text) (ks : keys) : keys * answer text :=
  match Parse now token with
  | Failed e => (ks, Failed e)
  | Done c =>
      if (kType c =? APIKey)%N then
        match repo_Retrieve (kIssuer c) (kID c) ks with
        | Failed e => (ks, Failed e)
        | Done k =>
            if Expired k now
            then (fst (repo_Remove (kIssuer c) (kID c) ks), Failed ErrKeyExpired)
            else (ks, Done (kIssuer c))
        end
      else if (kType c =? RecoveryKey)%N || (kType c =? UserKey)%N then
        (ks, if bool_decide (kIssuer c = issuerName) then Done (kSecret c) else Failed ErrUnauthorizedAccess)
      else (ks, Failed ErrUnauthorizedAccess)
  end.

(** ** HTTP *)

Definition validate_issueKeyReq (issuer : text) (ty : N) : bool :=
  (ty =? UserKey)%N || (negb (bool_decide (issuer = [])) && (ty =? APIKey)%N).

Record issueKeyRes := IssueKeyRes { res_ID : text; res_Value : text; res_IssuedAt : Z; res_ExpiresAt : option Z }.

(** The key that [issueEndpoint] asks for: [duration] is the number in the body. *)
Definition newKey (now : Z) (issuer : text) (ty : N) (duration : Z) : Key :=
  let d := wrap64 (duration * second) in
  MkKey [] ty issuer [] now (if d =? 0 then zero_time else now + d).

Definition issueEndpoint (now : Z) (newID : option text) (issuer : text) (ty : N) (duration : Z) (ks : keys) :
    keys * answer issueKeyRes :=
  if negb (validate_issueKeyReq issuer ty) then (ks, Failed ErrMalformedEntity)
  else
    let '(ks, r) := Issue now newID issuer (newKey now issuer ty duration) ks in
    (ks, bind_outcome r (fun k =>
      Done (IssueKeyRes (kID k) (kSecret k) (kIssuedAt k)
              (if IsZero (kExpiresAt k) then None else Some (kExpiresAt k))))).

Definition validate_keyReq (issuer id : text) : bool :=
  negb (bool_decide (issuer = [])) && negb (bool_decide (id = [])).

Definition revokeEndpoint (now : Z) (issuer id : text) (ks : keys) : keys * answer unit :=
  if negb (validate_keyReq issuer id) then (ks, Failed ErrMalformedEntity) else Revoke now issuer id ks.

Definition retrieveEndpoint (now : Z) (issuer id : text) (ks : keys) : answer Key :=
  if negb (validate_keyReq issuer id) then Failed ErrMalformedEntity else Retrieve now issuer id ks.

Definition http_status (e : authn_error) : Z :=
  match e with
  | ErrMalformedEntity => 400
  | ErrUnauthorizedAccess => 403
  | ErrNotFound => 404
  | ErrConflict => 409
  | _ => 500
  end.

(** ** gRPC *)

Definition known_type (ty : N) : bool := (ty =? UserKey)%N || (ty =? APIKey)%N || (ty =? RecoveryKey)%N.

Definition grpc_issueEndpoint (now : Z) (newID : option text) (issuer : text) (ty : N) (ks : keys) :
    keys * answer text :=
  if bool_decide (issuer = []) then (ks, Failed ErrUnauthorizedAccess)
  else if negb (known_type ty) then (ks, Failed ErrMalformedEntity)
  else
    let '(ks, r) := Issue now newID issuer (MkKey [] ty [] [] now zero_time) ks in
    (ks, bind_outcome r (fun k => Done (kSecret k))).

(** The kind of key of the request is never set, so it passes the check. *)
Definition grpc_identifyEndpoint (now : Z) (token : text) (ks : keys) : keys * answer text :=
  if bool_decide (token = []) then (ks, Failed ErrMalformedEntity) else Identify now token ks.

(** [encodeError] of the gRPC server: the text of the status error. *)
Definition grpc_error (e : authn_error) : text :=
  match e with
  | ErrMalformedEntity => js "rpc error: code = InvalidArgument desc = received invalid token request"
  | ErrUnauthorizedAccess => js "rpc error: code = Unauthenticated desc = unauthorized access"
  | ErrKeyExpired => js "rpc error: code = Unauthenticated desc = use of expired key"
  | _ => js "rpc error: code = Internal desc = internal server error"
  end.

(** ** Requests *)

Inductive authn_request :=
| HttpIssue (issuer : text) (ty : N) (duration : Z)
| HttpRevoke (issuer id : text)
| HttpRetrieve (issuer id : text)
| GrpcIssue (issuer : text) (ty : N)
| GrpcIdentify (token : text).

Inductive authn_response :=
| RKey (k : issueKeyRes)
| RDone
| RShown (k : Key)
| RToken (token : text)
| RUser (id : text)
| RError (e : authn_error).

Definition respond {A} (f : A -> authn_response) (r : answer A) : authn_response :=
  match r with Done a => f a | Failed e => RError e end.

Definition authn_serve (now : Z) (newID : option text) (r : authn_request) (ks : keys) : keys * authn_response :=
  match r with
  | HttpIssue issuer ty d =>
      let '(ks, a) := issueEndpoint now newID issuer ty d ks in (ks, respond RKey a)
  | HttpRevoke issuer id =>
      let '(ks, a) := revokeEndpoint now issuer id ks in (ks, respond (fun _ => RDone) a)
  | HttpRetrieve issuer id => (ks, respond RShown (retrieveEndpoint now issuer id ks))
  | GrpcIssue issuer ty =>
      let '(ks, a) := grpc_issueEndpoint now newID issuer ty ks in (ks, respond RToken a)
  | GrpcIdentify token =>
      let '(ks, a) := grpc_identifyEndpoint now token ks in (ks, respond RUser a)
  end.

End Authn.
