(* ===== verification/AuthnSystem.v ===== *)
(** * Tokens as passes

    What the authn service promises: a token stands for a pass that was handed out
    with it, and only a pass opens anything.  The service, with its signed claims,
    validation flags and two expiries, refines this, as long as nobody forges a
    signature. *)

From S2P Require Import Prelude JsString ThingsCache Things Authn.
From stdpp Require Import gmap.

Local Open Scope Z_scope.

(** ** The specification *)

(** [until] is in seconds; the expiry of an API key is that of its row. *)
Inductive pass :=
| Session (user : text) (until : Z)
| Recovery (user : text) (until : Z)
| Api (user id : text).

Record vault := Vault { passes : list (text * pass); live : keys }.

Definition pass_of (tok : text) (ps : list (text * pass)) : option pass :=
  snd <$> List.find (fun x => bool_decide (fst x = tok)) ps.

Definition hand_out (tok : text) (p : pass) (v : vault) : vault := Vault ((tok, p) :: passes v) (live v).

Section Spec.
Context {J : Jwt} {U : Uuid} {P : Columns}.

(** Whom a token lets in as a user who has logged in. *)
Definition spec_login (now : Z) (tok : text) (v : vault) : answer text :=
  match pass_of tok (passes v) with
  | Some (Session user until) =>
      if until <? Unix now then Failed ErrKeyExpired
      else match user with [] => Failed ErrUnauthorizedAccess | _ :: _ => Done user end
  | Some (Recovery _ until) =>
      if until <? Unix now then Failed ErrKeyExpired else Failed ErrUnauthorizedAccess
  | _ => Failed ErrUnauthorizedAccess
  end.

Definition spec_identify (now : Z) (tok : text) (v : vault) : vault * answer text :=
  match pass_of tok (passes v) with
  | Some (Session user until) | Some (Recovery user until) =>
      (v, if until <? Unix now then Failed ErrKeyExpired else Done user)
  | Some (Api user id) =>
      match live v !! (user, id) with
      | None => (v, Failed ErrNotFound)
      | Some d =>
          if default zero_time (d_expires_at d) <? now
          then (Vault (passes v) (delete (user, id) (live v)), Failed ErrKeyExpired)
          else (v, Done user)
      end
  | None => (v, Failed ErrUnauthorizedAccess)
  end.

(** [tok] is the token that the service will hand out; the answer has the
    identifier of the key and its expiry. *)
Definition spec_issue (now : Z) (newID : option text) (tok issuer : text) (ty : N) (expires : option Z)
    (v : vault) : vault * answer (text * option Z) :=
  if (ty =? APIKey)%N then
    match spec_login now issuer v with
    | Failed e => (v, Failed e)
    | Done user =>
        match newID with
        | None => (v, Failed ErrOther)
        | Some id =>
            if negb (varchar254 user) then (v, Failed ErrOther)
            else if bool_decide (is_Some (live v !! (user, id))) then (v, Failed ErrConflict)
            else
              (hand_out tok (Api user id)
                 (Vault (passes v)
                    (<[(user, id) := DbKey ty (timestamp now) (timestamp <$> expires)]> (live v))),
               Done (id, expires))
        end
    end
  else if (ty =? RecoveryKey)%N then
    match spec_login now issuer v with
    | Failed e => (v, Failed e)
    | Done user =>
        (hand_out tok (Recovery user (Unix (now + resetDuration))) v, Done ([], Some (now + resetDuration)))
    end
  else
    (hand_out tok (Session (utf8_text issuer) (Unix (now + loginDuration))) v,
     Done ([], Some (now + loginDuration))).

(** When a key of [duration] seconds expires. *)
Definition expiry (now duration : Z) : option Z :=
  let d := wrap64 (duration * second) in if d =? 0 then None else Some (now + d).

Definition spec_serve (now : Z) (newID : option text) (tok : text) (r : authn_request) (v : vault) :
    vault * authn_response :=
  match r with
  | HttpIssue issuer ty d =>
      if negb (validate_issueKeyReq issuer ty) then (v, RError ErrMalformedEntity)
      else
        let '(v, a) := spec_issue now newID tok issuer ty (expiry now d) v in
        (v, respond (fun x => RKey (IssueKeyRes (fst x) tok now (snd x))) a)
  | HttpRevoke issuer id =>
      if negb (validate_keyReq issuer id) then (v, RError ErrMalformedEntity)
      else
        match spec_login now issuer v with
        | Failed e => (v, RError e)
        | Done user =>
            let '(l, a) := repo_Remove user id (live v) in
            (Vault (passes v) l, respond (fun _ => RDone) a)
        end
  | HttpRetrieve issuer id =>
      (v, if negb (validate_keyReq issuer id) then RError ErrMalformedEntity
          else respond RShown (bind_outcome (spec_login now issuer v) (fun user => repo_Retrieve user id (live v))))
  | GrpcIssue issuer ty =>
      if bool_decide (issuer = []) then (v, RError ErrUnauthorizedAccess)
      else if negb (known_type ty) then (v, RError ErrMalformedEntity)
      else
        let '(v, a) := spec_issue now newID tok issuer ty None v in
        (v, respond (fun _ => RToken tok) a)
  | GrpcIdentify token =>
      if bool_decide (token = []) then (v, RError ErrMalformedEntity)
      else let '(v, a) := spec_identify now token v in (v, respond RUser a)
  end.

End Spec.

(** ** Runs of the service *)

(** The token in an answer. *)
Definition handed (r : authn_response) : option text :=
  match r with RKey k => Some (res_Value k) | RToken t => Some t | _ => None end.
Definition token_in (r : authn_response) : text := default [] (handed r).

(** The token a request presents; the issuer of a login key is just a text. *)
Definition presented (r : authn_request) : option text :=
  match r with
  | HttpIssue issuer ty _ | GrpcIssue issuer ty => if (ty =? UserKey)%N then None else Some issuer
  | HttpRevoke issuer _ | HttpRetrieve issuer _ => Some issuer
  | GrpcIdentify token => Some token
  end.

(** A request with its time, the identifier that was at hand, and its answer. *)
Record served := Served { at_time : Z; given_id : option text; asked : authn_request; answered : authn_response }.

Section System.
Context {J : Jwt} {JO : JwtOk J} {U : Uuid} {P : Columns}.
Variable secret : text.

(** A token with a good signature was handed out by the service. *)
Definition genuine (v : vault) (tok : text) : Prop :=
  is_Some (unsign tok) -> verifies secret tok = true -> tok ∈ (passes v).*1.

Definition genuine_request (v : vault) (r : authn_request) : Prop :=
  forall tok, presented r = Some tok -> genuine v tok.

(** What the identity provider returns is a printed UUID. *)
Definition printed_id (newID : option text) : Prop :=
  forall id, newID = Some id -> canon id = Some id /\ utf8_text id = id.

Inductive areach : Z -> keys -> vault -> list served -> Prop :=
| ar_init t : 0 <= t -> areach t ∅ (Vault [] ∅) []
| ar_step t ks v tr now newID r :
    areach t ks v tr -> t <= now -> printed_id newID -> genuine_request v r ->
    let a := snd (authn_serve secret now newID r ks) in
    areach now (fst (authn_serve secret now newID r ks))
      (fst (spec_serve now newID (token_in a) r v)) (Served now newID r a :: tr).

(** ** The simulation *)

(** The key that was signed for a pass. *)
Definition signed_for (k : Key) (p : pass) : Prop :=
  match p with
  | Session user until =>
      kType k = UserKey /\ kIssuer k = issuerName /\ user = utf8_text (kSecret k) /\
      kExpiresAt k = kIssuedAt k + loginDuration /\ until = Unix (kExpiresAt k)
  | Recovery user until =>
      kType k = RecoveryKey /\ kIssuer k = issuerName /\ user = utf8_text (kSecret k) /\
      kExpiresAt k = kIssuedAt k + resetDuration /\ until = Unix (kExpiresAt k)
  | Api user id =>
      kType k = APIKey /\ kIssuer k = user /\ utf8_text user = user /\
      kID k = id /\ canon id = Some id /\ utf8_text id = id
  end.

Record sim (t : Z) (ks : keys) (v : vault) : Prop := {
  sim_time : 0 <= t;
  sim_live : ks = live v;
  sim_passes : forall tok p, (tok, p) ∈ passes v ->
    exists k, tok = tokenizer_Issue secret k /\ signed_for k p /\ 0 <= kIssuedAt k <= t
}.

Lemma sim_later t t' ks v : t <= t' -> sim t ks v -> sim t' ks v.
Proof.
  intros Ht [H1 H2 H3]. split; [lia|done|]. intros tok p Hin.
  destruct (H3 _ _ Hin) as (k & ? & ? & ?). exists k. do 2 (split; [done|]). lia.
Qed.

Lemma pass_of_in tok ps p : pass_of tok ps = Some p -> (tok, p) ∈ ps.
Proof.
  unfold pass_of. intros H. apply fmap_Some in H as ([tok' p'] & H & ->).
  apply List.find_some in H as [Hin He]. apply bool_decide_eq_true in He. simpl in *. subst tok'.
  by apply list_elem_of_In.
Qed.

Lemma pass_of_none tok ps : pass_of tok ps = None -> tok ∉ ps.*1.
Proof.
  unfold pass_of. intros H. apply fmap_None in H. intros ([tok' p] & -> & Hin)%list_elem_of_fmap.
  eapply List.find_none in H; [|by apply list_elem_of_In]. by apply bool_decide_eq_false in H.
Qed.

(** ** Validation flags *)

Lemma flags_unsigned x : Z.lor x ValidationErrorSignatureInvalid <> 0 /\
  Z.lor x ValidationErrorSignatureInvalid <> ValidationErrorExpired.
Proof.
  assert (H : Z.testbit (Z.lor x ValidationErrorSignatureInvalid) 2 = true).
  { rewrite Z.lor_spec. change (Z.testbit ValidationErrorSignatureInvalid 2) with true. apply orb_true_r. }
  split; intros E; by rewrite E in H.
Qed.

Lemma Parse_unverified now tok :
  verifies secret tok = false -> Parse secret now tok = Failed ErrUnauthorizedAccess.
Proof.
  intros Hv. unfold Parse. destruct (unsign tok) as [c|]; [|done]. rewrite Hv. unfold flag.
  destruct (flags_unsigned (Valid now c)) as [H1 H2].
  by rewrite (proj2 (Z.eqb_neq _ _) H1), (proj2 (Z.eqb_neq _ _) H2).
Qed.

Lemma Unix_mono a b : a <= b -> Unix a <= Unix b.
Proof. intros. unfold Unix, second. apply Z.div_le_mono; lia. Qed.

Lemma Unix_nonneg a : 0 <= a -> 0 <= Unix a.
Proof. intros. unfold Unix, second. apply Z.div_pos; lia. Qed.

Definition issued_flags (now : Z) (k : Key) : Z :=
  flag (verifyExp (c_ExpiresAt (claims_of k)) (Unix now)) ValidationErrorExpired.

(** A token of the service, not presented before it was issued. *)
Lemma Parse_issued now k :
  (kType k <= APIKey)%N -> kIssuedAt k <= now ->
  Parse secret now (tokenizer_Issue secret k) =
    if issued_flags now k =? 0 then Done (toKey (utf8_claims (claims_of k)))
    else if bool_decide (kType k = APIKey) then Done (toKey (utf8_claims (claims_of k)))
    else Failed ErrKeyExpired.
Proof.
  intros Hty Hat. unfold Parse, tokenizer_Issue. rewrite unsign_sign, verifies_sign. unfold flag at 2.
  rewrite Z.lor_0_r.
  assert (Hf : Valid now (utf8_claims (claims_of k)) = issued_flags now k).
  { unfold Valid. cbn [c_Type utf8_claims claims_of].
    rewrite (proj2 (N.ltb_ge APIKey (kType k)) Hty). unfold StandardClaims_Valid, issued_flags, verifyIat, verifyNbf.
    cbn [c_IssuedAt c_NotBefore c_ExpiresAt utf8_claims claims_of].
    rewrite (proj2 (Z.leb_le _ _) (Unix_mono _ _ Hat)). change (0 =? 0) with true.
    destruct (Unix (kIssuedAt k) =? 0); cbn [flag]; by rewrite !Z.lor_0_r. }
  rewrite Hf. cbn [c_Type utf8_claims claims_of].
  assert (Hc : issued_flags now k = 0 \/ issued_flags now k = ValidationErrorExpired).
  { unfold issued_flags, flag. destruct verifyExp; auto. }
  rewrite (bool_decide_ext (Some (kType k) = Some APIKey) (kType k = APIKey)) by (split; congruence).
  by destruct Hc as [-> | ->].
Qed.

(** The expiry of a temporary key. *)
Lemma temporary_flags now k d :
  0 <= kIssuedAt k -> second <= d -> kExpiresAt k = kIssuedAt k + d ->
  (issued_flags now k =? 0) = negb (Unix (kExpiresAt k) <? Unix now).
Proof.
  intros Hat Hd He. unfold issued_flags. cbn [c_ExpiresAt claims_of].
  assert (Hz : IsZero (kExpiresAt k) = false).
  { unfold IsZero, zero_time, second in *. apply Z.eqb_neq. lia. }
  assert (Hu : 0 < Unix (kExpiresAt k)).
  { assert (Unix second <= Unix (kExpiresAt k)) by (apply Unix_mono; unfold second in *; lia).
    unfold Unix, second in *. change (1000000000 / 1000000000) with 1 in *. lia. }
  rewrite Hz. unfold verifyExp. rewrite (proj2 (Z.eqb_neq (Unix (kExpiresAt k)) 0)) by lia.
  rewrite Z.leb_antisym. by destruct (Unix (kExpiresAt k) <? Unix now).
Qed.

(** ** Each operation simulates its specification *)

Lemma Parse_unknown now tok v :
  genuine v tok -> pass_of tok (passes v) = None -> Parse secret now tok = Failed ErrUnauthorizedAccess.
Proof.
  intros Hg Hp. destruct (unsign tok) eqn:Eu; [|by unfold Parse; rewrite Eu].
  apply Parse_unverified. destruct (verifies secret tok) eqn:E; [|done].
  apply pass_of_none in Hp. destruct Hp. apply Hg; [by rewrite Eu|done].
Qed.

Lemma issuerName_utf8 : utf8_text issuerName = issuerName.
Proof. apply utf8_ascii. vm_decide. Qed.

(** What a token of the service is read as. *)
Definition reading (now : Z) (k : Key) (p : pass) (r : answer Key) : Prop :=
  match p with
  | Session user until | Recovery user until =>
      r = if until <? Unix now then Failed ErrKeyExpired else Done (toKey (utf8_claims (claims_of k)))
  | Api _ _ => r = Done (toKey (utf8_claims (claims_of k)))
  end.

Lemma Parse_pass t ks v now tok p :
  sim t ks v -> t <= now -> pass_of tok (passes v) = Some p ->
  exists k, signed_for k p /\ reading now k p (Parse secret now tok).
Proof.
  intros [_ _ H3] Hnow Hp%pass_of_in. destruct (H3 _ _ Hp) as (k & -> & Hk & Hat). exists k. split; [done|].
  assert (Hty : (kType k <= APIKey)%N).
  { destruct p; destruct Hk as (-> & _); unfold UserKey, RecoveryKey, APIKey; lia. }
  rewrite Parse_issued by (done || lia). destruct p as [u e|u e|u id]; destruct Hk as (Hk & Hk').
  - destruct Hk' as (_ & _ & He & ->).
    unfold reading. rewrite (temporary_flags now k loginDuration) by (done || lia || by unfold loginDuration, second).
    rewrite Hk. by destruct (_ <? _).
  - destruct Hk' as (_ & _ & He & ->).
    unfold reading. rewrite (temporary_flags now k resetDuration) by (done || lia || by unfold resetDuration, second).
    rewrite Hk. by destruct (_ <? _).
  - unfold reading. rewrite Hk. by destruct (_ =? _).
Qed.

Lemma login_sim t ks v now tok :
  sim t ks v -> t <= now -> genuine v tok -> login secret now tok = spec_login now tok v.
Proof.
  intros Hs Hnow Hg. unfold login, spec_login.
  destruct (pass_of tok (passes v)) as [p|] eqn:Hp; [|by rewrite (Parse_unknown _ _ v)].
  destruct (Parse_pass _ _ _ _ _ _ Hs Hnow Hp) as (k & Hk & Hr).
  destruct p as [u e|u e|u id]; destruct Hk as (Hty & Hk'); cbn [reading] in Hr; rewrite Hr.
  - destruct (e <? Unix now); [done|]. simpl. rewrite Hty. simpl. destruct Hk' as (_ & -> & _). done.
  - destruct (e <? Unix now); [done|]. simpl. by rewrite Hty.
  - simpl. by rewrite Hty.
Qed.

Lemma login_utf8 t ks v now tok user :
  sim t ks v -> spec_login now tok v = Done user -> utf8_text user = user.
Proof.
  intros Hs. unfold spec_login. destruct (pass_of tok (passes v)) as [p|] eqn:Hp; [|done].
  destruct p as [u e|u e|u id]; [|by destruct (e <? Unix now)|done].
  destruct (sim_passes _ _ _ Hs _ _ (pass_of_in _ _ _ Hp)) as (k & _ & (_ & _ & Hu & _) & _).
  destruct (e <? Unix now); [done|]. destruct u as [|x u]; [done|]. intros [= <-].
  rewrite Hu. apply utf8_idem.
Qed.

Lemma repo_Retrieve_printed issuer id ks :
  canon id = Some id ->
  repo_Retrieve issuer id ks =
    match ks !! (issuer, id) with None => Failed ErrNotFound | Some d => Done (fromDBKey issuer id d) end.
Proof. intros Hc. unfold repo_Retrieve. by rewrite Hc. Qed.

Lemma identify_sim t ks v now tok :
  sim t ks v -> t <= now -> genuine v tok ->
  Identify secret now tok ks =
    (live (fst (spec_identify now tok v)), snd (spec_identify now tok v)) /\
  passes (fst (spec_identify now tok v)) = passes v.
Proof.
  intros Hs Hnow Hg. unfold Identify, spec_identify. pose proof (sim_live _ _ _ Hs) as Hl.
  destruct (pass_of tok (passes v)) as [p|] eqn:Hp; [|by rewrite (Parse_unknown _ _ v), Hl].
  destruct (Parse_pass _ _ _ _ _ _ Hs Hnow Hp) as (k & Hk & Hr).
  destruct p as [u e|u e|u id]; destruct Hk as (Hty & Hk'); cbn [reading] in Hr; rewrite Hr.
  - destruct (e <? Unix now); [by rewrite Hl|]. simpl. rewrite Hty. simpl.
    destruct Hk' as (-> & -> & _). rewrite issuerName_utf8, bool_decide_eq_true_2 by done. by rewrite Hl.
  - destruct (e <? Unix now); [by rewrite Hl|]. simpl. rewrite Hty. simpl.
    destruct Hk' as (-> & -> & _). rewrite issuerName_utf8, bool_decide_eq_true_2 by done. by rewrite Hl.
  - simpl. rewrite Hty. simpl. destruct Hk' as (Hi & Hu & Hid & Hc & Hiu).
    rewrite Hi, Hu, Hid, Hiu, repo_Retrieve_printed, <- Hl by done.
    destruct (ks !! (u, id)) as [d|]; [|by rewrite Hl]. unfold Expired, fromDBKey. simpl.
    destruct (_ <? now); [|by rewrite Hl]. unfold repo_Remove. by rewrite Hc.
Qed.

Lemma sim_hand_out t ks v tok p k ks' :
  sim t ks v -> tok = tokenizer_Issue secret k -> signed_for k p -> 0 <= kIssuedAt k <= t ->
  sim t ks' (hand_out tok p (Vault (passes v) ks')).
Proof.
  intros Hs Htok Hp Hat. split; [apply Hs|done|]. intros tok' p' [[= -> ->]|Hin]%elem_of_cons.
  - by exists k.
  - by apply (sim_passes _ _ _ Hs).
Qed.

Lemma wrap64_range z : - 2 ^ 63 <= wrap64 z < 2 ^ 63.
Proof.
  unfold wrap64. pose proof (Z.mod_pos_bound (z + 2 ^ 63) (2 ^ 64) ltac:(done)).
  change (2 ^ 64) with (2 * 2 ^ 63) in *. lia.
Qed.

Lemma IsZero_after now d : 0 <= now -> - 2 ^ 63 <= d -> IsZero (now + d) = false.
Proof. intros. unfold IsZero, zero_time, second. apply Z.eqb_neq. lia. Qed.

(** The expiry of a key as the specification says it. *)
Definition expires (k : Key) : option Z := if IsZero (kExpiresAt k) then None else Some (kExpiresAt k).

Lemma expires_newKey now issuer ty d : 0 <= now -> expires (newKey now issuer ty d) = expiry now d.
Proof.
  intros Hnow. unfold expires, expiry, newKey. cbn [kExpiresAt]. destruct (wrap64 (d * second) =? 0); [done|].
  by rewrite IsZero_after by (done || apply wrap64_range).
Qed.

Lemma toDBKey_expires k : toDBKey k = DbKey (kType k) (timestamp (kIssuedAt k)) (timestamp <$> expires k).
Proof. unfold toDBKey, expires. by destruct IsZero. Qed.

(** What [Issue] and its specification have to agree on. *)
Definition issue_agrees (now : Z) (got : keys * answer Key) (want : vault * answer (text * option Z)) : Prop :=
  sim now got.1 want.1 /\
  want.2 = bind_outcome got.2 (fun k => Done (kID k, expires k)) /\
  forall k, got.2 = Done k -> kIssuedAt k = now.

Lemma temp_agrees t ks v now k d p :
  sim t ks v -> t <= now -> kIssuedAt k = now -> kID k = [] -> second <= d ->
  signed_for (temporary d k) p ->
  issue_agrees now (ks, Done (tempKey secret d k))
    (hand_out (tokenizer_Issue secret (temporary d k)) p v, Done ([], Some (now + d))).
Proof.
  intros Hs Hnow Hat Hid Hd Hp. pose proof (sim_later _ _ _ _ Hnow Hs) as Hs'. pose proof (sim_time _ _ _ Hs').
  split_and!.
  - destruct v as [ps l]. simpl. rewrite (sim_live _ _ _ Hs). simpl.
    eapply (sim_hand_out now ks (Vault ps l)); [done|done|done|]. cbn [temporary kIssuedAt]. lia.
  - simpl. unfold tempKey, expires, with_secret, temporary. cbn [kID kExpiresAt]. rewrite Hid, Hat.
    rewrite IsZero_after; [done|done|]. unfold second in Hd. lia.
  - intros k' [= <-]. done.
Qed.

Lemma userKey_agrees t ks v now newID issuer k :
  sim t ks v -> t <= now -> printed_id newID -> genuine v issuer ->
  kIssuedAt k = now -> kType k = APIKey ->
  let got := userKey secret now newID issuer k ks in
  issue_agrees now got
    (spec_issue now newID (match got.2 with Done k' => kSecret k' | Failed _ => [] end)
       issuer APIKey (expires k) v).
Proof.
  intros Hs Hnow Hid Hg Hat Hty. pose proof (sim_later _ _ _ _ Hnow Hs) as Hs'.
  pose proof (sim_time _ _ _ Hs'). unfold userKey, spec_issue. rewrite N.eqb_refl, (login_sim _ _ _ _ _ Hs Hnow Hg).
  destruct (spec_login now issuer v) as [user|e] eqn:El; [|by split].
  destruct newID as [id|]; [|by split]. destruct (Hid id eq_refl) as [Hc Hu].
  unfold Save. cbn [kID kIssuer user_key with_secret]. rewrite Hc, <- (sim_live _ _ _ Hs).
  destruct (varchar254 user); [|by split]. cbn [negb].
  destruct (bool_decide (is_Some (ks !! (user, id)))); [by split|]. split_and!.
  - cbn [fst snd bind_outcome kSecret with_secret].
    rewrite toDBKey_expires. unfold expires at 1. cbn [kType kIssuedAt kExpiresAt with_secret user_key].
    rewrite Hty, Hat. eapply sim_hand_out; [done|done| |cbn [kIssuedAt user_key]; lia].
    split_and!; [done|done|by eapply login_utf8|done..].
  - done.
  - by intros k' [= <-].
Qed.

Lemma issue_sim t ks v now newID issuer k :
  sim t ks v -> t <= now -> printed_id newID -> kIssuedAt k = now -> kID k = [] -> known_type (kType k) = true ->
  (kType k <> UserKey -> genuine v issuer) ->
  let got := Issue secret now newID issuer k ks in
  issue_agrees now got
    (spec_issue now newID (match got.2 with Done k' => kSecret k' | Failed _ => [] end)
       issuer (kType k) (expires k) v).
Proof.
  intros Hs Hnow Hid Hat Hk Hty Hg. pose proof (sim_later _ _ _ _ Hnow Hs) as Hs'.
  pose proof (sim_time _ _ _ Hs') as H0. unfold Issue.
  replace (IsZero (kIssuedAt k)) with false; [|symmetry; rewrite Hat, <- (Z.add_0_r now); by apply IsZero_after].
  unfold known_type in Hty. destruct (kType k =? APIKey)%N eqn:E2.
  { apply N.eqb_eq in E2. rewrite E2. eapply userKey_agrees; try done. apply Hg. by rewrite E2. }
  unfold spec_issue. rewrite E2. destruct (kType k =? RecoveryKey)%N eqn:E1.
  - apply N.eqb_eq in E1. unfold resetKey.
    rewrite (login_sim _ _ _ _ _ Hs Hnow) by (apply Hg; by rewrite E1).
    destruct (spec_login now issuer v) as [user|e] eqn:El; [|by split].
    cbn [bind_outcome fst snd]. eapply temp_agrees; [done..|by unfold resetDuration, second|].
    unfold signed_for, temporary, with_secret. cbn [kType kIssuer kSecret kExpiresAt kIssuedAt].
    rewrite (login_utf8 _ _ _ _ _ _ Hs El), Hat. done.
  - destruct (kType k =? UserKey)%N eqn:E0; [|done]. apply N.eqb_eq in E0.
    cbn [fst snd]. unfold loginKey. eapply temp_agrees; [done..|by unfold loginDuration, second|].
    unfold signed_for, temporary, with_secret. cbn [kType kIssuer kSecret kExpiresAt kIssuedAt]. by rewrite Hat.
Qed.

(** ** Every request simulates its specification *)

Lemma valid_known issuer ty : validate_issueKeyReq issuer ty = true -> known_type ty = true.
Proof.
  unfold validate_issueKeyReq, known_type. intros [->|[_ ->]%andb_true_iff]%orb_true_iff; [done|].
  by rewrite orb_true_r.
Qed.

Lemma genuine_issuer v r issuer ty :
  genuine_request v r -> presented r = (if (ty =? UserKey)%N then None else Some issuer) ->
  ty <> UserKey -> genuine v issuer.
Proof.
  intros Hg Hp Hty. apply Hg. rewrite Hp. by rewrite (proj2 (N.eqb_neq _ _) Hty).
Qed.

(** The answer of [issueEndpoint], from what [Issue] returns. *)
Definition issue_response (k : Key) : issueKeyRes := IssueKeyRes (kID k) (kSecret k) (kIssuedAt k) (expires k).

Definition agrees (now : Z) (got : keys * authn_response) (want : vault * authn_response) : Prop :=
  sim now got.1 want.1 /\ want.2 = got.2.

Lemma http_issue_agrees t ks v now newID issuer ty d :
  sim t ks v -> t <= now -> printed_id newID -> genuine_request v (HttpIssue issuer ty d) ->
  let got := authn_serve secret now newID (HttpIssue issuer ty d) ks in
  agrees now got (spec_serve now newID (token_in got.2) (HttpIssue issuer ty d) v).
Proof.
  intros Hs Hnow Hid Hg. pose proof (sim_later _ _ _ _ Hnow Hs) as Hs'. pose proof (sim_time _ _ _ Hs').
  unfold authn_serve, spec_serve, issueEndpoint.
  destruct (validate_issueKeyReq issuer ty) eqn:Hv; [|by split]. cbn [negb].
  pose proof (issue_sim t ks v now newID issuer (newKey now issuer ty d) Hs Hnow Hid eq_refl eq_refl
    (valid_known _ _ Hv) (genuine_issuer _ _ issuer ty Hg eq_refl)) as Hi.
  rewrite expires_newKey in Hi by done. cbn [kType newKey] in Hi.
  change (fun k : Key => Done (IssueKeyRes (kID k) (kSecret k) (kIssuedAt k)
    (if IsZero (kExpiresAt k) then None else Some (kExpiresAt k)))) with
    (fun k : Key => Done (E := authn_error) (issue_response k)).
  destruct (Issue _ _ _ _ _ _) as [ks' [k|e]] eqn:Ei; cbn [fst snd bind_outcome respond token_in handed default] in *;
    destruct (spec_issue _ _ _ _ _ _ _) as [v' a]; destruct Hi as (H1 & H2 & H3); cbn [fst snd] in *; subst a.
  - split; [done|]. simpl. unfold issue_response. by rewrite (H3 k).
  - by split.
Qed.

Lemma grpc_issue_agrees t ks v now newID issuer ty :
  sim t ks v -> t <= now -> printed_id newID -> genuine_request v (GrpcIssue issuer ty) ->
  let got := authn_serve secret now newID (GrpcIssue issuer ty) ks in
  agrees now got (spec_serve now newID (token_in got.2) (GrpcIssue issuer ty) v).
Proof.
  intros Hs Hnow Hid Hg. pose proof (sim_later _ _ _ _ Hnow Hs) as Hs'.
  unfold authn_serve, spec_serve, grpc_issueEndpoint.
  destruct (bool_decide (issuer = [])); [by split|]. destruct (known_type ty) eqn:Hv; [|by split]. cbn [negb].
  pose proof (issue_sim t ks v now newID issuer (MkKey [] ty [] [] now zero_time) Hs Hnow Hid eq_refl eq_refl
    Hv (genuine_issuer _ _ issuer ty Hg eq_refl)) as Hi.
  change (expires (MkKey [] ty [] [] now zero_time)) with (@None Z) in Hi. cbn [kType] in Hi.
  destruct (Issue _ _ _ _ _ _) as [ks' [k|e]] eqn:Ei; cbn [fst snd bind_outcome respond token_in handed default] in *;
    destruct (spec_issue _ _ _ _ _ _ _) as [v' a]; destruct Hi as (H1 & H2 & H3); cbn [fst snd] in *; subst a;
    by split.
Qed.

Lemma serve_agrees t ks v now newID r :
  sim t ks v -> t <= now -> printed_id newID -> genuine_request v r ->
  let got := authn_serve secret now newID r ks in
  agrees now got (spec_serve now newID (token_in got.2) r v).
Proof.
  intros Hs Hnow Hid Hg. pose proof (sim_later _ _ _ _ Hnow Hs) as Hs'.
  destruct r as [issuer ty d|issuer id|issuer id|issuer ty|tok].
  - by eapply http_issue_agrees.
  - unfold authn_serve, spec_serve, revokeEndpoint, Revoke. destruct (validate_keyReq issuer id); [|by split].
    cbn [negb]. rewrite (login_sim _ _ _ _ _ Hs Hnow) by (by apply Hg).
    destruct (spec_login now issuer v) as [user|e]; [|by split].
    rewrite (sim_live _ _ _ Hs). destruct (repo_Remove user id (live v)) as [l a]. split; [|done].
    split; [apply Hs'|done|apply Hs'].
  - unfold authn_serve, spec_serve, retrieveEndpoint, Retrieve. split; [done|]. cbn [fst snd].
    destruct (validate_keyReq issuer id); [|done]. cbn [negb].
    by rewrite (login_sim _ _ _ _ _ Hs Hnow), (sim_live _ _ _ Hs) by (by apply Hg).
  - by eapply grpc_issue_agrees.
  - unfold authn_serve, spec_serve, grpc_identifyEndpoint. destruct (bool_decide (tok = [])); [by split|].
    destruct (identify_sim _ _ _ _ tok Hs Hnow) as [E Hp]; [by apply Hg|]. rewrite E.
    destruct (spec_identify now tok v) as [v' a]. split; [|done].
    cbn [fst snd] in *. split; [apply Hs'|done|]. rewrite Hp. apply Hs'.
Qed.

(** ** Login keys *)

(** A login key is issued to anybody, and lets in for ten hours. *)
Lemma Issue_login now newID issuer k ks :
  0 <= now -> kIssuedAt k = now -> kType k = UserKey ->
  Issue secret now newID issuer k ks = (ks, Done (loginKey secret issuer k)) /\
  kExpiresAt (loginKey secret issuer k) = now + loginDuration.
Proof.
  intros Hnow Hat Hty. unfold Issue.
  replace (IsZero (kIssuedAt k)) with false; [|symmetry; rewrite Hat, <- (Z.add_0_r now); by apply IsZero_after].
  rewrite Hty. split; [done|]. cbn. by rewrite Hat.
Qed.

Lemma Identify_login t now issuer k ks :
  0 <= now -> kIssuedAt k = now -> kType k = UserKey -> now <= t ->
  Identify secret t (kSecret (loginKey secret issuer k)) ks =
    (ks, if Unix (now + loginDuration) <? Unix t then Failed ErrKeyExpired else Done (utf8_text issuer)).
Proof.
  intros Hnow Hat Hty Ht.
  change (kSecret (loginKey secret issuer k)) with
    (tokenizer_Issue secret (temporary loginDuration (with_secret issuer k))).
  set (k' := temporary loginDuration (with_secret issuer k)).
  assert (Hat' : kIssuedAt k' = now) by done. assert (Hty' : kType k' = UserKey) by done.
  assert (He : kExpiresAt k' = now + loginDuration) by (cbn; by rewrite Hat).
  unfold Identify. rewrite Parse_issued by (rewrite ?Hty', ?Hat'; done).
  rewrite (temporary_flags t k' loginDuration) by (rewrite ?Hat'; done).
  rewrite He, Hty'. destruct (Unix (now + loginDuration) <? Unix t); [done|].
  cbn [negb bool_decide_eq_false_2]. cbn. rewrite Hty. cbn. by rewrite issuerName_utf8, bool_decide_eq_true_2.
Qed.

(** ** Runs *)

Lemma sim_run t ks v tr : areach t ks v tr -> sim t ks v.
Proof.
  induction 1 as [t Ht|t ks v tr now newID r Hr IH Hnow Hid Hg a].
  - split; [done|done|]. intros tok p Hin. by apply elem_of_nil in Hin.
  - by apply (serve_agrees t ks v now newID r).
Qed.

End System.
