(* ===== verification/AuthnHistory.v ===== *)
(** * What a token stands for, from the history

    Which users a token lets in is read off the requests that were answered: whose
    login, recovery or API key it is ([holds]), and whether the API key is still
    in force ([standing]).  The state of the service agrees with it. *)

From S2P Require Import Prelude JsString ThingsCache Things Authn AuthnSystem.
From stdpp Require Import gmap.

Local Open Scope Z_scope.

(** ** Requests for keys *)

(** The issuer of a request for a key of the type [ty]. *)
Definition asks (ty : N) (r : authn_request) : option text :=
  match r with
  | HttpIssue issuer ty' _ | GrpcIssue issuer ty' => if (ty' =? ty)%N then Some issuer else None
  | _ => None
  end.

(** When the key asked for expires; keys asked for over gRPC do not. *)
Definition asked_expiry (now : Z) (r : authn_request) : option Z :=
  match r with HttpIssue _ _ d => expiry now d | _ => None end.

(** ** The history, newest request first *)

Section History.
Context {J : Jwt} {U : Uuid} {P : Columns}.

Inductive holds : list served -> text -> pass -> Prop :=
| h_session s tr issuer tok :
    asks UserKey (asked s) = Some issuer -> handed (answered s) = Some tok ->
    holds (s :: tr) tok (Session (utf8_text issuer) (Unix (at_time s + loginDuration)))
| h_recovery s tr issuer user until tok :
    asks RecoveryKey (asked s) = Some issuer -> handed (answered s) = Some tok ->
    holds tr issuer (Session user until) ->
    holds (s :: tr) tok (Recovery user (Unix (at_time s + resetDuration)))
| h_api s tr issuer id user until tok :
    asks APIKey (asked s) = Some issuer -> given_id s = Some id -> handed (answered s) = Some tok ->
    holds tr issuer (Session user until) ->
    holds (s :: tr) tok (Api user id)
| h_older s tr tok p : holds tr tok p -> holds (s :: tr) tok p.

(** The user has an API key in force that expires at [exp]. *)
Inductive standing : list served -> text -> text -> Z -> Prop :=
| st_issued s tr issuer id user until tok exp :
    asks APIKey (asked s) = Some issuer -> given_id s = Some id -> handed (answered s) = Some tok ->
    holds tr issuer (Session user until) -> asked_expiry (at_time s) (asked s) = Some exp ->
    standing (s :: tr) user id exp
| st_later s tr user id exp :
    standing tr user id exp ->
    (forall issuer id' until, asked s = HttpRevoke issuer id' -> answered s = RDone ->
       canon id' = Some id -> ~ holds tr issuer (Session user until)) ->
    standing (s :: tr) user id exp.

Definition lets_in (tr : list served) (now : Z) (tok user : text) : Prop :=
  (exists until, (holds tr tok (Session user until) \/ holds tr tok (Recovery user until)) /\ Unix now <= until) \/
  (exists id exp, holds tr tok (Api user id) /\ standing tr user id exp /\ now <= timestamp exp).

(** ** What a request does to the vault *)

Inductive effect (now : Z) (newID : option text) (v : vault) (r : authn_request) : vault -> authn_response -> Prop :=
| ef_none a :
    handed a = None -> (forall issuer id, r = HttpRevoke issuer id -> a <> RDone) -> effect now newID v r v a
| ef_session issuer tok a :
    asks UserKey r = Some issuer -> handed a = Some tok ->
    effect now newID v r (hand_out tok (Session (utf8_text issuer) (Unix (now + loginDuration))) v) a
| ef_recovery issuer user tok a :
    asks RecoveryKey r = Some issuer -> handed a = Some tok -> spec_login now issuer v = Done user ->
    effect now newID v r (hand_out tok (Recovery user (Unix (now + resetDuration))) v) a
| ef_api issuer user id tok a :
    asks APIKey r = Some issuer -> newID = Some id -> handed a = Some tok -> spec_login now issuer v = Done user ->
    live v !! (user, id) = None ->
    effect now newID v r
      (hand_out tok (Api user id)
         (Vault (passes v)
            (<[(user, id) := DbKey APIKey (timestamp now) (timestamp <$> asked_expiry now r)]> (live v)))) a
| ef_revoke issuer id' user id :
    r = HttpRevoke issuer id' -> spec_login now issuer v = Done user -> canon id' = Some id ->
    effect now newID v r (Vault (passes v) (delete (user, id) (live v))) RDone
| ef_expire token user id d a :
    r = GrpcIdentify token -> live v !! (user, id) = Some d -> default zero_time (d_expires_at d) < now ->
    handed a = None -> effect now newID v r (Vault (passes v) (delete (user, id) (live v))) a.

Lemma issue_effect now newID tok r issuer ty v (f : text * option Z -> authn_response) :
  r = GrpcIssue issuer ty \/ (exists d, r = HttpIssue issuer ty d) ->
  known_type ty = true -> (forall x, handed (f x) = Some tok) ->
  let want := spec_issue now newID tok issuer ty (asked_expiry now r) v in
  effect now newID v r want.1 (respond f want.2).
Proof.
  intros Hr Hty Hf.
  assert (Hasks : forall k, (ty =? k)%N = true -> asks k r = Some issuer).
  { intros k Hk. destruct Hr as [-> | [d ->]]; simpl; by rewrite Hk. }
  assert (Hrev : forall issuer id a, r = HttpRevoke issuer id -> a <> RDone).
  { intros i id a ->. destruct Hr as [? | [d ?]]; congruence. }
  unfold spec_issue. destruct (ty =? APIKey)%N eqn:E2.
  { apply N.eqb_eq in E2 as ->.
    destruct (spec_login now issuer v) as [user|e] eqn:El; [|apply ef_none; eauto].
    destruct newID as [id|]; [|apply ef_none; eauto].
    destruct (varchar254 user); [|apply ef_none; eauto]. cbn [negb].
    destruct (bool_decide (is_Some (live v !! (user, id)))) eqn:Eb; [apply ef_none; eauto|].
    apply bool_decide_eq_false, eq_None_not_Some in Eb.
    eapply ef_api; [by apply Hasks|done|apply Hf|done|done]. }
  unfold known_type in Hty. rewrite E2 in Hty.
  destruct (ty =? RecoveryKey)%N eqn:E1.
  - destruct (spec_login now issuer v) as [user|e] eqn:El; [|apply ef_none; eauto].
    eapply ef_recovery; [by apply Hasks|apply Hf|done].
  - destruct (ty =? UserKey)%N eqn:E0; [|done]. eapply ef_session; [by apply Hasks|apply Hf].
Qed.

Lemma serve_effect now newID tok r v :
  let want := spec_serve now newID tok r v in effect now newID v r want.1 want.2.
Proof.
  destruct r as [issuer ty d|issuer id|issuer id|issuer ty|token]; cbn [spec_serve].
  - destruct (validate_issueKeyReq issuer ty) eqn:Hv; [|by apply ef_none].
    pose proof (issue_effect now newID tok (HttpIssue issuer ty d) issuer ty v
      (fun x => RKey (IssueKeyRes (fst x) tok now (snd x))) (or_intror (ex_intro _ d eq_refl))
      (valid_known _ _ Hv) (fun _ => eq_refl)) as He.
    cbn [negb asked_expiry] in *. by destruct (spec_issue _ _ _ _ _ _ _).
  - destruct (validate_keyReq issuer id); [|by apply ef_none]. cbn [negb].
    destruct (spec_login now issuer v) as [user|e] eqn:El; [|by apply ef_none].
    unfold repo_Remove. destruct (canon id) as [u|] eqn:Ec.
    + by eapply ef_revoke.
    + destruct v. by apply ef_none.
  - apply ef_none; [|done]. destruct (validate_keyReq issuer id); [|done]. cbn [negb snd].
    by destruct (bind_outcome _ _).
  - destruct (bool_decide (issuer = [])); [by apply ef_none|].
    destruct (known_type ty) eqn:Hv; [|by apply ef_none].
    pose proof (issue_effect now newID tok (GrpcIssue issuer ty) issuer ty v (fun _ => RToken tok)
      (or_introl eq_refl) Hv (fun _ => eq_refl)) as He.
    cbn [negb asked_expiry] in *. by destruct (spec_issue _ _ _ _ _ _ _).
  - destruct (bool_decide (token = [])); [by apply ef_none|]. unfold spec_identify.
    destruct (pass_of token (passes v)) as [[u e|u e|u id]|].
    + destruct (_ <? _); by apply ef_none.
    + destruct (_ <? _); by apply ef_none.
    + destruct (live v !! (u, id)) as [d|] eqn:Ed; [|by apply ef_none].
      destruct (default _ _ <? now) eqn:Ee; [|by apply ef_none].
      apply Z.ltb_lt in Ee. by eapply ef_expire.
    + by apply ef_none.
Qed.

End History.

Lemma asks_inj k1 k2 r i1 i2 : asks k1 r = Some i1 -> asks k2 r = Some i2 -> k1 = k2 /\ i1 = i2.
Proof.
  destruct r as [i ty d|i id|i id|i ty|tok]; simpl; try done;
    destruct (N.eqb_spec ty k1); try done; destruct (N.eqb_spec ty k2); try done; intros [= <-] [= <-]; by subst.
Qed.

Lemma login_session `{Jwt} now tok v user :
  spec_login now tok v = Done user -> exists until, (tok, Session user until) ∈ passes v.
Proof.
  unfold spec_login. destruct (pass_of tok (passes v)) as [[u e|u e|u id]|] eqn:Hp; try done.
  - destruct (e <? Unix now); [done|]. destruct u as [|x u]; [done|]. intros [= <-]. exists e. by apply pass_of_in.
  - by destruct (e <? Unix now).
Qed.

(** ** The state and the history *)

Section Agreement.
Context {J : Jwt} {JO : JwtOk J} {U : Uuid} {P : Columns}.
Variable secret : text.

(** A token has one pass. *)
Lemma pass_unique t ks v tok p p' :
  sim secret t ks v -> (tok, p) ∈ passes v -> (tok, p') ∈ passes v -> p = p'.
Proof.
  intros Hs H1 H2. apply (sim_passes _ _ _ _ Hs) in H1 as (k & Hk & Hp & Hat), H2 as (k' & Hk' & Hp' & Hat').
  assert (Hc : utf8_claims (claims_of k) = utf8_claims (claims_of k')).
  { assert (E : unsign (tokenizer_Issue secret k) = unsign (tokenizer_Issue secret k')) by congruence.
    unfold tokenizer_Issue in E. rewrite !unsign_sign in E. by apply (inj Some) in E. }
  assert (Hz : forall x d, 0 <= kIssuedAt x -> 0 <= d -> kExpiresAt x = kIssuedAt x + d -> IsZero (kExpiresAt x) = false).
  { intros x d Hx Hd ->. apply IsZero_after; lia. }
  unfold utf8_claims, claims_of in Hc. cbn [c_Id c_Issuer c_Subject c_IssuedAt c_ExpiresAt c_NotBefore c_Type] in Hc.
  injection Hc as Hid Hiss Hsub Hiat Hexp Hty.
  unfold signed_for, loginDuration, resetDuration, second, UserKey, RecoveryKey, APIKey in *.
  destruct p as [u e|u e|u id], p' as [u' e'|u' e'|u' id']; destruct_and!; try congruence.
  - rewrite (Hz k (10 * 3600 * 1000000000)), (Hz k' (10 * 3600 * 1000000000)) in Hexp by (done || lia). congruence.
  - rewrite (Hz k (5 * 60 * 1000000000)), (Hz k' (5 * 60 * 1000000000)) in Hexp by (done || lia). congruence.
Qed.

Lemma pass_of_is t ks v tok p : sim secret t ks v -> (tok, p) ∈ passes v -> pass_of tok (passes v) = Some p.
Proof.
  intros Hs Hin. destruct (pass_of tok (passes v)) as [p'|] eqn:E.
  - f_equal. eapply pass_unique; [done|by apply pass_of_in|done].
  - apply pass_of_none in E. destruct E. apply list_elem_of_fmap. by exists (tok, p).
Qed.

Record hist (t : Z) (v : vault) (tr : list served) : Prop := {
  hist_holds : forall tok p, (tok, p) ∈ passes v <-> holds tr tok p;
  hist_live : forall user id d x, live v !! (user, id) = Some d -> d_expires_at d = Some x ->
    exists exp, x = timestamp exp /\ standing tr user id exp;
  hist_standing : forall user id exp, standing tr user id exp ->
    (exists d, live v !! (user, id) = Some d /\ d_expires_at d = Some (timestamp exp)) \/ timestamp exp < t
}.

Lemma login_holds t ks v tr now tok user until u :
  sim secret t ks v -> hist t v tr -> holds tr tok (Session user until) -> spec_login now tok v = Done u -> u = user.
Proof.
  intros Hs Hh Hin%(hist_holds _ _ _ Hh) [e He]%login_session.
  pose proof (pass_unique _ _ _ _ _ _ Hs Hin He) as [= ->]. done.
Qed.

Lemma holds_login t v tr now tok user :
  hist t v tr -> spec_login now tok v = Done user -> exists until, holds tr tok (Session user until).
Proof. intros Hh [e He]%login_session. exists e. by apply (hist_holds _ _ _ Hh). Qed.

Lemma effect_holds t ks v tr now newID r v' a :
  sim secret t ks v -> hist t v tr -> effect now newID v r v' a ->
  forall tok p, (tok, p) ∈ passes v' <-> holds (Served now newID r a :: tr) tok p.
Proof.
  intros Hs Hh He tok p. split.
  - intros Hin. pose proof (hist_holds _ _ _ Hh) as Ho.
    destruct He as [a _ _|issuer tok' a Ha Ht|issuer user tok' a Ha Ht Hl|issuer user id tok' a Ha Hid Ht Hl _| |];
      try by apply h_older, Ho.
    + apply elem_of_cons in Hin as [[= -> ->]|Hin]; [|by apply h_older, Ho].
      by apply (h_session (Served now newID r a) tr issuer).
    + apply elem_of_cons in Hin as [[= -> ->]|Hin]; [|by apply h_older, Ho].
      destruct (holds_login _ _ _ _ _ _ Hh Hl) as [until Hu].
      by apply (h_recovery (Served now newID r a) tr issuer user until).
    + apply elem_of_cons in Hin as [[= -> ->]|Hin]; [|by apply h_older, Ho].
      destruct (holds_login _ _ _ _ _ _ Hh Hl) as [until Hu].
      by apply (h_api (Served now newID r a) tr issuer id user until).
  - intros Hin. inversion Hin as
      [s tr' i tk Hi Hd|s tr' i u e tk Hi Hd Hu|s tr' i id u e tk Hi Hg Hd Hu|s tr' tk q Hq]; subst;
      cbn [asked answered at_time given_id] in *.
    + inversion He; try congruence; subst.
      * destruct (asks_inj _ _ _ _ _ Hi H) as [_ ->]. apply elem_of_cons. left. congruence.
      * destruct (asks_inj _ _ _ _ _ Hi H); discriminate.
      * destruct (asks_inj _ _ _ _ _ Hi H); discriminate.
      * discriminate.
    + inversion He; try congruence; subst.
      * destruct (asks_inj _ _ _ _ _ Hi H); discriminate.
      * destruct (asks_inj _ _ _ _ _ Hi H) as [_ ->]. apply elem_of_cons. left.
        rewrite (login_holds _ _ _ _ _ _ _ _ _ Hs Hh Hu H1). congruence.
      * destruct (asks_inj _ _ _ _ _ Hi H); discriminate.
      * discriminate.
    + inversion He; try congruence; subst.
      * destruct (asks_inj _ _ _ _ _ Hi H); discriminate.
      * destruct (asks_inj _ _ _ _ _ Hi H); discriminate.
      * destruct (asks_inj _ _ _ _ _ Hi H) as [_ ->]. apply elem_of_cons. left.
        rewrite (login_holds _ _ _ _ _ _ _ _ _ Hs Hh Hu H2). congruence.
      * discriminate.
    + apply (hist_holds _ _ _ Hh) in Hq.
      destruct He; try done; by apply elem_of_cons; right.
Qed.

(** A key in force stays so through a request that does not revoke it. *)
Lemma standing_kept (s : served) tr user id exp :
  standing tr user id exp -> (forall issuer id', asked s = HttpRevoke issuer id' -> answered s <> RDone) ->
  standing (s :: tr) user id exp.
Proof. intros H Hn. apply st_later; [done|]. intros issuer id' until Ha Hd. by destruct (Hn issuer id' Ha). Qed.

Lemma asks_not_revoke ty r i : asks ty r = Some i -> forall issuer id, r <> HttpRevoke issuer id.
Proof. intros H issuer id ->. done. Qed.

Lemma effect_live t ks v tr now newID r v' a :
  sim secret t ks v -> hist t v tr -> effect now newID v r v' a ->
  forall user id d x, live v' !! (user, id) = Some d -> d_expires_at d = Some x ->
  exists exp, x = timestamp exp /\ standing (Served now newID r a :: tr) user id exp.
Proof.
  intros Hs Hh He user id d x Hd Hx.
  assert (Hkeep : (forall issuer id', r = HttpRevoke issuer id' -> a <> RDone) -> live v !! (user, id) = Some d ->
    exists exp, x = timestamp exp /\ standing (Served now newID r a :: tr) user id exp).
  { intros Hn Hd'. destruct (hist_live _ _ _ Hh _ _ _ _ Hd' Hx) as (exp & -> & Hst).
    exists exp. split; [done|]. by apply standing_kept. }
  destruct He as [a Ht Hn|issuer tok a Ha Ht|issuer u tok a Ha Ht Hl|issuer u i tok a Ha Hid Ht Hl Hnew
    |issuer i' u i -> Hl Hc|tok u i d' a -> Hd' Hlt Ht].
  - by apply Hkeep.
  - apply Hkeep; [|done]. intros i j Hr. by destruct (asks_not_revoke _ _ _ Ha i j).
  - apply Hkeep; [|done]. intros i j Hr. by destruct (asks_not_revoke _ _ _ Ha i j).
  - cbn [live hand_out] in Hd. destruct (decide ((u, i) = (user, id))) as [[= -> ->]|Hne].
    + rewrite lookup_insert_eq in Hd. injection Hd as <-. cbn [d_expires_at] in Hx.
      apply fmap_Some in Hx as (exp & Hexp & ->). exists exp. split; [done|].
      destruct (holds_login _ _ _ _ _ _ Hh Hl) as [until Hu].
      by apply (st_issued (Served now newID r a) tr issuer id user until tok).
    + rewrite lookup_insert_ne in Hd by done. apply Hkeep; [|done].
      intros j j' Hr. by destruct (asks_not_revoke _ _ _ Ha j j').
  - cbn [live] in Hd. apply lookup_delete_Some in Hd as [Hne Hd].
    destruct (hist_live _ _ _ Hh _ _ _ _ Hd Hx) as (exp & -> & Hst). exists exp. split; [done|].
    apply st_later; [done|]. cbn [asked]. intros issuer2 id2 until [= <- <-] _ Hc2 Hu.
    pose proof (login_holds _ _ _ _ _ _ _ _ _ Hs Hh Hu Hl) as ->. congruence.
  - cbn [live] in Hd. apply lookup_delete_Some in Hd as [Hne Hd]. by apply Hkeep.
Qed.

Lemma effect_standing t ks v tr now newID r v' a :
  sim secret t ks v -> hist t v tr -> t <= now -> effect now newID v r v' a ->
  forall user id exp, standing (Served now newID r a :: tr) user id exp ->
  (exists d, live v' !! (user, id) = Some d /\ d_expires_at d = Some (timestamp exp)) \/ timestamp exp < now.
Proof.
  intros Hs Hh Hnow He user id exp Hst.
  inversion Hst as [s tr' i id' u until tok e Hi Hg Ht Hu Hexp|s tr' u id' e Hold Hn]; subst;
    cbn [asked answered at_time given_id] in *.
  - left. inversion He; try congruence; subst; try (destruct (asks_inj _ _ _ _ _ Hi H); discriminate); [|done].
    destruct (asks_inj _ _ _ _ _ Hi H) as [_ ->].
    rewrite (login_holds _ _ _ _ _ _ _ _ _ Hs Hh Hu H2). assert (id0 = id) as -> by congruence.
    eexists. cbn [live hand_out]. rewrite lookup_insert_eq. split; [done|]. cbn [d_expires_at]. by rewrite Hexp.
  - destruct (hist_standing _ _ _ Hh _ _ _ Hold) as [(d & Hd & Hx)|Hlt]; [|right; lia].
    destruct He as [a Ht _|issuer tok a Ha Ht|issuer u tok a Ha Ht Hl|issuer u i tok a Ha Hid Ht Hl Hnew
      |issuer i' u i -> Hl Hc|tok u i d' a -> Hd' Hlt Ht]; try (left; by exists d).
    + left. cbn [live hand_out]. exists d. split; [|done].
      rewrite lookup_insert_ne; [done|]. congruence.
    + left. exists d. split; [|done]. cbn [live].
      rewrite lookup_delete_ne; [done|]. intros [= -> ->].
      destruct (holds_login _ _ _ _ _ _ Hh Hl) as [until Hu]. by apply (Hn _ _ until eq_refl eq_refl Hc).
    + cbn [live]. destruct (decide ((u, i) = (user, id))) as [[= -> ->]|Hne].
      * right. rewrite Hd in Hd'. injection Hd' as <-. rewrite Hx in Hlt. exact Hlt.
      * left. exists d. split; [|done]. by rewrite lookup_delete_ne.
Qed.

Lemma hist_run t ks v tr : areach secret t ks v tr -> hist t v tr.
Proof.
  induction 1 as [t Ht|t ks v tr now newID r Hr IH Hnow Hid Hg a].
  - split.
    + intros tok p. split; [by intros ?%elem_of_nil|]. inversion 1.
    + intros user id d x Hd. cbn [live] in Hd. by rewrite lookup_empty in Hd.
    + inversion 1.
  - pose proof (sim_run _ _ _ _ _ Hr) as Hs.
    pose proof (serve_effect now newID (token_in a) r v) as He. cbv zeta in He.
    destruct (serve_agrees secret t ks v now newID r Hs Hnow Hid Hg) as [_ Ha]. fold a in Ha.
    rewrite Ha in He.
    split.
    + by eapply effect_holds.
    + by eapply effect_live.
    + by eapply effect_standing.
Qed.

(** ** Identification *)

Lemma spec_identify_history t v tr ks now tok user :
  sim secret t ks v -> hist t v tr -> t <= now ->
  snd (spec_identify now tok v) = Done user <-> lets_in tr now tok user.
Proof.
  intros Hs Hh Hnow. pose proof (sim_time _ _ _ _ Hs) as H0. unfold lets_in. split.
  - unfold spec_identify. destruct (pass_of tok (passes v)) as [[u e|u e|u id]|] eqn:Hp; [| | |done].
    + cbn [snd]. destruct (Z.ltb_spec e (Unix now)); [done|]. intros [= <-].
      left. exists e. split; [|done]. left. by apply (hist_holds _ _ _ Hh), pass_of_in.
    + cbn [snd]. destruct (Z.ltb_spec e (Unix now)); [done|]. intros [= <-].
      left. exists e. split; [|done]. right. by apply (hist_holds _ _ _ Hh), pass_of_in.
    + destruct (live v !! (u, id)) as [d|] eqn:Hd; [|done].
      destruct (Z.ltb_spec (default zero_time (d_expires_at d)) now); [done|]. cbn [snd]. intros [= <-].
      destruct (d_expires_at d) as [x|] eqn:Hx; [|unfold zero_time, second in *; simpl in *; lia].
      destruct (hist_live _ _ _ Hh _ _ _ _ Hd Hx) as (exp & -> & Hst).
      right. exists id, exp. split; [|done]. by apply (hist_holds _ _ _ Hh), pass_of_in.
  - unfold spec_identify. intros [(e & Hin & He)|(id & exp & Hin & Hst & He)].
    + assert (E : (e <? Unix now) = false) by (by apply Z.ltb_ge).
      destruct Hin as [Hin|Hin]; apply (hist_holds _ _ _ Hh) in Hin; rewrite (pass_of_is _ _ _ _ _ Hs Hin), E; done.
    + apply (hist_holds _ _ _ Hh) in Hin. rewrite (pass_of_is _ _ _ _ _ Hs Hin).
      destruct (hist_standing _ _ _ Hh _ _ _ Hst) as [(d & -> & ->)|]; [|lia]. simpl.
      by rewrite (proj2 (Z.ltb_ge _ _) He).
Qed.

End Agreement.
