(* ===== verification/TokenCodec.v ===== *)
(** * A concrete token format

    The interfaces of the authn service can be met: tokens that carry their claims
    and the secret they were signed with, one odd number per unit, and columns
    that cut times down to microseconds.  The examples of the other files are
    evaluated with it. *)

From S2P Require Import Prelude JsString ThingsCache Things Authn.

Local Open Scope Z_scope.

Definition pack (s : text) : list Z := Z.of_nat (length s) :: s.

Definition unpack (s : list Z) : option (text * list Z) :=
  match s with
  | [] => None
  | n :: s => if bool_decide (0 <= n <= Z.of_nat (length s)) then Some (take (Z.to_nat n) s, drop (Z.to_nat n) s) else None
  end.

Lemma unpack_pack s k : unpack (pack s ++ k) = Some (s, k).
Proof.
  unfold unpack, pack. cbn [app]. rewrite bool_decide_eq_true_2 by (rewrite length_app; lia).
  by rewrite Nat2Z.id, take_app_length, drop_app_length.
Qed.

Definition pack_type (ty : option N) : Z := match ty with None => -1 | Some n => Z.of_N n end.
Definition unpack_type (z : Z) : option N := if z <? 0 then None else Some (Z.to_N z).

Definition write_token (s : text) (c : claims) : list Z :=
  pack s ++ pack (c_Id c) ++ pack (c_Issuer c) ++ pack (c_Subject c) ++
  [c_IssuedAt c; c_ExpiresAt c; c_NotBefore c; pack_type (c_Type c)].

Definition read_token (t : list Z) : option (text * claims) :=
  match unpack t with
  | Some (s, t) =>
      match unpack t with
      | Some (id, t) =>
          match unpack t with
          | Some (iss, t) =>
              match unpack t with
              | Some (sub, [iat; exp; nbf; ty]) => Some (s, Claims id iss sub iat exp nbf (unpack_type ty))
              | _ => None
              end
          | None => None
          end
      | None => None
      end
  | None => None
  end.

Lemma read_write s c : read_token (write_token s c) = Some (s, c).
Proof.
  unfold read_token, write_token. rewrite !unpack_pack.
  destruct c as [? ? ? ? ? ? [n|]]; cbn [c_Type pack_type]; [|done].
  unfold unpack_type. rewrite (proj2 (Z.ltb_ge _ _) (N2Z.is_nonneg n)). by rewrite N2Z.id.
Qed.

Definition odd_units (t : list Z) : text := (fun z => 2 * z + 1) <$> t.
Definition even_halves (t : text) : option (list Z) :=
  if forallb Z.odd t then Some ((fun z => z / 2) <$> t) else None.

Lemma halves_units t : even_halves (odd_units t) = Some t.
Proof.
  unfold even_halves, odd_units. replace (forallb _ _) with true.
  - f_equal. rewrite <- list_fmap_compose. induction t as [|z t IH]; [done|]. csimpl. rewrite IH. f_equal.
    rewrite Z.mul_comm. by rewrite Z.div_add_l, Z.add_0_r.
  - symmetry. induction t as [|z t IH]; [done|]. csimpl. rewrite IH, andb_true_r.
    by rewrite Z.add_comm, Z.odd_add_mul_2.
Qed.

Definition plain_read (tok : text) : option (text * claims) :=
  match even_halves tok with Some t => read_token t | None => None end.

#[local] Instance plain_jwt : Jwt := {
  sign s c := odd_units (write_token s c);
  unsign tok := snd <$> plain_read tok;
  verifies s tok := match plain_read tok with Some (s', _) => bool_decide (s' = s) | None => false end;
  utf8_text s := s
}.

#[local] Instance plain_jwt_ok : JwtOk plain_jwt.
Proof.
  split; cbn [sign unsign verifies utf8_text plain_jwt]; [| | | |done|done].
  - intros s c. unfold plain_read. rewrite halves_units, read_write. by destruct c.
  - intros s c. unfold plain_read. rewrite halves_units, read_write. by apply bool_decide_eq_true.
  - done.
  - intros s tok _ Hv Hin. unfold plain_read, even_halves in Hv.
    destruct (forallb Z.odd tok) eqn:E; [|done].
    rewrite forallb_forall in E. specialize (E AT_SIGN). apply list_elem_of_In, E in Hin. done.
Qed.

#[local] Instance micro_columns : Columns := {
  timestamp t := t / 1000 * 1000;
  varchar254 s := bool_decide (length s <= 254)%nat
}.

#[local] Instance micro_columns_ok : ColumnsOk micro_columns.
Proof. intros t. cbn [timestamp micro_columns]. pose proof (Z.div_mod t 1000 ltac:(done)). pose proof (Z.mod_pos_bound t 1000 ltac:(done)). lia. Qed.
