(* ===== verification/AuthnProperties.v ===== *)
(** * What the authn service guarantees

    The refinement of the passes, who is let in, how long keys live, and login keys
    that need no password. *)

From S2P Require Import Prelude JsString ThingsCache Things ThingsProperties Authn AuthnSystem AuthnHistory TokenCodec.
From stdpp Require Import gmap.

Local Open Scope Z_scope.

#[local] Existing Instance plain_jwt.
#[local] Existing Instance plain_jwt_ok.
#[local] Existing Instance micro_columns.
#[local] Existing Instance micro_columns_ok.
#[local] Existing Instance hex_uuid.

(** ** Durations *)

Lemma wrap64_id z : - 2 ^ 63 <= z < 2 ^ 63 -> wrap64 z = z.
Proof.
  intros. unfold wrap64. rewrite Z.mod_small; [lia|]. change (2 ^ 64) with (2 * 2 ^ 63). lia.
Qed.

Lemma wrap64_zero z : wrap64 z = 0 <-> (2 ^ 64 | z).
Proof.
  unfold wrap64. split.
  - intros H. assert (Hm : (z + 2 ^ 63) mod 2 ^ 64 = 2 ^ 63) by lia.
    exists ((z + 2 ^ 63) / 2 ^ 64). pose proof (Z.div_mod (z + 2 ^ 63) (2 ^ 64) ltac:(done)). lia.
  - intros [q ->]. rewrite Z.add_comm, Z.mod_add by done. rewrite Z.mod_small by done. lia.
Qed.

Lemma wrap64_seconds d : wrap64 (d * second) = 0 <-> (2 ^ 55 | d).
Proof.
  rewrite wrap64_zero. replace (2 ^ 64) with (2 ^ 55 * 2 ^ 9) by done.
  replace (d * second) with (d * 1953125 * 2 ^ 9) by (unfold second; lia).
  rewrite Z.mul_divide_cancel_r by done. split.
  - intros H. apply (Z.gauss (2 ^ 55) 1953125 d); [by rewrite Z.mul_comm|done].
  - apply Z.divide_mul_l.
Qed.

Lemma wrap64_small d : -9223372036 <= d <= 9223372036 -> wrap64 (d * second) = d * second.
Proof. intros. apply wrap64_id. unfold second. lia. Qed.

(** ** API keys *)

Section Keys.
Context {J : Jwt} {JO : JwtOk J} {U : Uuid} {P : Columns}.
Variable secret : text.

(** An API key that was just issued: its pass and its row. *)
Lemma api_issued t ks v now newID issuer d ks' k :
  sim secret t ks v -> t <= now -> printed_id newID -> genuine secret v issuer ->
  authn_serve secret now newID (HttpIssue issuer APIKey d) ks = (ks', RKey k) ->
  exists user v',
    spec_login now issuer v = Done user /\ res_ExpiresAt k = expiry now d /\
    sim secret now ks' v' /\ pass_of (res_Value k) (passes v') = Some (Api user (res_ID k)) /\
    live v' !! (user, res_ID k) = Some (DbKey APIKey (timestamp now) (timestamp <$> expiry now d)).
Proof.
  intros Hs Hnow Hid Hg Hserve.
  pose proof (serve_agrees secret t ks v now newID (HttpIssue issuer APIKey d) Hs Hnow Hid) as H.
  rewrite Hserve in H. cbn [fst snd token_in handed default] in H.
  destruct H as [Hsim Hresp]. { intros tok [= <-]. exact Hg. }
  cbn [fst snd token_in handed default] in Hsim, Hresp. revert Hsim Hresp. cbn [spec_serve].
  destruct (validate_issueKeyReq issuer APIKey); [|done]. cbn [negb].
  unfold spec_issue. rewrite N.eqb_refl. destruct (spec_login now issuer v) as [user|e]; [|done].
  destruct newID as [id|]; [|done]. destruct (varchar254 user); [|done]. cbn [negb].
  destruct (bool_decide _); [done|]. cbn [fst snd respond]. intros Hsim [= Hk].
  exists user. eexists. split_and!; [done|by rewrite <- Hk|exact Hsim|..].
  - rewrite <- Hk. unfold pass_of. cbn [passes hand_out List.find fst res_Value]. by rewrite bool_decide_eq_true_2.
  - rewrite <- Hk. cbn [live hand_out res_ID]. by rewrite lookup_insert_eq.
Qed.

End Keys.

Section Properties.
Context {J : Jwt} {JO : JwtOk J} {U : Uuid} {P : Columns} {PO : ColumnsOk P}.
Variable secret : text.

(** C16: the authn service refines its specification: with nobody able to forge a
    signature, every request, at any point of any run, is answered as if tokens
    were opaque and looked up among those handed out, and the table changes as
    the specification says. *)
Theorem authn_refines t ks v tr now newID r :
  areach secret t ks v tr -> t <= now -> printed_id newID -> genuine_request secret v r ->
  let got := authn_serve secret now newID r ks in
  let want := spec_serve now newID (token_in got.2) r v in
  got.2 = want.2 /\ got.1 = live want.1.
Proof.
  intros Hr Hnow Hid Hg got want.
  destruct (serve_agrees secret t ks v now newID r (sim_run _ _ _ _ _ Hr) Hnow Hid Hg) as [Hs He].
  split; [done|]. apply (sim_live _ _ _ _ Hs).
Qed.

(** C5: a token lets in exactly the user that the history of requests says: the
    user of a login or recovery key that is not older than ten hours or five
    minutes, or of an API key that is in force: asked for with a login token of
    the user, not revoked by the user since, and not expired. *)
Theorem identify_history t ks v tr now tok user :
  areach secret t ks v tr -> t <= now -> genuine secret v tok ->
  snd (Identify secret now tok ks) = Done user <-> lets_in tr now tok user.
Proof.
  intros Hr Hnow Hg. pose proof (sim_run _ _ _ _ _ Hr) as Hs.
  rewrite (proj1 (identify_sim secret t ks v now tok Hs Hnow Hg)).
  eapply spec_identify_history; [exact Hs|by eapply hist_run|done].
Qed.

(** C20: the life of an API key from its issue: without an expiry it is refused,
    and removed, at its first use; with one it lets its user in until a
    microsecond before, and is refused from a microsecond after. *)
Theorem api_key_lifetime t ks v tr now newID issuer d ks' k t' :
  areach secret t ks v tr -> t <= now -> printed_id newID -> genuine secret v issuer ->
  authn_serve secret now newID (HttpIssue issuer APIKey d) ks = (ks', RKey k) -> now <= t' ->
  exists user, login secret now issuer = Done user /\
  match res_ExpiresAt k with
  | None => Identify secret t' (res_Value k) ks' = (delete (user, res_ID k) ks', Failed ErrKeyExpired)
  | Some e =>
      (t' <= e - 1000 -> Identify secret t' (res_Value k) ks' = (ks', Done user)) /\
      (e + 1000 <= t' ->
         Identify secret t' (res_Value k) ks' = (delete (user, res_ID k) ks', Failed ErrKeyExpired))
  end.
Proof.
  intros Hr Hnow Hid Hg Hserve Ht'. pose proof (sim_run _ _ _ _ _ Hr) as Hs.
  pose proof (sim_time _ _ _ _ Hs) as H0.
  destruct (api_issued _ _ _ _ _ _ _ _ _ _ Hs Hnow Hid Hg Hserve) as (user & v' & Hl & He & Hs' & Hp & Hrow).
  exists user. split; [by rewrite (login_sim _ _ _ _ _ _ Hs Hnow Hg)|].
  assert (Hgen : genuine secret v' (res_Value k)).
  { intros _ _. apply pass_of_in in Hp. apply list_elem_of_fmap. by eexists (_, _). }
  rewrite (proj1 (identify_sim secret now ks' v' t' (res_Value k) Hs' Ht' Hgen)).
  unfold spec_identify. rewrite Hp, Hrow. cbn [d_expires_at]. rewrite (sim_live _ _ _ _ Hs'), He.
  destruct (expiry now d) as [e|].
  - pose proof (timestamp_near e) as Hn. change (default zero_time (timestamp <$> Some e)) with (timestamp e).
    split; intros H.
    + by rewrite (proj2 (Z.ltb_ge _ _)) by lia.
    + by rewrite (proj2 (Z.ltb_lt _ _)) by lia.
  - change (default zero_time (timestamp <$> None)) with zero_time.
    rewrite (proj2 (Z.ltb_lt _ _)); [done|]. unfold zero_time, second in *. lia.
Qed.

(** C21: the expiry of an API key is its duration from now, for durations that fit
    into 64 bits of nanoseconds; others wrap around, and the multiples of 2^55
    seconds count as none. *)
Theorem key_duration t ks v tr now newID issuer d ks' k :
  areach secret t ks v tr -> t <= now -> printed_id newID -> genuine secret v issuer ->
  authn_serve secret now newID (HttpIssue issuer APIKey d) ks = (ks', RKey k) ->
  (-9223372036 <= d <= 9223372036 ->
     res_ExpiresAt k = if d =? 0 then None else Some (now + d * second)) /\
  (res_ExpiresAt k = None <-> (2 ^ 55 | d)) /\
  (forall e, res_ExpiresAt k = Some e -> - 2 ^ 63 <= e - now < 2 ^ 63 /\ (2 ^ 64 | e - now - d * second)).
Proof.
  intros Hr Hnow Hid Hg Hserve.
  destruct (api_issued _ _ _ _ _ _ _ _ _ _ (sim_run _ _ _ _ _ Hr) Hnow Hid Hg Hserve) as (user & v' & _ & -> & _).
  unfold expiry. split_and!.
  - intros Hd. rewrite wrap64_small by done.
    destruct (Z.eqb_spec d 0) as [->|Hne]; [done|]. unfold second. by rewrite (proj2 (Z.eqb_neq (d * _) 0)) by lia.
  - rewrite <- wrap64_seconds. by destruct (Z.eqb_spec (wrap64 (d * second)) 0).
  - intros e. destruct (Z.eqb_spec (wrap64 (d * second)) 0); [done|]. intros [= <-].
    pose proof (wrap64_range (d * second)). split; [lia|]. unfold wrap64.
    set (z := d * second). exists (- ((z + 2 ^ 63) / 2 ^ 64)).
    pose proof (Z.div_mod (z + 2 ^ 63) (2 ^ 64) ltac:(done)). lia.
Qed.

(** Anybody gets a login key for any user over HTTP: the header is taken for
    the user without a password or a token, and the key that comes back lets in
    as this user for ten hours, whatever happens to the keys. *)
Theorem login_without_password now newID user d ks :
  0 <= now ->
  exists tok,
    authn_serve secret now newID (HttpIssue user UserKey d) ks =
      (ks, RKey (IssueKeyRes [] tok now (Some (now + loginDuration)))) /\
    forall t ks', now <= t ->
      Identify secret t tok ks' =
        (ks', if Unix (now + loginDuration) <? Unix t then Failed ErrKeyExpired else Done (utf8_text user)).
Proof.
  intros Hnow. set (k := newKey now user UserKey d). exists (kSecret (loginKey secret user k)). split.
  - destruct (Issue_login secret now newID user k ks) as [Hi He]; [done..|].
    unfold authn_serve, issueEndpoint. cbn [validate_issueKeyReq N.eqb UserKey orb negb]. fold k. rewrite Hi.
    cbn [bind_outcome respond]. by rewrite He, IsZero_after.
  - intros t ks' Ht. by apply Identify_login.
Qed.

End Properties.

(** ** Examples *)

Definition sample_secret : text := js "s".
Definition sample_time : Z := 1000 * second.

Definition sample_vault0 : vault := Vault [] ∅.
Definition sample_login : keys * authn_response :=
  authn_serve sample_secret sample_time None (HttpIssue (js "alice") UserKey 0) ∅.
Definition sample_session : text := token_in sample_login.2.
Definition sample_vault1 : vault :=
  (spec_serve sample_time None sample_session (HttpIssue (js "alice") UserKey 0) sample_vault0).1.

(** An API key of [d] seconds for alice. *)
Definition sample_api (d : Z) : keys * authn_response :=
  authn_serve sample_secret sample_time (Some (js "a1")) (HttpIssue sample_session APIKey d) sample_login.1.

Definition sample_history : list served :=
  [Served sample_time None (HttpIssue (js "alice") UserKey 0) sample_login.2].

Lemma sample_areach : areach sample_secret sample_time sample_login.1 sample_vault1 sample_history.
Proof.
  refine (ar_step sample_secret 0 ∅ sample_vault0 [] sample_time None (HttpIssue (js "alice") UserKey 0) _ _ _ _).
  - by apply ar_init.
  - done.
  - done.
  - done.
Qed.

Lemma sample_genuine : genuine sample_secret sample_vault1 sample_session.
Proof. intros _ _. vm_decide. Qed.

Lemma sample_printed : printed_id (Some (js "a1")).
Proof. intros id [= <-]. split; by vm_compute. Qed.

Lemma authn_refines_witness :
  snd (authn_serve sample_secret sample_time None (GrpcIdentify sample_session) sample_login.1) = RUser (js "alice").
Proof.
  destruct (authn_refines sample_secret sample_time sample_login.1 sample_vault1 sample_history sample_time None
    (GrpcIdentify sample_session)) as [-> _]; [exact sample_areach|done|done| |vm_compute; reflexivity].
  intros tok [= <-]. exact sample_genuine.
Defined.

Lemma identify_history_witness : lets_in sample_history (sample_time + 3600 * second) sample_session (js "alice").
Proof.
  apply (identify_history sample_secret sample_time sample_login.1 sample_vault1 sample_history
    (sample_time + 3600 * second) sample_session (js "alice"));
    [exact sample_areach|done|exact sample_genuine|vm_compute; reflexivity].
Defined.

Lemma api_key_lifetime_witness :
  exists k, (sample_api 0).2 = RKey k /\
  (Identify sample_secret sample_time (res_Value k) (sample_api 0).1).2 = Failed ErrKeyExpired.
Proof.
  eexists. split; [vm_compute; reflexivity|].
  destruct (api_key_lifetime sample_secret sample_time sample_login.1 sample_vault1 sample_history sample_time
    (Some (js "a1")) sample_session 0 (sample_api 0).1
    (match (sample_api 0).2 with RKey k => k | _ => IssueKeyRes [] [] 0 None end) sample_time)
    as (user & _ & H); [exact sample_areach|done|exact sample_printed|exact sample_genuine|vm_compute; reflexivity|done|].
  exact (f_equal snd H).
Defined.

Lemma key_duration_witness :
  exists k, (sample_api (2 ^ 55)).2 = RKey k /\ res_ExpiresAt k = None.
Proof.
  eexists. split; [vm_compute; reflexivity|].
  apply (key_duration sample_secret sample_time sample_login.1 sample_vault1 sample_history sample_time
    (Some (js "a1")) sample_session (2 ^ 55) (sample_api (2 ^ 55)).1
    (match (sample_api (2 ^ 55)).2 with RKey k => k | _ => IssueKeyRes [] [] 0 None end));
    [exact sample_areach|done|exact sample_printed|exact sample_genuine|vm_compute; reflexivity|by exists 1].
Defined.

Lemma login_without_password_witness :
  exists tok, (authn_serve sample_secret sample_time None (HttpIssue (js "bob") UserKey 0) ∅).2 =
    RKey (IssueKeyRes [] tok sample_time (Some (sample_time + loginDuration))) /\
  Identify sample_secret sample_time tok ∅ = (∅, Done (js "bob")).
Proof.
  destruct (login_without_password sample_secret sample_time None (js "bob") 0 ∅) as (tok & H1 & H2); [done|].
  exists tok. split; [by rewrite H1|]. by rewrite (H2 sample_time ∅).
Defined.
