(* ===== verification/Users.v ===== *)
(** * The users service

    Accounts and passwords: the wrapped errors of [errors/], the checks of
    [users/users.go], the repository of [users/postgres/], the service of
    [users/service.go] with the authn service behind it, and the endpoints of
    [users/api/] with the status of their errors.  Email addresses are bytes. *)

From S2P Require Import Prelude JsString ThingsCache Things Authn.
From stdpp Require Import gmap.

Local Open Scope Z_scope.

(** ** Errors *)

(** [customError]: a message around the error that caused it. *)
Inductive Error := customError (msg : text) (err : option Error).

Definition New (msg : text) : Error := customError msg None.
Definition Msg (e : Error) : text := match e with customError m _ => m end.

(** [Wrap] of two errors that are not nil. *)
Definition Wrap (wrapper err : Error) : Error := customError (Msg wrapper) (Some err).

(** Errors are found by their message. *)
Fixpoint Contains (ce : Error) (e : text) : bool :=
  match ce with
  | customError m err =>
      str_eqb m e || match err with None => false | Some ce' => Contains ce' e end
  end.

Definition ErrEmailTaken : Error := New (js "email already taken").
Definition ErrMalformed : Error := New (js "malformed entity specification").
Definition ErrUnauthorized : Error := New (js "missing or invalid credentials provided").
Definition ErrNoEntity : Error := New (js "non-existent entity").
Definition ErrUserNotFound : Error := New (js "non-existent user").
Definition ErrMissingResetToken : Error := New (js "error missing reset token").
Definition ErrGeneratingResetToken : Error := New (js "error missing reset token").
Definition errSaveUserDB : Error := New (js "Save user to DB failed").
Definition errUpdatePasswordDB : Error := New (js "Update password to DB failed").
Definition errHashPassword : Error := New (js "Generate hash from password failed").
Definition errComparePassword : Error := New (js "Compare hash and password failed").

(** Errors of the libraries. *)
Definition ErrNoRows : Error := New (js "sql: no rows in result set").
Definition ErrMismatched : Error :=
  New (js "crypto/bcrypt: hashedPassword is not the hash of the given password").
Definition pq_duplicate : Error :=
  New (js "pq: duplicate key value violates unique constraint " ++ [34] ++ js "users_pkey" ++ [34]).
Definition pq_too_long : Error := New (js "pq: value too long").

(** ** Email addresses *)

(** [strings.LastIndex] of a character. *)
Fixpoint LastIndex (c : Z) (s : text) : Z :=
  match s with
  | [] => -1
  | x :: s' =>
      let i := LastIndex c s' in
      if 0 <=? i then i + 1 else if x =? c then 0 else -1
  end.

(** The class of [userRegexp]. *)
Definition user_char (c : Z) : bool :=
  (97 <=? c) && (c <=? 122) || (65 <=? c) && (c <=? 90) || (48 <=? c) && (c <=? 57)
  || existsb (Z.eqb c) (js "!#$%&'*+/=?^_`{|}~.-").

(** [^[a-zA-Z0-9!#$%&'*+/=?^_`{|}~.-]+$] matches. *)
Definition user_regexp (s : text) : bool := negb (bool_decide (s = [])) && forallb user_char s.

(** [(^[.]{1})|([.]{1}$)|([.]{2,})] matches: a dot at either end, or two in a row. *)
Fixpoint two_dots (s : text) : bool :=
  match s with
  | x :: (y :: _) as s' => (x =? DOT) && (y =? DOT) || two_dots s'
  | _ => false
  end.
Definition is_dot (o : option Z) : bool := match o with Some c => c =? DOT | None => false end.
Definition user_dot_regexp (s : text) : bool := is_dot (head s) || is_dot (last s) || two_dots s.

(** [^[^\s]+\.[^\s]+$] matches: no white space, and a dot that is neither the
    first character nor the last. *)
Definition is_space (c : Z) : bool := existsb (Z.eqb c) [9; 10; 12; 13; 32].
Definition host_regexp (s : text) : bool :=
  forallb (fun c => negb (is_space c)) s && existsb (Z.eqb DOT) (removelast (drop 1 s)).

Definition isEmail (email : text) : bool :=
  let n := Z.of_nat (length email) in
  if (n <? 6) || (254 <? n) then false
  else
    let at_ := LastIndex AT_SIGN email in
    if (at_ <=? 0) || (n - 3 <? at_) then false
    else
      let user := take (Z.to_nat at_) email in
      let host := drop (S (Z.to_nat at_)) email in
      if 64 <? Z.of_nat (length user) then false
      else negb (user_dot_regexp user || negb (user_regexp user) || negb (host_regexp host)).

(** ** Accounts *)

(** bcrypt: the salt is drawn at random; generation fails when none can be
    drawn.  [compare hash password]. *)
Class Bcrypt := { generate : text -> text -> outcome Error text; compare : text -> text -> bool }.

(** A password is accepted for its own hashes, and these fit their column. *)
Class BcryptOk (B : Bcrypt) : Prop := {
  compare_generate : forall salt p h, generate salt p = Done h -> compare h p = true;
  hash_length : forall salt p h, generate salt p = Done h -> length h = 60%nat
}.

Section Users.
Context {J : Jwt} {U : Uuid} {P : Columns} {B : Bcrypt}.
Variable secret : text.
Context {M : Type}.

Record User := MkUser { u_email : text; u_password : text; u_metadata : option M }.

Definition Validate (u : User) : outcome Error unit :=
  if bool_decide (u_email u = []) || bool_decide (u_password u = []) then Failed ErrMalformed
  else if negb (isEmail (u_email u)) then Failed ErrMalformed
  else Done tt.

(** A row of [users], and a mail that was sent. *)
Record user_row := UserRow { r_password : text; r_metadata : option M }.
Record mail := Mail { m_to : text; m_host : text; m_token : text }.

(** The tables of both services, and the mails sent so far. *)
Record accounts := Accounts { users : gmap text user_row; auth_keys : keys; outbox : list mail }.

Definition with_users (acc : accounts) (us : gmap text user_row) : accounts :=
  Accounts us (auth_keys acc) (outbox acc).
Definition with_keys (acc : accounts) (ks : keys) : accounts := Accounts (users acc) ks (outbox acc).

Definition Hash (salt p : text) : outcome Error text :=
  match generate salt p with
  | Done h => Done h
  | Failed e => Failed (Wrap errHashPassword e)
  end.

Definition Compare (plain hashed : text) : outcome Error unit :=
  if compare hashed plain then Done tt else Failed (Wrap errComparePassword ErrMismatched).

(** ** The repository *)

Definition SaveUser (u : User) (acc : accounts) : accounts * outcome Error unit :=
  if negb (varchar254 (u_email u)) || (60 <? Z.of_nat (length (u_password u)))
  then (acc, Failed (Wrap errSaveUserDB pq_too_long))
  else if bool_decide (is_Some (users acc !! u_email u)) then (acc, Failed (Wrap errSaveUserDB pq_duplicate))
  else (with_users acc (<[u_email u := UserRow (u_password u) (u_metadata u)]> (users acc)), Done tt).

Definition RetrieveByID (email : text) (acc : accounts) : outcome Error User :=
  match users acc !! email with
  | None => Failed (Wrap ErrNoEntity ErrNoRows)
  | Some r => Done (MkUser email (r_password r) (r_metadata r))
  end.

Definition repo_UpdateUser (email : text) (m : option M) (acc : accounts) : accounts * outcome Error unit :=
  (with_users acc (alter (fun r => UserRow (r_password r) m) email (users acc)), Done tt).

Definition UpdatePassword (email password : text) (acc : accounts) : accounts * outcome Error unit :=
  if 60 <? Z.of_nat (length password) then (acc, Failed (Wrap errUpdatePasswordDB pq_too_long))
  else (with_users acc (alter (fun r => UserRow password (r_metadata r)) email (users acc)), Done tt).

(** ** The service *)

(** What a request finds: the time, the next identifier of the authn service, the
    salt, and what the mail server says. *)
Record chance := Chance { clock : Z; uuid : option text; salt : text; smtp : option Error }.

Definition identify (c : chance) (token : text) (acc : accounts) : accounts * outcome Error text :=
  let '(ks, r) := grpc_identifyEndpoint secret (clock c) token (auth_keys acc) in
  (with_keys acc ks,
   match r with Done id => Done id | Failed e => Failed (Wrap ErrUnauthorized (New (grpc_error e))) end).

Definition issue (c : chance) (email : text) (ty : N) (acc : accounts) : accounts * outcome Error text :=
  let '(ks, r) := grpc_issueEndpoint secret (clock c) (uuid c) email ty (auth_keys acc) in
  (with_keys acc ks,
   match r with Done t => Done t | Failed e => Failed (Wrap ErrUserNotFound (New (grpc_error e))) end).

Definition Register (c : chance) (u : User) (acc : accounts) : accounts * outcome Error unit :=
  match Hash (salt c) (u_password u) with
  | Failed e => (acc, Failed (Wrap ErrMalformed e))
  | Done h => SaveUser (MkUser (u_email u) h (u_metadata u)) acc
  end.

Definition Login (c : chance) (u : User) (acc : accounts) : accounts * outcome Error text :=
  match RetrieveByID (u_email u) acc with
  | Failed e => (acc, Failed (Wrap ErrUnauthorized e))
  | Done dbUser =>
      match Compare (u_password u) (u_password dbUser) with
      | Failed e => (acc, Failed (Wrap ErrUnauthorized e))
      | Done _ => issue c (u_email dbUser) UserKey acc
      end
  end.

Definition UserInfo (c : chance) (token : text) (acc : accounts) : accounts * outcome Error User :=
  let '(acc, r) := identify c token acc in
  (acc, bind_outcome r (fun id =>
     match RetrieveByID id acc with
     | Failed e => Failed (Wrap ErrUnauthorized e)
     | Done dbUser => Done (MkUser id [] (u_metadata dbUser))
     end)).

Definition UpdateUser (c : chance) (token : text) (m : option M) (acc : accounts) :
    accounts * outcome Error unit :=
  let '(acc, r) := identify c token acc in
  match r with
  | Failed e => (acc, Failed (Wrap ErrUnauthorized e))
  | Done email => repo_UpdateUser email m acc
  end.

Definition SendPasswordReset (c : chance) (host email token : text) (acc : accounts) :
    accounts * outcome Error unit :=
  match smtp c with
  | Some e => (acc, Failed e)
  | None => (Accounts (users acc) (auth_keys acc) (Mail email host token :: outbox acc), Done tt)
  end.

Definition GenerateResetToken (c : chance) (email host : text) (acc : accounts) :
    accounts * outcome Error unit :=
  match RetrieveByID email acc with
  | Failed _ => (acc, Failed ErrUserNotFound)
  | Done user =>
      if bool_decide (u_email user = []) then (acc, Failed ErrUserNotFound)
      else
        let '(acc, r) := issue c email RecoveryKey acc in
        match r with
        | Failed e => (acc, Failed (Wrap ErrGeneratingResetToken e))
        | Done t => SendPasswordReset c host email t acc
        end
  end.

(** The end of [ResetPassword] and [ChangePassword]. *)
Definition set_password (c : chance) (email password : text) (acc : accounts) : accounts * outcome Error unit :=
  match RetrieveByID email acc with
  | Failed _ => (acc, Failed ErrUserNotFound)
  | Done u =>
      if bool_decide (u_email u = []) then (acc, Failed ErrUserNotFound)
      else
        match Hash (salt c) password with
        | Failed e => (acc, Failed e)
        | Done h => UpdatePassword email h acc
        end
  end.

Definition ResetPassword (c : chance) (resetToken password : text) (acc : accounts) :
    accounts * outcome Error unit :=
  let '(acc, r) := identify c resetToken acc in
  match r with
  | Failed e => (acc, Failed (Wrap ErrUnauthorized e))
  | Done email => set_password c email password acc
  end.

Definition ChangePassword (c : chance) (authToken password oldPassword : text) (acc : accounts) :
    accounts * outcome Error unit :=
  let '(acc, r) := identify c authToken acc in
  match r with
  | Failed e => (acc, Failed (Wrap ErrUnauthorized e))
  | Done email =>
      let '(acc, r) := Login c (MkUser email oldPassword None) acc in
      match r with
      | Failed _ => (acc, Failed ErrUnauthorized)
      | Done _ => set_password c email password acc
      end
  end.

(** ** The endpoints *)

Inductive users_request :=
| PostUsers (u : User)
| GetUsers (token : text)
| PutUsers (token : text) (m : option M)
| PostResetRequest (email host : text)
| PutReset (token password confirm : text)
| PatchPassword (token password oldPassword : text)
| PostTokens (u : User).

Inductive users_response :=
| Created
| Token (t : text)
| Identity (email : text) (m : option M)
| Updated
| Message (msg : text)
| Refused (e : Error).

Definition reply {A} (f : A -> users_response) (r : outcome Error A) : users_response :=
  match r with Done a => f a | Failed e => Refused e end.

Definition MailSent : text := js "Email with reset link is sent".

(** The [validate] methods of the requests. *)
Definition validate (r : users_request) : outcome Error unit :=
  match r with
  | PostUsers u | PostTokens u => Validate u
  | GetUsers token | PutUsers token _ =>
      if bool_decide (token = []) then Failed ErrUnauthorized else Done tt
  | PostResetRequest email host =>
      if bool_decide (email = []) || bool_decide (host = []) then Failed ErrMalformed else Done tt
  | PutReset token password confirm =>
      if bool_decide (password = []) || bool_decide (confirm = []) then Failed ErrMalformed
      else if bool_decide (token = []) then Failed ErrMissingResetToken
      else if bool_decide (password <> confirm) then Failed ErrMalformed
      else Done tt
  | PatchPassword token password oldPassword =>
      if bool_decide (token = []) then Failed ErrUnauthorized
      else if bool_decide (password = []) then Failed ErrMalformed
      else if bool_decide (oldPassword = []) then Failed ErrUnauthorized
      else Done tt
  end.

Definition registrationEndpoint (c : chance) (u : User) acc :=
  let '(acc, r) := Register c u acc in (acc, reply (fun _ => Created) r).
Definition userInfoEndpoint (c : chance) (token : text) acc :=
  let '(acc, r) := UserInfo c token acc in (acc, reply (fun u => Identity (u_email u) (u_metadata u)) r).
Definition updateUserEndpoint (c : chance) (token : text) m acc :=
  let '(acc, r) := UpdateUser c token m acc in (acc, reply (fun _ => Updated) r).
Definition passwordResetRequestEndpoint (c : chance) (email host : text) acc :=
  let '(acc, r) := GenerateResetToken c email host acc in (acc, reply (fun _ => Message MailSent) r).
Definition passwordResetEndpoint (c : chance) (token password : text) acc :=
  let '(acc, r) := ResetPassword c token password acc in (acc, reply (fun _ => Message []) r).
Definition passwordChangeEndpoint (c : chance) (token password oldPassword : text) acc :=
  let '(acc, r) := ChangePassword c token password oldPassword acc in (acc, reply (fun _ => Message []) r).
Definition loginEndpoint (c : chance) (u : User) acc :=
  let '(acc, r) := Login c u acc in (acc, reply Token r).

Definition users_serve (c : chance) (r : users_request) (acc : accounts) : accounts * users_response :=
  match validate r with
  | Failed e => (acc, Refused e)
  | Done _ =>
      match r with
      | PostUsers u => registrationEndpoint c u acc
      | GetUsers token => userInfoEndpoint c token acc
      | PutUsers token m => updateUserEndpoint c token m acc
      | PostResetRequest email host => passwordResetRequestEndpoint c email host acc
      | PutReset token password _ => passwordResetEndpoint c token password acc
      | PatchPassword token password old => passwordChangeEndpoint c token password old acc
      | PostTokens u => loginEndpoint c u acc
      end
  end.

End Users.

Arguments User M : clear implicits.
Arguments accounts M : clear implicits.
Arguments user_row M : clear implicits.
Arguments users_request M : clear implicits.
Arguments users_response M : clear implicits.

(** ** The status of an error *)

(** [encodeError]: the first sentinel that the error contains; without one, no
    status is written. *)
Definition sentinels : list (text * Z) := [
  (js "malformed entity specification", 400);
  (js "missing or invalid credentials provided", 403);
  (js "email already taken", 409);
  (js "unsupported content type", 415);
  (js "failed to decode request body", 400);
  (js "unexpected EOF", 400);
  (js "EOF", 400);
  (js "non-existent user", 400)].

Definition users_encodeError (e : Error) : option Z :=
  snd <$> List.find (fun x => Contains e (fst x)) sentinels.

(** The status that the client sees; [net/http] sends 200 when none was written. *)
Definition status_of {M} (r : users_response M) : Z :=
  match r with
  | Created | Token _ | Message _ => 201
  | Identity _ _ | Updated => 200
  | Refused e => default 200 (users_encodeError e)
  end.
