(* ===== verification/UsersSafety.v ===== *)
(** * The accounts, request by request

    Which part of the state each operation of the users service changes, the shape
    of the addresses in the table, and the requests that reach the authn service. *)

From S2P Require Import Prelude JsString ThingsCache Things Authn AuthnSystem AuthnHistory Users.
From stdpp Require Import gmap.

Local Open Scope Z_scope.

(** ** Email addresses *)

Lemma LastIndex_absent c (s : text) : c ∉ s -> LastIndex c s = -1.
Proof.
  induction s as [|x s IH]; [done|]. rewrite not_elem_of_cons. intros [Hx Hs]. cbn [LastIndex].
  rewrite (IH Hs). change (0 <=? -1) with false. cbn [LastIndex].
  by rewrite (proj2 (Z.eqb_neq x c)) by congruence.
Qed.

Lemma LastIndex_last c (a b : text) : c ∉ b -> LastIndex c (a ++ c :: b) = Z.of_nat (length a).
Proof.
  intros Hb. induction a as [|x a IH]; cbn [app LastIndex].
  - rewrite (LastIndex_absent _ _ Hb). change (0 <=? -1) with false. by rewrite Z.eqb_refl.
  - rewrite IH. rewrite (proj2 (Z.leb_le _ _)) by lia. cbn [length]. lia.
Qed.

Lemma LastIndex_split c (s : text) :
  c ∈ s -> exists a b, s = a ++ c :: b /\ c ∉ b.
Proof.
  induction s as [|x s IH]; [by intros ?%elem_of_nil|]. intros Hin.
  destruct (decide (c ∈ s)) as [Hs|Hs].
  - destruct (IH Hs) as (a & b & -> & Hb). by exists (x :: a), b.
  - apply elem_of_cons in Hin as [->|]; [|done]. by exists [], s.
Qed.

(** Two dots in a row. *)
Lemma two_dots_spec s : two_dots s = true <-> exists a b, s = a ++ DOT :: DOT :: b.
Proof.
  induction s as [|x s IH]; [split; [done|intros ([|] & b & H); discriminate]|].
  destruct s as [|y s].
  - split; [done|]. intros ([|? [|]] & b & H); discriminate.
  - change (two_dots (x :: y :: s)) with ((x =? DOT) && (y =? DOT) || two_dots (y :: s)).
    rewrite orb_true_iff, andb_true_iff, !Z.eqb_eq, IH. split.
    + intros [[-> ->]|(a & b & ->)]; [by exists [], s|by exists (x :: a), b].
    + intros ([|z a] & b & H); [left; by injection H as -> -> ->|].
      right. injection H as <- H. by exists a, b.
Qed.

Lemma is_dot_head s : is_dot (head s) = true <-> exists b, s = DOT :: b.
Proof.
  destruct s as [|x s]; simpl; [split; [done|intros [b H]; discriminate]|].
  rewrite Z.eqb_eq. split; [intros ->; by exists s|intros [b H]; by injection H].
Qed.

Lemma is_dot_last s : is_dot (last s) = true <-> exists a, s = a ++ [DOT].
Proof.
  destruct s as [|x s _] using rev_ind; [split; [done|intros [[|] H]; discriminate]|].
  rewrite last_snoc. simpl. rewrite Z.eqb_eq. split; [intros ->; by exists s|].
  intros [a [_ H]%app_inj_tail]. done.
Qed.

(** A dot between two other characters at least. *)
Lemma inner_dot s :
  existsb (Z.eqb DOT) (removelast (drop 1 s)) = true <->
  exists a b, s = a ++ DOT :: b /\ a <> [] /\ b <> [].
Proof.
  rewrite existsb_exists. setoid_rewrite Z.eqb_eq. split.
  - intros (x & Hin & <-). destruct s as [|y s]; [done|]. cbn [drop] in Hin.
    change (drop 0 s) with s in Hin.
    destruct s as [|z s _] using rev_ind; [done|]. rewrite removelast_last in Hin.
    apply list_elem_of_In, list_elem_of_split in Hin as (a & b & ->).
    exists (y :: a), (b ++ [z]). split_and!; [by rewrite <- app_assoc|done|]. by destruct b.
  - intros (a & b & -> & Ha & Hb). exists DOT. split; [|done]. apply list_elem_of_In.
    destruct a as [|y a]; [done|]. cbn [app drop]. change (drop 0 ?l) with l.
    destruct b as [|z b _] using rev_ind; [done|]. rewrite app_comm_cons, app_assoc, removelast_last.
    apply elem_of_app. right. by left.
Qed.

Section Safety.
Context {J : Jwt} {JO : JwtOk J} {U : Uuid} {P : Columns} {B : Bcrypt} {BO : BcryptOk B}.
Variable secret : text.
Context {M : Type}.
Implicit Types (acc : accounts M) (c : chance) (r : users_request M).

Lemma with_keys_same acc : with_keys acc (auth_keys acc) = acc.
Proof. by destruct acc. Qed.

(** ** What stays *)

Lemma identify_eq c tok acc :
  tok <> [] ->
  identify secret c tok acc =
    (with_keys acc (Identify secret (clock c) tok (auth_keys acc)).1,
     match (Identify secret (clock c) tok (auth_keys acc)).2 with
     | Done id => Done id
     | Failed e => Failed (Wrap ErrUnauthorized (New (grpc_error e)))
     end).
Proof.
  intros Htok. unfold identify, grpc_identifyEndpoint. rewrite bool_decide_eq_false_2 by done.
  by destruct (Identify _ _ _ _).
Qed.

Lemma issue_users c email ty acc :
  users (issue secret c email ty acc).1 = users acc /\ outbox (issue secret c email ty acc).1 = outbox acc.
Proof. unfold issue. by destruct (grpc_issueEndpoint _ _ _ _ _ _). Qed.

Lemma Login_users c u acc :
  users (Login secret c u acc).1 = users acc /\ outbox (Login secret c u acc).1 = outbox acc.
Proof.
  unfold Login. destruct (RetrieveByID _ _); [|done]. destruct (Compare _ _); [|done]. apply issue_users.
Qed.

(** Only the row of the user gets another password. *)
Lemma set_password_changes c email p acc e :
  let acc' := (set_password c email p acc).1 in
  users acc' !! e <> users acc !! e ->
  e = email /\ exists row h, users acc !! e = Some row /\ generate (salt c) p = Done h /\
    users acc' !! e = Some (UserRow h (r_metadata row)).
Proof.
  unfold set_password, RetrieveByID, Hash, UpdatePassword. destruct (users acc !! email) as [row|] eqn:Hrow; [|done].
  destruct (bool_decide _); [done|]. destruct (generate (salt c) p) as [h|x] eqn:Hh; [|done].
  destruct (60 <? _); [done|]. cbn [fst users with_users]. intros Hne.
  destruct (decide (e = email)) as [->|Hd]; [|by rewrite lookup_alter_ne in Hne].
  split; [done|]. exists row, h. rewrite lookup_alter_eq, Hrow. done.
Qed.

Lemma set_password_outbox c email p acc : outbox (set_password c email p acc).1 = outbox acc.
Proof.
  unfold set_password, UpdatePassword. destruct (RetrieveByID _ _); [|done]. destruct (bool_decide _); [done|].
  destruct (Hash _ _); [|done]. by destruct (60 <? _).
Qed.

Lemma SaveUser_changes u acc e :
  let acc' := (SaveUser u acc).1 in
  users acc' !! e <> users acc !! e ->
  e = u_email u /\ users acc !! e = None /\ users acc' !! e = Some (UserRow (u_password u) (u_metadata u)).
Proof.
  unfold SaveUser. destruct (_ || _); [done|].
  destruct (bool_decide (is_Some (users acc !! u_email u))) eqn:Hb; [done|].
  apply bool_decide_eq_false, eq_None_not_Some in Hb. cbn [fst users with_users]. intros Hne.
  destruct (decide (e = u_email u)) as [->|Hd]; [|by rewrite lookup_insert_ne in Hne].
  by rewrite lookup_insert_eq.
Qed.

(** What a request may do to the row of [e]; [tok_user] says whom a token lets
    in. *)
Definition row_change (tok_user : text -> text -> Prop) (r : users_request M) (acc acc' : accounts M) (e : text) : Prop :=
  match r with
  | PostUsers u =>
      u_email u = e /\ isEmail e = true /\ users acc !! e = None /\
      exists h, users acc' !! e = Some (UserRow h (u_metadata u)) /\ compare h (u_password u) = true
  | PutUsers token m =>
      tok_user token e /\
      exists row, users acc !! e = Some row /\ users acc' !! e = Some (UserRow (r_password row) m)
  | PutReset token p _ =>
      tok_user token e /\
      exists row h, users acc !! e = Some row /\ users acc' !! e = Some (UserRow h (r_metadata row)) /\
        compare h p = true
  | PatchPassword token p old =>
      tok_user token e /\
      exists row h, users acc !! e = Some row /\ compare (r_password row) old = true /\
        users acc' !! e = Some (UserRow h (r_metadata row)) /\ compare h p = true
  | _ => False
  end.

Lemma Validate_email (u : User M) a : Validate u = Done a -> isEmail (u_email u) = true.
Proof. unfold Validate. destruct (_ || _); [done|]. by destruct (isEmail _). Qed.

Lemma nonempty_token {A E} (tok : text) (x : E) (y : outcome E A) a :
  (if bool_decide (tok = []) then Failed x else y) = Done a -> tok <> [] /\ y = Done a.
Proof. case_bool_decide; [done|]. by intros. Qed.

Lemma PutReset_token token p q a : validate (PutReset (M := M) token p q) = Done a -> token <> [].
Proof. cbn [validate]. destruct (_ || _); [done|]. by intros [? _]%nonempty_token. Qed.

Lemma PatchPassword_token token p q a : validate (PatchPassword (M := M) token p q) = Done a -> token <> [].
Proof. by intros [? _]%nonempty_token. Qed.

Lemma rows_changed c r acc e :
  let acc' := (users_serve secret c r acc).1 in
  users acc' !! e <> users acc !! e ->
  row_change (fun tok user => (Identify secret (clock c) tok (auth_keys acc)).2 = Done user) r acc acc' e.
Proof.
  unfold users_serve. destruct (validate r) as [a|x] eqn:Hv; [|done].
  destruct r as [u|tok|tok m|email host|tok p q|tok p old|u].
  - unfold registrationEndpoint, Register, Hash.
    destruct (generate (salt c) (u_password u)) as [h|x] eqn:Hh; [|done].
    pose proof (SaveUser_changes (MkUser (u_email u) h (u_metadata u)) acc e) as Hs. cbv zeta in Hs.
    destruct (SaveUser _ _) as [acc' o]. cbn [fst snd u_email u_password u_metadata] in *. intros Hne.
    destruct (Hs Hne) as (-> & H1 & H2). split; [done|]. split; [by eapply Validate_email|]. split; [done|].
    exists h. split; [done|]. exact (compare_generate _ _ _ Hh).
  - apply nonempty_token in Hv as [Hv _].
    unfold userInfoEndpoint, UserInfo. rewrite identify_eq by done. done.
  - apply nonempty_token in Hv as [Hv _].
    unfold updateUserEndpoint, UpdateUser. rewrite identify_eq by done.
    destruct (Identify _ _ _ _) as [ks' [id|x]] eqn:Ei; [|done]. cbn. intros Hne.
    destruct (decide (e = id)) as [->|Hd]; [|by rewrite lookup_alter_ne in Hne]. split; [by rewrite Ei|].
    rewrite lookup_alter_eq in *. destruct (users acc !! id) as [row|]; [|done]. by exists row.
  - unfold passwordResetRequestEndpoint, GenerateResetToken. destruct (RetrieveByID email acc); [|done].
    destruct (bool_decide _); [done|]. destruct (issue_users c email RecoveryKey acc) as [Hi _].
    destruct (issue _ _ _ _ _) as [acc' [t|x]]; cbn [fst] in *; [|by rewrite Hi].
    unfold SendPasswordReset. destruct (smtp c); cbn [fst users]; by rewrite Hi.
  - apply PutReset_token in Hv. unfold passwordResetEndpoint, ResetPassword. rewrite identify_eq by done.
    destruct (Identify _ _ _ _) as [ks' [id|x]] eqn:Ei; [|done]. cbn [fst snd].
    pose proof (set_password_changes c id p (with_keys acc ks') e) as Hs. cbv zeta in Hs.
    destruct (set_password _ _ _ _) as [acc' o]. cbn [fst snd users with_keys] in *. intros Hne.
    destruct (Hs Hne) as (-> & row & h & H1 & H2 & H3). split; [by rewrite Ei|]. exists row, h.
    split_and!; [done..|exact (compare_generate _ _ _ H2)].
  - apply PatchPassword_token in Hv. unfold passwordChangeEndpoint, ChangePassword. rewrite identify_eq by done.
    destruct (Identify _ _ _ _) as [ks' [id|x]] eqn:Ei; [|done]. cbn [fst snd].
    destruct (Login_users c (MkUser id old None) (with_keys acc ks')) as [Hl _].
    destruct (Login _ _ _ _) as [acc1 [t|x]] eqn:El; cbn [fst users with_keys] in *; [|by rewrite Hl].
    pose proof (set_password_changes c id p acc1 e) as Hs. cbv zeta in Hs.
    destruct (set_password _ _ _ _) as [acc' o]. cbn [fst snd] in *. rewrite Hl in Hs. intros Hne.
    destruct (Hs Hne) as (-> & row & h & H1 & H2 & H3). split; [by rewrite Ei|]. exists row, h.
    unfold Login, RetrieveByID in El. cbn [u_email users with_keys] in El. rewrite H1 in El.
    unfold Compare in El. cbn [u_password] in El. destruct (compare (r_password row) old) eqn:Ec; [|done].
    split_and!; [done..|exact (compare_generate _ _ _ H2)].
  - unfold loginEndpoint. destruct (Login_users c u acc) as [Hl _]. destruct (Login _ _ _ _) as [acc' o].
    cbn [fst] in *. by rewrite Hl.
Qed.

(** ** Reachable accounts *)

(** Requests to the users service, and requests to the authn service from
    anywhere. *)
Inductive ureach : accounts M -> Prop :=
| ur_init : ureach (Accounts ∅ ∅ [])
| ur_users c r acc : ureach acc -> ureach (users_serve secret c r acc).1
| ur_authn now newID q acc :
    ureach acc -> ureach (with_keys acc (authn_serve secret now newID q (auth_keys acc)).1).

Definition emails_ok (acc : accounts M) : Prop := forall e, is_Some (users acc !! e) -> isEmail e = true.

Lemma ureach_emails acc : ureach acc -> emails_ok acc.
Proof.
  induction 1 as [|c r acc _ IH|now newID q acc _ IH]; [| |done].
  - intros e [row He]. cbn [users] in He. by rewrite lookup_empty in He.
  - intros e He. destruct (users acc !! e) as [row|] eqn:E; [apply IH; eauto|].
    assert (Hc : users (users_serve secret c r acc).1 !! e <> users acc !! e).
    { rewrite E. destruct He as [row ->]. done. }
    apply rows_changed in Hc. destruct r; cbn [row_change] in Hc; try done; [by destruct Hc as (_ & ? & _)|..];
      rewrite E in Hc; naive_solver.
Qed.

(** An address is not a token. *)
Lemma isEmail_at e : isEmail e = true -> AT_SIGN ∈ e.
Proof.
  unfold isEmail. intros H. destruct (decide (AT_SIGN ∈ e)) as [|Hn]; [done|].
  rewrite (LastIndex_absent _ _ Hn) in H. by destruct (_ || _).
Qed.

Lemma email_unverified e : isEmail e = true -> unsign e = None \/ verifies secret e = false.
Proof.
  intros He%isEmail_at. destruct (unsign e) eqn:Eu; [|by left]. right.
  destruct (verifies secret e) eqn:Ev; [|done]. exfalso.
  eapply token_alphabet; [|exact Ev|exact He]. by rewrite Eu.
Qed.

Lemma email_no_login now e : isEmail e = true -> login secret now e = Failed ErrUnauthorizedAccess.
Proof.
  intros [Hu|Hv]%email_unverified; unfold login.
  - unfold Parse. by rewrite Hu.
  - by rewrite Parse_unverified.
Qed.

(** A recovery key is not issued for an address. *)
Lemma issue_recovery c email acc :
  isEmail email = true ->
  exists x, issue secret c email RecoveryKey acc = (acc, Failed (Wrap ErrUserNotFound (New (grpc_error x)))) /\
    (x = ErrUnauthorizedAccess \/ x = ErrInvalidKeyIssuedAt).
Proof.
  intros He. unfold issue, grpc_issueEndpoint.
  rewrite bool_decide_eq_false_2; [|by intros ->]. cbn [negb known_type N.eqb RecoveryKey UserKey APIKey orb].
  unfold Issue. cbn [kIssuedAt kType]. destruct (IsZero (clock c)).
  - exists ErrInvalidKeyIssuedAt. cbn. rewrite with_keys_same. auto.
  - exists ErrUnauthorizedAccess. cbn. unfold resetKey. rewrite email_no_login by done. cbn.
    rewrite with_keys_same. auto.
Qed.

(** The request for a reset mail, as it ends. *)
Lemma reset_request_refused c email host acc :
  emails_ok acc ->
  exists e, users_serve secret c (PostResetRequest email host) acc = (acc, Refused e) /\
    users_encodeError e = Some 400.
Proof.
  intros Hok. unfold users_serve. cbn [validate]. destruct (_ || _); [by eexists|].
  unfold passwordResetRequestEndpoint, GenerateResetToken, RetrieveByID.
  destruct (users acc !! email) as [row|] eqn:Hrow; [|by eexists]. cbn [u_email].
  destruct (bool_decide (email = [])); [by eexists|].
  destruct (issue_recovery c email acc) as (x & -> & Hx); [apply Hok; eauto|].
  eexists. split; [done|]. destruct Hx as [-> | ->]; vm_compute; reflexivity.
Qed.

Lemma users_serve_outbox c r acc : emails_ok acc -> outbox (users_serve secret c r acc).1 = outbox acc.
Proof.
  intros Hok. destruct r as [u|tok|tok m|email host|tok p q|tok p old|u];
    [| | |destruct (reset_request_refused c email host acc Hok) as (e & -> & _); done|..];
    unfold users_serve; destruct (validate _); try done.
  - unfold registrationEndpoint, Register. destruct (Hash _ _); [|done]. unfold SaveUser.
    destruct (_ || _); [done|]. by destruct (bool_decide _).
  - unfold userInfoEndpoint, UserInfo, identify. by destruct (grpc_identifyEndpoint _ _ _ _).
  - unfold updateUserEndpoint, UpdateUser, identify. by destruct (grpc_identifyEndpoint _ _ _ _) as [ks [id|x]].
  - unfold passwordResetEndpoint, ResetPassword, identify.
    destruct (grpc_identifyEndpoint _ _ _ _) as [ks [id|x]]; [|done].
    pose proof (set_password_outbox c id p (with_keys acc ks)) as H. by destruct (set_password _ _ _ _).
  - unfold passwordChangeEndpoint, ChangePassword, identify.
    destruct (grpc_identifyEndpoint _ _ _ _) as [ks [id|x]]; [|done].
    destruct (Login_users c (MkUser id old None) (with_keys acc ks)) as [_ Hl].
    destruct (Login _ _ _ _) as [acc1 [t|x]]; [|done].
    pose proof (set_password_outbox c id p acc1) as H. destruct (set_password _ _ _ _).
    cbn [fst snd outbox with_keys] in *. congruence.
  - unfold loginEndpoint. destruct (Login_users c u acc) as [_ Hl]. by destruct (Login _ _ _ _).
Qed.

(** ** The requests that reach the authn service *)

(** The token that a request of the users service presents. *)
Definition user_token (r : users_request M) : option text :=
  match r with
  | GetUsers tok | PutUsers tok _ | PutReset tok _ _ | PatchPassword tok _ _ => Some tok
  | _ => None
  end.

(** A run of the authn service with the history [tr] can go on to [ks] by [now]. *)
Definition extends (now : Z) (tr : list served) (ks : keys) : Prop :=
  exists t v calls, t <= now /\ areach secret t ks v (calls ++ tr).

Lemma extends_refl t ks v tr now : areach secret t ks v tr -> t <= now -> extends now tr ks.
Proof. intros Hr Hnow. by exists t, v, []. Qed.

Lemma first_call t ks v tr now newID q :
  areach secret t ks v tr -> t <= now -> printed_id newID -> genuine_request secret v q ->
  extends now tr (authn_serve secret now newID q ks).1.
Proof.
  intros Hr Hnow Hid Hg. pose proof (ar_step secret t ks v tr now newID q Hr Hnow Hid Hg) as Hr'. cbv zeta in Hr'.
  eexists now, _, [_]. split; [done|exact Hr'].
Qed.

Lemma next_call now tr ks newID q :
  extends now tr ks -> printed_id newID -> (forall v, genuine_request secret v q) ->
  extends now tr (authn_serve secret now newID q ks).1.
Proof.
  intros (t & v & calls & Hnow & Hr) Hid Hg.
  pose proof (ar_step secret t ks v (calls ++ tr) now newID q Hr Hnow Hid (Hg v)) as Hr'. cbv zeta in Hr'.
  eexists now, _, (_ :: calls). split; [done|exact Hr'].
Qed.

Lemma identify_call c tok acc :
  auth_keys (identify secret c tok acc).1 =
    (authn_serve secret (clock c) (uuid c) (GrpcIdentify tok) (auth_keys acc)).1.
Proof. unfold identify, authn_serve. by destruct (grpc_identifyEndpoint _ _ _ _). Qed.

Lemma issue_call c email ty acc :
  auth_keys (issue secret c email ty acc).1 =
    (authn_serve secret (clock c) (uuid c) (GrpcIssue email ty) (auth_keys acc)).1.
Proof. unfold issue, authn_serve. by destruct (grpc_issueEndpoint _ _ _ _ _ _). Qed.

Lemma Login_extends c u acc tr :
  extends (clock c) tr (auth_keys acc) -> printed_id (uuid c) ->
  extends (clock c) tr (auth_keys (Login secret c u acc).1).
Proof.
  intros He Hid. unfold Login. destruct (RetrieveByID _ _); [|done]. destruct (Compare _ _); [|done].
  rewrite issue_call. by apply next_call.
Qed.

Lemma set_password_keys c email p acc : auth_keys (set_password c email p acc).1 = auth_keys acc.
Proof.
  unfold set_password, UpdatePassword. destruct (RetrieveByID _ _); [|done]. destruct (bool_decide _); [done|].
  destruct (Hash _ _); [|done]. by destruct (60 <? _).
Qed.

(** An address passes for a token nowhere. *)
Lemma email_genuine e ty v : isEmail e = true -> genuine_request secret v (GrpcIssue e ty).
Proof.
  intros [Hu|Hv]%email_unverified tok; cbn [presented]; destruct (ty =? UserKey)%N; intros [= <-] Hs Hv'.
  - rewrite Hu in Hs. by destruct Hs.
  - congruence.
Qed.

Lemma users_serve_extends t v tr c r acc :
  emails_ok acc -> areach secret t (auth_keys acc) v tr -> t <= clock c -> printed_id (uuid c) ->
  (forall tok, user_token r = Some tok -> genuine secret v tok) ->
  extends (clock c) tr (auth_keys (users_serve secret c r acc).1).
Proof.
  intros Hok Hr Hnow Hid Hg. pose proof (extends_refl _ _ _ _ _ Hr Hnow) as He.
  assert (Hident : forall tok, user_token r = Some tok ->
    extends (clock c) tr (auth_keys (identify secret c tok acc).1)).
  { intros tok Htok. rewrite identify_call. eapply first_call; [done..|]. intros tok' [= <-]. by apply Hg. }
  unfold users_serve. destruct (validate r); [|done].
  destruct r as [u|tok|tok m|email host|tok p q|tok p old|u];
    try specialize (Hident tok eq_refl).
  - unfold registrationEndpoint, Register. destruct (Hash _ _); [|done]. unfold SaveUser.
    destruct (_ || _); [done|]. by destruct (bool_decide _).
  - unfold userInfoEndpoint, UserInfo. by destruct (identify _ _ _ _).
  - unfold updateUserEndpoint, UpdateUser. by destruct (identify _ _ _ _) as [acc' [id|x]].
  - unfold passwordResetRequestEndpoint, GenerateResetToken, RetrieveByID.
    destruct (users acc !! email) as [row|] eqn:Hrow; [|done]. destruct (bool_decide _); [done|].
    assert (Hemail : isEmail email = true) by (apply Hok; eauto).
    pose proof (next_call _ _ _ _ (GrpcIssue email RecoveryKey) He Hid (fun w => email_genuine email _ w Hemail)) as Hi.
    rewrite <- issue_call in Hi. destruct (issue _ _ _ _ _) as [acc' [tk|x]]; [|done].
    unfold SendPasswordReset. by destruct (smtp c).
  - unfold passwordResetEndpoint, ResetPassword. destruct (identify _ _ _ _) as [acc' [id|x]]; [|done].
    pose proof (set_password_keys c id p acc') as H. destruct (set_password _ _ _ _). cbn [fst] in *. by rewrite H.
  - unfold passwordChangeEndpoint, ChangePassword. destruct (identify _ _ _ _) as [acc' [id|x]]; [|done].
    pose proof (Login_extends c (MkUser id old None) acc' tr Hident Hid) as Hl.
    destruct (Login _ _ _ _) as [acc1 [tk|x]]; [|done].
    pose proof (set_password_keys c id p acc1) as H. destruct (set_password _ _ _ _). cbn [fst] in *. by rewrite H.
  - unfold loginEndpoint. pose proof (Login_extends c u acc tr He Hid) as Hl. by destruct (Login _ _ _ _).
Qed.

End Safety.
