(* ===== verification/UsersProperties.v ===== *)
(** * What the users service guarantees, and what it does not

    Who can change an account, sessions from registration to expiry, the addresses
    that are accepted; and the three ways in which passwords go wrong: no recovery
    mail is ever sent, a taken address is reported as a success, and an account can
    be taken over with nothing but its address. *)

From S2P Require Import Prelude JsString ThingsCache Things ThingsProperties Authn AuthnSystem AuthnHistory AuthnProperties TokenCodec Users UsersSafety.
From stdpp Require Import gmap.

Local Open Scope Z_scope.

(** ** Addresses *)

(** What [isEmail] asks of the part before the last [@]. *)
Record local_part (user : text) : Prop := {
  lp_length : 1 <= Z.of_nat (length user) <= 64;
  lp_chars : Forall (fun c => user_char c = true) user;
  lp_first : forall b, user <> DOT :: b;
  lp_last : forall a, user <> a ++ [DOT];
  lp_dots : forall a b, user <> a ++ DOT :: DOT :: b
}.

(** And of the part after it. *)
Record host_part (host : text) : Prop := {
  hp_at : AT_SIGN ∉ host;
  hp_spaces : Forall (fun c => is_space c = false) host;
  hp_dot : exists a b, host = a ++ DOT :: b /\ a <> [] /\ b <> []
}.

Lemma not_true_iff (b : bool) (Q : Prop) : (b = true <-> Q) -> (b = false <-> ~ Q).
Proof. intros H. rewrite <- not_true_iff_false. by rewrite H. Qed.

Lemma forallb_Forall {A} (f : A -> bool) l : forallb f l = true <-> Forall (fun x => f x = true) l.
Proof. rewrite forallb_forall, Forall_forall. by setoid_rewrite list_elem_of_In. Qed.

Lemma user_part_spec user :
  1 <= Z.of_nat (length user) ->
  (64 <? Z.of_nat (length user)) = false /\ user_dot_regexp user = false /\ user_regexp user = true <-> local_part user.
Proof.
  intros Hlen. unfold user_dot_regexp, user_regexp.
  rewrite !orb_false_iff, Z.ltb_ge, andb_true_iff, forallb_Forall.
  rewrite (not_true_iff _ _ (is_dot_head user)), (not_true_iff _ _ (is_dot_last user)),
    (not_true_iff _ _ (two_dots_spec user)).
  split.
  - intros (H1 & ((H2 & H3) & H4) & _ & H5). split; [lia|done|..]; [intros b ->|intros a ->|intros a b ->]; eauto.
  - intros [H1 H2 H3 H4 H5]. split_and!; [lia|..|done]; [intros [b ->]|intros [a ->]|intros (a & b & ->)|];
      [by eapply H3|by eapply H4|by eapply H5|].
    destruct user; [simpl in Hlen; lia|done].
Qed.

Lemma host_part_spec host : AT_SIGN ∉ host -> host_regexp host = true <-> host_part host.
Proof.
  intros Hat. unfold host_regexp. rewrite andb_true_iff, forallb_Forall, inner_dot.
  setoid_rewrite negb_true_iff. split; [intros [H1 H2]; by split|intros [_ H1 H2]; by split].
Qed.

Lemma user_chars_no_at user : Forall (fun c => user_char c = true) user -> AT_SIGN ∉ user.
Proof. intros Hu Hin. rewrite Forall_forall in Hu. by specialize (Hu _ Hin). Qed.

Section Properties.
Context {J : Jwt} {JO : JwtOk J} {U : Uuid} {P : Columns} {B : Bcrypt} {BO : BcryptOk B}.
Variable secret : text.
Context {M : Type}.
Implicit Types (acc : accounts M) (c : chance) (r : users_request M).

(** C: [isEmail] accepts exactly the texts of six to 254 bytes with a local part
    and a host: at most 64 characters of the class, with dots inside and apart,
    then the only [@], then a host without white space that has a dot inside. *)
Theorem isEmail_spec email :
  isEmail email = true <->
  6 <= Z.of_nat (length email) <= 254 /\
  exists user host, email = user ++ AT_SIGN :: host /\ local_part user /\ host_part host.
Proof.
  unfold isEmail. destruct ((Z.of_nat (length email) <? 6) || (254 <? Z.of_nat (length email))) eqn:Hn.
  { split; [done|]. intros [H _]. apply orb_true_iff in Hn. rewrite !Z.ltb_lt in Hn. lia. }
  apply orb_false_iff in Hn as [Hn1%Z.ltb_ge Hn2%Z.ltb_ge].
  destruct (decide (AT_SIGN ∈ email)) as [Hin|Hin].
  2: { rewrite (LastIndex_absent _ _ Hin). split; [done|]. intros (_ & user & host & -> & _).
       destruct Hin. apply elem_of_app. right. by left. }
  destruct (LastIndex_split _ _ Hin) as (user & host & -> & Hhost).
  rewrite (LastIndex_last _ _ _ Hhost), Nat2Z.id, take_app_length.
  replace (drop (S (length user)) (user ++ AT_SIGN :: host)) with host
    by (rewrite drop_app, drop_ge by lia; replace (S _ - length user)%nat with 1%nat by lia; done).
  rewrite length_app in *. cbn [length] in *.
  assert (Huniq : forall u h, user ++ AT_SIGN :: host = u ++ AT_SIGN :: h -> AT_SIGN ∉ h -> u = user /\ h = host).
  { intros u h E Hh. pose proof (f_equal (LastIndex AT_SIGN) E) as El. rewrite !LastIndex_last in El by done.
    apply Nat2Z.inj in El. apply app_inj_1 in E as [-> [= ->]]; done. }
  split.
  - destruct (_ || _) eqn:Hp; [done|]. apply orb_false_iff in Hp as [Hp%Z.leb_gt _].
    destruct (64 <? _) eqn:H64; [done|]. rewrite negb_true_iff, !orb_false_iff, !negb_false_iff.
    intros [[H1 H2] H3]. split; [lia|]. exists user, host. split; [done|]. split.
    + apply user_part_spec; [lia|done].
    + by apply host_part_spec.
  - intros (_ & u & h & E & Hu & Hh). destruct (Huniq u h E (hp_at _ Hh)) as [-> ->].
    pose proof (lp_length _ Hu). destruct (hp_dot _ Hh) as (a & b & Hab & Ha & Hb).
    assert (3 <= Z.of_nat (length host)).
    { rewrite Hab, length_app. cbn [length]. destruct a, b; [done..|]. cbn [length]. lia. }
    rewrite (proj2 (Z.leb_gt _ _)) by lia. rewrite (proj2 (Z.ltb_ge _ _)) by lia. cbn [orb].
    apply user_part_spec in Hu as (-> & -> & ->); [|lia]. apply host_part_spec in Hh as ->; done.
Qed.

(** C17: who changes an account: a row that is different after a request was either
    new, with an accepted address and a hash of its password, or the request
    carried a token that lets its user in as the history of the authn service
    says, and only the metadata or the password changed; a change of password
    through [ChangePassword] had the old one. *)
Theorem account_changes t v tr c r acc e :
  areach secret t (auth_keys acc) v tr -> t <= clock c ->
  (forall tok, user_token r = Some tok -> genuine secret v tok) ->
  users (users_serve secret c r acc).1 !! e <> users acc !! e ->
  row_change (lets_in tr (clock c)) r acc (users_serve secret c r acc).1 e.
Proof.
  intros Hr Hnow Hg Hne. pose proof (rows_changed secret c r acc e Hne) as Hc.
  assert (Hid : forall tok user, user_token r = Some tok ->
    (Identify secret (clock c) tok (auth_keys acc)).2 = Done user -> lets_in tr (clock c) tok user).
  { intros tok user Htok Hi. pose proof (sim_run _ _ _ _ _ Hr) as Hs.
    rewrite (proj1 (identify_sim secret t _ v (clock c) tok Hs Hnow (Hg _ Htok))) in Hi.
    eapply spec_identify_history; [exact Hs|by eapply hist_run|done|exact Hi]. }
  destruct r; cbn [row_change] in *; try done; destruct Hc as [Hi Hc]; (split; [by apply Hid|exact Hc]).
Qed.

(** The users service keeps to its part: a request takes the authn service from
    one run of genuine requests to another, by no later than the time of the
    request, and every account in the table has an accepted address. *)
Theorem users_keep_run t v tr c r acc :
  ureach secret acc -> areach secret t (auth_keys acc) v tr -> t <= clock c -> printed_id (uuid c) ->
  (forall tok, user_token r = Some tok -> genuine secret v tok) ->
  extends secret (clock c) tr (auth_keys (users_serve secret c r acc).1) /\
  emails_ok (users_serve secret c r acc).1.
Proof.
  intros Hu Hr Hnow Hid Hg. split.
  - by eapply users_serve_extends; [apply (ureach_emails secret)|..].
  - by apply (ureach_emails secret), ur_users.
Qed.

(** C19: no recovery mail is ever sent: every request for one is refused with 400,
    also for accounts that exist, and changes nothing; the service asks for the
    recovery key with the address where the authn service wants a login token. *)
Theorem no_recovery_mail acc :
  ureach secret acc ->
  outbox acc = [] /\
  forall c email host, exists e,
    users_serve secret c (PostResetRequest email host) acc = (acc, Refused e) /\ users_encodeError e = Some 400.
Proof.
  intros Hr. split.
  - induction Hr as [|c r acc Hr IH|now newID q acc Hr IH]; [done| |done].
    rewrite users_serve_outbox; [done|]. by apply (ureach_emails secret).
  - intros c email host. by apply reset_request_refused, (ureach_emails secret).
Qed.

(** Registering an address that is taken changes nothing, but the client is told
    200: the error of the database is not the one that the HTTP layer looks for. *)
Theorem register_taken c u acc row h :
  users acc !! u_email u = Some row -> Validate u = Done tt -> varchar254 (u_email u) = true ->
  generate (salt c) (u_password u) = Done h ->
  exists e, users_serve secret c (PostUsers u) acc = (acc, Refused e) /\
    Contains e (Msg ErrEmailTaken) = false /\ users_encodeError e = None /\ status_of (Refused (M := M) e) = 200.
Proof.
  intros Hrow Hv Hc Hh. eexists. split.
  - unfold users_serve. cbn [validate]. rewrite Hv. unfold registrationEndpoint, Register, Hash. rewrite Hh.
    unfold SaveUser. cbn [u_email u_password u_metadata]. rewrite Hc, (hash_length _ _ _ Hh). cbn [negb orb].
    change (60 <? Z.of_nat 60) with false. cbn [orb].
    rewrite bool_decide_eq_true_2 by (by rewrite Hrow). cbn [reply]. reflexivity.
  - split_and!; vm_compute; reflexivity.
Qed.

(** ** Logging in *)

Lemma login_with_password c u acc row :
  users acc !! u_email u = Some row -> Validate u = Done tt -> compare (r_password row) (u_password u) = true ->
  0 <= clock c ->
  exists k, kIssuedAt k = clock c /\ kType k = UserKey /\
    users_serve secret c (PostTokens u) acc = (acc, Token (kSecret (loginKey secret (u_email u) k))).
Proof.
  intros Hrow Hv Hc Hnow. exists (MkKey [] UserKey [] [] (clock c) zero_time). split; [done|]. split; [done|].
  assert (Hne : u_email u <> []).
  { intros E. unfold Validate in Hv. by rewrite E in Hv. }
  unfold users_serve. cbn [validate]. rewrite Hv. unfold loginEndpoint, Login, RetrieveByID, Compare.
  rewrite Hrow. cbn [u_password u_email]. rewrite Hc. unfold issue, grpc_issueEndpoint.
  rewrite bool_decide_eq_false_2 by done. cbn [known_type N.eqb UserKey orb negb].
  rewrite (proj1 (Issue_login secret (clock c) (uuid c) (u_email u) (MkKey [] UserKey [] [] (clock c) zero_time)
    (auth_keys acc) Hnow eq_refl eq_refl)).
  cbn [bind_outcome reply]. by rewrite with_keys_same.
Qed.

Lemma login_with_wrong_password c u acc row :
  users acc !! u_email u = Some row -> Validate u = Done tt -> compare (r_password row) (u_password u) = false ->
  exists e, users_serve secret c (PostTokens u) acc = (acc, Refused e) /\ users_encodeError e = Some 403.
Proof.
  intros Hrow Hv Hc. eexists. split.
  - unfold users_serve. cbn [validate]. rewrite Hv. unfold loginEndpoint, Login, RetrieveByID, Compare.
    rewrite Hrow. cbn [u_password u_email]. rewrite Hc. reflexivity.
  - vm_compute. reflexivity.
Qed.

Lemma loginKey_nonempty issuer k : kSecret (loginKey secret issuer k) <> [].
Proof. apply token_nonempty. Qed.

(** An account from its registration on: a valid address that is free is
    registered, the password logs in, a wrong one is refused with 403, and the
    token shows the user for ten hours and is refused with 403 afterwards. *)
Theorem account_session c u acc h :
  Validate u = Done tt -> users acc !! u_email u = None -> varchar254 (u_email u) = true ->
  utf8_text (u_email u) = u_email u -> generate (salt c) (u_password u) = Done h ->
  let acc1 := (users_serve secret c (PostUsers u) acc).1 in
  (users_serve secret c (PostUsers u) acc).2 = Created /\
  (forall c2 p, Validate (MkUser (u_email u) p (u_metadata u)) = Done tt -> compare h p = false ->
     exists e, users_serve secret c2 (PostTokens (MkUser (u_email u) p (u_metadata u))) acc1 = (acc1, Refused e) /\
       users_encodeError e = Some 403) /\
  forall c2, 0 <= clock c2 ->
    exists tok, users_serve secret c2 (PostTokens u) acc1 = (acc1, Token tok) /\
      forall c3, clock c2 <= clock c3 ->
        exists e, users_encodeError e = Some 403 /\
          users_serve secret c3 (GetUsers tok) acc1 =
            (acc1, if Unix (clock c2 + loginDuration) <? Unix (clock c3) then Refused e
                   else Identity (u_email u) (u_metadata u)).
Proof.
  intros Hv Hfree Hc Hu Hh.
  assert (Hreg : users_serve secret c (PostUsers u) acc =
    (with_users acc (<[u_email u := UserRow h (u_metadata u)]> (users acc)), Created)).
  { unfold users_serve. cbn [validate]. rewrite Hv. unfold registrationEndpoint, Register, Hash. rewrite Hh.
    unfold SaveUser. cbn [u_email u_password u_metadata]. rewrite Hc, (hash_length _ _ _ Hh). cbn [negb orb].
    change (60 <? Z.of_nat 60) with false. cbn [orb].
    rewrite bool_decide_eq_false_2; [done|]. rewrite Hfree. by intros [? ?]. }
  rewrite Hreg. cbn [fst snd]. set (acc1 := with_users _ _).
  assert (Hrow : users acc1 !! u_email u = Some (UserRow h (u_metadata u))) by apply lookup_insert_eq.
  split; [done|]. split.
  - intros c2 p Hvp Hp. by apply (login_with_wrong_password c2 (MkUser (u_email u) p (u_metadata u)) acc1 _ Hrow).
  - intros c2 Hc2.
    destruct (login_with_password c2 u acc1 _ Hrow Hv (compare_generate _ _ _ Hh) Hc2) as (k & Hat & Hty & Hlog).
    eexists. split; [exact Hlog|]. intros c3 Hc3.
    exists (Wrap ErrUnauthorized (New (grpc_error ErrKeyExpired))). split; [by vm_compute|].
    pose proof (loginKey_nonempty (u_email u) k) as Hne.
    unfold users_serve. cbn [validate]. rewrite bool_decide_eq_false_2 by done.
    unfold userInfoEndpoint, UserInfo. rewrite identify_eq by done.
    rewrite (Identify_login secret (clock c3) (clock c2) (u_email u) k (auth_keys acc1)) by done.
    cbn [fst snd]. rewrite with_keys_same, Hu. destruct (_ <? _); [done|].
    cbn [bind_outcome]. unfold RetrieveByID. by rewrite Hrow.
Qed.

(** C18: an account is taken over with nothing but its address: a login key for it,
    asked for over HTTP without a password, sets a new password through the reset
    endpoint, within ten hours; the new password then logs in, and the old one,
    unless it passes for the new one, is refused. *)
Theorem account_takeover acc email row p c h now newID :
  users acc !! email = Some row -> isEmail email = true -> utf8_text email = email -> 0 <= now -> p <> [] ->
  generate (salt c) p = Done h -> now <= clock c -> Unix (clock c) <= Unix (now + loginDuration) ->
  exists tok,
    authn_serve secret now newID (HttpIssue email UserKey 0) (auth_keys acc) =
      (auth_keys acc, RKey (IssueKeyRes [] tok now (Some (now + loginDuration)))) /\
    let acc' := with_users acc (<[email := UserRow h (r_metadata row)]> (users acc)) in
    users_serve secret c (PutReset tok p p) acc = (acc', Message []) /\
    (forall c2, 0 <= clock c2 -> exists tok2, users_serve secret c2 (PostTokens (MkUser email p None)) acc' = (acc', Token tok2)) /\
    (forall c2 old, old <> [] -> compare h old = false ->
       exists e, users_serve secret c2 (PostTokens (MkUser email old None)) acc' = (acc', Refused e) /\
         users_encodeError e = Some 403).
Proof.
  intros Hrow He Hu Hnow Hp Hh Hle Hlive.
  assert (Hne : email <> []) by (by intros ->).
  assert (Hval : forall q, q <> [] -> Validate (MkUser (M := M) email q None) = Done tt).
  { intros q Hq. unfold Validate. cbn [u_email u_password]. by rewrite !bool_decide_eq_false_2, He by done. }
  set (k := newKey now email UserKey 0). exists (kSecret (loginKey secret email k)).
  destruct (Issue_login secret now newID email k (auth_keys acc)) as [Hi Hexp]; [done..|]. split.
  { unfold authn_serve, issueEndpoint. cbn [validate_issueKeyReq N.eqb UserKey orb negb]. fold k. rewrite Hi.
    cbn [bind_outcome respond]. by rewrite Hexp, IsZero_after. }
  intros acc'. assert (Hrow' : users acc' !! email = Some (UserRow h (r_metadata row))) by apply lookup_insert_eq.
  pose proof (loginKey_nonempty email k) as Htok. split_and!.
  - unfold users_serve. cbn [validate]. rewrite !bool_decide_eq_false_2 by (done || by intros []).
    unfold passwordResetEndpoint, ResetPassword. rewrite identify_eq by done.
    rewrite (Identify_login secret (clock c) now email k) by done.
    rewrite (proj2 (Z.ltb_ge _ _) Hlive). cbn [fst snd]. rewrite with_keys_same, Hu.
    unfold set_password, RetrieveByID, Hash, UpdatePassword. rewrite Hrow. cbn [u_email].
    rewrite bool_decide_eq_false_2, Hh, (hash_length _ _ _ Hh) by done.
    change (60 <? Z.of_nat 60) with false. cbn [reply]. f_equal. unfold acc'. f_equal.
    apply map_eq. intros e. destruct (decide (e = email)) as [->|Hd].
    + by rewrite lookup_alter_eq, Hrow, lookup_insert_eq.
    + by rewrite lookup_alter_ne, lookup_insert_ne.
  - intros c2 Hc2.
    destruct (login_with_password c2 (MkUser email p None) acc' _ Hrow' (Hval p Hp)
      (compare_generate _ _ _ Hh) Hc2) as (k2 & _ & _ & H).
    by eexists.
  - intros c2 old Hold Hcmp.
    exact (login_with_wrong_password c2 (MkUser email old None) acc' _ Hrow' (Hval old Hold) Hcmp).
Qed.

End Properties.

(** ** Examples *)

#[local] Existing Instance plain_jwt.
#[local] Existing Instance plain_jwt_ok.
#[local] Existing Instance micro_columns.
#[local] Existing Instance hex_uuid.

(** A stand-in for bcrypt: the password itself, cut and padded to 60 units. *)
Definition fit60 (p : text) : text := resize 60 0 p.

#[local] Instance plain_bcrypt : Bcrypt := {
  generate salt p := Done (fit60 p);
  compare h p := bool_decide (h = fit60 p)
}.

#[local] Instance plain_bcrypt_ok : BcryptOk plain_bcrypt.
Proof.
  split; cbn [generate compare plain_bcrypt]; intros _ p h [= <-]; [by apply bool_decide_eq_true|].
  apply length_resize.
Qed.

Definition at_noon : chance := Chance sample_time None [] None.
Definition an_hour_later : chance := Chance (sample_time + 3600 * second) None [] None.

Definition alice : User unit := MkUser (js "alice@example.com") (js "secret") (Some tt).
Definition no_accounts : accounts unit := Accounts ∅ ∅ [].
Definition one_account : accounts unit := (users_serve sample_secret at_noon (PostUsers alice) no_accounts).1.

Lemma one_account_reach : ureach sample_secret one_account.
Proof. apply ur_users, ur_init. Qed.

Lemma one_account_row : users one_account !! u_email alice = Some (UserRow (fit60 (js "secret")) (Some tt)).
Proof. vm_compute. reflexivity. Qed.

(** A login key for alice, asked for over HTTP. *)
Definition key_for_alice : authn_request := HttpIssue (u_email alice) UserKey 0.
Definition alice_login : keys * authn_response := authn_serve sample_secret sample_time None key_for_alice ∅.
Definition alice_token : text := token_in alice_login.2.
Definition alice_vault : vault := (spec_serve sample_time None alice_token key_for_alice sample_vault0).1.
Definition alice_history : list served := [Served sample_time None key_for_alice alice_login.2].

Lemma alice_areach : areach sample_secret sample_time (auth_keys one_account) alice_vault alice_history.
Proof.
  change (auth_keys one_account) with alice_login.1.
  refine (ar_step sample_secret 0 ∅ sample_vault0 [] sample_time None key_for_alice _ _ _ _);
    [by apply ar_init|done..].
Qed.

Lemma alice_genuine : genuine sample_secret alice_vault alice_token.
Proof. intros _ _. vm_decide. Qed.

Lemma account_changes_witness :
  row_change (lets_in alice_history (clock an_hour_later)) (PutReset alice_token (js "new") (js "new")) one_account
    (users_serve sample_secret an_hour_later (PutReset alice_token (js "new") (js "new")) one_account).1
    (u_email alice).
Proof.
  apply (account_changes sample_secret sample_time alice_vault alice_history);
    [exact alice_areach|done| |vm_compute; discriminate].
  intros tok [= <-]. exact alice_genuine.
Defined.

Lemma users_keep_run_witness :
  emails_ok (users_serve sample_secret an_hour_later (PutReset alice_token (js "new") (js "new")) one_account).1.
Proof.
  apply (users_keep_run sample_secret sample_time alice_vault alice_history an_hour_later
    (PutReset alice_token (js "new") (js "new")) one_account);
    [exact one_account_reach|exact alice_areach|done|done|].
  intros tok [= <-]. exact alice_genuine.
Defined.

Lemma no_recovery_mail_witness :
  exists e, users_serve sample_secret at_noon (PostResetRequest (u_email alice) (js "example.com")) one_account =
    (one_account, Refused e) /\ users_encodeError e = Some 400.
Proof. apply (no_recovery_mail sample_secret one_account). exact one_account_reach. Defined.

Lemma register_taken_witness :
  exists e, users_serve sample_secret at_noon (PostUsers alice) one_account = (one_account, Refused e) /\
    status_of (Refused (M := unit) e) = 200.
Proof.
  destruct (register_taken sample_secret at_noon alice one_account _ (fit60 (js "secret")) one_account_row)
    as (e & H1 & _ & _ & H2); [vm_compute; reflexivity|vm_compute; reflexivity|reflexivity|].
  by exists e.
Defined.

Lemma account_session_witness :
  exists tok e,
    users_serve sample_secret at_noon (PostTokens alice) one_account = (one_account, Token tok) /\
    users_serve sample_secret an_hour_later (GetUsers tok) one_account =
      (one_account, if Unix (sample_time + loginDuration) <? Unix (clock an_hour_later) then Refused e
                    else Identity (u_email alice) (Some tt)).
Proof.
  destruct (account_session sample_secret at_noon alice no_accounts (fit60 (js "secret"))) as (_ & _ & H);
    [vm_compute; reflexivity|reflexivity|vm_compute; reflexivity|reflexivity|reflexivity|].
  destruct (H at_noon) as (tok & H1 & H2); [done|]. exists tok.
  destruct (H2 an_hour_later) as (e & _ & H3); [done|]. by exists e.
Defined.

Lemma account_takeover_witness :
  exists acc', (users_serve sample_secret an_hour_later (PutReset alice_token (js "mine") (js "mine")) one_account) =
    (acc', Message []) /\
  exists e, users_serve sample_secret an_hour_later (PostTokens (MkUser (u_email alice) (js "secret") None)) acc' =
    (acc', Refused e) /\ users_encodeError e = Some 403.
Proof.
  destruct (account_takeover sample_secret one_account (u_email alice) _ (js "mine") an_hour_later
    (fit60 (js "mine")) sample_time None one_account_row) as (tok & Htok & H1 & _ & H2);
    [vm_compute; reflexivity|reflexivity|done|discriminate|reflexivity|done|vm_compute; discriminate|].
  assert (E : tok = alice_token).
  { change (auth_keys one_account) with (∅ : keys) in Htok.
    exact (eq_sym (f_equal (fun x => token_in (snd x)) Htok)). }
  subst tok. eexists. split; [exact H1|]. apply H2; [discriminate|vm_compute; reflexivity].
Defined.
