(* ===== verification/Tenancy.v ===== *)
(** * Tenants

    The Things service with its users identified by the authn service: a request
    carries a token, the service asks [Identify] whose it is, and works on the
    rows of this user.  Whose rows change is read off the history of the authn
    service.  The requests are all the [change]s of [ThingsList]: those to the
    tables, and those to names and metadata. *)

From S2P Require Import Prelude JsString ThingsCache Things ThingsSafety ThingsRows ThingsProperties ThingsList ThingsListProperties Authn AuthnSystem AuthnHistory AuthnProperties TokenCodec.
From stdpp Require Import gmap sets.

Local Open Scope Z_scope.

(** ** The two services together *)

Section Tenants.
Context {S : Type} `{HS : Caches S} {M : Type} {JM : Json M} {J : Jwt} {JO : JwtOk J} {U : Uuid} {P : Columns}.
Variable secret : text.

(** [auth.Identify] of the Things service, by the authn service. *)
Definition auth_by (now : Z) (ks : keys) (tok : text) : option text :=
  match (grpc_identifyEndpoint secret now tok ks).2 with Done e => Some e | Failed _ => None end.

(** A request to the authn service, or one to the Things service, with the call of
    the authn service that comes before it. *)
Inductive treach : Z -> keys -> vault -> list served -> catalog S M -> Prop :=
| tr_init t : 0 <= t -> treach t ∅ (Vault [] ∅) [] (Catalog (Service_ empty_database no_cache true) ∅ ∅)
| tr_authn t ks v tr c now newID q :
    treach t ks v tr c -> t <= now -> printed_id newID -> genuine_request secret v q ->
    let a := snd (authn_serve secret now newID q ks) in
    treach now (fst (authn_serve secret now newID q ks))
      (fst (spec_serve now newID (token_in a) q v)) (Served now newID q a :: tr) c
| tr_things t ks v tr c now ch tok :
    treach t ks v tr c -> t <= now -> token_of ch = Some tok -> genuine secret v tok ->
    let a := snd (authn_serve secret now None (GrpcIdentify tok) ks) in
    treach now (fst (authn_serve secret now None (GrpcIdentify tok) ks))
      (fst (spec_serve now None (token_in a) (GrpcIdentify tok) v))
      (Served now None (GrpcIdentify tok) a :: tr) (apply_change (auth_by now ks) ch c)
| tr_access t ks v tr c ch :
    treach t ks v tr c -> token_of ch = None -> treach t ks v tr (apply_change (fun _ => None) ch c)
| tr_redis t ks v tr c up' :
    treach t ks v tr c ->
    treach t ks v tr (Catalog (Service_ (tables c) (cache (core c)) up') (thing_info c) (channel_info c)).

Lemma treach_areach t ks v tr c : treach t ks v tr c -> areach secret t ks v tr.
Proof.
  induction 1 as [t Ht|t ks v tr c now newID q Hr IH Hnow Hid Hg a|t ks v tr c now ch tok Hr IH Hnow Htok Hg a| |];
    [by apply ar_init| | |done|done].
  - by apply (ar_step secret t).
  - apply (ar_step secret t); [done|done|done|]. by intros ? [= <-].
Qed.

Lemma auth_by_history t ks v tr now tok e :
  areach secret t ks v tr -> t <= now -> genuine secret v tok -> auth_by now ks tok = Some e -> lets_in tr now tok e.
Proof.
  intros Hr Hnow Hg. unfold auth_by, grpc_identifyEndpoint. destruct (bool_decide (tok = [])); [done|].
  pose proof (sim_run _ _ _ _ _ Hr) as Hs.
  rewrite (proj1 (identify_sim secret t ks v now tok Hs Hnow Hg)). cbn [snd].
  destruct (spec_identify now tok v).2 as [u|] eqn:E; [|done]. intros [= ->].
  eapply spec_identify_history; [exact Hs|by eapply hist_run|done|exact E].
Qed.

(** Somebody was handed a token of the user. *)
Definition known_user (tr : list served) (e : text) : Prop :=
  exists tok until id, holds tr tok (Session e until) \/ holds tr tok (Recovery e until) \/ holds tr tok (Api e id).

Lemma lets_in_known tr now tok e : lets_in tr now tok e -> known_user tr e.
Proof.
  intros [(until & [H|H] & _)|(id & exp & H & _)]; [exists tok, until, []|exists tok, until, []|exists tok, 0, id]; auto.
Qed.

Lemma known_older s tr e : known_user tr e -> known_user (s :: tr) e.
Proof. intros (tok & until & id & H). exists tok, until, id. destruct H as [H|[H|H]]; auto using h_older. Qed.

(** The owners of rows. *)
Definition owns (d : database) (e : text) : Prop :=
  (exists id key, things d !! (id, e) = Some key) \/ (exists id, (id, e) ∈ channels d) \/
  (exists ch t, (ch, t, e) ∈ connections d).

Lemma owner_rows_owns e d d' : owner_rows e d d' -> owns d' e -> owns d e.
Proof.
  intros [H1 H2 H3] [(id & key & H)|[(id & H)|(ch & t & H)]].
  - left. exists id, key. by rewrite <- H1.
  - right. left. exists id. by apply H2.
  - right. right. exists ch, t. by apply H3.
Qed.

(** A change works on the rows of the user that its token belongs to. *)
Lemma change_other auth ch (c : catalog S M) e :
  same_rows e c (apply_change auth ch c) \/ exists tok, token_of ch = Some tok /\ auth tok = Some e.
Proof.
  destruct (decide (user_of auth ch = Some e)) as [Hu|Hu]; [right|left; by apply change_same].
  unfold user_of in Hu. by apply bind_Some in Hu.
Qed.

(** C4: a request to the Things service, be it a creation, an update, a removal, a
    connection or a disconnection, leaves the rows of every user alone (things
    with their keys, channels, connections, and the names and metadata of both),
    except of the one that its token, if its signature is not forged, lets in
    according to the history of the authn service: no user reaches the rows of
    another. *)
Theorem tenant_isolation t ks v tr c now ch e :
  treach t ks v tr c -> t <= now -> (forall tok, token_of ch = Some tok -> genuine secret v tok) ->
  same_rows e c (apply_change (auth_by now ks) ch c) \/
  exists tok, token_of ch = Some tok /\ lets_in tr now tok e.
Proof.
  intros Hr Hnow Hg. apply treach_areach in Hr.
  destruct (change_other (auth_by now ks) ch c e) as [H|(tok & Htok & Ha)]; [by left|right].
  exists tok. split; [done|]. eapply auth_by_history; [done|done|by apply Hg|done].
Qed.

(** Every owner of a thing, a channel or a connection is a user that somebody
    was handed a token of. *)
Theorem owners_known t ks v tr c e : treach t ks v tr c -> owns (tables c) e -> known_user tr e.
Proof.
  intros Hr. revert e. induction Hr as [t Ht|t ks v tr c now newID q Hr IH Hnow Hid Hg a
    |t ks v tr c now ch tok Hr IH Hnow Htok Hg a|t ks v tr c ch Hr IH Htok|t ks v tr c up' Hr IH]; intros e Ho.
  - destruct Ho as [(id & key & H)|[(id & H)|(ch & u & H)]]; cbn in H.
    + by rewrite lookup_empty in H.
    + by apply elem_of_empty in H.
    + by apply elem_of_empty in H.
  - by apply known_older, IH.
  - apply known_older. apply treach_areach in Hr.
    destruct (change_other (auth_by now ks) ch c e) as [[H _ _]|(tok' & Htok' & Ha)].
    + apply IH. by eapply owner_rows_owns.
    + assert (tok' = tok) as -> by congruence. by eapply lets_in_known, auth_by_history.
  - destruct (change_other (fun _ => None) ch c e) as [[H _ _]|(tok' & _ & Ha)]; [|done].
    apply IH. by eapply owner_rows_owns.
  - by apply IH.
Qed.

End Tenants.

(** ** Examples *)

#[local] Existing Instance plain_jwt.
#[local] Existing Instance plain_jwt_ok.
#[local] Existing Instance micro_columns.
#[local] Existing Instance hex_uuid.

#[local] Existing Instance member_json.

(** A thing with a key and a name. *)
Definition create_thing : change (M := list text) := NewThings sample_session [((js "k1", (js "a1", js "gen")), Info (js "lamp") [])].

Definition no_rows : catalog keyspace (list text) := Catalog (Service_ empty_database no_cache true) ∅ ∅.

Lemma sample_treach :
  treach sample_secret sample_time sample_login.1 sample_vault1 sample_history no_rows.
Proof.
  refine (tr_authn sample_secret 0 ∅ sample_vault0 [] _ sample_time None (HttpIssue (js "alice") UserKey 0) _ _ _ _);
    [by apply tr_init|done..].
Qed.

Lemma tenant_isolation_witness :
  lets_in sample_history sample_time sample_session (js "alice").
Proof.
  destruct (tenant_isolation sample_secret sample_time sample_login.1 sample_vault1 sample_history
    no_rows sample_time create_thing (js "alice") sample_treach)
    as [H|(tok & [= <-] & H)]; [done|by intros tok [= <-]; apply sample_genuine| |exact H].
  exfalso. pose proof (owner_things _ _ _ (sr_tables _ _ _ H) (js "a1")) as Hs. vm_compute in Hs. discriminate.
Defined.

Lemma owners_known_witness :
  exists t ks v tr (c : catalog keyspace (list text)), treach sample_secret t ks v tr c /\ owns (tables c) (js "alice") /\
    known_user tr (js "alice").
Proof.
  pose proof (tr_things sample_secret _ _ _ _ _ sample_time create_thing sample_session sample_treach (Z.le_refl _)
    eq_refl sample_genuine) as Hr. cbv zeta in Hr.
  do 5 eexists. split; [exact Hr|].
  assert (Ho : owns (tables (apply_change (auth_by sample_secret sample_time sample_login.1) create_thing no_rows))
    (js "alice")).
  { left. exists (js "a1"), (js "k1"). vm_compute. reflexivity. }
  split; [exact Ho|]. exact (owners_known sample_secret _ _ _ _ _ (js "alice") Hr Ho).
Defined.
