(* ===== verification/ConfigStore.v ===== *)
(** * The configurations of the Bootstrap service

    The data of [bootstrap/configs.go] and the repository of
    [bootstrap/postgres/configs.go] on the tables of [bootstrap/postgres/init.go],
    with their keys, unique columns and foreign keys.  A query that fails
    leaves the tables as they were. *)

From S2P Require Import Prelude JsString ThingsCache Things ThingsList ThingsEvents.
From stdpp Require Import gmap sets.

Local Open Scope Z_scope.

(** ** Data *)

Definition Inactive : Z := 0.
Definition Active : Z := 1.

Record bs_channel := BsChannel { bc_id : text; bc_name : text; bc_meta : metadata }.

Record config := Config {
  MFThing : text;
  Owner : text;
  Name : text;
  ClientCert : text;
  ClientKey : text;
  CACert : text;
  MFKey : text;
  MFChannels : list bs_channel;
  ExternalID : text;
  ExternalKey : text;
  Content : text;
  State : Z
}.

Inductive bs_error :=
| BsNotFound
| BsMalformed
| BsUnauthorized
| BsConflict
| BsThings              (* [ErrThings] *)
| BsOther.              (* an error of the database or of the SDK that is passed on *)

#[export] Instance bs_error_eq_dec : EqDecision bs_error.
Proof. solve_decision. Defined.

(** Go's early return of an error. *)
Notation "'let*' x := m 'in' k" :=
  (match m with inl x => k | inr e => inr e end) (at level 10, x pattern, k at level 200).

(** ** Columns *)

(** [nullString], and its way back. *)
Definition nullString (s : text) : option text := match s with [] => None | _ :: _ => Some s end.
Definition from_null (o : option text) : text := default [] o.

Definition SPACE : Z := 32.

Fixpoint all_spaces (s : text) : bool :=
  match s with [] => true | c :: s => (c =? SPACE) && all_spaces s end.

(** [CHAR(36)]: a shorter text is padded with spaces and read back with them; a
    longer one is refused unless the rest is spaces.  (Characters are taken to be
    single code units.) *)
Definition char36 (s : text) : option text :=
  if (length s <=? 36)%nat then Some (s ++ replicate (36 - length s) SPACE)
  else if all_spaces (drop 36 s) then Some (take 36 s) else None.

(** The JSON of a Go map, and [Unmarshal] into one. *)
Section Metadata.
Context {JT : JsonText}.

Definition marshal_map (m : metadata) : text :=
  match m with None => js "null" | Some m => marshal (JObject m) end.

Definition unmarshal_map (s : text) : option metadata :=
  if bool_decide (s = js "null") then Some None else Some <$> unmarshal s.

End Metadata.

(** An object is not written as null. *)
Class JsonNull (JT : JsonText) : Prop := marshal_not_null : forall m, marshal (JObject m) <> js "null".

Record config_row := ConfigRow {
  cr_name : option text;
  cr_client_cert : option text;
  cr_client_key : option text;
  cr_ca_cert : option text;
  cr_key : text;
  cr_external_id : text;
  cr_external_key : text;
  cr_content : option text;
  cr_state : Z
}.

Record channel_row := ChannelRow { hr_name : option text; hr_metadata : text }.

(** ** Tables *)

(** The primary key of a configuration or a channel: its identifier and its
    owner. *)
Abbreviation row_key := (text * text)%type.

(** [connections]: a configuration with a channel, each with its owner. *)
Abbreviation link := (row_key * row_key)%type.

Record store := Store {
  configs : gmap row_key config_row;
  bs_channels : gmap row_key channel_row;
  links : gset link;
  unknown_configs : gmap text text        (* external id, which is unique: external key *)
}.

Definition empty_store : store := Store ∅ ∅ ∅ ∅.

Definition with_configs (db : store) (m : gmap row_key config_row) : store :=
  Store m (bs_channels db) (links db) (unknown_configs db).

(** The unique columns that a new row would repeat. *)
Definition repeats (k : row_key) (r : config_row) (k' : row_key) (r' : config_row) : bool :=
  bool_decide (fst k' = fst k) || bool_decide (cr_key r' = cr_key r)
  || bool_decide (cr_external_id r' = cr_external_id r).

Definition config_taken (db : store) (k : row_key) (r : config_row) : bool :=
  existsb (fun row => repeats k r (fst row) (snd row)) (map_to_list (configs db)).

Definition channel_taken (db : store) (id : text) : bool :=
  existsb (fun row => bool_decide (fst (fst row) = id)) (map_to_list (bs_channels db)).

(** [INSERT INTO configs]. *)
Definition toDBConfig (cfg : config) (key : text) : config_row :=
  ConfigRow (nullString (Name cfg)) (nullString (ClientCert cfg)) (nullString (ClientKey cfg))
    (nullString (CACert cfg)) key (ExternalID cfg) (ExternalKey cfg) (nullString (Content cfg)) (State cfg).

Definition insert_config (cfg : config) (db : store) : store + bs_error :=
  match char36 (MFKey cfg) with
  | None => inr BsOther
  | Some key =>
      let k := (MFThing cfg, Owner cfg) in
      let r := toDBConfig cfg key in
      if config_taken db k r then inr BsConflict
      else inl (with_configs db (<[k := r]> (configs db)))
  end.

Section Repository.
Context {JT : JsonText}.

Definition toDBChannel (ch : bs_channel) : channel_row :=
  ChannelRow (nullString (bc_name ch)) (marshal_map (bc_meta ch)).

Definition toChannel (id : text) (r : channel_row) : option bs_channel :=
  match unmarshal_map (hr_metadata r) with
  | Some m => Some (BsChannel id (from_null (hr_name r)) m)
  | None => None
  end.

(** A row of [insertChannels]: the owner is part of the primary key, and an empty
    one is null. *)
Definition insert_channel_row (owner : text) (db : store) (ch : bs_channel) : store + bs_error :=
  match nullString owner with
  | None => inr BsOther
  | Some o =>
      if channel_taken db (bc_id ch) then inr BsConflict
      else inl (Store (configs db) (<[(bc_id ch, o) := toDBChannel ch]> (bs_channels db)) (links db)
                  (unknown_configs db))
  end.

Definition insertChannels (owner : text) (chs : list bs_channel) (db : store) : store + bs_error :=
  foldl (fun r ch => let* db := r in insert_channel_row owner db ch) (inl db) chs.

End Repository.

(** Why the rows of [connections] are refused. *)
Inductive link_error := RepeatedLink | NoChannel | NoConfig.

Definition insert_link (l : link) (db : store) : store + link_error :=
  if bool_decide (l ∈ links db) then inr RepeatedLink
  else inl (Store (configs db) (bs_channels db) ({[l]} ∪ links db) (unknown_configs db)).

(** The rows are inserted one by one; the foreign keys are tested at the end of
    the statement. *)
Fixpoint foreign_key_error (k : row_key) (chs : list text) (db : store) : option link_error :=
  match chs with
  | [] => None
  | ch :: chs =>
      if bool_decide (bs_channels db !! (ch, snd k) = None) then Some NoChannel
      else if bool_decide (configs db !! k = None) then Some NoConfig
      else foreign_key_error k chs db
  end.

Definition insert_links (k : row_key) (chs : list text) (db : store) : store + link_error :=
  let* db := foldl (fun r ch => let* db := r in insert_link (k, (ch, snd k)) db) (inl db) chs in
  match foreign_key_error k chs db with Some e => inr e | None => inl db end.

(** [cleanupQuery]: the channels whose identifier no connection has, whoever owns
    them. *)
Definition cleanup (db : store) : store :=
  Store (configs db)
    (filter (fun row => existsb (fun l => bool_decide (fst (snd l) = fst (fst row))) (elements (links db)) = true)
      (bs_channels db))
    (links db) (unknown_configs db).

(** A deletion of configurations, with the cascade on their connections. *)
Definition delete_configs (P : row_key -> bool) (db : store) : store :=
  Store (filter (fun row => P (fst row) = false) (configs db)) (bs_channels db)
    (filter (fun l => P (fst l) = false) (links db)) (unknown_configs db).

(** [UPDATE configs ... WHERE mainflux_thing = ... AND owner = ...], with its row
    count. *)
Definition update_config (f : config_row -> config_row) (k : row_key) (db : store) : store + bs_error :=
  match configs db !! k with
  | None => inr BsNotFound
  | Some r => inl (with_configs db (<[k := f r]> (configs db)))
  end.

(** The literal of [pq.Array]. *)
Definition QUOTE : Z := 34.
Definition quoted (s : text) : text :=
  QUOTE :: (s ≫= fun c => if (c =? QUOTE) || (c =? BACKSLASH) then [BACKSLASH; c] else [c]) ++ [QUOTE].
Definition pq_array (l : list text) : text := js "{" ++ JsString.join COMMA (quoted <$> l) ++ js "}".

(** [updateConnections]: the second placeholder of its deletion holds the array as
    one text, so the connections deleted are those with another channel than
    that. *)
Definition updateConnections (k : row_key) (connections : list text) (db : store) : store + link_error :=
  match connections with
  | [] => inl db
  | _ :: _ =>
      let gone := filter (fun l => fst l = k /\ snd (snd l) = snd k /\ fst (snd l) <> pq_array connections) (links db) in
      let* db' := insert_links k connections
                    (Store (configs db) (bs_channels db) (links db ∖ gone) (unknown_configs db)) in
      if bool_decide (size gone = 0%nat) then inl db' else inl (cleanup db')
  end.

(** ** The repository *)

Record filters := Filters {
  Unknown : bool;
  FullMatch : list (text * text);
  PartialMatch : list (text * text)
}.

Record configs_page := ConfigsPage { cp_total : Z; cp_offset : Z; cp_limit : Z; cp_configs : list config }.

Definition empty_page : configs_page := ConfigsPage 0 0 0 [].

Module ConfigRepository.
Section Operations.
Context {JT : JsonText}.

(** [Save]: one transaction. *)
Definition Save (cfg : config) (connections : list text) (db : store) : (text * store) + bs_error :=
  let* db := insert_config cfg db in
  let* db := insertChannels (Owner cfg) (MFChannels cfg) db in
  match insert_links (MFThing cfg, Owner cfg) connections db with
  | inr _ => inr BsOther
  | inl db =>
      inl (MFThing cfg,
           Store (configs db) (bs_channels db) (links db)
             (if bool_decide (unknown_configs db !! ExternalID cfg = Some (ExternalKey cfg))
              then delete (ExternalID cfg) (unknown_configs db) else unknown_configs db))
  end.

(** The join of [channels] with [connections], for a configuration. *)
Definition joined (k : row_key) (db : store) : list (row_key * channel_row) :=
  map_to_list (bs_channels db) ≫= fun row =>
    (fun _ => row) <$>
      elements (filter (fun l => fst l = k /\ fst (snd l) = fst (fst row) /\ snd (fst row) = snd k) (links db)).

Definition read_channels (rows : list (row_key * channel_row)) : list bs_channel + bs_error :=
  match mapM (fun row => toChannel (fst (fst row)) (snd row)) rows with
  | Some chs => inl chs
  | None => inr BsOther
  end.

(** [toConfig]. *)
Definition toConfig (k : row_key) (r : config_row) (chs : list bs_channel) : config :=
  Config (fst k) (snd k) (from_null (cr_name r)) (from_null (cr_client_cert r)) (from_null (cr_client_key r))
    (from_null (cr_ca_cert r)) (cr_key r) chs (cr_external_id r) (cr_external_key r) (from_null (cr_content r))
    (cr_state r).

(** The columns that are not selected stay empty. *)
Definition without_certs (r : config_row) : config_row :=
  ConfigRow (cr_name r) None None None (cr_key r) (cr_external_id r) (cr_external_key r) (cr_content r) (cr_state r).

Definition RetrieveByID (owner id : text) (db : store) : config + bs_error :=
  match configs db !! (id, owner) with
  | None => inr BsNotFound
  | Some r =>
      let* chs := read_channels (joined (id, owner) db) in inl (toConfig (id, owner) (without_certs r) chs)
  end.

Definition RetrieveByExternalID (externalID : text) (db : store) : config + bs_error :=
  match List.find (fun row => bool_decide (cr_external_id (snd row) = externalID)) (map_to_list (configs db)) with
  | None => inr BsNotFound
  | Some (k, r) => let* chs := read_channels (joined k db) in inl (toConfig k r chs)
  end.

Definition set_info (cfg : config) (r : config_row) : config_row :=
  ConfigRow (nullString (Name cfg)) (cr_client_cert r) (cr_client_key r) (cr_ca_cert r) (cr_key r)
    (cr_external_id r) (cr_external_key r) (nullString (Content cfg)) (cr_state r).

Definition Update (cfg : config) (db : store) : store + bs_error :=
  update_config (set_info cfg) (MFThing cfg, Owner cfg) db.

(** An empty certificate is stored as such. *)
Definition set_certs (clientCert clientKey caCert : text) (r : config_row) : config_row :=
  ConfigRow (cr_name r) (Some clientCert) (Some clientKey) (Some caCert) (cr_key r) (cr_external_id r)
    (cr_external_key r) (cr_content r) (cr_state r).

Definition UpdateCert (owner thingID clientCert clientKey caCert : text) (db : store) : store + bs_error :=
  update_config (set_certs clientCert clientKey caCert) (thingID, owner) db.

(** Where a configuration is missing, the transaction is neither committed nor
    rolled back. *)
Definition UpdateConnections (key id : text) (chs : list bs_channel) (connections : list text) (db : store) :
    store + bs_error :=
  let* db := insertChannels key chs db in
  match updateConnections (id, key) connections db with
  | inl db => inl db
  | inr NoConfig => inr BsNotFound
  | inr _ => inr BsOther
  end.

Definition is_key (k k' : row_key) : bool := bool_decide (k' = k).

Definition Remove (key id : text) (db : store) : store := cleanup (delete_configs (is_key (id, key)) db).

Definition set_state (state : Z) (r : config_row) : config_row :=
  ConfigRow (cr_name r) (cr_client_cert r) (cr_client_key r) (cr_ca_cert r) (cr_key r) (cr_external_id r)
    (cr_external_key r) (cr_content r) state.

Definition ChangeState (key id : text) (state : Z) (db : store) : store + bs_error :=
  update_config (set_state state) (id, key) db.

Definition ListExisting (key : text) (ids : list text) (db : store) : list bs_channel + bs_error :=
  match ids with
  | [] => inl []
  | _ :: _ =>
      read_channels (map_to_list (filter (fun row => snd (fst row) = key /\ fst (fst row) ∈ ids) (bs_channels db)))
  end.

(** An external identifier that is known already keeps the key it has. *)
Definition SaveUnknown (key id : text) (db : store) : store :=
  match unknown_configs db !! id with
  | Some _ => db
  | None => Store (configs db) (bs_channels db) (links db) (<[id := key]> (unknown_configs db))
  end.

Definition unknown_config (row : text * text) : config :=
  Config [] [] [] [] [] [] [] [] (fst row) (snd row) [] Inactive.

Definition page_or_empty (offset limit : Z) (rows : list config) : configs_page :=
  match paged rows offset limit with
  | Ok p => ConfigsPage (pg_total p) offset limit (pg_items p)
  | Err _ => empty_page
  end.

Definition RetrieveUnknown (offset limit : Z) (db : store) : configs_page :=
  page_or_empty offset limit (unknown_config <$> map_to_list (unknown_configs db)).

Definition RemoveThing (id : text) (db : store) : store :=
  cleanup (delete_configs (fun k => bool_decide (fst k = id)) db).

Definition UpdateChannel (ch : bs_channel) (db : store) : store :=
  Store (configs db)
    (map_imap (fun k r => Some (if bool_decide (fst k = bc_id ch) then toDBChannel ch else r)) (bs_channels db))
    (links db) (unknown_configs db).

Definition RemoveChannel (id : text) (db : store) : store :=
  Store (configs db) (filter (fun row => fst (fst row) <> id) (bs_channels db))
    (filter (fun l => fst (snd l) <> id) (links db)) (unknown_configs db).

(** The condition of [DisconnectThing] says nothing about the rows updated: where
    the connection exists, all of them are. *)
Definition DisconnectThing (channelID thingID : text) (db : store) : store :=
  if existsb (fun l => bool_decide (fst (fst l) = thingID /\ fst (snd l) = channelID)) (elements (links db))
  then with_configs db (set_state Inactive <$> configs db)
  else db.

(** *** Listings *)

Section Listing.
Variable lower : text -> text.                       (* [LOWER] *)
Variable int8in : text -> option Z.                  (* the input of [BIGINT] *)
Variable by_thing : list config -> list config.      (* [ORDER BY mainflux_thing], in the collation of the table *)

Fixpoint trim_right (s : text) : text :=
  match s with
  | [] => []
  | c :: s1 => if all_spaces s then [] else c :: trim_right s1
  end.

(** The condition of a column, where the column exists and the value can be
    compared with it. *)
Definition full_match (kv : text * text) : option (config_row -> bool) :=
  let '(column, v) := kv in
  if bool_decide (column = js "state") then
    match int8in v with Some n => Some (fun r => cr_state r =? n) | None => None end
  else if bool_decide (column = js "external_id") then Some (fun r => bool_decide (cr_external_id r = v))
  else if bool_decide (column = js "mainflux_key") then
    Some (fun r => bool_decide (trim_right (cr_key r) = trim_right v))
  else None.

Definition partial_match (kv : text * text) : option (config_row -> bool) :=
  let '(column, v) := kv in
  if bool_decide (column = js "name") then
    Some (fun r => match cr_name r with
                   | Some n => like (PERCENT_SIGN :: v ++ [PERCENT_SIGN]) (lower n)
                   | None => false
                   end)
  else None.

(** [retrieveAll]: the conditions, or a query that fails. *)
Definition conditions (f : filters) : option (list (config_row -> bool)) :=
  mapM id ((full_match <$> FullMatch f) ++ (partial_match <$> PartialMatch f)).

Definition RetrieveAll (key : text) (f : filters) (offset limit : Z) (db : store) : configs_page :=
  match conditions f with
  | None => empty_page
  | Some cs =>
      page_or_empty offset limit
        (by_thing ((fun row => toConfig (fst row) (without_certs (snd row)) []) <$>
           map_to_list (filter (fun row => snd (fst row) = key /\ forallb (fun c => c (snd row)) cs = true)
                          (configs db))))
  end.

End Listing.
End Operations.
End ConfigRepository.
