(* ===== verification/ConfigCipher.v ===== *)
(** * Encrypted bootstrapping

    The cipher of [bootstrap/reader.go] and of [dec] in [bootstrap/service.go]:
    AES in cipher feedback mode, as [crypto/cipher] runs it, behind an
    initialisation vector; a device sends its key encrypted and in hexadecimal. *)

From S2P Require Import Prelude JsString Utf8 ThingsCache Things ThingsList ThingsEvents Base64 GoCodec ConfigStore.

Local Open Scope Z_scope.

(** ** Hexadecimal *)

(** [encoding/hex]. *)
Definition hex_char (n : Z) : Z := if n <? 10 then 48 + n else 87 + n.
Definition fromHexChar (c : Z) : option Z :=
  if (48 <=? c) && (c <=? 57) then Some (c - 48)
  else if (97 <=? c) && (c <=? 102) then Some (c - 87)
  else if (65 <=? c) && (c <=? 70) then Some (c - 55)
  else None.

Fixpoint hex_encode (b : bytes) : bytes :=
  match b with
  | [] => []
  | c :: b => hex_char (Z.shiftr c 4) :: hex_char (Z.land c 15) :: hex_encode b
  end.

Fixpoint hex_decode (s : bytes) : option bytes :=
  match s with
  | [] => Some []
  | [_] => None
  | a :: b :: s =>
      match fromHexChar a, fromHexChar b, hex_decode s with
      | Some h, Some l, Some r => Some (Z.lor (Z.shiftl h 4) l :: r)
      | _, _, _ => None
      end
  end.

(** ** Cipher feedback *)

Definition BlockSize : nat := 16.

(** [aes.NewCipher] for a key, with the encryption of a block. *)
Class Aes := new_cipher : bytes -> option (bytes -> bytes).
Class AesOk (A : Aes) : Prop :=
  block_length : forall key E b, new_cipher key = Some E -> length b = BlockSize -> length (E b) = BlockSize.

Section Cfb.
Variable E : bytes -> bytes.

(** [XORKeyStream], byte by byte: [out] is the unused rest of the encrypted block,
    [next] what there is of the next one, the bytes of the ciphertext. *)
Fixpoint cfb (decrypt : bool) (out next src : bytes) : bytes :=
  match src with
  | [] => []
  | b :: src =>
      let '(out, next) := match out with [] => (E next, []) | _ :: _ => (out, next) end in
      match out with
      | [] => []
      | k :: out =>
          let c := Z.lxor b k in
          c :: cfb decrypt out (next ++ [if decrypt then b else c]) src
      end
  end.

(** A new stream starts with all of its block used. *)
Definition cfb_stream (decrypt : bool) (iv src : bytes) : bytes := cfb decrypt [] iv src.

End Cfb.

Section Encryption.
Context {A : Aes}.
Variable encKey : bytes.

(** [reader.encrypt], with the vector that was drawn. *)
Definition encrypt (iv input : bytes) : bytes + bs_error :=
  match new_cipher encKey with
  | None => inr BsOther
  | Some E => inl (iv ++ cfb_stream E false iv input)
  end.

(** The decryption of a message with its vector. *)
Definition decrypt (ciphertext : bytes) : bytes + bs_error :=
  match new_cipher encKey with
  | None => inr BsOther
  | Some E =>
      if (length ciphertext <? BlockSize)%nat then inr BsMalformed
      else inl (cfb_stream E true (take BlockSize ciphertext) (drop BlockSize ciphertext))
  end.

(** [dec]. *)
Definition dec (input : bytes) : bytes + bs_error :=
  match hex_decode input with
  | None => inr BsNotFound
  | Some ciphertext => decrypt ciphertext
  end.

End Encryption.

(** ** Round trips *)

(** The two digits of a byte. *)
Definition digits_back (b : Z) : bool :=
  match fromHexChar (hex_char (Z.shiftr b 4)), fromHexChar (hex_char (Z.land b 15)) with
  | Some h, Some l => Z.lor (Z.shiftl h 4) l =? b
  | _, _ => false
  end.

Lemma digits_of_byte b : is_byte b -> digits_back b = true.
Proof. apply (all_bytes_spec digits_back). vm_compute. reflexivity. Qed.

Lemma hex_round_trip b : Forall is_byte b -> hex_decode (hex_encode b) = Some b.
Proof.
  induction 1 as [|c b Hc _ IH]; [done|]. cbn [hex_encode hex_decode].
  pose proof (digits_of_byte c Hc) as Hd. unfold digits_back in Hd.
  destruct (fromHexChar _); [|done]. destruct (fromHexChar _); [|done].
  rewrite IH. apply Z.eqb_eq in Hd. by rewrite Hd.
Qed.

(** Hexadecimal digits are characters of one byte. *)
Lemma utf8_hex b : Forall is_byte b -> utf8 (hex_encode b) = hex_encode b.
Proof.
  assert (Hd : forall n, 0 <= n < 16 -> hex_char n < 128).
  { intros n Hn. unfold hex_char. destruct (n <? 10); lia. }
  induction 1 as [|c b Hc _ IH]; [done|]. cbn [hex_encode]. unfold is_byte in Hc.
  rewrite !utf8_cons_ascii; [by rewrite IH|apply Hd..].
  - change 15 with (Z.ones 4). rewrite Z.land_ones by lia. apply Z.mod_pos_bound. lia.
  - rewrite Z.shiftr_div_pow2 by lia. change (2 ^ 4) with 16. Z.to_euclidean_division_equations; lia.
Qed.

Section Cipher.
Variable E : bytes -> bytes.
Hypothesis Elen : forall b, length b = BlockSize -> length (E b) = BlockSize.

(** Encryption and decryption run over the same blocks, which are never used up
    before there is the ciphertext of the next one. *)
Lemma cfb_round_trip out next src :
  (length out + length next = BlockSize)%nat -> cfb E true out next (cfb E false out next src) = src.
Proof.
  revert out next. induction src as [|b src IH]; intros out next Hlen; [done|]. cbn [cfb].
  destruct out as [|k out].
  - pose proof (Elen next Hlen) as HE. destruct (E next) as [|k ks] eqn:Ek; [done|]. cbn [cfb].
    rewrite Ek. cbn beta iota zeta. rewrite Z.lxor_assoc, Z.lxor_nilpotent, Z.lxor_0_r. f_equal. apply IH. simpl in *. lia.
  - cbn [cfb]. rewrite Z.lxor_assoc, Z.lxor_nilpotent, Z.lxor_0_r. f_equal. apply IH. rewrite length_app. simpl in *. lia.
Qed.

End Cipher.

Lemma decrypt_encrypt {A : Aes} {AOk : AesOk A} encKey iv input body :
  length iv = BlockSize -> encrypt encKey iv input = inl body -> decrypt encKey body = inl input.
Proof.
  intros Hiv. unfold encrypt, decrypt. destruct (new_cipher encKey) as [E|] eqn:HE; [|done]. intros [= <-].
  assert ((length (iv ++ cfb_stream E false iv input) <? BlockSize)%nat = false) as ->.
  { apply Nat.ltb_ge. rewrite length_app. lia. }
  rewrite take_length_app_eq, drop_length_app_eq by done.
  unfold cfb_stream. f_equal. apply cfb_round_trip; [|simpl; lia].
  intros b Hb. by eapply block_length.
Qed.
