(* ===== verification/Bootstrap.v ===== *)
(** * The Bootstrap service

    The service of [bootstrap/service.go] on its repository, with the checks of
    its HTTP API ([bootstrap/api/]), the answer for a device
    ([bootstrap/reader.go]), and the handlers of the events of the Things service
    ([bootstrap/redis/consumer/streams.go]).  The Things service is reached through
    the interface [Sdk]. *)

From S2P Require Import Prelude JsString Utf8 ThingsCache Things ThingsList ThingsEvents GoCodec ConfigStore ConfigCipher.
From stdpp Require Import gmap sets.

Local Open Scope Z_scope.

(** ** The Things service, as the SDK gives access to it *)

Inductive sdk_error := SdkUnauthorized | SdkNotFound | SdkInvalidArgs | SdkFailed.

#[export] Instance sdk_error_eq_dec : EqDecision sdk_error.
Proof. solve_decision. Defined.

Record sdk_thing := SdkThing { st_id : text; st_key : text }.

(** The calls, each with the token it is made with; [T] is what is behind them. *)
Class Sdk (T : Type) := {
  sdk_create_thing : text -> T -> T * (text + sdk_error);
  sdk_thing_of : text -> text -> T -> T * (sdk_thing + sdk_error);        (* id, token *)
  sdk_delete_thing : text -> text -> T -> T * (unit + sdk_error);
  sdk_channel_of : text -> text -> T -> T * (bs_channel + sdk_error);
  sdk_connect : text -> text -> text -> T -> T * (unit + sdk_error);      (* thing, channel, token *)
  sdk_disconnect : text -> text -> text -> T -> T * (unit + sdk_error)
}.

(** The order in which Go ranges over the keys of a map. *)
Definition range_order : Type := gset text -> list text.
Definition ranges (f : range_order) : Prop := forall s, f s ≡ₚ elements s.

(** ** Actions: programs that change the world and may return an error *)

Record world (T : Type) := World { remote : T; repo : store }.
Arguments World {T}.
Arguments remote {T}.
Arguments repo {T}.

Definition action (T A : Type) : Type := world T -> world T * (A + bs_error).

Section Actions.
Context {T : Type}.

Definition give {A} (a : A) : action T A := fun w => (w, inl a).
Definition raise {A} (e : bs_error) : action T A := fun w => (w, inr e).
Definition bind {A B} (m : action T A) (k : A -> action T B) : action T B :=
  fun w => match m w with (w, inl a) => k a w | (w, inr e) => (w, inr e) end.

(** A call of the SDK, a query of the repository, a change of it. *)
Definition call {A} (f : T -> T * (A + sdk_error)) : action T (A + sdk_error) :=
  fun w => let '(t, r) := f (remote w) in (World t (repo w), inl r).
Definition query {A} (f : store -> A + bs_error) : action T A := fun w => (w, f (repo w)).
Definition execute (f : store -> store + bs_error) : action T unit :=
  fun w => match f (repo w) with
           | inl db => (World (remote w) db, inl tt)
           | inr e => (w, inr e)
           end.

End Actions.

Notation "x <- m ;; k" := (bind m (fun x => k)) (at level 60, m at next level, right associativity).
Notation "m ;;; k" := (bind m (fun _ => k)) (at level 60, right associativity).

(** ** The service *)

Section Service.
Context {T : Type} `{ST : Sdk T} {JT : JsonText} {A : Aes}.
Variable auth : text -> option text.
Variable range : range_order.

Abbreviation action := (action T).

Definition identify (token : text) : action text :=
  match auth token with None => raise BsUnauthorized | Some owner => give owner end.

Definition toIDList (chs : list bs_channel) : list text := bc_id <$> chs.

(** [thing]: a new one where no identifier is given.  The thing that could not be
    fetched is deleted when an identifier was given. *)
Definition thing (key id : text) : action sdk_thing :=
  thingID <- match id with
             | [] => r <- call (sdk_create_thing key) ;;
                     match r with inl id => give id | inr _ => raise BsOther end
             | _ :: _ => give id
             end ;;
  r <- call (sdk_thing_of thingID key) ;;
  match r with
  | inl th => give th
  | inr SdkNotFound => raise BsNotFound
  | inr _ =>
      match id with
      | [] => raise BsThings
      | _ :: _ => call (sdk_delete_thing thingID key) ;;; raise BsThings
      end
  end.

Fixpoint fetch_channels (ids : list text) (key : text) : action (list bs_channel) :=
  match ids with
  | [] => give []
  | id :: ids =>
      r <- call (sdk_channel_of id key) ;;
      match r with
      | inr _ => raise BsMalformed
      | inl ch => chs <- fetch_channels ids key ;; give (ch :: chs)
      end
  end.

Definition connectionChannels (channels existing : list text) (key : text) : action (list bs_channel) :=
  fetch_channels (range (list_to_set channels ∖ list_to_set existing)) key.

Definition with_thing (cfg : config) (owner : text) (th : sdk_thing) (chs : list bs_channel) : config :=
  Config (st_id th) owner (Name cfg) (ClientCert cfg) (ClientKey cfg) (CACert cfg) (st_key th) chs
    (ExternalID cfg) (ExternalKey cfg) (Content cfg) Inactive.

Definition set_channels (cfg : config) (id : text) (chs : list bs_channel) : config :=
  Config id (Owner cfg) (Name cfg) (ClientCert cfg) (ClientKey cfg) (CACert cfg) (MFKey cfg) chs
    (ExternalID cfg) (ExternalKey cfg) (Content cfg) (State cfg).

(** [configs.Save], where the error is handled by the caller. *)
Definition save (cfg : config) (toConnect : list text) : action (text + bs_error) :=
  fun w => match ConfigRepository.Save cfg toConnect (repo w) with
           | inl (id, db) => (World (remote w) db, inl (inl id))
           | inr e => (w, inl (inr e))
           end.

Definition Add (key : text) (cfg : config) : action config :=
  owner <- identify key ;;
  let toConnect := toIDList (MFChannels cfg) in
  existing <- query (ConfigRepository.ListExisting owner toConnect) ;;
  chs <- connectionChannels toConnect (toIDList existing) key ;;
  let id := MFThing cfg in
  th <- thing key id ;;
  let cfg := with_thing cfg owner th chs in
  saved <- save cfg toConnect ;;
  match saved with
  | inl saved => give (set_channels cfg saved (MFChannels cfg ++ existing))
  | inr e =>
      match id with
      | [] => call (sdk_delete_thing (MFThing cfg) key) ;;; raise e
      | _ :: _ => raise e
      end
  end.

Definition View (key id : text) : action config :=
  owner <- identify key ;; query (ConfigRepository.RetrieveByID owner id).

Definition Update (key : text) (cfg : config) : action unit :=
  owner <- identify key ;;
  execute (ConfigRepository.Update
    (Config (MFThing cfg) owner (Name cfg) (ClientCert cfg) (ClientKey cfg) (CACert cfg) (MFKey cfg)
       (MFChannels cfg) (ExternalID cfg) (ExternalKey cfg) (Content cfg) (State cfg))).

Definition UpdateCert (key thingID clientCert clientKey caCert : text) : action unit :=
  owner <- identify key ;; execute (ConfigRepository.UpdateCert owner thingID clientCert clientKey caCert).

(** [updateList]: a map of what is left to disconnect, and the list of what is to
    be connected. *)
Fixpoint update_list (disconnect : gset text) (connections : list text) : list text * gset text :=
  match connections with
  | [] => ([], disconnect)
  | c :: connections =>
      if bool_decide (c ∈ disconnect) then update_list (disconnect ∖ {[c]}) connections
      else let '(add, rest) := update_list disconnect connections in (c :: add, rest)
  end.

Definition updateList (cfg : config) (connections : list text) : list text * list text :=
  let '(add, rest) := update_list (list_to_set (toIDList (MFChannels cfg))) connections in (add, range rest).

(** The loop that disconnects: what is not there is skipped. *)
Fixpoint disconnect_all (id : text) (chs : list text) (key : text) : action unit :=
  match chs with
  | [] => give tt
  | c :: chs =>
      r <- call (sdk_disconnect id c key) ;;
      match r with
      | inl _ | inr SdkNotFound => disconnect_all id chs key
      | inr _ => raise BsThings
      end
  end.

(** The loops that connect, with what they make of a missing entity. *)
Fixpoint connect_each (missing : bs_error) (id : text) (chs : list text) (key : text) : action unit :=
  match chs with
  | [] => give tt
  | c :: chs =>
      r <- call (sdk_connect id c key) ;;
      match r with
      | inl _ => connect_each missing id chs key
      | inr SdkNotFound => raise missing
      | inr _ => raise BsThings
      end
  end.

Definition UpdateConnections (key id : text) (connections : list text) : action unit :=
  owner <- identify key ;;
  cfg <- query (ConfigRepository.RetrieveByID owner id) ;;
  let '(add, remove) := updateList cfg connections in
  existing <- query (ConfigRepository.ListExisting owner connections) ;;
  chs <- connectionChannels connections (toIDList existing) key ;;
  let '(connect, disconnect) := if State cfg =? Active then (add, remove) else ([], []) in
  disconnect_all id disconnect key ;;;
  connect_each BsMalformed id connect key ;;;
  execute (ConfigRepository.UpdateConnections owner id chs connections).

Definition Remove (key id : text) : action unit :=
  owner <- identify key ;; execute (fun db => inl (ConfigRepository.Remove owner id db)).

(** The key of a device: as it is, or encrypted. *)
Definition key_matches (encKey : bytes) (secure : bool) (externalKey : text) (cfg : config) : bool + bs_error :=
  if secure then
    let* key := dec encKey (utf8 externalKey) in inl (bool_decide (utf8 (ExternalKey cfg) = key))
  else inl (bool_decide (ExternalKey cfg = externalKey)).

Definition Bootstrap (encKey : bytes) (externalKey externalID : text) (secure : bool) : action config :=
  fun w =>
    match ConfigRepository.RetrieveByExternalID externalID (repo w) with
    | inr BsNotFound =>
        (World (remote w) (ConfigRepository.SaveUnknown externalKey externalID (repo w)), inr BsNotFound)
    | inr e => (w, inr e)
    | inl cfg =>
        match key_matches encKey secure externalKey cfg with
        | inr e => (w, inr e)
        | inl false => (w, inr BsNotFound)
        | inl true => (w, inl cfg)
        end
    end.

Definition ChangeState (key id : text) (state : Z) : action unit :=
  owner <- identify key ;;
  cfg <- query (ConfigRepository.RetrieveByID owner id) ;;
  if State cfg =? state then give tt
  else
    (if state =? Active then connect_each BsThings (MFThing cfg) (toIDList (MFChannels cfg)) key
     else if state =? Inactive then disconnect_all (MFThing cfg) (toIDList (MFChannels cfg)) key
     else give tt) ;;;
    execute (ConfigRepository.ChangeState owner id state).

Section Listing.
Variables (lower : text -> text) (int8in : text -> option Z) (by_thing : list config -> list config).

Definition List (key : text) (f : filters) (offset limit : Z) : action configs_page :=
  owner <- identify key ;;
  if Unknown f then query (fun db => inl (ConfigRepository.RetrieveUnknown offset limit db))
  else query (fun db => inl (ConfigRepository.RetrieveAll lower int8in by_thing owner f offset limit db)).

End Listing.

(** ** The HTTP API *)

(** Requests as decoded; [QAdd] has the fields of [addReq] in a configuration. *)
Inductive bs_request :=
| QAdd (key : text) (cfg : config) (channels : list text)
| QView (key id : text)
| QUpdate (key id name content : text)
| QUpdateCert (key thingID clientCert clientKey caCert : text)
| QUpdateConn (key id : text) (channels : list text)
| QList (key : text) (f : filters) (offset limit : Z)
| QRemove (key id : text)
| QBootstrap (key id : text) (secure : bool)
| QState (key id : text) (state : Z).

Definition page_limit (limit : Z) : Z :=
  let limit := if 100 <? limit then 100 else limit in if limit =? 0 then 10 else limit.

Definition validate_entity (key id : text) : option bs_error :=
  match key, id with
  | [], _ => Some BsUnauthorized
  | _, [] => Some BsMalformed
  | _, _ => None
  end.

(** [validate] of each request. *)
Definition validate (q : bs_request) : option bs_error :=
  match q with
  | QAdd [] _ _ | QUpdateCert [] _ _ _ _ | QList [] _ _ _ => Some BsUnauthorized
  | QAdd _ cfg _ => match ExternalID cfg, ExternalKey cfg with [], _ | _, [] => Some BsMalformed | _, _ => None end
  | QUpdateCert _ [] _ _ _ => Some BsNotFound
  | QUpdateCert _ _ _ _ _ => None
  | QList _ _ _ limit => if (limit =? 0) || (100 <? limit) then Some BsMalformed else None
  | QView key id | QUpdate key id _ _ | QUpdateConn key id _ | QRemove key id | QBootstrap key id _ =>
      validate_entity key id
  | QState key id state =>
      match validate_entity key id with
      | Some e => Some e
      | None => if negb (state =? Inactive) && negb (state =? Active) then Some BsMalformed else None
      end
  end.

Definition nameless_channel (id : text) : bs_channel := BsChannel id [] None.

(** The configuration that [addEndpoint] makes of its request. *)
Definition requested (cfg : config) (channels : list text) : config :=
  Config (MFThing cfg) [] (Name cfg) (ClientCert cfg) (ClientKey cfg) (CACert cfg) [] (nameless_channel <$> channels)
    (ExternalID cfg) (ExternalKey cfg) (Content cfg) Inactive.

Definition updated (id name content : text) : config :=
  Config id [] name [] [] [] [] [] [] [] content Inactive.

Definition when_valid {B} (q : bs_request) (m : action B) : action B :=
  match validate q with Some e => raise e | None => m end.

Section Endpoints.
Variables (lower : text -> text) (int8in : text -> option Z) (by_thing : list config -> list config).
Variable encKey : bytes.

Inductive bs_answer := Done_ | Location (id : text) | Viewed (cfg : config) | Listed (p : configs_page) | Delivered (cfg : config).

(** The endpoints: the check of the request, then the service. *)
Definition endpoint (q : bs_request) : action bs_answer :=
  when_valid q
    match q with
    | QAdd key cfg channels => saved <- Add key (requested cfg channels) ;; give (Location (MFThing saved))
    | QView key id => cfg <- View key id ;; give (Viewed cfg)
    | QUpdate key id name content => Update key (updated id name content) ;;; give Done_
    | QUpdateCert key id cert ckey ca => UpdateCert key id cert ckey ca ;;; give Done_
    | QUpdateConn key id channels => UpdateConnections key id channels ;;; give Done_
    | QList key f offset limit => p <- List lower int8in by_thing key f offset limit ;; give (Listed p)
    | QRemove key id => Remove key id ;;; give Done_
    | QBootstrap key id secure => cfg <- Bootstrap encKey key id secure ;; give (Delivered cfg)
    | QState key id state => ChangeState key id state ;;; give Done_
    end.

(** The world after a request. *)
Definition bs_serve (q : bs_request) (w : world T) : world T := fst (endpoint q w).

End Endpoints.

(** The user a request is made by; a device makes its own in nobody's name. *)
Definition bs_token (q : bs_request) : option text :=
  match q with
  | QAdd key _ _ | QView key _ | QUpdate key _ _ _ | QUpdateCert key _ _ _ _ | QUpdateConn key _ _
  | QList key _ _ _ | QRemove key _ | QState key _ _ => Some key
  | QBootstrap _ _ _ => None
  end.
Definition bs_user (q : bs_request) : option text := bs_token q ≫= auth.

End Service.

(** [encodeError]. *)
Definition bs_status (e : bs_error) : Z :=
  match e with
  | BsMalformed => 400
  | BsNotFound => 404
  | BsUnauthorized => 403
  | BsConflict => 409
  | BsThings => 503
  | BsOther => 500
  end.

(** ** The answer for a device *)

Section Reader.
Context {JT : JsonText} {A : Aes}.

Definition omitempty (name v : text) : list (text * json) :=
  match v with [] => [] | _ :: _ => [(name, JString v)] end.

Definition json_array (l : list json) : json :=
  JOther (js "[" ++ JsString.join COMMA (marshal <$> l) ++ js "]").

(** A map that is nil is not an empty interface, and written as null. *)
Definition channelRes (ch : bs_channel) : json :=
  JObject ([(js "id", JString (bc_id ch))] ++ omitempty (js "name") (bc_name ch)
    ++ [(js "metadata", match bc_meta ch with None => JOther (js "null") | Some m => JObject m end)]).

Definition bootstrapRes (cfg : config) : json :=
  JObject ([(js "mainflux_id", JString (MFThing cfg)); (js "mainflux_key", JString (MFKey cfg));
            (js "mainflux_channels",
               match MFChannels cfg with
               | [] => JOther (js "null")
               | _ :: _ => json_array (channelRes <$> MFChannels cfg)
               end)]
    ++ omitempty (js "content") (Content cfg) ++ omitempty (js "client_cert") (ClientCert cfg)
    ++ omitempty (js "client_key") (ClientKey cfg) ++ omitempty (js "ca_cert") (CACert cfg)).

(** [ReadConfig], as the bytes of the body. *)
Definition ReadConfig (encKey iv : bytes) (cfg : config) (secure : bool) : bytes + bs_error :=
  let body := utf8 (marshal (bootstrapRes cfg)) in
  if secure then encrypt encKey iv body else inl body.

(** [bootstrapEndpoint], with the body. *)
Definition bootstrap_endpoint {T} (encKey iv : bytes) (key id : text) (secure : bool) : action T bytes :=
  match validate (QBootstrap key id secure) with
  | Some e => raise e
  | None => fun w =>
      match Bootstrap encKey key id secure w with
      | (w, inl cfg) => (w, ReadConfig encKey iv cfg secure)
      | (w, inr e) => (w, inr e)
      end
  end.

End Reader.

(** ** The events of the Things service *)

Section Events.
Context {JT : JsonText}.

(** [decodeUpdateChannel]: [Unmarshal] is given the map itself, where it needs a
    pointer to it, and always fails. *)
Definition decodeUpdateChannel (e : event) : bs_channel :=
  BsChannel (read e (js "id") []) (read e (js "name") []) (Some []).

Definition bs_handle (e : event) (db : store) : store * option handle_error :=
  let op := operation e in
  if bool_decide (op = thingRemove) then (ConfigRepository.RemoveThing (read e (js "id") []) db, None)
  else if bool_decide (op = thingDisconnect) then
    (ConfigRepository.DisconnectThing (read e (js "chan_id") []) (read e (js "thing_id") []) db, None)
  else if bool_decide (op = channelUpdate) then (ConfigRepository.UpdateChannel (decodeUpdateChannel e) db, None)
  else if bool_decide (op = channelRemove) then (ConfigRepository.RemoveChannel (read e (js "id") []) db, None)
  else (db, None).

End Events.
