(* ===== verification/ConfigStoreSafety.v ===== *)
(** * What the tables of the Bootstrap service keep

    The invariant of the tables with its preservation by the queries, and the rows
    of one user, which the queries of others leave alone. *)

From S2P Require Import Prelude JsString ThingsCache Things ThingsList ThingsEvents ConfigStore.
From stdpp Require Import gmap sets.

Local Open Scope Z_scope.

Section Store.
Context {JT : JsonText}.

(** Identifiers are unique whoever owns them, a connection joins rows of one
    owner, and what is stored of a channel can be read back. *)
Record tables_ok (db : store) : Prop := {
  ok_config k k' : is_Some (configs db !! k) -> is_Some (configs db !! k') -> fst k = fst k' -> k = k';
  ok_channel k k' : is_Some (bs_channels db !! k) -> is_Some (bs_channels db !! k') -> fst k = fst k' -> k = k';
  ok_external k k' r r' :
    configs db !! k = Some r -> configs db !! k' = Some r' -> cr_external_id r = cr_external_id r' -> k = k';
  ok_link k h : (k, h) ∈ links db ->
    snd k = snd h /\ is_Some (configs db !! k) /\ is_Some (bs_channels db !! h);
  ok_meta h r : bs_channels db !! h = Some r -> is_Some (toChannel (fst h) r)
}.

(** A channel is kept for the connections it has. *)
Definition linked (db : store) : Prop := forall h, is_Some (bs_channels db !! h) -> exists k, (k, h) ∈ links db.

Definition store_ok (db : store) : Prop := tables_ok db /\ linked db.

(** The rows of an owner. *)
Record tenant_rows (e : text) (db db' : store) : Prop := {
  same_configs id : configs db' !! (id, e) = configs db !! (id, e);
  same_channels id : bs_channels db' !! (id, e) = bs_channels db !! (id, e);
  same_links id h : ((id, e), h) ∈ links db' <-> ((id, e), h) ∈ links db
}.

Lemma tenant_rows_refl e db : tenant_rows e db db.
Proof. done. Qed.

Lemma tenant_rows_trans e db1 db2 db3 : tenant_rows e db1 db2 -> tenant_rows e db2 db3 -> tenant_rows e db1 db3.
Proof. intros [H1 H2 H3] [H4 H5 H6]. split; intros; [by rewrite H4|by rewrite H5|by rewrite H6]. Qed.

Lemma empty_store_ok : store_ok empty_store.
Proof.
  split; [split; unfold empty_store; simpl|].
  - intros k k' [r H]. by rewrite lookup_empty in H.
  - intros k k' [r H]. by rewrite lookup_empty in H.
  - intros k k' r r' H. by rewrite lookup_empty in H.
  - intros k h H. by apply not_elem_of_empty in H.
  - intros h r H. by rewrite lookup_empty in H.
  - intros h [r H]. unfold empty_store in H. simpl in H. by rewrite lookup_empty in H.
Qed.

(** ** Reading *)

Lemma config_taken_spec db k r :
  config_taken db k r = false <-> forall k' r', configs db !! k' = Some r' -> repeats k r k' r' = false.
Proof.
  unfold config_taken. rewrite <- not_true_iff_false, existsb_exists. split.
  - intros H k' r' Hk. apply not_true_iff_false. intros Hr. apply H. exists (k', r').
    split; [|done]. by apply list_elem_of_In, elem_of_map_to_list.
  - intros H ([k' r'] & Hin%list_elem_of_In%elem_of_map_to_list & Hr). simpl in Hr.
    rewrite (H _ _ Hin) in Hr. done.
Qed.

Lemma repeats_false k r k' r' :
  repeats k r k' r' = false <-> fst k' <> fst k /\ cr_key r' <> cr_key r /\ cr_external_id r' <> cr_external_id r.
Proof. unfold repeats. rewrite !orb_false_iff, !bool_decide_eq_false. tauto. Qed.

Lemma channel_taken_spec db id :
  channel_taken db id = false <-> forall h, is_Some (bs_channels db !! h) -> fst h <> id.
Proof.
  unfold channel_taken. rewrite <- not_true_iff_false, existsb_exists. split.
  - intros H h [r Hr] Hid. apply H. exists (h, r).
    split; [by apply list_elem_of_In, elem_of_map_to_list|]. by apply bool_decide_eq_true.
  - intros H ([h r] & Hin%list_elem_of_In%elem_of_map_to_list & Hid). simpl in Hid.
    apply bool_decide_eq_true in Hid. by apply (H h); [eexists|].
Qed.

Lemma toChannel_toDBChannel {JOk : JsonTextOk JT} {JN : JsonNull JT} ch :
  toChannel (bc_id ch) (toDBChannel ch) = Some ch.
Proof.
  destruct ch as [id name m]. unfold toChannel, toDBChannel, unmarshal_map, marshal_map. simpl.
  destruct m as [m|].
  - rewrite bool_decide_eq_false_2 by apply marshal_not_null. rewrite unmarshal_marshal_object. simpl.
    by destruct name.
  - simpl. by destruct name.
Qed.

Lemma joined_spec db k h r :
  tables_ok db -> (h, r) ∈ ConfigRepository.joined k db <-> bs_channels db !! h = Some r /\ (k, h) ∈ links db.
Proof.
  intros Hok. unfold ConfigRepository.joined. rewrite list_elem_of_bind. split.
  - intros ([h' r'] & Hin & Hrow%elem_of_map_to_list). apply list_elem_of_fmap in Hin as (l & [= -> ->] & Hl).
    apply elem_of_elements, elem_of_filter in Hl as [(E1 & E2 & E3) Hl]. destruct l as [k2 h2]. simpl in *. subst k2.
    split; [done|]. destruct (ok_link _ Hok _ _ Hl) as (_ & _ & Hr2).
    assert (h2 = h') as ->; [|done]. by apply (ok_channel _ Hok); [|eexists|].
  - intros [Hr Hl]. exists (h, r). split; [|by apply elem_of_map_to_list].
    apply list_elem_of_fmap. exists (k, h). split; [done|]. apply elem_of_elements, elem_of_filter. simpl.
    split; [|done]. split_and!; [done|done|]. by destruct (ok_link _ Hok _ _ Hl) as (-> & _).
Qed.

Lemma read_channels_total db rows :
  tables_ok db -> (forall row, row ∈ rows -> bs_channels db !! fst row = Some (snd row)) ->
  exists chs, ConfigRepository.read_channels rows = inl chs /\
    bc_id <$> chs = (fun row => fst (fst row)) <$> rows /\
    forall ch, ch ∈ chs -> exists row, row ∈ rows /\ toChannel (fst (fst row)) (snd row) = Some ch.
Proof.
  intros Hok Hrows. unfold ConfigRepository.read_channels.
  assert (Hs : is_Some (mapM (fun row : row_key * channel_row => toChannel (fst (fst row)) (snd row)) rows)).
  { apply mapM_is_Some, Forall_forall. intros row Hin. apply (ok_meta _ Hok (fst row)). auto. }
  destruct Hs as [chs Hs]. rewrite Hs. exists chs. split; [done|]. apply mapM_Some in Hs. clear Hrows.
  induction Hs as [|row ch rows chs Hr Hs IH]; [split; [done|]; by intros ? ?%not_elem_of_nil|].
  destruct IH as [IH1 IH2]. split.
  - csimpl. rewrite IH1. f_equal. unfold toChannel in Hr. destruct (unmarshal_map _); [|done]. by injection Hr as <-.
  - intros c [->|Hc]%elem_of_cons; [exists row; by split; [left|]|].
    destruct (IH2 _ Hc) as (row' & Hrow & Hc'). exists row'. by split; [right|].
Qed.

(** The channels of a configuration: those it is connected with. *)
Lemma joined_channels db k :
  tables_ok db -> exists chs, ConfigRepository.read_channels (ConfigRepository.joined k db) = inl chs /\
    forall c, c ∈ bc_id <$> chs <-> (k, (c, snd k)) ∈ links db.
Proof.
  intros Hok. destruct (read_channels_total db (ConfigRepository.joined k db) Hok) as (chs & Hc & Hids & _).
  { intros [h r] H%(joined_spec _ _ _ _ Hok). by destruct H. }
  exists chs. split; [done|]. intros c. rewrite Hids, list_elem_of_fmap. split.
  - intros ([h r] & -> & H%(joined_spec _ _ _ _ Hok)). simpl. destruct H as [_ Hl].
    destruct (ok_link _ Hok _ _ Hl) as (-> & _). by destruct h.
  - intros Hl. destruct (ok_link _ Hok _ _ Hl) as (_ & _ & [r Hr]). exists ((c, snd k), r).
    split; [done|]. by apply joined_spec.
Qed.

(** A configuration that is read, with its channels. *)
Lemma RetrieveByID_inv owner id db cfg :
  tables_ok db -> ConfigRepository.RetrieveByID owner id db = inl cfg ->
  exists r, configs db !! (id, owner) = Some r /\ State cfg = cr_state r /\ MFThing cfg = id /\
    forall c, c ∈ bc_id <$> MFChannels cfg <-> ((id, owner), (c, owner)) ∈ links db.
Proof.
  intros Hok. unfold ConfigRepository.RetrieveByID. destruct (configs db !! (id, owner)) as [r|]; [|done].
  destruct (joined_channels db (id, owner) Hok) as (chs & -> & Hc). intros [= <-]. exists r. by split_and!.
Qed.

Lemma ListExisting_spec owner ids db :
  tables_ok db -> exists chs, ConfigRepository.ListExisting owner ids db = inl chs /\
    forall c, c ∈ bc_id <$> chs <-> c ∈ ids /\ is_Some (bs_channels db !! (c, owner)).
Proof.
  intros Hok. unfold ConfigRepository.ListExisting. destruct ids as [|i ids].
  { exists []. split; [done|]. intros c. simpl. rewrite !elem_of_nil. tauto. }
  set (rows := map_to_list _).
  assert (Hin : forall h r, (h, r) ∈ rows <-> bs_channels db !! h = Some r /\ snd h = owner /\ fst h ∈ i :: ids).
  { intros h r. subst rows. by rewrite elem_of_map_to_list, map_lookup_filter_Some. }
  destruct (read_channels_total db rows Hok) as (chs & Hc & Hids & _).
  { intros [h r] H%Hin. by destruct H. }
  exists chs. split; [done|]. intros c. rewrite Hids, list_elem_of_fmap. split.
  - intros ([[h o] r] & -> & (Hr & Ho & Hi)%Hin). simpl in *. subst o. split; [done|by eexists].
  - intros [Hi [r Hr]]. exists ((c, owner), r). split; [done|]. by apply Hin.
Qed.

(** ** Inserting *)

Lemma insert_config_ok cfg db db' :
  tables_ok db -> insert_config cfg db = inl db' ->
  exists key, char36 (MFKey cfg) = Some key /\ configs db !! (MFThing cfg, Owner cfg) = None /\
    db' = with_configs db (<[(MFThing cfg, Owner cfg) := toDBConfig cfg key]> (configs db)) /\ tables_ok db'.
Proof.
  intros Hok. unfold insert_config. destruct (char36 _) as [key|]; [|done].
  set (k := (_, _)). set (r := toDBConfig cfg key).
  destruct (config_taken db k r) eqn:Ht; [done|]. intros [= <-]. exists key. split; [done|].
  pose proof (proj1 (config_taken_spec _ _ _) Ht) as Hf. setoid_rewrite repeats_false in Hf.
  assert (Hn : configs db !! k = None).
  { destruct (configs db !! k) eqn:E; [|done]. by destruct (Hf _ _ E) as [[] _]. }
  split; [done|]. split; [done|]. destruct Hok as [O1 O2 O3 O4 O5]. split; cbn [configs bs_channels links with_configs].
  - intros k1 k2 H1 H2 He. rewrite lookup_insert_is_Some in H1, H2.
    destruct H1 as [<-|[_ [r1 H1]]], H2 as [<-|[_ [r2 H2]]]; [done| | |by apply O1; [eexists..|]].
    + by destruct (Hf _ _ H2) as [[] _].
    + by destruct (Hf _ _ H1) as [[] _].
  - done.
  - intros k1 k2 r1 r2 H1 H2 He. rewrite lookup_insert_Some in H1, H2.
    destruct H1 as [[<- <-]|[_ H1]], H2 as [[<- <-]|[_ H2]]; [done| | |by eapply O3].
    + by destruct (Hf _ _ H2) as (_ & _ & []).
    + by destruct (Hf _ _ H1) as (_ & _ & []).
  - intros k1 h1 Hl. destruct (O4 _ _ Hl) as (Ho & Hk & Hh). split; [done|]. split; [|done].
    apply lookup_insert_is_Some. destruct (decide (k = k1)); [by left|by right].
  - done.
Qed.

Context {JOk : JsonTextOk JT} {JN : JsonNull JT}.

Lemma insert_channel_row_ok owner db ch db' :
  tables_ok db -> insert_channel_row owner db ch = inl db' ->
  bs_channels db !! (bc_id ch, owner) = None /\
  db' = Store (configs db) (<[(bc_id ch, owner) := toDBChannel ch]> (bs_channels db)) (links db)
          (unknown_configs db) /\ tables_ok db'.
Proof.
  intros Hok. unfold insert_channel_row. destruct (nullString owner) as [o|] eqn:Ho; [|done].
  assert (o = owner) as -> by (destruct owner; [done|by injection Ho]).
  destruct (channel_taken db _) eqn:Ht; [done|]. intros [= <-].
  pose proof (proj1 (channel_taken_spec _ _) Ht) as Hf. set (h := (bc_id ch, owner)).
  assert (Hn : bs_channels db !! h = None).
  { destruct (bs_channels db !! h) eqn:E; [|done]. by destruct (Hf h ltac:(by eexists)). }
  split; [done|]. split; [done|]. destruct Hok as [O1 O2 O3 O4 O5]. split; cbn [configs bs_channels links]; try done.
  - intros k1 k2 H1 H2 He. rewrite lookup_insert_is_Some in H1, H2.
    destruct H1 as [<-|[_ H1]], H2 as [<-|[_ H2]]; [done| | |by apply O2].
    + by destruct (Hf _ H2).
    + by destruct (Hf _ H1).
  - intros k1 h1 Hl. destruct (O4 _ _ Hl) as (Hs & Hk & Hh). split_and!; [done|done|].
    apply lookup_insert_is_Some. destruct (decide (h = h1)); [by left|by right].
  - intros h1 r1. rewrite lookup_insert_Some. intros [[<- <-]|[_ H]]; [|by apply O5].
    subst h. cbn [fst]. by rewrite toChannel_toDBChannel.
Qed.

Lemma foldl_error {A B E} (f : B -> A -> B + E) e l :
  foldl (fun r x => let* b := r in f b x) (inr e) l = inr e.
Proof. by induction l. Qed.

Lemma insertChannels_ok owner chs db db' :
  tables_ok db -> insertChannels owner chs db = inl db' ->
  tables_ok db' /\ configs db' = configs db /\ links db' = links db /\ unknown_configs db' = unknown_configs db /\
  (forall h r, bs_channels db !! h = Some r -> bs_channels db' !! h = Some r) /\
  (forall h, is_Some (bs_channels db' !! h) <->
     is_Some (bs_channels db !! h) \/ snd h = owner /\ fst h ∈ bc_id <$> chs).
Proof.
  unfold insertChannels. revert db. induction chs as [|ch chs IH]; intros db Hok; cbn [foldl].
  { intros [= <-]. split_and!; try done. intros h. simpl. rewrite elem_of_nil. tauto. }
  destruct (insert_channel_row owner db ch) as [db1|e] eqn:E1; [|by rewrite foldl_error].
  destruct (insert_channel_row_ok _ _ _ _ Hok E1) as (Hn & -> & Hok1). intros H.
  destruct (IH _ Hok1 H) as (Hok' & E2 & E3 & E4 & Hkeep & Hdom). cbn [configs bs_channels links unknown_configs] in *.
  split_and!; [done..| |].
  - intros h r Hr. apply Hkeep. rewrite lookup_insert_ne; [done|]. intros <-. congruence.
  - intros h. rewrite Hdom, lookup_insert_is_Some', fmap_cons, elem_of_cons. split.
    + intros [[<-|H1]|H1]; [right; simpl; auto|by left|right; tauto].
    + intros [H1|[<- [<-|H1]]]; [auto|left; left; by destruct h|auto].
Qed.

Definition links_of (k : row_key) (chs : list text) : gset link :=
  list_to_set ((fun c => (k, (c, snd k))) <$> chs).

Lemma elem_of_links_of k chs l : l ∈ links_of k chs <-> fst l = k /\ snd (snd l) = snd k /\ fst (snd l) ∈ chs.
Proof.
  unfold links_of. rewrite elem_of_list_to_set, list_elem_of_fmap. split; [by intros (c & -> & Hc)|].
  destruct l as [k' [c o]]. simpl. intros (-> & -> & Hc). by exists c.
Qed.

Definition with_links (db : store) (ls : gset link) : store := Store (configs db) (bs_channels db) ls (unknown_configs db).

Lemma insert_each_link k chs db db' :
  foldl (fun r ch => let* db := r in insert_link (k, (ch, snd k)) db) (inl db) chs = inl db' ->
  db' = with_links db (links_of k chs ∪ links db).
Proof.
  revert db. induction chs as [|ch chs IH]; intros db; cbn [foldl].
  { intros [= <-]. unfold with_links, links_of. simpl. destruct db. simpl. f_equal. set_solver. }
  unfold insert_link at 2. destruct (bool_decide _); [by rewrite foldl_error|].
  intros H%IH. subst db'. unfold with_links, links_of. cbn [configs bs_channels links unknown_configs].
  f_equal. rewrite fmap_cons, list_to_set_cons. set_solver.
Qed.

Lemma foreign_key_error_None k chs db :
  foreign_key_error k chs db = None <->
  (chs = [] \/ is_Some (configs db !! k)) /\ forall c, c ∈ chs -> is_Some (bs_channels db !! (c, snd k)).
Proof.
  induction chs as [|ch chs IH]; simpl.
  { split; [|done]. intros _. split; [by left|]. by intros ? ?%not_elem_of_nil. }
  case_bool_decide as Hc.
  { split; [done|]. intros [_ H]. destruct (H ch ltac:(by left)) as [r Hr]. congruence. }
  case_bool_decide as Hk; [split; [done|]|].
  { intros [[?|[r Hr]] _]; [done|congruence]. }
  rewrite IH. split.
  - intros [_ H]. split; [right; by apply not_eq_None_Some|].
    intros c [->|Hin]%elem_of_cons; [by apply not_eq_None_Some|auto].
  - intros [_ H]. split; [right; by apply not_eq_None_Some|]. intros c Hin. apply H. by right.
Qed.

Lemma insert_links_ok k chs db db' :
  tables_ok db -> insert_links k chs db = inl db' ->
  db' = with_links db (links_of k chs ∪ links db) /\ tables_ok db' /\
  forall c, c ∈ chs -> is_Some (bs_channels db !! (c, snd k)).
Proof.
  intros Hok. unfold insert_links. destruct (foldl _ _ _) as [db1|e] eqn:E; [|done].
  apply insert_each_link in E as ->. destruct (foreign_key_error _ _ _) eqn:F; [done|]. intros [= <-].
  apply foreign_key_error_None in F as [Hk Hc]. cbn [configs bs_channels with_links] in *.
  split; [done|]. split; [|done]. destruct Hok as [O1 O2 O3 O4 O5]. split; cbn [configs bs_channels links with_links]; try done.
  intros k1 h [Hl|Hl]%elem_of_union; [|by apply O4].
  apply elem_of_links_of in Hl as (E1 & E2 & Hin). destruct h as [c o]. simpl in *. subst.
  split; [done|]. split; [|by apply Hc]. destruct Hk as [->|?]; [|done]. by apply not_elem_of_nil in Hin.
Qed.

(** ** Deleting *)

Lemma cleanup_lookup db h r :
  bs_channels (cleanup db) !! h = Some r <->
  bs_channels db !! h = Some r /\ exists k o, (k, (fst h, o)) ∈ links db.
Proof.
  unfold cleanup. cbn [bs_channels]. rewrite map_lookup_filter_Some. apply and_iff_compat_l. cbn [fst snd].
  rewrite existsb_exists. split.
  - intros ([k [c o]] & Hl%list_elem_of_In%elem_of_elements & Hc%bool_decide_eq_true). simpl in Hc. subst c. eauto.
  - intros (k & o & Hl). exists (k, (fst h, o)). split; [by apply list_elem_of_In, elem_of_elements|].
    by apply bool_decide_eq_true.
Qed.

Lemma cleanup_ok db : tables_ok db -> tables_ok (cleanup db) /\ linked (cleanup db).
Proof.
  intros [O1 O2 O3 O4 O5].
  assert (Hsub : forall h r, bs_channels (cleanup db) !! h = Some r -> bs_channels db !! h = Some r).
  { by intros h r [? _]%cleanup_lookup. }
  split; [split; cbn [configs links cleanup]; try done|].
  - intros k1 k2 [r1 H1] [r2 H2]. apply O2; eexists; by apply Hsub.
  - intros k h Hl. destruct (O4 _ _ Hl) as (Ho & Hk & [r Hr]). split_and!; [done|done|].
    exists r. apply cleanup_lookup. split; [done|]. exists k, (snd h). by destruct h.
  - intros h r Hr%Hsub. by apply O5.
  - intros h [r [Hr (k & o & Hl)]%cleanup_lookup]. exists k. destruct (O4 _ _ Hl) as (_ & _ & Hh).
    assert ((fst h, o) = h) as <-; [|done]. by apply O2; [|eexists|].
Qed.

Lemma delete_configs_ok P db : tables_ok db -> tables_ok (delete_configs P db).
Proof.
  intros [O1 O2 O3 O4 O5]. split; cbn [configs bs_channels links delete_configs]; try done.
  - intros k1 k2 [r1 H1] [r2 H2]. apply map_lookup_filter_Some in H1 as [H1 _], H2 as [H2 _]. apply O1; by eexists.
  - intros k1 k2 r1 r2 H1 H2. apply map_lookup_filter_Some in H1 as [H1 _], H2 as [H2 _]. by eapply O3.
  - intros k h [HP Hl]%elem_of_filter. destruct (O4 _ _ Hl) as (Ho & [r Hr] & Hh). split_and!; [done| |done].
    exists r. by apply map_lookup_filter_Some.
Qed.

(** ** Updating *)

Lemma with_configs_ok db m :
  (forall k, is_Some (m !! k) <-> is_Some (configs db !! k)) ->
  (forall k r, m !! k = Some r -> exists r', configs db !! k = Some r' /\ cr_external_id r' = cr_external_id r) ->
  tables_ok db -> tables_ok (with_configs db m).
Proof.
  intros Hdom Hext [O1 O2 O3 O4 O5]. split; cbn [configs bs_channels links with_configs]; try done.
  - intros k1 k2. rewrite !Hdom. apply O1.
  - intros k1 k2 r1 r2 (r1' & H1 & E1)%Hext (r2' & H2 & E2)%Hext He. eapply O3; [done..|congruence].
  - intros k h Hl. destruct (O4 _ _ Hl) as (? & ? & ?). by rewrite Hdom.
Qed.

Lemma update_config_ok f k db db' :
  (forall r, cr_external_id (f r) = cr_external_id r) -> tables_ok db -> update_config f k db = inl db' ->
  exists r, configs db !! k = Some r /\ db' = with_configs db (<[k := f r]> (configs db)) /\ tables_ok db'.
Proof.
  intros Hf Hok. unfold update_config. destruct (configs db !! k) as [r|] eqn:E; [|done]. intros [= <-].
  exists r. split; [done|]. split; [done|]. apply with_configs_ok; [| |done].
  - intros k'. rewrite lookup_insert_is_Some'. split; [intros [<-|?]; [by eexists|done]|by right].
  - intros k' r'. rewrite lookup_insert_Some. intros [[<- <-]|[_ H]]; [exists r; by rewrite Hf|by exists r'].
Qed.

Lemma set_all_ok f db :
  (forall r, cr_external_id (f r) = cr_external_id r) -> tables_ok db -> tables_ok (with_configs db (f <$> configs db)).
Proof.
  intros Hf. apply with_configs_ok.
  - intros k. by rewrite lookup_fmap, fmap_is_Some.
  - intros k r. rewrite lookup_fmap, fmap_Some. intros (r' & Hr & ->). exists r'. by rewrite Hf.
Qed.

(** ** The operations of the repository *)

(** Channels that were fetched for the connections that need them: as many as
    there are identifiers without a row. *)
Definition fetched (db : store) (owner : text) (chs : list bs_channel) (conns : list text) : Prop :=
  exists ids, NoDup ids /\ length chs = length ids /\
    forall i, i ∈ ids -> i ∈ conns /\ bs_channels db !! (i, owner) = None.

(** By counting, their identifiers are those. *)
Lemma fetched_ids db db1 owner chs conns :
  tables_ok db -> fetched db owner chs conns -> insertChannels owner chs db = inl db1 ->
  (forall c, c ∈ conns -> is_Some (bs_channels db1 !! (c, owner))) -> forall c, c ∈ bc_id <$> chs -> c ∈ conns.
Proof.
  intros Hok (ids & Hnd & Hlen & Hids) H1 Hall c Hc.
  destruct (insertChannels_ok _ _ _ _ Hok H1) as (_ & _ & _ & _ & _ & Hdom).
  assert (Hsub : ids ⊆+ bc_id <$> chs).
  { apply NoDup_submseteq; [done|]. intros i Hi. destruct (Hids _ Hi) as [Hin Hn].
    destruct (proj1 (Hdom (i, owner)) (Hall _ Hin)) as [[r Hr]|[_ H]]; [congruence|done]. }
  apply submseteq_length_Permutation in Hsub; [|by rewrite length_fmap, Hlen].
  apply Hids. by rewrite Hsub.
Qed.

Lemma cleanup_same e db :
  (forall id, is_Some (bs_channels db !! (id, e)) -> exists k, (k, (id, e)) ∈ links db) -> tenant_rows e db (cleanup db).
Proof.
  intros Hl. split; [done| |done]. intros id.
  destruct (bs_channels db !! (id, e)) as [r|] eqn:E.
  - apply cleanup_lookup. split; [done|]. destruct (Hl id) as [k Hk]; [by eexists|]. by exists k, e.
  - destruct (bs_channels (cleanup db) !! (id, e)) eqn:E'; [|done]. apply cleanup_lookup in E' as [E' _]. congruence.
Qed.

Lemma insertChannels_same e owner chs db db' :
  owner <> e -> tables_ok db -> insertChannels owner chs db = inl db' -> tenant_rows e db db'.
Proof.
  intros Hne Hok H. destruct (insertChannels_ok _ _ _ _ Hok H) as (_ & E1 & E2 & _ & Hkeep & Hdom).
  split; intros.
  - by rewrite E1.
  - destruct (bs_channels db !! (id, e)) eqn:E; [by apply Hkeep|].
    destruct (bs_channels db' !! (id, e)) eqn:E'; [|done].
    destruct (proj1 (Hdom (id, e)) ltac:(by eexists)) as [[r Hr]|[Ho _]]; [congruence|done].
  - by rewrite E2.
Qed.

Lemma links_of_same e k chs ls id h : snd k <> e -> ((id, e), h) ∈ links_of k chs ∪ ls <-> ((id, e), h) ∈ ls.
Proof.
  intros Hne. rewrite elem_of_union, elem_of_links_of. split; [|by right].
  intros [(E & _)|?]; [|done]. simpl in E. by subst k.
Qed.

Lemma Save_ok cfg conns db id db' :
  store_ok db -> fetched db (Owner cfg) (MFChannels cfg) conns -> ConfigRepository.Save cfg conns db = inl (id, db') ->
  let k := (MFThing cfg, Owner cfg) in
  store_ok db' /\ id = MFThing cfg /\ (forall e, Owner cfg <> e -> tenant_rows e db db') /\
  links db' = links_of k conns ∪ links db /\
  exists key, char36 (MFKey cfg) = Some key /\ configs db !! k = None /\
    configs db' = <[k := toDBConfig cfg key]> (configs db).
Proof.
  intros [Hok Hli] Hf. unfold ConfigRepository.Save.
  destruct (insert_config cfg db) as [db1|] eqn:E1; [|done].
  destruct (insert_config_ok _ _ _ Hok E1) as (key & Hkey & Hn & -> & Hok1).
  destruct (insertChannels _ _ _) as [db2|] eqn:E2; [|done].
  destruct (insert_links _ conns db2) as [db3|] eqn:E3; [|done]. intros [= <- <-].
  destruct (insertChannels_ok _ _ _ _ Hok1 E2) as (Hok2 & C2 & L2 & _ & Hkeep & Hdom).
  destruct (insert_links_ok _ _ _ _ Hok2 E3) as (-> & Hok3 & Hall). cbn [configs bs_channels links with_configs with_links] in *.
  assert (Hnew : forall c, c ∈ bc_id <$> MFChannels cfg -> c ∈ conns).
  { eapply fetched_ids; [exact Hok1| |exact E2|exact Hall]. exact Hf. }
  destruct Hok3 as [O1 O2 O3 O4 O5]. cbn [configs bs_channels links with_links] in *.
  split_and!; [split; [by split|]|done| | |].
  - intros h Hh. cbn [bs_channels links] in *. apply Hdom in Hh as [Hh|[Ho Hc]].
    + destruct (Hli _ Hh) as [k' Hk']. exists k'. apply elem_of_union_r. by rewrite L2.
    + exists (MFThing cfg, Owner cfg). apply elem_of_union_l, elem_of_links_of. cbn [fst snd].
      split_and!; [done|done|by apply Hnew].
  - intros e He. apply (tenant_rows_trans e db (with_configs db (<[(MFThing cfg, Owner cfg):=toDBConfig cfg key]> (configs db)))).
    { split; [|done|done]. intros i. cbn [configs with_configs]. rewrite lookup_insert_ne; [done|congruence]. }
    apply (tenant_rows_trans e _ db2); [by eapply insertChannels_same|].
    split; [done|done|]. intros i h. cbn [links]. by apply links_of_same.
  - cbn [links]. by rewrite L2.
  - exists key. split_and!; [done|done|]. cbn [configs]. by rewrite C2.
Qed.

(** The connections that an update deletes. *)
Definition gone_links (k : row_key) (conns : list text) (db : store) : gset link :=
  filter (fun l => fst l = k /\ snd (snd l) = snd k /\ fst (snd l) <> pq_array conns) (links db).

Lemma fewer_links_ok db ls : ls ⊆ links db -> tables_ok db -> tables_ok (with_links db ls).
Proof. intros Hs [O1 O2 O3 O4 O5]. split; try done. intros k h Hl. by apply O4, Hs. Qed.

Lemma UpdateConnections_ok owner id chs conns db db' :
  store_ok db -> fetched db owner chs conns -> ConfigRepository.UpdateConnections owner id chs conns db = inl db' ->
  let k := (id, owner) in
  store_ok db' /\ configs db' = configs db /\ (forall e, owner <> e -> tenant_rows e db db') /\
  match conns with
  | [] => db' = db
  | _ :: _ => links db' = links_of k conns ∪ (links db ∖ gone_links k conns db)
  end.
Proof.
  intros [Hok Hli] Hf. unfold ConfigRepository.UpdateConnections.
  destruct (insertChannels owner chs db) as [db1|] eqn:E1; [|done].
  destruct (insertChannels_ok _ _ _ _ Hok E1) as (Hok1 & C1 & L1 & U1 & Hkeep & Hdom).
  unfold updateConnections. destruct conns as [|c0 conns0].
  { intros [= <-]. cbn zeta. destruct Hf as (ids & _ & Hlen & Hids).
    assert (chs = []) as ->.
    { destruct ids as [|i ids]; [by destruct chs|]. destruct (Hids i ltac:(by left)) as [[]%not_elem_of_nil _]. }
    injection E1 as <-. by split_and!. }
  set (conns := c0 :: conns0) in *. clearbody conns. cbn zeta.
  change (filter _ (links db1)) with (gone_links (id, owner) conns db1).
  set (gone := gone_links (id, owner) conns db1).
  assert (Hok0 : tables_ok (with_links db1 (links db1 ∖ gone))) by (apply fewer_links_ok; [by intros l [? _]%elem_of_difference|done]).
  change (Store (configs db1) (bs_channels db1) (links db1 ∖ gone) (unknown_configs db1)) with (with_links db1 (links db1 ∖ gone)).
  destruct (insert_links (id, owner) conns _) as [db2|[]] eqn:E2; [|done..].
  destruct (insert_links_ok _ _ _ _ Hok0 E2) as (-> & Hok2 & Hall). cbn [snd bs_channels with_links] in Hall.
  pose proof (fetched_ids _ _ _ _ _ Hok Hf E1 Hall) as Hnew.
  set (db2 := with_links (with_links db1 _) _) in *.
  assert (Hother : forall e, owner <> e -> tenant_rows e db db2).
  { intros e He. apply (tenant_rows_trans e _ db1); [by eapply insertChannels_same|]. split; [done|done|].
    intros i h. subst db2. cbn [links with_links]. rewrite links_of_same by done.
    rewrite elem_of_difference. split; [by intros [? _]|]. intros Hl. split; [done|].
    subst gone. unfold gone_links. rewrite elem_of_filter. cbn [fst]. intros [[[= _ Ho] _] _]. congruence. }
  assert (HL : links db2 = links_of (id, owner) conns ∪ (links db ∖ gone_links (id, owner) conns db)).
  { subst db2 gone. unfold gone_links. cbn [links with_links]. by rewrite L1. }
  destruct (bool_decide (size gone = 0%nat)) eqn:Es; intros [= <-].
  - split_and!; [split; [done|]|done|done|done].
    intros h Hh. subst db2. cbn [links bs_channels with_links] in *.
    apply bool_decide_eq_true, size_empty_iff in Es. apply Hdom in Hh as [Hh|[Ho Hc]].
    + destruct (Hli _ Hh) as [k' Hk']. exists k'. apply elem_of_union_r. rewrite L1.
      apply elem_of_difference. split; [done|]. rewrite Es. apply not_elem_of_empty.
    + exists (id, owner). apply elem_of_union_l, elem_of_links_of. cbn [fst snd]. split_and!; [done|done|by apply Hnew].
  - split_and!; [by apply cleanup_ok|done| |done].
    intros e He. apply (tenant_rows_trans e _ db2); [by apply Hother|]. apply cleanup_same.
    intros i Hi. rewrite (same_channels _ _ _ (Hother e He)) in Hi. destruct (Hli _ Hi) as [k' Hk']. exists k'.
    destruct (ok_link _ Hok _ _ Hk') as (Ho & _). destruct k' as [i' e']. cbn [snd] in Ho. subst e'.
    by apply (same_links _ _ _ (Hother e He)).
Qed.

Lemma remove_ok P db : store_ok db -> store_ok (cleanup (delete_configs P db)).
Proof. intros [Hok _]. by apply cleanup_ok, delete_configs_ok. Qed.

Lemma remove_same e P db :
  store_ok db -> (forall k, snd k = e -> P k = false) -> tenant_rows e db (cleanup (delete_configs P db)).
Proof.
  intros [Hok Hli] HP. apply (tenant_rows_trans e _ (delete_configs P db)).
  - split; [|done|]; [intros id|intros id h]; cbn [configs links delete_configs].
    + destruct (configs db !! (id, e)) as [r|] eqn:E.
      * apply map_lookup_filter_Some. split; [done|]. by apply HP.
      * apply map_lookup_filter_None. by left.
    + rewrite elem_of_filter. cbn [fst]. split; [by intros [_ ?]|]. intros Hl. split; [by apply HP|done].
  - apply cleanup_same. intros id Hid. cbn [bs_channels delete_configs] in Hid. destruct (Hli _ Hid) as [k Hk].
    exists k. cbn [links delete_configs]. apply elem_of_filter. split; [|done]. cbn [fst].
    apply HP. by destruct (ok_link _ Hok _ _ Hk) as (-> & _).
Qed.

Lemma update_config_store f k db db' :
  (forall r, cr_external_id (f r) = cr_external_id r) -> store_ok db -> update_config f k db = inl db' ->
  store_ok db' /\ forall e, snd k <> e -> tenant_rows e db db'.
Proof.
  intros Hf [Hok Hli] H. destruct (update_config_ok _ _ _ _ Hf Hok H) as (r & Hr & -> & Hok').
  split; [by split|]. intros e He. split; [|done|done]. intros id. cbn [configs with_configs].
  rewrite lookup_insert_ne; [done|]. intros Hk. apply He. by rewrite Hk.
Qed.

Lemma SaveUnknown_ok key id db :
  store_ok db -> store_ok (ConfigRepository.SaveUnknown key id db) /\
  configs (ConfigRepository.SaveUnknown key id db) = configs db /\
  links (ConfigRepository.SaveUnknown key id db) = links db /\
  forall e, tenant_rows e db (ConfigRepository.SaveUnknown key id db).
Proof.
  intros [Hok Hli]. unfold ConfigRepository.SaveUnknown. destruct (unknown_configs db !! id); [by split_and!|].
  split_and!; try done. split; [|done]. by destruct Hok as [O1 O2 O3 O4 O5].
Qed.

(** *** The handlers of events *)

Lemma DisconnectThing_ok ch t db : store_ok db -> store_ok (ConfigRepository.DisconnectThing ch t db).
Proof.
  intros [Hok Hli]. unfold ConfigRepository.DisconnectThing. destruct (existsb _ _); [|done].
  split; [|done]. by apply set_all_ok.
Qed.

Lemma UpdateChannel_lookup ch db h :
  bs_channels (ConfigRepository.UpdateChannel ch db) !! h =
  (fun r => if bool_decide (fst h = bc_id ch) then toDBChannel ch else r) <$> bs_channels db !! h.
Proof. unfold ConfigRepository.UpdateChannel. cbn [bs_channels]. rewrite map_lookup_imap. by destruct (bs_channels db !! h). Qed.

Lemma UpdateChannel_ok ch db : store_ok db -> store_ok (ConfigRepository.UpdateChannel ch db).
Proof.
  intros [[O1 O2 O3 O4 O5] Hli].
  assert (Hd : forall h, is_Some (bs_channels (ConfigRepository.UpdateChannel ch db) !! h) <-> is_Some (bs_channels db !! h)).
  { intros h. by rewrite UpdateChannel_lookup, fmap_is_Some. }
  split; [split; try done|].
  - intros k1 k2. rewrite !Hd. apply O2.
  - intros k h Hl. rewrite Hd. by apply O4.
  - intros h r. rewrite UpdateChannel_lookup. destruct (bs_channels db !! h) as [r'|] eqn:E; [|done].
    intros [= <-]. case_bool_decide as Hid; [|by apply O5].
    rewrite Hid. by rewrite toChannel_toDBChannel.
  - intros h. rewrite Hd. apply Hli.
Qed.

Lemma RemoveChannel_ok id db : store_ok db -> store_ok (ConfigRepository.RemoveChannel id db).
Proof.
  intros [[O1 O2 O3 O4 O5] Hli]. unfold ConfigRepository.RemoveChannel.
  split; [split; cbn [configs bs_channels links]; try done|].
  - intros k1 k2 [r1 H1] [r2 H2]. apply map_lookup_filter_Some in H1 as [H1 _], H2 as [H2 _]. apply O2; by eexists.
  - intros k h [Hn Hl]%elem_of_filter. destruct (O4 _ _ Hl) as (Ho & Hk & [r Hr]). split_and!; [done|done|].
    exists r. by apply map_lookup_filter_Some.
  - intros h r [Hr _]%map_lookup_filter_Some. by apply O5.
  - intros h [r [Hr Hn]%map_lookup_filter_Some]. destruct (Hli h) as [k Hk]; [by eexists|]. exists k.
    cbn [links]. by apply elem_of_filter.
Qed.

End Store.
