(* ===== verification/BootstrapSafety.v ===== *)
(** * What the Bootstrap service keeps

    Every request and every event keeps the invariant of the tables, and a request
    leaves the rows of other users alone; how the calls of the Things service are
    threaded through the operations. *)

From S2P Require Import Prelude JsString Utf8 ThingsCache Things ThingsList ThingsEvents GoCodec ConfigStore ConfigCipher Bootstrap ConfigStoreSafety.
From stdpp Require Import gmap sets.

Local Open Scope Z_scope.

Lemma bs_handle_ok {JT : JsonText} {JOk : JsonTextOk JT} {JN : JsonNull JT} e db :
  store_ok db -> store_ok (fst (bs_handle e db)).
Proof.
  intros Hok. unfold bs_handle. repeat case_bool_decide; cbn [fst]; [| | | |done].
  - by apply remove_ok.
  - by apply DisconnectThing_ok.
  - by apply UpdateChannel_ok.
  - by apply RemoveChannel_ok.
Qed.

(** What [updateList] makes of the channels there are and those asked for. *)
Lemma update_list_in s conns add rest :
  update_list s conns = (add, rest) -> rest ⊆ s /\ (forall c, c ∈ conns -> c ∈ s \/ c ∈ add) /\ (forall c, c ∈ add -> c ∈ conns).
Proof.
  revert s add. induction conns as [|c conns IH]; intros s add; cbn [update_list].
  { intros [= <- <-]. split; [done|]. split; [by intros ? ?%not_elem_of_nil|done]. }
  case_bool_decide as Hc.
  - intros (H1 & H2 & H3)%IH. split; [set_solver|]. split; [|set_solver]. intros c' [->|Hc']%elem_of_cons; [by left|].
    destruct (H2 _ Hc'); set_solver.
  - destruct (update_list s conns) as [add' rest'] eqn:E. intros [= <- <-]. destruct (IH _ _ E) as (H1 & H2 & H3).
    set_solver.
Qed.

(** ** The operations of the service *)

Section Service.
Context {T : Type} `{ST : Sdk T} {JT : JsonText} {JOk : JsonTextOk JT} {JN : JsonNull JT} {A : Aes}.
Variable auth : text -> option text.
Variable range : range_order.
Hypothesis Hrange : ranges range.

Abbreviation action := (action T).

(** An action whose world moves along a relation, whatever it answers. *)
Definition moves {B} (R : relation (world T)) (m : action B) : Prop := forall w, R w (fst (m w)).

Section Moves.
Context (R : relation (world T)) `{!PreOrder R}.

Lemma moves_give {B} (b : B) : moves R (give b).
Proof. by intros w. Qed.
Lemma moves_raise {B} e : moves (B := B) R (raise e).
Proof. by intros w. Qed.
Lemma moves_query {B} (f : store -> B + bs_error) : moves R (query f).
Proof. by intros w. Qed.
Lemma moves_bind {B C} (m : action B) (k : B -> action C) :
  moves R m -> (forall w w' b, m w = (w', inl b) -> moves R (k b)) -> moves R (bind m k).
Proof.
  intros Hm Hk w. unfold bind. specialize (Hm w). destruct (m w) as [w' [b|e]] eqn:E; [|done].
  etrans; [exact Hm|]. by eapply Hk.
Qed.
Lemma moves_identify key : moves R (identify auth key).
Proof. intros w. unfold identify. by destruct (auth key). Qed.

(** What the calls of the SDK may do. *)
Variable call_ok : forall B, (T -> T * (B + sdk_error)) -> Prop.
Hypothesis Hcall : forall B (f : T -> T * (B + sdk_error)), call_ok B f -> moves R (call f).

Lemma moves_thing key id :
  call_ok _ (sdk_create_thing key) -> (forall i, call_ok _ (sdk_thing_of i key)) ->
  (id <> [] -> call_ok _ (sdk_delete_thing id key)) -> moves R (thing key id).
Proof.
  intros Hc Ht Hd. unfold thing. apply moves_bind.
  - destruct id; [|apply moves_give]. apply moves_bind; [by apply Hcall|]. intros _ _ [i|e] _; [apply moves_give|apply moves_raise].
  - intros w w' i Hi. apply moves_bind; [by apply Hcall|]. intros _ _ [th|e] _; [apply moves_give|].
    assert (moves (B := sdk_thing) R match id with [] => raise BsThings | _ :: _ => call (sdk_delete_thing i key) ;;; raise BsThings end).
    { destruct id; [apply moves_raise|]. injection Hi as _ <-. apply moves_bind; [by apply Hcall, Hd|].
      intros. apply moves_raise. }
    destruct e; try done. apply moves_raise.
Qed.

Lemma moves_fetch ids key : (forall i, call_ok _ (sdk_channel_of i key)) -> moves R (fetch_channels ids key).
Proof.
  intros Hc. induction ids as [|i ids IH]; simpl; [apply moves_give|].
  apply moves_bind; [by apply Hcall|]. intros _ _ [ch|e] _; [|apply moves_raise].
  apply moves_bind; [done|]. intros. apply moves_give.
Qed.

Lemma moves_disconnect_all id chs key :
  Forall (fun c => call_ok _ (sdk_disconnect id c key)) chs -> moves R (disconnect_all id chs key).
Proof.
  induction 1 as [|c chs Hc _ IH]; simpl; [apply moves_give|].
  apply moves_bind; [by apply Hcall|]. intros _ _ [u|[]] _; first [done|apply moves_raise].
Qed.

Lemma moves_connect_each missing id chs key :
  Forall (fun c => call_ok _ (sdk_connect id c key)) chs -> moves R (connect_each missing id chs key).
Proof.
  induction 1 as [|c chs Hc _ IH]; simpl; [apply moves_give|].
  apply moves_bind; [by apply Hcall|]. intros _ _ [u|[]] _; first [done|apply moves_raise].
Qed.

End Moves.

(** An action that leaves the tables alone. *)
Definition same_repo (w w' : world T) : Prop := repo w' = repo w.
#[local] Instance same_repo_preorder : PreOrder same_repo.
Proof. split; [done|]. intros w1 w2 w3. unfold same_repo. congruence. Qed.

Abbreviation reads := (moves same_repo).

Lemma reads_call {B} (f : T -> T * (B + sdk_error)) : True -> reads (call f).
Proof. intros _ w. unfold call. by destruct (f (remote w)). Qed.

Lemma reads_thing key id : reads (thing key id).
Proof. by apply (moves_thing _ (fun _ _ => True) (@reads_call)). Qed.
Lemma reads_fetch ids key : reads (fetch_channels ids key).
Proof. by apply (moves_fetch _ (fun _ _ => True) (@reads_call)). Qed.
Lemma reads_disconnect_all id chs key : reads (disconnect_all id chs key).
Proof. apply (moves_disconnect_all _ (fun _ _ => True) (@reads_call)). by apply Forall_true. Qed.
Lemma reads_connect_each missing id chs key : reads (connect_each missing id chs key).
Proof. apply (moves_connect_each _ (fun _ _ => True) (@reads_call)). by apply Forall_true. Qed.

(** A step of an action: its answer, in a world with the same tables. *)
Lemma bind_inv {B C} (m : action B) (k : B -> action C) w w' c :
  bind m k w = (w', inl c) -> exists w1 b, m w = (w1, inl b) /\ k b w1 = (w', inl c).
Proof. unfold bind. destruct (m w) as [w1 [b|e]]; [|done]. eauto. Qed.

Lemma reads_inv {B} (m : action B) w w' r : reads m -> m w = (w', r) -> repo w' = repo w.
Proof. intros Hm E. specialize (Hm w). by rewrite E in Hm. Qed.

Lemma fetch_length ids key w w' chs : fetch_channels ids key w = (w', inl chs) -> length chs = length ids.
Proof.
  revert w w' chs. induction ids as [|i ids IH]; intros w w' chs; cbn [fetch_channels].
  { by intros [= _ <-]. }
  intros (w1 & [ch|e] & _ & H)%bind_inv; [|done]. apply bind_inv in H as (w2 & chs' & H & [= _ <-]).
  simpl. f_equal. by eapply IH.
Qed.

(** The channels that are fetched are those that there are no rows for. *)
Lemma connectionChannels_fetched owner channels existing key w w' chs :
  tables_ok (repo w) -> (forall c, c ∈ existing <-> c ∈ channels /\ is_Some (bs_channels (repo w) !! (c, owner))) ->
  connectionChannels range channels existing key w = (w', inl chs) -> fetched (repo w) owner chs channels.
Proof.
  intros Hok Hex H. unfold connectionChannels in H. set (s := list_to_set channels ∖ list_to_set existing) in *.
  exists (range s). split_and!.
  - rewrite (Hrange s). apply NoDup_elements.
  - by eapply fetch_length.
  - intros i Hi. rewrite (Hrange s), elem_of_elements in Hi. subst s.
    apply elem_of_difference in Hi as [H1 H2]. rewrite elem_of_list_to_set in H1, H2. split; [done|].
    apply eq_None_not_Some. intros Hs. apply H2, Hex. by split.
Qed.

(** [Add]: an error leaves the tables as they were; otherwise the configuration is
    saved with the thing and the channels that the Things service gave. *)
Lemma Add_cases key cfg w :
  store_ok (repo w) ->
  let conns := toIDList (MFChannels cfg) in
  match Bootstrap.Add auth range key cfg w with
  | (w', inr _) => repo w' = repo w
  | (w', inl saved) => exists owner th chs existing db,
      auth key = Some owner /\ fetched (repo w) owner chs conns /\
      ConfigRepository.Save (with_thing cfg owner th chs) conns (repo w) = inl (st_id th, db) /\
      repo w' = db /\ saved = set_channels (with_thing cfg owner th chs) (st_id th) (chs ++ existing)
  end.
Proof.
  intros [Hok Hli] conns. unfold Bootstrap.Add, bind, identify, query, give. destruct (auth key) as [owner|]; [|done]. cbn beta iota zeta.
  destruct (ListExisting_spec owner conns (repo w) Hok) as (existing & He & Hin). fold conns. rewrite He.
  destruct (connectionChannels range conns _ key w) as [w1 [chs|e1]] eqn:E1; cbn beta iota zeta;
    [|by eapply reads_inv, E1; apply reads_fetch].
  assert (R1 : repo w1 = repo w) by (by eapply reads_inv, E1; apply reads_fetch).
  pose proof (connectionChannels_fetched owner _ _ _ _ _ _ Hok Hin E1) as Hf.
  destruct (thing key (MFThing cfg) w1) as [w2 [th|e2]] eqn:E2; cbn beta iota zeta;
    (assert (R2 : repo w2 = repo w1) by (by eapply reads_inv, E2; apply reads_thing)); [|congruence].
  unfold save at 1. rewrite R2, R1.
  destruct (ConfigRepository.Save _ conns (repo w)) as [[id db]|e3] eqn:E3; cbn beta iota zeta.
  - pose proof (Save_ok (with_thing cfg owner th chs) _ _ _ _ (conj Hok Hli) Hf E3) as (_ & -> & _). simpl.
    exists owner, th, chs, existing, db. by split_and!.
  - destruct (MFThing cfg); simpl; [|congruence].
    unfold call. destruct (sdk_delete_thing _ _ _) as [t r]. simpl. congruence.
Qed.

Lemma UpdateConnections_cases key id conns w :
  store_ok (repo w) ->
  match UpdateConnections auth range key id conns w with
  | (w', inr _) => repo w' = repo w
  | (w', inl _) => exists owner chs,
      auth key = Some owner /\ fetched (repo w) owner chs conns /\ is_Some (configs (repo w) !! (id, owner)) /\
      ConfigRepository.UpdateConnections owner id chs conns (repo w) = inl (repo w')
  end.
Proof.
  intros [Hok Hli]. unfold UpdateConnections, bind, identify, query, give. destruct (auth key) as [owner|]; [|done].
  cbn beta iota zeta.
  destruct (ConfigRepository.RetrieveByID owner id (repo w)) as [cfg|e0] eqn:E0; [|done]. cbn beta iota zeta.
  destruct (updateList range cfg conns) as [add remove].
  destruct (ListExisting_spec owner conns (repo w) Hok) as (existing & He & Hin). rewrite He.
  destruct (connectionChannels range conns _ key w) as [w1 [chs|e1]] eqn:E1; cbn beta iota zeta;
    (assert (R1 : repo w1 = repo w) by (by eapply reads_inv, E1; apply reads_fetch)); [|done].
  pose proof (connectionChannels_fetched owner _ _ _ _ _ _ Hok Hin E1) as Hf.
  destruct (if State cfg =? Active then (add, remove) else ([], [])) as [connect disconnect].
  destruct (disconnect_all id disconnect key w1) as [w2 [[]|e2]] eqn:E2;
    (assert (R2 : repo w2 = repo w1) by (by eapply reads_inv, E2; apply reads_disconnect_all)); [|congruence].
  destruct (connect_each BsMalformed id connect key w2) as [w3 [[]|e3]] eqn:E3;
    (assert (R3 : repo w3 = repo w2) by (by eapply reads_inv, E3; apply reads_connect_each)); [|congruence].
  unfold execute. rewrite R3, R2, R1.
  destruct (ConfigRepository.UpdateConnections owner id chs conns (repo w)) as [db|e4] eqn:E4; simpl; [|congruence].
  exists owner, chs. split_and!; [done|done| |done].
  unfold ConfigRepository.RetrieveByID in E0. by destruct (configs (repo w) !! (id, owner)).
Qed.

(** ** Requests *)

(** The tables stay as they should be, and another user's rows as they were. *)
Definition keeps (u : option text) (w w' : world T) : Prop :=
  store_ok (repo w) -> store_ok (repo w') /\ forall e, u <> Some e -> tenant_rows e (repo w) (repo w').

#[local] Instance keeps_preorder u : PreOrder (keeps u).
Proof.
  split; [by intros w Hok|]. intros w1 w2 w3 H1 H2 Hok. destruct (H1 Hok) as [Hok2 H12].
  destruct (H2 Hok2) as [Hok3 H23]. split; [done|]. intros e He. eapply tenant_rows_trans; auto.
Qed.

Lemma keeps_same u w w' : repo w' = repo w -> keeps u w w'.
Proof. intros E Hok. by rewrite E. Qed.

Lemma moves_execute u (f : store -> store + bs_error) :
  (forall db db', store_ok db -> f db = inl db' -> store_ok db' /\ forall e, u <> Some e -> tenant_rows e db db') ->
  moves (keeps u) (execute f).
Proof.
  intros Hf w Hok. unfold execute. destruct (f (repo w)) as [db|e] eqn:E; [|done]. by apply Hf.
Qed.

Lemma moves_update_config u id f :
  (forall r, cr_external_id (f r) = cr_external_id r) ->
  moves (keeps (Some u)) (execute (update_config f (id, u))).
Proof.
  intros Hf. apply moves_execute. intros db db' Hok H.
  destruct (update_config_store _ _ _ _ Hf Hok H) as [Hok' Hs]. split; [done|]. intros e He. apply Hs. simpl. congruence.
Qed.

(** The work of a user, after the user is identified. *)
Lemma moves_owner {B} key (k : text -> action B) :
  (forall owner, auth key = Some owner -> moves (keeps (Some owner)) (k owner)) ->
  moves (keeps (auth key)) (bind (identify auth key) k).
Proof.
  intros Hk w. unfold bind, identify. destruct (auth key) as [owner|]; [|done]. by apply Hk.
Qed.

Lemma moves_answer {B C} u (m : action B) (c : B -> C) :
  moves (keeps u) m -> moves (keeps u) (bind m (fun b => give (c b))).
Proof. intros Hm. apply moves_bind; [apply _|done|]. intros. apply moves_give, _. Qed.

Lemma Add_keeps key cfg : moves (keeps (auth key)) (Bootstrap.Add auth range key cfg).
Proof.
  intros w Hok. pose proof (Add_cases key cfg w Hok) as H. cbn zeta in H.
  destruct (Bootstrap.Add auth range key cfg w) as [w' [saved|e]]; cbn [fst]; [|by apply keeps_same].
  destruct H as (owner & th & chs & existing & db & Ha & Hf & Hs & -> & _).
  destruct (Save_ok (with_thing cfg owner th chs) _ _ _ _ Hok Hf Hs) as (Hok' & _ & Ho & _). split; [done|].
  intros e He. apply Ho. simpl. congruence.
Qed.

Lemma UpdateConnections_keeps key id conns : moves (keeps (auth key)) (UpdateConnections auth range key id conns).
Proof.
  intros w Hok. pose proof (UpdateConnections_cases key id conns w Hok) as H.
  destruct (UpdateConnections auth range key id conns w) as [w' [u|e]]; cbn [fst]; [|by apply keeps_same].
  destruct H as (owner & chs & Ha & Hf & _ & Hs).
  destruct (UpdateConnections_ok _ _ _ _ _ _ Hok Hf Hs) as (Hok' & _ & Ho & _). split; [done|].
  intros e He. apply Ho. congruence.
Qed.

Lemma ChangeState_keeps key id state : moves (keeps (auth key)) (ChangeState auth key id state).
Proof.
  apply moves_owner. intros owner _. apply moves_bind; [apply _|apply moves_query, _|]. intros _ _ cfg _.
  destruct (State cfg =? state); [apply moves_give, _|]. apply moves_bind; [apply _| |].
  - intros w. apply keeps_same.
    destruct (state =? Active); [apply reads_connect_each|]. destruct (state =? Inactive); [apply reads_disconnect_all|done].
  - intros _ _ _ _. by apply moves_update_config.
Qed.

Lemma Bootstrap_keeps encKey key id secure u : moves (keeps u) (Bootstrap encKey key id secure).
Proof.
  intros w Hok. unfold Bootstrap.
  destruct (SaveUnknown_ok key id (repo w) Hok) as (Hok' & _ & _ & Hs).
  destruct (ConfigRepository.RetrieveByExternalID id (repo w)) as [cfg|[]]; cbn [fst repo]; try done.
  by destruct (key_matches encKey secure key cfg) as [[]|].
Qed.

Lemma bs_serve_keeps lower int8in by_thing encKey q :
  forall w, keeps (bs_user auth q) w (bs_serve auth range lower int8in by_thing encKey q w).
Proof.
  change (moves (keeps (bs_user auth q)) (endpoint auth range lower int8in by_thing encKey q)).
  unfold endpoint, when_valid. destruct (validate q); [apply moves_raise, _|].
  destruct q as [key cfg channels|key id|key id name content|key id cert ckey ca|key id channels|key f offset limit|key id|key id secure|key id state];
    cbn [bs_user bs_token option_bind]; apply moves_answer.
  - apply Add_keeps.
  - apply moves_owner. intros owner _. apply moves_query, _.
  - apply moves_owner. intros owner _. by apply moves_update_config.
  - apply moves_owner. intros owner _. by apply moves_update_config.
  - apply UpdateConnections_keeps.
  - apply moves_owner. intros owner _. destruct (Unknown f); apply moves_query, _.
  - apply moves_owner. intros owner _. apply moves_execute. intros db db' Hok [= <-].
    split; [by apply remove_ok|]. intros e He. apply remove_same; [done|].
    intros k Hk. apply bool_decide_eq_false. intros ->. by apply He; rewrite <- Hk.
  - apply Bootstrap_keeps.
  - apply ChangeState_keeps.
Qed.

End Service.
