(* ===== verification/ThingsSdk.v ===== *)
(** * The Things service behind the SDK

    The interface [Sdk] of the Bootstrap service on the Things service itself: the
    calls of [sdk/go/things.go] and [sdk/go/channels.go], the endpoints of
    [things/api/things/http/] that answer them, and the service with its event
    stream.  A request may get lost, and so may its answer. *)

From S2P Require Import Prelude JsString ThingsCache Things ThingsList ThingsEvents GoCodec ConfigStore ConfigCipher Bootstrap.
From stdpp Require Import gmap sets.

Local Open Scope Z_scope.

(** ** Status codes *)

(** [encodeError] of the HTTP API. *)
Definition things_status (e : things_error) : Z :=
  match e with
  | ErrMalformedEntity => 400
  | ErrUnauthorizedAccess => 403
  | ErrNotFound => 404
  | ErrConflict => 422
  | ErrOther => 500
  end.

(** What the calls make of a status that is not the one they expect: [Thing],
    [Channel], [ConnectThing] and [DisconnectThing]; [CreateThing] and
    [DeleteThing]. *)
Definition status_error (status : Z) : sdk_error :=
  if status =? 403 then SdkUnauthorized else if status =? 404 then SdkNotFound else SdkFailed.
Definition write_error (status : Z) : sdk_error :=
  if status =? 403 then SdkUnauthorized else if status =? 400 then SdkInvalidArgs else SdkFailed.

(** ** Routes *)

(** Identifiers that are a segment of a path whatever the router does: other ones
    may lead a request to another route. *)
Definition plain_char (c : Z) : bool :=
  (48 <=? c) && (c <=? 57) || (65 <=? c) && (c <=? 90) || (97 <=? c) && (c <=? 122) || (c =? DASH).
Definition plain_segment (id : text) : bool :=
  match id with [] => false | _ :: _ => forallb plain_char id end.

Inductive fault := Served | NotDelivered | AnswerLost.

Section Sdk.
Context {S : Type} `{HS : Caches S} {U : Uuid} {JT : JsonText} {J : Json metadata}.
Variable auth : text -> option text.

Abbreviation event_store := (event_store (S := S)).

(** The Things service, the identifiers and keys its identity provider will make,
    and what becomes of the requests to come. *)
Record behind := Behind {
  es : event_store;
  to_make : list (text * text);
  faults : list fault
}.

(** What other routes answer to a method and a path. *)
Class OtherRoutes := {
  other_thing : text -> event_store -> event_store * (sdk_thing + sdk_error);
  other_channel : text -> event_store -> event_store * (bs_channel + sdk_error);
  other_change : text -> text -> event_store -> event_store * (unit + sdk_error)
}.
Context {OR : OtherRoutes}.

(** An exchange with the service. *)
Definition exchange {B} (serve : event_store -> event_store * (B + sdk_error)) (b : behind) :
    behind * (B + sdk_error) :=
  match faults b with
  | NotDelivered :: fs => (Behind (es b) (to_make b) fs, inr SdkFailed)
  | AnswerLost :: fs => (Behind (fst (serve (es b))) (to_make b) fs, inr SdkFailed)
  | fs => let '(es, r) := serve (es b) in (Behind es (to_make b) (tail fs), r)
  end.

(** *** The endpoints *)

Definition check (token id : text) : option things_error :=
  match token, id with
  | [], _ => Some ErrUnauthorizedAccess
  | _, [] => Some ErrMalformedEntity
  | _, _ => None
  end.

(** A change, with the answer to it. *)
Definition changed (ch : change (M := metadata)) (r : result unit) (decode : Z -> sdk_error) (es : event_store) :
    event_store * (unit + sdk_error) :=
  (es_apply auth ch es, match r with Ok _ => inl tt | Err e => inr (decode (things_status e)) end).

Definition checked {B} (v : option things_error) (decode : Z -> sdk_error)
    (k : event_store -> event_store * (B + sdk_error)) (es : event_store) : event_store * (B + sdk_error) :=
  match v with Some e => (es, inr (decode (things_status e))) | None => k es end.

(** [POST /things] with an empty thing. *)
Definition create_thing_endpoint (token : text) (made : text * text) (es : event_store) :
    event_store * (text + sdk_error) :=
  let ths := [(([], made), nameless)] in
  checked (match token with [] => Some ErrUnauthorizedAccess | _ :: _ => None end) write_error
    (fun es =>
       let '(es', r) := changed (NewThings token ths)
                          (snd (CreateThings auth token (fst <$> ths) (core (es_catalog es)))) write_error es in
       (es', match r with inl _ => inl (fst made) | inr e => inr e end)) es.

(** [GET /things/:id] and [GET /channels/:id]: empty metadata are left out. *)
Definition view_thing_endpoint (id token : text) (es : event_store) : event_store * (sdk_thing + sdk_error) :=
  if plain_segment id then
    checked (check token id) status_error
      (fun es => (es, match ViewThing auth token id (es_catalog es) with
                      | Ok th => inl (SdkThing (th_id th) (th_key th))
                      | Err e => inr (status_error (things_status e))
                      end)) es
  else other_thing id es.

Definition nonempty_meta (m : metadata) : metadata := match m with Some [] => None | _ => m end.

Definition view_channel_endpoint (id token : text) (es : event_store) : event_store * (bs_channel + sdk_error) :=
  if plain_segment id then
    checked (check token id) status_error
      (fun es => (es, match ViewChannel auth token id (es_catalog es) with
                      | Ok ch => inl (BsChannel (ch_id ch) (i_name (ch_info ch)) (nonempty_meta (i_meta (ch_info ch))))
                      | Err e => inr (status_error (things_status e))
                      end)) es
  else other_channel id es.

(** [DELETE /things/:id]. *)
Definition remove_thing_endpoint (id token : text) (es : event_store) : event_store * (unit + sdk_error) :=
  if plain_segment id then
    checked (check token id) write_error
      (fun es => changed (Core (RRemoveThing token id))
                   (snd (RemoveThing auth token id (core (es_catalog es)))) write_error es) es
  else other_change (js "DELETE") id es.

Definition check_connection (token chanID thingID : text) : option things_error :=
  match check token chanID with Some e => Some e | None => check token thingID end.

(** [PUT] and [DELETE /channels/:chanId/things/:thingId]. *)
Definition connect_endpoint (thingID chanID token : text) (es : event_store) : event_store * (unit + sdk_error) :=
  if plain_segment thingID && plain_segment chanID then
    checked (check_connection token chanID thingID) status_error
      (fun es => changed (Core (RConnect token [chanID] [thingID]))
                   (snd (Connect auth token [chanID] [thingID] (core (es_catalog es)))) status_error es) es
  else other_change (js "PUT") (chanID ++ js "/things/" ++ thingID) es.

Definition disconnect_endpoint (thingID chanID token : text) (es : event_store) : event_store * (unit + sdk_error) :=
  if plain_segment thingID && plain_segment chanID then
    checked (check_connection token chanID thingID) status_error
      (fun es => changed (Core (RDisconnect token chanID thingID))
                   (snd (Disconnect auth token chanID thingID (core (es_catalog es)))) status_error es) es
  else other_change (js "DELETE") (chanID ++ js "/things/" ++ thingID) es.

(** *** The calls *)

(** Without an identifier from the provider the creation fails. *)
Definition no_identifier (token : text) (es : event_store) : event_store * (text + sdk_error) :=
  checked (match token with [] => Some ErrUnauthorizedAccess | _ :: _ => None end) write_error
    (fun es => (es, inr (write_error (things_status
                      match auth token with None => ErrUnauthorizedAccess | Some _ => ErrOther end)))) es.

Definition create_thing (token : text) (b : behind) : behind * (text + sdk_error) :=
  match to_make b with
  | [] => exchange (no_identifier token) b
  | made :: rest => exchange (create_thing_endpoint token made) (Behind (es b) rest (faults b))
  end.

#[export] Instance things_sdk : Sdk behind := {|
  sdk_create_thing := create_thing;
  sdk_thing_of id token := exchange (view_thing_endpoint id token);
  sdk_delete_thing id token := exchange (remove_thing_endpoint id token);
  sdk_channel_of id token := exchange (view_channel_endpoint id token);
  sdk_connect thingID chanID token := exchange (connect_endpoint thingID chanID token);
  sdk_disconnect thingID chanID token := exchange (disconnect_endpoint thingID chanID token)
|}.

End Sdk.

Arguments behind S : clear implicits.
