(* ===== verification/BootstrapSystem.v ===== *)
(** * The Bootstrap service beside the Things service

    The two services as one system: requests to either, and the events of the one
    on their way to the other.  A configuration that is active is connected in the
    Things service, or the notice that it no longer is has yet to be read. *)

From S2P Require Import Prelude JsString Utf8 ThingsCache Things ThingsSafety ThingsList ThingsEvents GoCodec ConfigStore ConfigCipher Bootstrap ConfigStoreSafety BootstrapSafety ThingsSdk.
From stdpp Require Import gmap sets.

Local Open Scope Z_scope.

Section Grow.
Context {S : Type} `{HS : Caches S} {U : Uuid} {JT : JsonText} {J : Json metadata}.
Variable auth : text -> option text.

Abbreviation event_store := (event_store (S := S)).

Definition connected_in (es : event_store) (c t o : text) : Prop := (c, t, o) ∈ connections (tables (es_catalog es)).

(** The events that tell that a thing is no longer connected with a channel. *)
Definition notice (c t : text) (e : event) : Prop :=
  e = connectionEvent thingDisconnect c t \/ e = removeEvent thingRemove t \/ e = removeEvent channelRemove c.

(** Events are only added, and no connection is lost without a notice. *)
Definition grows (es es' : event_store) : Prop :=
  stream_up es = true -> stream_up es' = true /\ exists evs, stream es' = stream es ++ evs /\
    forall c t o, connected_in es c t o -> connected_in es' c t o \/ exists e, e ∈ evs /\ notice c t e.

#[local] Instance grows_preorder : PreOrder grows.
Proof.
  split.
  - intros es Hup. split; [done|]. exists []. rewrite app_nil_r. split; [done|]. intros. by left.
  - intros es1 es2 es3 H12 H23 Hup. destruct (H12 Hup) as (Hup2 & ev1 & E1 & L1).
    destruct (H23 Hup2) as (Hup3 & ev2 & E2 & L2). split; [done|]. exists (ev1 ++ ev2).
    split; [by rewrite E2, E1, app_assoc|]. intros c t o Hc.
    destruct (L1 _ _ _ Hc) as [H|(e & He & Hn)]; [|right; exists e; by rewrite elem_of_app; auto].
    destruct (L2 _ _ _ H) as [?|(e & He & Hn)]; [by left|right; exists e; rewrite elem_of_app; auto].
Qed.

Lemma connections_fold {A} (f : database -> A -> result database) xs d d' :
  (forall d x d', f d x = Ok d' -> connections d ⊆ connections d') ->
  foldl (fun r x => bind_result r (fun d => f d x)) (Ok d) xs = Ok d' -> connections d ⊆ connections d'.
Proof.
  intros Hf. revert d. induction xs as [|x xs IH]; intros d; cbn [foldl bind_result]; [by intros [= <-]|].
  destruct (f d x) as [d1|e] eqn:E; [|by rewrite foldl_err].
  intros H. etrans; [by eapply Hf|by apply IH].
Qed.

Lemma insert_thing_connections d row d' : insert_thing d row = Ok d' -> connections d ⊆ connections d'.
Proof.
  destruct row as [[id o] key]. unfold insert_thing. destruct (canon id); [|done]. destruct (_ || _); [done|].
  by intros [= <-].
Qed.
Lemma insert_channel_connections d row d' : insert_channel d row = Ok d' -> connections d ⊆ connections d'.
Proof.
  destruct row as [id o]. unfold insert_channel. destruct (canon id); [|done]. destruct (bool_decide _); [done|].
  by intros [= <-].
Qed.
Lemma insert_connection_connections owner d c d' : insert_connection owner d c = Ok d' -> connections d ⊆ connections d'.
Proof.
  unfold insert_connection. destruct (canon (fst c)); [|done]. destruct (canon (snd c)); [|done].
  destruct (_ || _); [done|]. destruct (bool_decide _); [done|]. intros [= <-]. cbn [connections]. set_solver.
Qed.

(** What a change may take away. *)
Definition plain_change (ch : change (M := metadata)) : Prop :=
  match ch with
  | Core (RRemoveThing _ id) | Core (RRemoveChannel _ id) => plain_id id
  | Core (RDisconnect _ c t) => plain_id c /\ plain_id t
  | _ => True
  end.

Lemma grows_monotone es es' :
  stream_up es' = stream_up es ->
  connections (tables (es_catalog es)) ⊆ connections (tables (es_catalog es')) ->
  (stream_up es = true -> exists evs, stream es' = stream es ++ evs) -> grows es es'.
Proof.
  intros Hup Hsub Hev H. split; [congruence|]. destruct (Hev H) as [evs E]. exists evs. split; [done|].
  intros c t o Hc. left. by apply Hsub.
Qed.

Lemma commit_connections (sv : service S) r :
  (forall d, r = Ok d -> connections (db sv) ⊆ connections d) ->
  connections (db sv) ⊆ connections (db (fst (commit sv r))).
Proof. intros H. unfold commit. destruct r; [by apply H|done]. Qed.

Lemma CreateThings_connections token ths (sv : service S) :
  connections (db sv) ⊆ connections (db (fst (CreateThings auth token ths sv))).
Proof.
  unfold CreateThings, as_owner. destruct (auth token); [|done]. apply commit_connections. intros d.
  apply connections_fold. apply insert_thing_connections.
Qed.
Lemma CreateChannels_connections token ids (sv : service S) :
  connections (db sv) ⊆ connections (db (fst (CreateChannels auth token ids sv))).
Proof.
  unfold CreateChannels, as_owner. destruct (auth token); [|done]. apply commit_connections. intros d.
  apply connections_fold. apply insert_channel_connections.
Qed.
Lemma Connect_connections token chs ths (sv : service S) :
  connections (db sv) ⊆ connections (db (fst (Connect auth token chs ths sv))).
Proof.
  unfold Connect, as_owner. destruct (auth token) as [o|]; [|done]. apply commit_connections. intros d.
  apply connections_fold. apply insert_connection_connections.
Qed.

(** A connection that a request takes away is reported. *)
Lemma serve_lost r (c : catalog S metadata) ch t o :
  plain_change (Core r) -> (ch, t, o) ∈ connections (tables c) ->
  (ch, t, o) ∈ connections (db (serve auth r (core c))) \/ exists e, e ∈ events_of auth (Core r) c /\ notice ch t e.
Proof.
  intros Hp Hc. unfold tables in Hc. destruct r as [tok ths|tok id key|tok id|tok ids|tok id|tok chs ths|tok c' t'|c' key|c' t'|key];
    cbn [serve plain_change events_of] in *.
  - left. by apply CreateThings_connections.
  - left. unfold UpdateKey, as_owner. destruct (auth tok) as [u|]; [|done]. unfold update_key.
    destruct (canon id); [|done]. destruct (things _ !! _); [|done]. by destruct (_ && _).
  - unfold RemoveThing, as_owner. destruct (auth tok) as [u|]; [|by left]. cbn [succeeded snd fst].
    destruct (decide (t = id)) as [->|Hne].
    + right. exists (removeEvent thingRemove id). split; [by left|]. right. by left.
    + left. cbn [db with_db]. unfold remove_thing. destruct (canon id) as [v|] eqn:E; [|done].
      cbn [connections]. apply elem_of_filter. cbn [fst snd]. split; [|done]. intros [-> _]. by apply Hne, Hp.
  - left. by apply CreateChannels_connections.
  - unfold RemoveChannel, as_owner. destruct (auth tok) as [u|]; [|by left]. cbn [succeeded snd fst].
    destruct (decide (ch = id)) as [->|Hne].
    + right. exists (removeEvent channelRemove id). split; [by left|]. right. by right.
    + left. cbn [db with_db]. unfold remove_channel. destruct (canon id) as [v|] eqn:E; [|done].
      cbn [connections]. apply elem_of_filter. cbn [fst snd]. split; [|done]. intros [-> _]. by apply Hne, Hp.
  - left. by apply Connect_connections.
  - unfold Disconnect, as_owner. destruct (auth tok) as [u|]; [|by left].
    unfold disconnect_db, delete_connection. destruct Hp as [P1 P2].
    destruct (canon c') as [v|] eqn:E1; [|by left]. destruct (canon t') as [v'|] eqn:E2; [|by left].
    assert (v = c' /\ v' = t') as [-> ->] by (split; [by apply P1|by apply P2]).
    destruct (bool_decide _) eqn:Eb; cbn [commit fst snd]; [|by left].
    unfold succeeded. cbn [snd db with_db connections].
    destruct (decide ((ch, t, o) = (c', t', u))) as [[= -> -> ->]|Hne].
    + right. exists (connectionEvent thingDisconnect c' t'). split; [by left|by left].
    + left. set_solver.
  - left. destruct c', key; cbn [canAccessEndpoint]; try done.
    unfold CanAccessByKey. destruct (hasThing _ _ _); [done|]. by destruct (has_thing _ _ _).
  - left. destruct c', t'; cbn [canAccessByIDEndpoint]; try done.
    unfold CanAccessByID. destruct (cached_conn _ _ _); [done|]. by destruct (has_thing_by_id _ _ _).
  - left. unfold identifyEndpoint, Identify. destruct (cached_id _ _); [done|]. by destruct (RetrieveByKey _ _).
Qed.

Lemma es_apply_grows ch es : plain_change ch -> grows es (es_apply auth ch es).
Proof.
  intros Hp Hup. unfold es_apply. cbn [stream_up stream es_catalog]. rewrite Hup. split; [done|].
  exists (events_of auth ch (es_catalog es)). split; [done|]. intros c t o Hc. unfold connected_in in *. cbn [es_catalog].
  destruct ch as [tok ths|tok chs|tok id i|tok id i|r]; [left..|by apply serve_lost].
  - cbn [apply_change]. unfold create_named_things.
    pose proof (CreateThings_connections tok (fst <$> ths) (core (es_catalog es)) _ Hc) as Hs.
    destruct (CreateThings _ _ _ _) as [sv [[]|e]]; cbn [fst] in Hs; by destruct (auth tok).
  - cbn [apply_change]. unfold create_named_channels.
    pose proof (CreateChannels_connections tok (fst <$> chs) (core (es_catalog es)) _ Hc) as Hs.
    destruct (CreateChannels _ _ _ _) as [sv [[]|e]]; cbn [fst] in Hs; by destruct (auth tok).
  - cbn [apply_change]. unfold UpdateThing, as_user, update_thing. destruct (auth tok); [|done].
    destruct (canon id); [|done]. by destruct (things _ !! _).
  - cbn [apply_change]. unfold UpdateChannel, as_user, update_channel. destruct (auth tok); [|done].
    destruct (canon id); [|done]. by destruct (bool_decide _).
Qed.

End Grow.

(** ** The calls of the SDK *)

(** A GET changes nothing, whatever it is routed to. *)
Class OtherRoutesOk {S} `{HS : Caches S} (OR : OtherRoutes (S := S)) : Prop := {
  other_thing_get id es : fst (other_thing id es) = es;
  other_channel_get id es : fst (other_channel id es) = es
}.

(** Identifiers of one form, that go into a path as they are. *)
Definition plain {U : Uuid} (id : text) : Prop := plain_segment id = true /\ plain_id id.

Section Calls.
Context {S : Type} `{HS : Caches S} {U : Uuid} {JT : JsonText} {J : Json metadata}.
Context {OR : OtherRoutes (S := S)} {OROk : OtherRoutesOk OR}.
Variable auth : text -> option text.

Abbreviation behind := (behind S).

#[local] Instance services : Sdk behind := things_sdk auth.

(** What is behind the SDK moves on. *)
Record advances (b b' : behind) : Prop := {
  adv_es : grows (es b) (es b');
  adv_fresh : Forall (fun made => plain (fst made)) (to_make b) -> Forall (fun made => plain (fst made)) (to_make b')
}.

#[local] Existing Instance grows_preorder.
#[local] Instance advances_preorder : PreOrder advances.
Proof.
  split; [by split|]. intros b1 b2 b3 [E1 F1] [E2 F2]. split; [by etrans|auto].
Qed.

Lemma exchange_advances {B} (serve : event_store (S := S) -> event_store * (B + sdk_error)) b :
  (forall es, grows es (fst (serve es))) -> advances b (fst (exchange serve b)).
Proof.
  intros H. unfold exchange. destruct (faults b) as [|[] fs]; try (split; [apply H|done]); try done.
  - specialize (H (es b)). destruct (serve (es b)) as [es' r]. by split.
  - specialize (H (es b)). destruct (serve (es b)) as [es' r]. by split.
Qed.

Lemma checked_grows {B} v decode (k : event_store (S := S) -> event_store * (B + sdk_error)) es :
  (forall es, grows es (fst (k es))) -> grows es (fst (checked v decode k es)).
Proof. intros H. by destruct v. Qed.

Lemma changed_grows ch r decode es : plain_change ch -> grows es (fst (changed auth ch r decode es)).
Proof. apply es_apply_grows. Qed.

Lemma thing_of_advances id token b : advances b (fst (sdk_thing_of id token b)).
Proof.
  apply exchange_advances. intros es. unfold view_thing_endpoint. destruct (plain_segment id).
  - by apply checked_grows.
  - by rewrite other_thing_get.
Qed.

Lemma channel_of_advances id token b : advances b (fst (sdk_channel_of id token b)).
Proof.
  apply exchange_advances. intros es. unfold view_channel_endpoint. destruct (plain_segment id).
  - by apply checked_grows.
  - by rewrite other_channel_get.
Qed.

Lemma create_thing_advances token b : advances b (fst (sdk_create_thing token b)).
Proof.
  simpl. unfold create_thing. destruct (to_make b) as [|made rest] eqn:E.
  - apply exchange_advances. intros es. by apply checked_grows.
  - trans (Behind (es b) rest (faults b)).
    + split; [done|]. rewrite E. cbn [to_make]. by intros [_ H]%Forall_cons.
    + apply exchange_advances. intros es. apply checked_grows. clear es. intros es.
      pose proof (changed_grows (NewThings token [(([], made), nameless)])
        (snd (CreateThings auth token (fst <$> [(([], made), nameless)]) (core (es_catalog es)))) write_error es I) as H.
      by destruct (changed _ _ _ _ _).
Qed.

Lemma delete_thing_advances id token b : plain id -> advances b (fst (sdk_delete_thing id token b)).
Proof.
  intros [Hs Hp]. apply exchange_advances. intros es. unfold remove_thing_endpoint. rewrite Hs.
  apply checked_grows. intros es'. by apply changed_grows.
Qed.

Lemma connect_advances t c token b :
  plain t -> plain c -> advances b (fst (sdk_connect t c token b)).
Proof.
  intros [Ht _] [Hc _]. apply exchange_advances. intros es. unfold connect_endpoint. rewrite Ht, Hc. simpl andb.
  apply checked_grows. intros es'. by apply changed_grows.
Qed.

Lemma disconnect_advances t c token b :
  plain t -> plain c -> advances b (fst (sdk_disconnect t c token b)).
Proof.
  intros [Ht Pt] [Hc Pc]. apply exchange_advances. intros es. unfold disconnect_endpoint. rewrite Ht, Hc. simpl andb.
  apply checked_grows. intros es'. by apply changed_grows.
Qed.

(** *** Connections made *)

Lemma insert_connection_there owner d c t d' :
  plain_id c -> plain_id t -> insert_connection owner d (c, t) = Ok d' -> (c, t, owner) ∈ connections d'.
Proof.
  intros Hc Ht. unfold insert_connection. cbn [fst snd].
  destruct (canon c) as [u|] eqn:E1; [|done]. destruct (canon t) as [v|] eqn:E2; [|done].
  rewrite (Hc _ E1), (Ht _ E2). destruct (_ || _); [done|]. destruct (bool_decide _); [done|].
  intros [= <-]. cbn [connections]. set_solver.
Qed.

Lemma connect_made t c token b b' :
  plain t -> plain c -> sdk_connect t c token b = (b', inl tt) ->
  exists owner, auth token = Some owner /\ connected_in (es b') c t owner.
Proof.
  intros [Ht Pt] [Hc Pc]. simpl.
  assert (Hserve : forall es es', connect_endpoint auth t c token es = (es', inl tt) ->
    exists owner, auth token = Some owner /\ connected_in es' c t owner).
  { intros es0 es'. unfold connect_endpoint. rewrite Ht, Hc. simpl andb. unfold checked, changed.
    destruct (check_connection token c t); [done|].
    unfold connected_in, es_apply, tables. cbn [apply_change]. unfold serve_core. cbn [serve].
    unfold Connect, as_owner. destruct (auth token) as [owner|]; [|done].
    unfold connect_all. cbn [mbind list_bind fmap list_fmap app foldl bind_result].
    destruct (insert_connection owner _ (c, t)) as [d|e] eqn:Ei; [|done]. intros [= <-].
    exists owner. split; [done|]. cbn [es_catalog core commit fst db with_db].
    by eapply insert_connection_there. }
  unfold exchange. destruct (faults b) as [|[] fs]; try done;
    destruct (connect_endpoint auth t c token (es b)) as [es' r] eqn:E; intros [= <- ->]; by eapply Hserve.
Qed.

(** ** The operations *)

Context {A : Aes} {JOk : JsonTextOk JT} {JN : JsonNull JT}.
Variable range : range_order.
Hypothesis Hrange : ranges range.

Definition forward (w w' : world behind) : Prop := advances (remote w) (remote w').

#[local] Instance forward_preorder : PreOrder forward.
Proof. split; [by intros w|]. intros w1 w2 w3. unfold forward. apply transitivity. Qed.

Definition allowed (B : Type) (f : behind -> behind * (B + sdk_error)) : Prop := forall b, advances b (fst (f b)).

Lemma allowed_call B (f : behind -> behind * (B + sdk_error)) : allowed B f -> moves forward (call f).
Proof. intros H w. unfold call. specialize (H (remote w)). by destruct (f (remote w)). Qed.

Lemma forward_fetch ids key : moves forward (fetch_channels ids key).
Proof. apply (moves_fetch _ allowed allowed_call). intros i b. apply channel_of_advances. Qed.

Lemma forward_disconnect id chs key :
  plain id -> Forall plain chs -> moves forward (disconnect_all id chs key).
Proof.
  intros Hi Hc. apply (moves_disconnect_all _ allowed allowed_call).
  apply (Forall_impl _ _ _ Hc). intros c H b. by apply disconnect_advances.
Qed.

Lemma forward_connect missing id chs key :
  plain id -> Forall plain chs -> moves forward (connect_each missing id chs key).
Proof.
  intros Hi Hc. apply (moves_connect_each _ allowed allowed_call).
  apply (Forall_impl _ _ _ Hc). intros c H b. by apply connect_advances.
Qed.

Lemma forward_thing key id : id = [] \/ plain id -> moves forward (thing key id).
Proof.
  intros Hid. apply (moves_thing _ allowed allowed_call).
  - intros b. apply create_thing_advances.
  - intros i b. apply thing_of_advances.
  - intros Hne b. apply delete_thing_advances. by destruct Hid.
Qed.

Lemma forward_execute f : moves forward (execute f).
Proof. intros w. unfold execute. by destruct (f (repo w)). Qed.

(** At one world. *)
Lemma bind_at {B C} (R : relation (world behind)) `{!PreOrder R} (m : action behind B) (k : B -> action behind C) w :
  R w (fst (m w)) -> (forall w' b, m w = (w', inl b) -> R w' (fst (k b w'))) -> R w (fst (bind m k w)).
Proof.
  intros Hm Hk. unfold bind. destruct (m w) as [w' [b|e]] eqn:E; [|done]. etrans; [exact Hm|]. by apply Hk.
Qed.

(** What has been connected once is, or a notice of its loss is on its way. *)
Definition backed (seen : nat) (b : behind) (c t o : text) : Prop :=
  connected_in (es b) c t o \/ exists e, e ∈ drop seen (stream (es b)) /\ notice c t e.

Definition lively (seen : nat) (b : behind) : Prop :=
  stream_up (es b) = true /\ (seen <= length (stream (es b)))%nat /\ Forall (fun made => plain (fst made)) (to_make b).

Lemma advances_lively seen b b' : advances b b' -> lively seen b -> lively seen b'.
Proof.
  intros [Hg Hf] (Hup & Hs & Hp). destruct (Hg Hup) as (Hup' & evs & E & _). split_and!; [done| |auto].
  rewrite E, length_app. lia.
Qed.

Lemma advances_backed seen b b' c t o : advances b b' -> lively seen b -> backed seen b c t o -> backed seen b' c t o.
Proof.
  intros [Hg _] (Hup & Hs & _) [Hc|(e & He & Hn)]; destruct (Hg Hup) as (_ & evs & E & Hl); unfold backed; rewrite E, drop_app_le by done.
  - destruct (Hl _ _ _ Hc) as [?|(e & He & Hn)]; [by left|right; exists e]. rewrite elem_of_app. auto.
  - right. exists e. rewrite elem_of_app. auto.
Qed.

Lemma connect_each_backed missing id chs key seen w w' :
  plain id -> Forall plain chs -> lively seen (remote w) ->
  connect_each missing id chs key w = (w', inl tt) ->
  chs = [] \/ exists owner, auth key = Some owner /\ forall c, c ∈ chs -> backed seen (remote w') c id owner.
Proof.
  intros Hid Hp. revert w. induction Hp as [|c chs Hc Hp IH]; intros w Hl; [by left|]. cbn [connect_each].
  intros (w1 & r & E1 & E2)%bind_inv. right.
  destruct r as [[]|[]]; try done.
  unfold call in E1. destruct (sdk_connect id c key (remote w)) as [b r] eqn:Eb. injection E1 as <- ->.
  pose proof (connect_advances id c key (remote w) Hid Hc) as Ha. rewrite Eb in Ha. cbn [fst] in Ha.
  destruct (connect_made _ _ _ _ _ Hid Hc Eb) as (owner & Ho & Hin). exists owner. split; [done|].
  pose proof (advances_lively _ _ _ Ha Hl) as Hl1. set (w1 := World b (repo w)) in *.
  assert (Hf : advances b (remote w')).
  { pose proof (forward_connect missing id chs key Hid Hp w1) as H. by rewrite E2 in H. }
  intros c' [->|Hc']%elem_of_cons.
  - apply (advances_backed seen b); [done|done|]. by left.
  - destruct (IH w1 Hl1 E2) as [->|(o' & Ho' & H)]; [by apply not_elem_of_nil in Hc'|].
    assert (o' = owner) as -> by congruence. by apply H.
Qed.

(** *** Things fetched *)

Lemma create_thing_plain seen token b b' id :
  lively seen b -> sdk_create_thing token b = (b', inl id) -> plain id.
Proof.
  intros (_ & _ & Hp). simpl. unfold create_thing. destruct (to_make b) as [|made rest].
  - assert (Hno : forall es : event_store (S := S), exists e, snd (no_identifier auth token es) = inr e).
    { intros es0. unfold no_identifier. destruct token; [by eexists|]. by eexists. }
    destruct (Hno (es b)) as [e He]. unfold exchange. destruct (faults b) as [|[] fs]; try done;
      destruct (no_identifier _ _ _) as [es' r]; cbn [snd] in He; subst r; done.
  - apply Forall_cons in Hp as [Hm _].
    assert (Hid : forall es es' : event_store (S := S), create_thing_endpoint auth token made es = (es', inl id) -> id = fst made).
    { intros es0 es'. unfold create_thing_endpoint, checked. destruct token; [done|].
      destruct (changed _ _ _ _ _) as [es1 [|]]; [|done]. by intros [= _ <-]. }
    unfold exchange. cbn [faults es]. destruct (faults b) as [|[] fs]; try done;
      destruct (create_thing_endpoint _ _ _ _) as [es' r] eqn:E; intros [= _ ->]; by rewrite (Hid _ _ E).
Qed.

Lemma thing_of_id id token b b' th : plain id -> sdk_thing_of id token b = (b', inl th) -> st_id th = id.
Proof.
  intros [Hs _]. simpl.
  assert (Hid : forall es es', view_thing_endpoint auth id token es = (es', inl th) -> st_id th = id).
  { intros es0 es'. unfold view_thing_endpoint. rewrite Hs. unfold checked. destruct (check token id); [done|].
    unfold ViewThing, as_user, retrieve_thing. destruct (auth token); [|done]. destruct (canon id); [|done].
    destruct (things _ !! _); [|done]. by intros [= _ <-]. }
  unfold exchange. destruct (faults b) as [|[] fs]; try done;
    destruct (view_thing_endpoint _ _ _ _) as [es' r] eqn:E; intros [= _ ->]; by eapply Hid.
Qed.

Lemma call_inv {B} (f : behind -> behind * (B + sdk_error)) w w' (r : B + sdk_error) :
  call f w = (w', inl r) -> exists b, f (remote w) = (b, r) /\ w' = World b (repo w).
Proof. unfold call. destruct (f (remote w)) as [b r0]. intros [= <- <-]. eauto. Qed.

Lemma thing_plain seen key id w w' th :
  lively seen (remote w) -> id = [] \/ plain id -> thing key id w = (w', inl th) -> plain (st_id th).
Proof.
  intros Hl Hid. unfold thing. intros (w1 & i & E1 & E2)%bind_inv.
  assert (Hi : plain i).
  { destruct id as [|c id]; [|injection E1 as _ <-; by destruct Hid].
    apply bind_inv in E1 as (w2 & [i'|e] & E1 & E3); [|done]. injection E3 as _ ->.
    apply call_inv in E1 as (b & Eb & ->). by eapply create_thing_plain. }
  apply bind_inv in E2 as (w2 & r & (b & Eb & ->)%call_inv & E3). destruct r as [th'|e].
  - injection E3 as _ <-. by rewrite (thing_of_id _ _ _ _ _ Hi Eb).
  - destruct e; try done; destruct id; try done; apply bind_inv in E3 as (? & ? & _ & ?); done.
Qed.

(** ** The invariant *)

Record system_ok (seen : nat) (b : behind) (db : store) : Prop := {
  so_store : store_ok db;
  so_lively : lively seen b;
  so_configs k : is_Some (configs db !! k) -> plain (fst k);
  so_links k h : (k, h) ∈ links db -> plain (fst h);
  so_backed t o r c : configs db !! (t, o) = Some r -> cr_state r = Active -> ((t, o), (c, o)) ∈ links db ->
    backed seen b c t o
}.

Lemma system_advances seen b b' db : advances b b' -> system_ok seen b db -> system_ok seen b' db.
Proof.
  intros Ha [Hok Hl Hc Hk Hb]. split; [done|by eapply advances_lively|done..|].
  intros t o r c H1 H2 H3. eapply advances_backed; [done..|]. by eapply Hb.
Qed.

(** Other tables, with what is new in them. *)
Lemma system_store seen b db db' :
  system_ok seen b db -> store_ok db' ->
  (forall k, is_Some (configs db' !! k) -> is_Some (configs db !! k) \/ plain (fst k)) ->
  (forall k h, (k, h) ∈ links db' -> (k, h) ∈ links db \/ plain (fst h)) ->
  (forall t o r c, configs db' !! (t, o) = Some r -> cr_state r = Active -> ((t, o), (c, o)) ∈ links db' ->
     (exists r0, configs db !! (t, o) = Some r0 /\ cr_state r0 = Active /\ ((t, o), (c, o)) ∈ links db) \/
     backed seen b c t o) ->
  system_ok seen b db'.
Proof.
  intros [Hok Hl Hc Hk Hb] Hok' H1 H2 H3. split; [done|done| | |].
  - intros k [?|?]%H1; [by apply Hc|done].
  - intros k h [?|?]%H2; [by eapply Hk|done].
  - intros t o r c Hr Ha Hi. destruct (H3 _ _ _ _ Hr Ha Hi) as [(r0 & ? & ? & ?)|?]; [by eapply Hb|done].
Qed.

(** Fewer rows, or rows that are no more active than they were. *)
Lemma system_weaker seen b db db' :
  system_ok seen b db -> store_ok db' -> links db' ⊆ links db ->
  (forall k r, configs db' !! k = Some r -> exists r0, configs db !! k = Some r0 /\
     (cr_state r = Active -> cr_state r0 = Active)) ->
  system_ok seen b db'.
Proof.
  intros Hs Hok Hl Hc. apply (system_store seen b db); [done|done| | |].
  - intros k [r Hr]. left. destruct (Hc _ _ Hr) as (r0 & Hr0 & _). by exists r0.
  - intros k h H. left. by apply Hl.
  - intros t o r c Hr Ha Hi. left. destruct (Hc _ _ Hr) as (r0 & Hr0 & Ha0). exists r0.
    split_and!; [done|by apply Ha0|by apply Hl].
Qed.

(** ** Events *)

Lemma handle_disconnect c t db :
  bs_handle (connectionEvent thingDisconnect c t) db = (ConfigRepository.DisconnectThing c t db, None).
Proof. done. Qed.
Lemma handle_remove_thing t db : bs_handle (removeEvent thingRemove t) db = (ConfigRepository.RemoveThing t db, None).
Proof. done. Qed.
Lemma handle_remove_channel c db :
  bs_handle (removeEvent channelRemove c) db = (ConfigRepository.RemoveChannel c db, None).
Proof. done. Qed.

Lemma bs_handle_weaker e db :
  links (fst (bs_handle e db)) ⊆ links db /\
  forall k r, configs (fst (bs_handle e db)) !! k = Some r -> exists r0, configs db !! k = Some r0 /\
    (cr_state r = Active -> cr_state r0 = Active).
Proof.
  unfold bs_handle. repeat case_bool_decide; cbn [fst].
  - split; [intros l; cbn; by intros [_ ?]%elem_of_filter|]. intros k r [Hr _]%map_lookup_filter_Some. by exists r.
  - unfold ConfigRepository.DisconnectThing. destruct (existsb _ _); [|split; [done|]; eauto].
    split; [done|]. intros k r. cbn [configs with_configs]. rewrite lookup_fmap, fmap_Some.
    intros (r0 & Hr & ->). exists r0. by split.
  - split; [done|]. intros k r Hr. by exists r.
  - split; [intros l; cbn; by intros [_ ?]%elem_of_filter|]. intros k r Hr. by exists r.
  - split; [done|]. eauto.
Qed.

(** The configurations that an event speaks of are no longer active, or no longer
    have the connection. *)
Lemma notice_handled e db c t o r :
  notice c t e -> configs (fst (bs_handle e db)) !! (t, o) = Some r -> cr_state r = Active ->
  ((t, o), (c, o)) ∉ links (fst (bs_handle e db)).
Proof.
  intros Hn Hr Ha Hl. pose proof (proj1 (bs_handle_weaker e db) _ Hl) as Hl0. destruct Hn as [->|[->| ->]].
  - rewrite handle_disconnect in Hr. cbn [fst] in Hr. unfold ConfigRepository.DisconnectThing in Hr.
    assert (existsb (fun l => bool_decide (fst (fst l) = t /\ fst (snd l) = c)) (elements (links db)) = true) as Hx.
    { apply existsb_exists. exists ((t, o), (c, o)). split; [by apply list_elem_of_In, elem_of_elements|].
      by apply bool_decide_eq_true. }
    rewrite Hx in Hr. cbn [configs with_configs] in Hr. rewrite lookup_fmap, fmap_Some in Hr.
    destruct Hr as (r0 & _ & ->). done.
  - rewrite handle_remove_thing in Hr. apply map_lookup_filter_Some in Hr as [_ Hr]. cbn [fst] in Hr.
    by apply bool_decide_eq_false in Hr.
  - rewrite handle_remove_channel in Hl. apply elem_of_filter in Hl as [Hl _]. by apply Hl.
Qed.

Lemma system_event seen b db e :
  system_ok seen b db -> stream (es b) !! seen = Some e -> system_ok (Datatypes.S seen) b (fst (bs_handle e db)).
Proof.
  intros Hs He. destruct (bs_handle_weaker e db) as [Hl Hc].
  pose proof (so_store _ _ _ Hs) as Hok. pose proof (bs_handle_ok e db Hok) as Hok'.
  destruct (system_weaker _ _ _ _ Hs Hok' Hl Hc) as [_ (Hup & Hlen & Hm) H1 H2 H3].
  split; [done| |done..|].
  - split_and!; [done|by apply lookup_lt_Some in He|done].
  - intros t o r c Hr Ha Hi. destruct (H3 _ _ _ _ Hr Ha Hi) as [?|(e' & He' & Hn)]; [by left|].
    rewrite (drop_S _ _ _ He) in He'. apply elem_of_cons in He' as [->|He']; [|right; by exists e'].
    by destruct (notice_handled _ _ _ _ _ _ Hn Hr Ha).
Qed.

(** ** Requests to the Bootstrap service *)

Lemma system_remote seen w w' :
  forward w w' -> repo w' = repo w -> system_ok seen (remote w) (repo w) -> system_ok seen (remote w') (repo w').
Proof. intros Hf -> Hs. by eapply system_advances. Qed.

(** New rows are inactive. *)
Lemma system_Add seen b db cfg conns id db' :
  system_ok seen b db -> plain (MFThing cfg) -> Forall plain conns -> State cfg = Inactive ->
  fetched db (Owner cfg) (MFChannels cfg) conns -> ConfigRepository.Save cfg conns db = inl (id, db') ->
  system_ok seen b db'.
Proof.
  intros Hs Hp Hc Hi Hf Hsave.
  destruct (Save_ok _ _ _ _ _ (so_store _ _ _ Hs) Hf Hsave) as (Hok & _ & _ & HL & key & _ & Hn & HC).
  apply (system_store seen b db); [done|done| | |].
  - intros k. rewrite HC, lookup_insert_is_Some'. intros [<-|?]; [by right|by left].
  - intros k h. rewrite HL, elem_of_union, elem_of_links_of. intros [(_ & _ & H)|?]; [right|by left].
    by eapply Forall_forall in Hc.
  - intros t o r c Hr Ha. rewrite HC in Hr. apply lookup_insert_Some in Hr as [[_ <-]|[Hne Hr]].
    { simpl in Ha. rewrite Hi in Ha. done. }
    rewrite HL, elem_of_union, elem_of_links_of. intros [(E & _)|H]; [by destruct Hne|]. left. by exists r.
Qed.

Lemma bind_error {B C} (m : action behind B) (k : B -> action behind C) w w1 e :
  m w = (w1, inr e) -> bind m k w = (w1, inr e).
Proof. unfold bind. by intros ->. Qed.
Lemma bind_ok {B C} (m : action behind B) (k : B -> action behind C) w w1 b :
  m w = (w1, inl b) -> bind m k w = k b w1.
Proof. unfold bind. by intros ->. Qed.

Abbreviation world_ok seen w := (system_ok seen (remote w) (repo w)).

(** An update of the state of a configuration, whose connections are backed when
    it becomes active. *)
Lemma system_set_state seen b db k state :
  system_ok seen b db -> (state = Active -> forall c, (k, (c, snd k)) ∈ links db -> backed seen b c (fst k) (snd k)) ->
  forall db', update_config (ConfigRepository.set_state state) k db = inl db' -> system_ok seen b db'.
Proof.
  intros Hs Hb db' H.
  destruct (update_config_store (ConfigRepository.set_state state) _ _ _ ltac:(done) (so_store _ _ _ Hs) H) as [Hok _].
  destruct (update_config_ok (ConfigRepository.set_state state) _ _ _ ltac:(done) (proj1 (so_store _ _ _ Hs)) H) as (r & Hr & -> & _).
  apply (system_store seen b db); [done|done| |by left|].
  - intros k' [r' Hr']. cbn [configs with_configs] in Hr'. apply lookup_insert_Some in Hr' as [[<- _]|[_ ?]]; left; by eexists.
  - intros t o r' c Hr' Ha Hi. cbn [configs links with_configs] in *. apply lookup_insert_Some in Hr' as [[-> <-]|[_ Hr']].
    + right. by apply (Hb Ha).
    + left. by exists r'.
Qed.

(** The start of an operation on a configuration of the user. *)
Lemma system_config {B} seen key id (k : text -> config -> action behind B) w :
  world_ok seen w ->
  (forall owner cfg, auth key = Some owner -> MFThing cfg = id -> plain id -> Forall plain (toIDList (MFChannels cfg)) ->
     (exists r, configs (repo w) !! (id, owner) = Some r /\ State cfg = cr_state r) ->
     (forall c, c ∈ toIDList (MFChannels cfg) <-> ((id, owner), (c, owner)) ∈ links (repo w)) ->
     world_ok seen (fst (k owner cfg w))) ->
  world_ok seen (fst (bind (identify auth key) (fun owner =>
    bind (query (ConfigRepository.RetrieveByID owner id)) (k owner)) w)).
Proof.
  intros Hs Hk. pose proof (so_store _ _ _ Hs) as [Hok Hli]. unfold identify.
  destruct (auth key) as [owner|] eqn:Ha; [|by rewrite (bind_error _ _ w w BsUnauthorized)].
  rewrite (bind_ok _ _ w w owner) by done.
  destruct (ConfigRepository.RetrieveByID owner id (repo w)) as [cfg|e] eqn:Eq;
    [|rewrite (bind_error _ _ w w e); [done|by unfold query; rewrite Eq]].
  rewrite (bind_ok _ _ w w cfg) by (unfold query; by rewrite Eq).
  destruct (RetrieveByID_inv _ _ _ _ Hok Eq) as (r & Hr & Hst & Hid & Hch).
  apply Hk; [done|done| | |by exists r|done].
  - apply (so_configs _ _ _ Hs (id, owner)). by eexists.
  - apply Forall_forall. intros c Hc%Hch. by apply (so_links _ _ _ Hs) in Hc.
Qed.

(** A step that only calls the Things service. *)
Lemma system_calls {B C} seen (m : action behind B) (k : B -> action behind C) w :
  world_ok seen w -> moves forward m -> moves same_repo m ->
  (forall w1 b, m w = (w1, inl b) -> world_ok seen w1 -> repo w1 = repo w -> advances (remote w) (remote w1) ->
     world_ok seen (fst (k b w1))) ->
  world_ok seen (fst (bind m k w)).
Proof.
  intros Hs Hf Hr Hk. specialize (Hf w). specialize (Hr w). unfold bind.
  destruct (m w) as [w1 [b|e]]; cbn [fst] in *.
  - apply Hk; [done|by apply (system_remote seen w)|done|done].
  - by apply (system_remote seen w).
Qed.

Lemma system_ChangeState seen key id state w :
  world_ok seen w -> world_ok seen (fst (ChangeState auth key id state w)).
Proof.
  intros Hs. apply system_config; [done|]. intros owner cfg Ha -> Hp Hcs _ Hch.
  destruct (State cfg =? state); [done|]. apply system_calls; [done| | |].
  - destruct (state =? Active); [by apply forward_connect|].
    destruct (state =? Inactive); [by apply forward_disconnect|]. apply moves_give, _.
  - destruct (state =? Active); [apply reads_connect_each|].
    destruct (state =? Inactive); [apply reads_disconnect_all|done].
  - intros w1 [] El Hs1 Er _. unfold execute, ConfigRepository.ChangeState.
    destruct (update_config _ _ _) as [db'|e] eqn:Eu; [|done]. cbn [fst remote repo].
    refine (system_set_state seen _ _ (id, owner) state Hs1 _ _ Eu). intros -> c Hc. cbn [fst snd] in *.
    rewrite Er in Hc. apply Hch in Hc.
    destruct (connect_each_backed _ _ _ _ _ _ _ Hp Hcs (so_lively _ _ _ Hs) El) as [Hnil|(o & Ho & H)].
    + rewrite Hnil in Hc. by apply not_elem_of_nil in Hc.
    + assert (o = owner) as -> by congruence. by apply H.
Qed.

(** The connections of a configuration, each of which was there or is backed if
    the configuration is active. *)
Lemma system_relink seen b db owner id chs conns db' :
  system_ok seen b db -> Forall plain conns -> fetched db owner chs conns ->
  ConfigRepository.UpdateConnections owner id chs conns db = inl db' ->
  (forall r c, configs db !! (id, owner) = Some r -> cr_state r = Active -> c ∈ conns ->
     ((id, owner), (c, owner)) ∈ links db \/ backed seen b c id owner) ->
  system_ok seen b db'.
Proof.
  intros Hs Hc Hf Hu Hb. destruct (UpdateConnections_ok _ _ _ _ _ _ (so_store _ _ _ Hs) Hf Hu) as (Hok & HC & _ & HL).
  destruct conns as [|c0 conns0]; [by subst db'|]. set (conns := c0 :: conns0) in *.
  apply (system_store seen b db); [done|done|rewrite HC; by left| |]; rewrite ?HC.
  - intros k h. rewrite HL, elem_of_union, elem_of_links_of. intros [(_ & _ & H)|H]; [right|left; set_solver].
    by eapply Forall_forall in Hc.
  - intros t o r c Hr Ha. rewrite HL, elem_of_union, elem_of_links_of. cbn [fst snd].
    intros [([= -> ->] & _ & H)|H]; [|left; exists r; set_solver].
    destruct (Hb _ _ Hr Ha H) as [?|?]; [left; by exists r|by right].
Qed.

Lemma system_UpdateConnections seen key id conns w :
  world_ok seen w -> Forall plain conns -> world_ok seen (fst (UpdateConnections auth range key id conns w)).
Proof.
  intros Hs Hpc. pose proof (so_store _ _ _ Hs) as [Hok Hli].
  apply system_config; [done|]. intros owner cfg Ha Hid Hp Hcs (r & Hr & Hst) Hch.
  unfold updateList. destruct (update_list _ conns) as [add rest] eqn:Eul.
  destruct (update_list_in _ _ _ _ Eul) as (Hrest & Hall & Hadd).
  destruct (ListExisting_spec owner conns (repo w) Hok) as (existing & He & Hin).
  rewrite (bind_ok _ _ w w existing) by (unfold query; by rewrite He).
  apply system_calls; [done|apply forward_fetch|apply reads_fetch|].
  intros w1 chs E1 Hs1 R1 A1. pose proof (connectionChannels_fetched _ Hrange owner _ _ _ _ _ _ Hok Hin E1) as Hf.
  assert (Hrem : Forall plain (range rest)).
  { apply Forall_forall. intros c. rewrite (Hrange rest), elem_of_elements. intros Hc%Hrest%elem_of_list_to_set.
    by eapply Forall_forall in Hcs. }
  assert (Hadds : Forall plain add) by (apply Forall_forall; intros c Hc%Hadd; by eapply Forall_forall in Hpc).
  destruct (if State cfg =? Active then (add, range rest) else ([], [])) as [connect disconnect] eqn:Ec.
  assert (Forall plain connect /\ Forall plain disconnect) as [Hpc' Hpd].
  { destruct (State cfg =? Active); injection Ec as <- <-; [by split|by split]. }
  apply system_calls; [done|by apply forward_disconnect|apply reads_disconnect_all|].
  intros w2 [] E2 Hs2 R2 A2. apply system_calls; [done|by apply forward_connect|apply reads_connect_each|].
  intros w3 [] E3 Hs3 R3 A3. unfold execute. assert (R : repo w3 = repo w) by congruence.
  destruct (ConfigRepository.UpdateConnections _ _ _ _ (repo w3)) as [db'|e] eqn:Eu; [|done]. cbn [fst remote repo].
  rewrite R in Hs3, Eu. refine (system_relink seen _ _ _ _ _ _ _ Hs3 Hpc Hf Eu _).
  intros r' c Hr' Hact Hc. assert (r' = r) as -> by congruence.
  destruct (Hall _ Hc) as [H%elem_of_list_to_set|H]; [left; by apply Hch|right].
  rewrite Hst, Hact in Ec. injection Ec as <- <-.
  destruct (connect_each_backed _ _ _ _ _ _ _ Hp Hadds (so_lively _ _ _ Hs2) E3) as [->|(o & Ho & Hb)];
    [by apply not_elem_of_nil in H|]. assert (o = owner) as -> by congruence. by apply Hb.
Qed.

Lemma system_Add_op seen key cfg w :
  world_ok seen w -> MFThing cfg = [] \/ plain (MFThing cfg) -> Forall plain (toIDList (MFChannels cfg)) ->
  world_ok seen (fst (Bootstrap.Add auth range key cfg w)).
Proof.
  intros Hs Hid Hpc. pose proof (so_store _ _ _ Hs) as [Hok Hli]. unfold Bootstrap.Add, identify.
  destruct (auth key) as [owner|] eqn:Ha; [|by rewrite (bind_error _ _ w w BsUnauthorized)].
  rewrite (bind_ok _ _ w w owner) by done. set (conns := toIDList (MFChannels cfg)) in *.
  destruct (ListExisting_spec owner conns (repo w) Hok) as (existing & He & Hin).
  rewrite (bind_ok _ _ w w existing) by (unfold query; by rewrite He).
  apply system_calls; [done|apply forward_fetch|apply reads_fetch|].
  intros w1 chs E1 Hs1 R1 A1. pose proof (connectionChannels_fetched _ Hrange owner _ _ _ _ _ _ Hok Hin E1) as Hf.
  apply system_calls; [done|by apply forward_thing|apply reads_thing|].
  intros w2 th E2 Hs2 R2 A2. pose proof (thing_plain _ _ _ _ _ _ (so_lively _ _ _ Hs1) Hid E2) as Hth.
  assert (R : repo w2 = repo w) by congruence. rewrite R in Hs2.
  set (cfg' := with_thing cfg owner th chs).
  destruct (ConfigRepository.Save cfg' conns (repo w)) as [[id db]|e] eqn:Es.
  - rewrite (bind_ok _ _ w2 (World (remote w2) db) (inl id)) by (unfold save; by rewrite R, Es).
    cbn [fst give remote repo]. by eapply (system_Add seen _ (repo w) cfg' conns).
  - rewrite (bind_ok _ _ w2 w2 (inr e)) by (unfold save; by rewrite R, Es).
    rewrite <- R in Hs2. destruct (MFThing cfg); [|done]. apply system_calls; [done| | |done].
    + apply allowed_call. intros b. by apply delete_thing_advances.
    + by apply reads_call.
Qed.

(** What is asked of the requests to the Bootstrap service. *)
Definition plain_request (q : bs_request) : Prop :=
  match q with
  | QAdd _ cfg channels => (MFThing cfg = [] \/ plain (MFThing cfg)) /\ Forall plain channels
  | QUpdateConn _ _ channels => Forall plain channels
  | _ => True
  end.

Lemma system_answer {B C} seen (m : action behind B) (c : B -> C) w :
  world_ok seen (fst (m w)) -> world_ok seen (fst (bind m (fun b => give (c b)) w)).
Proof. unfold bind. by destruct (m w) as [w' [b|e]]. Qed.

(** An update that leaves states and connections alone. *)
Lemma system_update_config seen key id (f : config_row -> config_row) w :
  (forall r, cr_external_id (f r) = cr_external_id r /\ cr_state (f r) = cr_state r) -> world_ok seen w ->
  world_ok seen (fst (bind (identify auth key) (fun owner => execute (update_config f (id, owner))) w)).
Proof.
  intros Hf Hs. unfold identify. destruct (auth key) as [owner|]; [|by rewrite (bind_error _ _ w w BsUnauthorized)].
  rewrite (bind_ok _ _ w w owner) by done. unfold execute. destruct (update_config f _ _) as [db'|e] eqn:Eu; [|done].
  cbn [fst remote repo]. destruct (update_config_store f _ _ _ (fun r => proj1 (Hf r)) (so_store _ _ _ Hs) Eu) as [Hok _].
  destruct (update_config_ok f _ _ _ (fun r => proj1 (Hf r)) (proj1 (so_store _ _ _ Hs)) Eu) as (r & Hr & -> & _).
  apply (system_weaker seen _ (repo w)); [done|done|done|]. intros k r' Hr'. cbn [configs with_configs] in Hr'.
  apply lookup_insert_Some in Hr' as [[<- <-]|[_ ?]]; [exists r; by rewrite (proj2 (Hf r))|by exists r'].
Qed.

Lemma system_serve seen lower int8in by_thing encKey q w :
  plain_request q -> world_ok seen w -> world_ok seen (bs_serve auth range lower int8in by_thing encKey q w).
Proof.
  intros Hq Hs. unfold bs_serve, endpoint, when_valid. destruct (validate q); [done|].
  destruct q as [key cfg channels|key id|key id name content|key id cert ckey ca|key id channels|key f offset limit|key id|key id secure|key id state];
    apply system_answer.
  - destruct Hq as [Hid Hc]. apply system_Add_op; [done|done|]. unfold toIDList, requested. cbn [MFChannels].
    rewrite <- list_fmap_compose. by apply Forall_fmap.
  - unfold View, bind, identify. by destruct (auth key).
  - by apply (system_update_config seen key id (ConfigRepository.set_info (updated id name content))).
  - by apply (system_update_config seen key id (ConfigRepository.set_certs cert ckey ca)).
  - by apply system_UpdateConnections.
  - unfold List, bind, identify. destruct (auth key); [|done]. by destruct (Unknown f).
  - unfold Remove, bind, identify. destruct (auth key) as [owner|]; [|done]. cbn [give execute fst remote repo].
    apply (system_weaker seen _ (repo w)); [done|by apply remove_ok, Hs| |].
    + intros l. cbn. by intros [_ ?]%elem_of_filter.
    + intros k r [Hr _]%map_lookup_filter_Some. by exists r.
  - unfold Bootstrap. destruct (SaveUnknown_ok key id (repo w) (so_store _ _ _ Hs)) as (Hok & HC & HL & _).
    destruct (ConfigRepository.RetrieveByExternalID id (repo w)) as [cfg|[]]; cbn [fst remote repo]; try done.
    + by destruct (key_matches encKey secure key cfg) as [[]|].
    + apply (system_weaker seen _ (repo w)); [done|done|by rewrite HL|]. rewrite HC. eauto.
  - by apply system_ChangeState.
Qed.

End Calls.

(** ** The system *)

Section System.
Context {S : Type} `{HS : Caches S} {U : Uuid} {JT : JsonText} {J : Json metadata}.
Context {OR : OtherRoutes (S := S)} {A : Aes}.
Variable auth : text -> option text.
Variables (lower : text -> text) (int8in : text -> option Z) (by_thing : list config -> list config).
Variable encKey : bytes.

(** The Bootstrap service with what is behind it, and how many events of the
    stream it has read. *)
Record system := System { sy_world : world (behind S); sy_seen : nat }.

#[local] Instance services_of : Sdk (behind S) := things_sdk auth.

(** Requests to the one service and to the other, events read in order, and the
    identity provider and the network doing as they will.  The Bootstrap service
    joins the stream at its end. *)
Inductive bs_reach : system -> Prop :=
| br_init (es : event_store (S := S)) : stream_up es = true ->
    bs_reach (System (World (Behind es [] []) empty_store) (length (stream es)))
| br_request w seen range q : bs_reach (System w seen) -> ranges range -> plain_request q ->
    bs_reach (System (bs_serve auth range lower int8in by_thing encKey q w) seen)
| br_change (b : behind S) db seen ch : bs_reach (System (World b db) seen) -> plain_change ch ->
    bs_reach (System (World (Behind (es_apply auth ch (es b)) (to_make b) (faults b)) db) seen)
| br_event b db seen e : bs_reach (System (World b db) seen) -> stream (es b) !! seen = Some e ->
    bs_reach (System (World b (fst (bs_handle e db))) (Datatypes.S seen))
| br_outside (b : behind S) db seen made fs : bs_reach (System (World b db) seen) ->
    Forall (fun m => plain (fst m)) made ->
    bs_reach (System (World (Behind (es b) made fs) db) seen).

Lemma reach_ok {OROk : OtherRoutesOk OR} {JOk : JsonTextOk JT} {JN : JsonNull JT} sy :
  bs_reach sy -> system_ok (sy_seen sy) (remote (sy_world sy)) (repo (sy_world sy)).
Proof.
  induction 1 as [es0 Hup|w seen range q _ IH Hr Hq|b db seen ch _ IH Hp|b db seen e _ IH He|b db seen made fs _ IH Hm];
    cbn [sy_seen sy_world remote repo] in *.
  - split; unfold empty_store; cbn [configs links].
    + apply empty_store_ok.
    + split_and!; [done|done|]. by constructor.
    + intros k [r H]. by rewrite lookup_empty in H.
    + intros k h H. by apply not_elem_of_empty in H.
    + intros t o r c H. by rewrite lookup_empty in H.
  - by apply system_serve.
  - apply (system_advances seen b); [|done]. split; [by apply es_apply_grows|done].
  - by apply system_event.
  - destruct IH as [H1 (Hup & Hs & _) H3 H4 H5]. split; [done| |done..]. by split_and!.
Qed.

End System.
