(* ===== verification/BootstrapProperties.v ===== *)
(** * Properties of the Bootstrap service

    Alone and beside the Things service: what an active configuration stands for,
    whose rows a request changes, what a device is given, and how the two services
    lose each other. *)

From S2P Require Import Prelude JsString Utf8 ThingsCache Things ThingsSafety ThingsProperties ThingsList ThingsEvents Base64 GoCodec ConfigStore ConfigCipher Bootstrap ConfigStoreSafety BootstrapSafety ThingsSdk BootstrapSystem.
From stdpp Require Import gmap sets.

Local Open Scope Z_scope.

(** ** Requests *)

Section Service.
Context {T : Type} `{ST : Sdk T} {JT : JsonText} {JOk : JsonTextOk JT} {JN : JsonNull JT} {A : Aes}.
Variable auth : text -> option text.

Lemma RetrieveByExternalID_spec db k r :
  tables_ok db -> configs db !! k = Some r ->
  exists chs, ConfigRepository.RetrieveByExternalID (cr_external_id r) db = inl (ConfigRepository.toConfig k r chs) /\
    forall c, c ∈ bc_id <$> chs <-> (k, (c, snd k)) ∈ links db.
Proof.
  intros Hok Hr. unfold ConfigRepository.RetrieveByExternalID.
  destruct (List.find _ _) as [[k' r']|] eqn:Ef.
  - apply List.find_some in Ef as [Hin%list_elem_of_In%elem_of_map_to_list Hx%bool_decide_eq_true]. cbn [snd] in Hx.
    assert (k' = k) as -> by (by eapply (ok_external _ Hok)). assert (r' = r) as -> by congruence.
    destruct (joined_channels db k Hok) as (chs & -> & Hc). by exists chs.
  - assert (Hin : In (k, r) (map_to_list (configs db))) by by apply list_elem_of_In, elem_of_map_to_list.
    apply (List.find_none _ _ Ef) in Hin. by apply bool_decide_eq_false in Hin.
Qed.

(** C26: The round trip of a configuration: once it is added, a device that shows its
    key, as it is or encrypted, is given what was saved, with the thing the
    Things service made of it, its key (in the form of its column), and the
    channels asked for. *)
Theorem added_bootstrapped range key cfg w w' saved encKey secure externalKey :
  ranges range -> store_ok (repo w) -> Bootstrap.Add auth range key cfg w = (w', inl saved) ->
  key_matches encKey secure externalKey cfg = inl true ->
  exists given, Bootstrap encKey externalKey (ExternalID cfg) secure w' = (w', inl given) /\
    MFThing given = MFThing saved /\ auth key = Some (Owner given) /\ char36 (MFKey saved) = Some (MFKey given) /\
    State given = Inactive /\
    Name given = Name cfg /\ Content given = Content cfg /\ ClientCert given = ClientCert cfg /\
    ClientKey given = ClientKey cfg /\ CACert given = CACert cfg /\
    forall c, c ∈ toIDList (MFChannels given) <-> c ∈ toIDList (MFChannels cfg).
Proof.
  intros Hrange Hok HA Hkey. pose proof (Add_cases auth range Hrange key cfg w Hok) as H. rewrite HA in H.
  destruct H as (owner & th & chs & existing & db & Ho & Hf & Hs & <- & ->).
  set (cfg' := with_thing cfg owner th chs) in *. set (k := (MFThing cfg', Owner cfg')).
  destruct (Save_ok cfg' _ _ _ _ Hok Hf Hs) as ([Hok' _] & _ & _ & HL & key' & Hk' & Hn & HC).
  destruct (RetrieveByExternalID_spec (repo w') k (toDBConfig cfg' key') Hok') as (given & Hg & Hch).
  { rewrite HC. apply lookup_insert_eq. }
  exists (ConfigRepository.toConfig k (toDBConfig cfg' key') given).
  unfold Bootstrap. change (ExternalID cfg) with (cr_external_id (toDBConfig cfg' key')). rewrite Hg.
  change (key_matches encKey secure externalKey (ConfigRepository.toConfig k (toDBConfig cfg' key') given))
    with (key_matches encKey secure externalKey cfg). rewrite Hkey.
  assert (Hnull : forall s, from_null (nullString s) = s) by (by intros []).
  split_and!; try done; [apply Hnull..|].
  intros c. unfold toIDList. cbn [MFChannels ConfigRepository.toConfig].
  rewrite Hch, HL, elem_of_union, elem_of_links_of. cbn [fst snd]. split; [|by left].
  intros [(_ & _ & ?)|Hold]; [done|]. destruct (ok_link _ (proj1 Hok) _ _ Hold) as (_ & [r Hr] & _). subst k. congruence.
Qed.

(** What [Bootstrap] hands out is the configuration with the external id asked for,
    and its external key was shown. *)
Lemma Bootstrap_given encKey key id secure (w w' : world T) given :
  Bootstrap encKey key id secure w = (w', inl given) ->
  w' = w /\ exists r, configs (repo w) !! (MFThing given, Owner given) = Some r /\ cr_external_id r = id /\
    ExternalID given = id /\ ExternalKey given = cr_external_key r /\ key_matches encKey secure key given = inl true.
Proof.
  unfold Bootstrap, ConfigRepository.RetrieveByExternalID.
  destruct (List.find _ _) as [[k r]|] eqn:Ef; [|by intros [= _ ?]].
  destruct (ConfigRepository.read_channels _) as [chs|e]; cbn beta iota;
    [|by destruct e].
  apply List.find_some in Ef as [Hin%list_elem_of_In%elem_of_map_to_list Hx%bool_decide_eq_true]. cbn [snd] in Hx.
  destruct (key_matches encKey secure key _) as [[]|] eqn:Hm; intros [= <- <-]. split; [done|].
  exists r. cbn [MFThing Owner ConfigRepository.toConfig]. rewrite <- surjective_pairing. by split_and!.
Qed.


Section Requests.
Variable range : range_order.
Hypothesis Hrange : ranges range.
Variables (lower : text -> text) (int8in : text -> option Z) (by_thing : list config -> list config).
Hypothesis Hsort : forall l, by_thing l ≡ₚ l.
Variable encKey : bytes.

(** A row of the tables as it is shown: with or without the certificates, with
    channels of its owner or without them. *)
Definition is_row (db : store) (cfg : config) : Prop :=
  let k := (MFThing cfg, Owner cfg) in
  exists r, configs db !! k = Some r /\
    (cfg = ConfigRepository.toConfig k r (MFChannels cfg) \/
     cfg = ConfigRepository.toConfig k (ConfigRepository.without_certs r) (MFChannels cfg)) /\
    Forall (fun ch => is_Some (bs_channels db !! (bc_id ch, Owner cfg))) (MFChannels cfg).

(** What a request may be shown: a user their own rows; the devices that asked
    before they were configured, to any user; and a device, who makes its request
    in nobody's name, the row with its external id, whose external key it shows. *)
Definition shown (q : bs_request) (w w' : world T) (a : bs_answer) : Prop :=
  match a with
  | Done_ => True
  | Location id => exists o, bs_user auth q = Some o /\ is_Some (configs (repo w') !! (id, o))
  | Viewed cfg => bs_user auth q = Some (Owner cfg) /\ is_row (repo w) cfg
  | Listed p => Forall (fun cfg =>
      (bs_user auth q = Some (Owner cfg) /\ is_row (repo w) cfg) \/
      (exists f, (exists key offset limit, q = QList key f offset limit) /\ Unknown f = true) /\
      exists id key, unknown_configs (repo w) !! id = Some key /\ cfg = ConfigRepository.unknown_config (id, key))
      (cp_configs p)
  | Delivered cfg => exists key secure, q = QBootstrap key (ExternalID cfg) secure /\ is_row (repo w) cfg /\
      key_matches encKey secure key cfg = inl true
  end.

Lemma read_row db k chs :
  tables_ok db -> ConfigRepository.read_channels (ConfigRepository.joined k db) = inl chs ->
  Forall (fun ch => is_Some (bs_channels db !! (bc_id ch, snd k))) chs.
Proof.
  intros Hok Hc. destruct (joined_channels db k Hok) as (chs' & Hc' & Hin). rewrite Hc in Hc'. injection Hc' as <-.
  apply Forall_forall. intros ch Hch.
  apply (ok_link _ Hok k (bc_id ch, snd k)), Hin. by apply list_elem_of_fmap_2.
Qed.

Lemma RetrieveByID_row owner id db cfg :
  tables_ok db -> ConfigRepository.RetrieveByID owner id db = inl cfg -> Owner cfg = owner /\ is_row db cfg.
Proof.
  unfold ConfigRepository.RetrieveByID. intros Hok. destruct (configs db !! _) as [r|] eqn:Hr; [|done].
  destruct (ConfigRepository.read_channels _) as [chs|] eqn:Hc; [|done]. intros [= <-]. split; [done|].
  exists r. split_and!; [done|by right|]. by apply (read_row db (id, owner)).
Qed.

Lemma page_elements {B} offset limit (rows : list B) p :
  paged rows offset limit = Ok p -> forall x, x ∈ pg_items p -> x ∈ rows.
Proof.
  unfold paged. destruct (_ || _); [done|]. intros [= <-] x. unfold page_of. cbn [pg_items].
  intros Hx%elem_of_take. destruct Hx as (i & Hi & _). apply list_elem_of_lookup. rewrite lookup_drop in Hi. eauto.
Qed.

Lemma page_or_empty_elements offset limit rows x :
  x ∈ cp_configs (ConfigRepository.page_or_empty offset limit rows) -> x ∈ rows.
Proof.
  unfold ConfigRepository.page_or_empty. destruct (paged rows offset limit) as [p|e] eqn:E.
  - by apply (page_elements _ _ _ _ E).
  - by intros ?%not_elem_of_nil.
Qed.

Lemma RetrieveAll_rows owner f offset limit db cfg :
  cfg ∈ cp_configs (ConfigRepository.RetrieveAll lower int8in by_thing owner f offset limit db) ->
  Owner cfg = owner /\ is_row db cfg.
Proof.
  unfold ConfigRepository.RetrieveAll. destruct (ConfigRepository.conditions _ _ f); [|by intros ?%not_elem_of_nil].
  intros Hx%page_or_empty_elements. rewrite (Hsort _) in Hx.
  apply list_elem_of_fmap in Hx as ([k r] & -> & Hin%elem_of_map_to_list). apply map_lookup_filter_Some in Hin as [Hr [Ho _]].
  cbn [fst snd] in Hr, Ho. split; [done|]. exists r. cbn [MFThing Owner ConfigRepository.toConfig fst snd MFChannels].
  rewrite <- surjective_pairing. split_and!; [done|by right|done].
Qed.

Lemma Bootstrap_row key id secure (w w' : world T) given :
  tables_ok (repo w) -> Bootstrap encKey key id secure w = (w', inl given) -> is_row (repo w) given.
Proof.
  intros Hok. unfold Bootstrap, ConfigRepository.RetrieveByExternalID.
  destruct (List.find _ _) as [[k r]|] eqn:Ef; [|done].
  destruct (ConfigRepository.read_channels _) as [chs|e] eqn:Hc; cbn beta iota; [|by destruct e].
  apply List.find_some in Ef as [Hin%list_elem_of_In%elem_of_map_to_list _].
  destruct (key_matches encKey secure key _) as [[]|]; intros [= _ <-].
  exists r. cbn [MFThing Owner ConfigRepository.toConfig MFChannels]. rewrite <- surjective_pairing.
  split_and!; [done|by left|by apply read_row].
Qed.

Lemma answer_inv {B} (m : action T B) (c : B -> bs_answer) w w' a :
  bind m (fun b => give (c b)) w = (w', inl a) -> exists b, m w = (w', inl b) /\ a = c b.
Proof. intros (w1 & b & E & [= <- <-])%bind_inv. eauto. Qed.

(** C23: Tenants: whatever a user or a device asks of the service, the rows of every
    user but the one that the token of the request belongs to stay as they are.
    What is shown is: to a user, their own rows with their own channels, and the
    devices that asked for a configuration before they had one, which are listed to
    every user with the id and key they showed; and to a device, the row with the
    external id it names, if it shows the external key of that row.  (The handlers
    of events make no such distinction, see [disconnected_by_others].) *)
Theorem config_tenants q (w : world T) :
  store_ok (repo w) ->
  let w' := fst (endpoint auth range lower int8in by_thing encKey q w) in
  (forall e, bs_user auth q <> Some e -> tenant_rows e (repo w) (repo w')) /\
  forall a, snd (endpoint auth range lower int8in by_thing encKey q w) = inl a -> shown q w w' a.
Proof.
  intros Hok w'. split.
  { intros e He. by apply (bs_serve_keeps auth range Hrange lower int8in by_thing encKey q w Hok). }
  intros a. subst w'. destruct (endpoint auth range lower int8in by_thing encKey q w) as [w' r] eqn:E. cbn [fst snd].
  intros ->. revert E. unfold endpoint, when_valid. destruct (validate q); [done|].
  destruct q as [key cfg channels|key id|key id name content|key id cert ckey ca|key id channels|key f offset limit|key id|key id secure|key id state];
    intros (b & Hb & ->)%answer_inv; cbn [shown bs_user bs_token option_bind]; try done.
  - pose proof (Add_cases auth range Hrange key (requested cfg channels) w Hok) as H. rewrite Hb in H.
    destruct H as (owner & th & chs & existing & db & Ho & Hf & Hs & <- & ->).
    destruct (Save_ok (with_thing (requested cfg channels) owner th chs) _ _ _ _ Hok Hf Hs)
      as (_ & _ & _ & _ & k' & _ & _ & HC).
    exists owner. split; [exact Ho|]. rewrite HC. eexists. apply lookup_insert_eq.
  - apply bind_inv in Hb as (w1 & owner & Hi & Hb). unfold identify in Hi. destruct (auth key) as [o|] eqn:Ho; [|done].
    injection Hi as <- <-. unfold query in Hb. injection Hb as <- Hb.
    destruct (RetrieveByID_row _ _ _ _ (proj1 Hok) Hb) as [<- Hrow]. split; [exact Ho|done].
  - apply bind_inv in Hb as (w1 & owner & Hi & Hb). unfold identify in Hi. destruct (auth key) as [o|] eqn:Ho; [|done].
    injection Hi as <- <-. apply Forall_forall. intros cfg Hc. destruct (Unknown f) eqn:Hu; injection Hb as _ <-.
    + right. split; [exists f; split; [by eexists _, _, _|done]|].
      apply page_or_empty_elements, list_elem_of_fmap in Hc as ([i k] & -> & Hin%elem_of_map_to_list).
      by exists i, k.
    + left. apply RetrieveAll_rows in Hc as [<- Hrow]. split; [exact Ho|done].
  - pose proof (Bootstrap_given _ _ _ _ _ _ _ Hb) as (_ & _ & _ & _ & Hid & _ & Hm).
    exists key, secure. rewrite Hid. split_and!; [done| |done]. exact (Bootstrap_row key id secure w w' b (proj1 Hok) Hb).
Qed.

End Requests.

End Service.

(** ** Beside the Things service *)

Section System.
Context {S : Type} `{HS : Caches S} {U : Uuid} {JT : JsonText} {J : Json metadata}.
Context {OR : OtherRoutes (S := S)} {OROk : OtherRoutesOk OR} {JOk : JsonTextOk JT} {JN : JsonNull JT} {A : Aes}.
Variable auth : text -> option text.
Variables (lower : text -> text) (int8in : text -> option Z) (by_thing : list config -> list config).
Variable encKey : bytes.

#[local] Instance here : Sdk (behind S) := services_of auth.

Abbreviation reach := (bs_reach auth lower int8in by_thing encKey).
Abbreviation ask range := (endpoint (T := behind S) auth range lower int8in by_thing encKey).
Abbreviation events sy := (drop (sy_seen sy) (stream (es (remote (sy_world sy))))).
Abbreviation joins b := (connections (tables (es_catalog (es b)))).

(** C22: What it means that a configuration is active, at any point of a run [reach]:
    its thing is connected with each of its channels in the Things service, unless
    the event that says otherwise has still to be read; with none to read, it is
    connected.  A run is a sequence of requests to the Bootstrap service, each of
    which ends before the next step (its calls of the Things service, whose
    requests and answers may get lost, are part of it), of requests to the Things
    service, whose event stream answers all along, and of events read in order; and
    identifiers are given in the form in which the database prints them.  With
    another form it does not hold ([removal_in_other_form]). *)
Theorem active_connected sy t o r c :
  reach sy -> configs (repo (sy_world sy)) !! (t, o) = Some r -> cr_state r = Active ->
  ((t, o), (c, o)) ∈ links (repo (sy_world sy)) ->
  (c, t, o) ∈ joins (remote (sy_world sy)) \/ exists e, e ∈ events sy /\ notice c t e.
Proof. intros Hr. exact (so_backed _ _ _ (reach_ok auth lower int8in by_thing encKey sy Hr) t o r c). Qed.

(** *** Connecting again *)

Lemma insert_connection_again owner d c t d' :
  plain_id c -> plain_id t -> (c, t, owner) ∈ connections d -> insert_connection owner d (c, t) <> Ok d'.
Proof.
  intros Hc Ht Hin. unfold insert_connection. cbn [fst snd].
  destruct (canon c) as [u|] eqn:E1; [|done]. destruct (canon t) as [v|] eqn:E2; [|done].
  rewrite (Hc _ E1), (Ht _ E2). destruct (_ || _); [done|]. by rewrite bool_decide_eq_true_2.
Qed.

(** A thing that is connected cannot be connected. *)
Lemma connect_again t c token owner (b : behind S) :
  plain t -> plain c -> auth token = Some owner -> (c, t, owner) ∈ joins b ->
  exists e, snd (sdk_connect t c token b) = inr e.
Proof.
  intros [Ht Pt] [Hc Pc] Ha Hin. cbn [sdk_connect here services_of things_sdk].
  assert (Hserve : exists e, snd (connect_endpoint auth t c token (es b)) = inr e).
  { unfold connect_endpoint. rewrite Ht, Hc. cbn [andb]. unfold checked, changed.
    destruct (check_connection token c t); [by eexists|]. cbn [snd]. unfold Connect, as_owner. rewrite Ha.
    unfold connect_all. cbn [mbind list_bind fmap list_fmap app foldl bind_result].
    destruct (insert_connection owner _ (c, t)) as [d|e] eqn:Ei; [|by eexists].
    by destruct (insert_connection_again _ _ _ _ _ Pc Pt Hin Ei). }
  unfold exchange. destruct Hserve as [e He].
  destruct (faults b) as [|[] fs]; try (by eexists);
    destruct (connect_endpoint auth t c token (es b)) as [es' r]; cbn [snd] in *; by exists e.
Qed.

Lemma read_config seen (b : behind S) db t o r :
  system_ok seen b db -> configs db !! (t, o) = Some r ->
  exists cfg, ConfigRepository.RetrieveByID o t db = inl cfg /\ State cfg = cr_state r /\ MFThing cfg = t /\
    forall c, c ∈ toIDList (MFChannels cfg) <-> ((t, o), (c, o)) ∈ links db.
Proof.
  intros Hs Hr. destruct (so_store _ _ _ Hs) as [Hok _].
  destruct (joined_channels db (t, o) Hok) as (chs & Hj & Hc).
  assert (He : ConfigRepository.RetrieveByID o t db = inl (ConfigRepository.toConfig (t, o) (ConfigRepository.without_certs r) chs)).
  { unfold ConfigRepository.RetrieveByID. by rewrite Hr, Hj. }
  eexists. split; [exact He|]. by split_and!.
Qed.

(** A configuration that is inactive while its thing is connected cannot be made
    active. *)
Lemma activation_refused seen (b : behind S) db token t o r c :
  system_ok seen b db -> auth token = Some o -> configs db !! (t, o) = Some r -> cr_state r = Inactive ->
  ((t, o), (c, o)) ∈ links db -> (forall c, ((t, o), (c, o)) ∈ links db -> (c, t, o) ∈ joins b) ->
  exists b', ChangeState auth token t Active (World b db) = (World b' db, inr BsThings).
Proof.
  intros Hs Ha Hr Hst Hl Hall. destruct (read_config _ _ _ _ _ _ Hs Hr) as (cfg & Hcfg & Hst' & Hid & Hch).
  unfold ChangeState, bind, identify, query. rewrite Ha. cbn [give repo]. rewrite Hcfg. rewrite Hst', Hst.
  cbn [Z.eqb Pos.eqb Inactive Active]. rewrite Hid.
  destruct (toIDList (MFChannels cfg)) as [|c1 cs] eqn:Ecs; [by apply Hch, not_elem_of_nil in Hl|].
  assert (Hl1 : ((t, o), (c1, o)) ∈ links db) by (apply Hch; by left).
  assert (Pt : plain t) by (apply (so_configs _ _ _ Hs (t, o)); by eexists).
  assert (Pc : plain c1) by apply (so_links _ _ _ Hs _ _ Hl1).
  destruct (connect_again t c1 token o b Pt Pc Ha (Hall _ Hl1)) as [e He].
  cbn [connect_each]. unfold bind, call. cbn [remote repo].
  destruct (sdk_connect t c1 token b) as [b' r']. cbn [snd] in He. subst r'. exists b'. by destruct e.
Qed.

(** *** Disconnections *)

Lemma disconnected tok c t o (x : event_store (S := S)) :
  auth tok = Some o -> stream_up x = true -> canon c = Some c -> canon t = Some t ->
  (c, t, o) ∈ connections (tables (es_catalog x)) ->
  let x' := es_apply auth (Core (RDisconnect tok c t)) x in
  stream x' = stream x ++ [connectionEvent thingDisconnect c t] /\
  connections (tables (es_catalog x')) = connections (tables (es_catalog x)) ∖ {[(c, t, o)]}.
Proof.
  intros Ha Hup Hc Ht Hin x'. subst x'. unfold es_apply. cbn [stream es_catalog]. rewrite Hup.
  unfold tables in *. cbn [apply_change events_of]. unfold serve_core. cbn [core serve]. unfold Disconnect, as_owner. rewrite Ha.
  unfold disconnect_db, delete_connection. rewrite Hc, Ht. cbn [disconnect_cache on_cache db].
  rewrite bool_decide_eq_true_2 by done. done.
Qed.

Lemma DisconnectThing_all c t o db :
  ((t, o), (c, o)) ∈ links db ->
  ConfigRepository.DisconnectThing c t db = with_configs db (ConfigRepository.set_state Inactive <$> configs db).
Proof.
  intros Hl. unfold ConfigRepository.DisconnectThing.
  assert (existsb (fun l => bool_decide (fst (fst l) = t /\ fst (snd l) = c)) (elements (links db)) = true) as ->; [|done].
  apply existsb_exists. exists ((t, o), (c, o)). split; [by apply list_elem_of_In, elem_of_elements|].
  by apply bool_decide_eq_true.
Qed.

(** C24: One disconnection makes the configurations of everybody inactive.  When a user
    disconnects a thing of his, the event lets the service mark every
    configuration there is as inactive; the other things stay connected, and
    because they are, their owners cannot make their configurations active again:
    the attempt is answered with an error of the Things service. *)
Theorem disconnected_by_others sy t o token r c bob tok cb u :
  reach sy -> events sy = [] ->
  auth token = Some o -> configs (repo (sy_world sy)) !! (t, o) = Some r -> cr_state r = Active ->
  ((t, o), (c, o)) ∈ links (repo (sy_world sy)) ->
  auth tok = Some bob -> bob <> o -> canon cb = Some cb -> canon u = Some u ->
  (cb, u, bob) ∈ joins (remote (sy_world sy)) -> ((u, bob), (cb, bob)) ∈ links (repo (sy_world sy)) ->
  let b := remote (sy_world sy) in
  let b' := Behind (es_apply auth (Core (RDisconnect tok cb u)) (es b)) (to_make b) (faults b) in
  exists ev, stream (es b') = stream (es b) ++ [ev] /\
    let db' := fst (bs_handle ev (repo (sy_world sy))) in
    (forall k r', configs db' !! k = Some r' -> cr_state r' = Inactive) /\
    (c, t, o) ∈ joins b' /\
    exists b'', ChangeState auth token t Active (World b' db') = (World b'' db', inr BsThings).
Proof.
  intros Hreach Hev Ha Hr Hact Hl Hb Hne Hcb Hu Hin Hbl b b'. destruct sy as [[b0 db] seen]. cbn [sy_world sy_seen remote repo] in *.
  subst b. pose proof (reach_ok auth lower int8in by_thing encKey _ Hreach) as Hok. cbn [sy_world sy_seen remote repo] in Hok.
  destruct (so_lively _ _ _ Hok) as (Hup & Hseen & _).
  destruct (disconnected tok cb u bob (es b0) Hb Hup Hcb Hu Hin) as [Hstream Hconns].
  set (ev := connectionEvent thingDisconnect cb u) in *. exists ev. split; [done|].
  assert (Hreach' : reach (System (World b' (fst (bs_handle ev db))) (Datatypes.S seen))).
  { apply br_event; [|].
    - apply br_change; [done|]. split; intros v Hv; congruence.
    - subst b'. cbn [es]. rewrite Hstream. apply lookup_app_Some. right. 
      assert (seen = length (stream (es b0))) as ->; [|by rewrite Nat.sub_diag].
      assert (length (drop seen (stream (es b0))) = 0%nat) as Hd by by rewrite Hev. rewrite length_drop in Hd. lia. }
  pose proof (reach_ok auth lower int8in by_thing encKey _ Hreach') as Hok'. cbn [sy_world sy_seen remote repo] in Hok'.
  assert (Hdb : fst (bs_handle ev db) = with_configs db (ConfigRepository.set_state Inactive <$> configs db)).
  { subst ev. rewrite handle_disconnect. cbn [fst]. by apply (DisconnectThing_all cb u bob). }
  assert (Hall : forall c', ((t, o), (c', o)) ∈ links db -> (c', t, o) ∈ joins b').
  { intros c' Hc'. subst b'. cbn [es]. rewrite Hconns. apply elem_of_difference. split; [|intros [= _ _ <-]%elem_of_singleton; done].
    destruct (so_backed _ _ _ Hok _ _ _ _ Hr Hact Hc') as [?|(x & Hx & _)]; [done|].
    rewrite Hev in Hx. by apply not_elem_of_nil in Hx. }
  cbv zeta. rewrite Hdb in *. split_and!.
  - intros k r'. cbn [configs with_configs]. rewrite lookup_fmap, fmap_Some. by intros (r0 & _ & ->).
  - by apply Hall.
  - eapply (activation_refused _ b' _ token t o (ConfigRepository.set_state Inactive r) c Hok' Ha); try done.
    cbn [configs with_configs]. by rewrite lookup_fmap, Hr.
Qed.

(** Any user can remove the configuration of another user's thing: the Things
    service leaves the thing alone, answers all the same, and reports a removal. *)
Theorem config_removed_by_others (x : event_store (S := S)) db t o bob tok :
  auth tok = Some bob -> bob <> o -> stream_up x = true ->
  let x' := es_apply auth (Core (RRemoveThing tok t)) x in
  things (tables (es_catalog x')) !! (t, o) = things (tables (es_catalog x)) !! (t, o) /\
  exists ev, stream x' = stream x ++ [ev] /\ configs (fst (bs_handle ev db)) !! (t, o) = None.
Proof.
  intros Hb Hne Hup x'. split.
  - subst x'. unfold es_apply, tables. cbn [es_catalog apply_change serve_core serve core]. unfold serve_core. cbn [core serve].
    unfold RemoveThing, as_owner. rewrite Hb. cbn [fst with_db Things.db on_cache].
    unfold remove_thing. destruct (canon t) as [v|]; [|done]. cbn [things]. rewrite lookup_delete_ne; [done|congruence].
  - exists (removeEvent thingRemove t). split.
    + subst x'. unfold es_apply. cbn [stream]. rewrite Hup. cbn [events_of]. unfold RemoveThing, as_owner. by rewrite Hb.
    + rewrite handle_remove_thing. cbn [fst]. apply map_lookup_filter_None. right. intros r _. cbn [fst].
      by rewrite bool_decide_eq_true_2.
Qed.

(** The owner of a channel removes it, and writes its identifier in another form
    than the database prints (in capitals, for a UUID).  The Things service removes
    the channel with its connections, and reports the removal under the identifier
    as it was written, which is no text of the Bootstrap tables: the configurations
    stay as they are, active or not, with the channel. *)
Theorem removal_in_other_form (x : event_store (S := S)) db s c t o tok :
  auth tok = Some o -> canon s = Some c -> stream_up x = true ->
  (forall k h, (k, h) ∈ links db -> fst h <> s) ->
  let x' := es_apply auth (Core (RRemoveChannel tok s)) x in
  ((c, t, o) ∉ connections (tables (es_catalog x'))) /\
  exists ev, stream x' = stream x ++ [ev] /\
    configs (fst (bs_handle ev db)) = configs db /\ links (fst (bs_handle ev db)) = links db.
Proof.
  intros Ha Hc Hup Hs x'. split.
  - subst x'. unfold es_apply, tables. cbn [es_catalog apply_change serve_core serve core]. unfold serve_core. cbn [core serve].
    unfold RemoveChannel, as_owner. rewrite Ha. cbn [fst with_db Things.db on_cache].
    unfold remove_channel. rewrite Hc. cbn [connections]. intros [Hn _]%elem_of_filter. by apply Hn.
  - exists (removeEvent channelRemove s). split.
    + subst x'. unfold es_apply. cbn [stream]. rewrite Hup. cbn [events_of]. unfold RemoveChannel, as_owner. by rewrite Ha.
    + rewrite handle_remove_channel. cbn [fst]. split; [done|]. unfold ConfigRepository.RemoveChannel. cbn [links].
      apply set_eq. intros [k h]. rewrite elem_of_filter. cbn [fst snd]. split; [by intros [_ ?]|].
      intros H. split; [by eapply Hs|done].
Qed.

(** *** A request that gets lost *)

Lemma no_channels range key : ranges range -> connectionChannels (T := behind S) range [] [] key = give [].
Proof.
  intros Hr. unfold connectionChannels. assert (range (list_to_set [] ∖ list_to_set []) = []) as ->; [|done].
  apply Permutation_nil. rewrite (Hr _). done.
Qed.

Lemma removed_thing tok t u o (x : event_store (S := S)) :
  auth tok = Some o -> canon t = Some u ->
  things (tables (es_catalog (es_apply auth (Core (RRemoveThing tok t)) x))) !! (u, o) = None.
Proof.
  intros Ha Ht. unfold es_apply, tables. cbn [es_catalog apply_change]. unfold serve_core. cbn [core serve].
  unfold RemoveThing, as_owner. rewrite Ha. cbn [fst with_db Things.db]. unfold remove_thing. rewrite Ht. cbn [things].
  apply lookup_delete_eq.
Qed.

(** Fetching channels changes no table. *)
Lemma fetch_keeps_tables (b b1 : behind S) ids token db db1 chs :
  fetch_channels ids token (World b db) = (World b1 db1, inl chs) -> es b1 = es b.
Proof.
  revert b db db1 chs. induction ids as [|id ids IH]; intros b db db1 chs; cbn [fetch_channels]; [by intros [= <- _ _]|].
  assert (Hes : forall x, fst (view_channel_endpoint auth id token x) = x).
  { intros x. unfold view_channel_endpoint, checked. destruct (plain_segment id); [by destruct (check token id)|].
    apply other_channel_get. }
  assert (Hget : es (fst (exchange (view_channel_endpoint auth id token) b)) = es b).
  { unfold exchange. specialize (Hes (es b)). destruct (view_channel_endpoint _ _ _ (es b)) as [x r].
    simpl in Hes. subst x. by destruct (faults b) as [|[] ?]. }
  intros (w1 & r & Hcall & Hk)%bind_inv. unfold call in Hcall.
  cbn [remote sdk_channel_of here services_of things_sdk repo] in Hcall.
  destruct (exchange _ b) as [b' r']. injection Hcall as <- <-. cbn [fst] in Hget.
  destruct r' as [ch|]; [|done]. apply bind_inv in Hk as ([b2 db2] & chs' & Hk & [= <- _ _]).
  etrans; [by eapply IH|done].
Qed.

(** The request for the thing, or its answer, is lost, and the one to delete the
    thing is not. *)
Definition lookup_lost (fs : list fault) : Prop :=
  exists f fs', fs = f :: fs' /\ f <> Served /\ head fs' <> Some NotDelivered.

Lemma lost_lookup token t (b : behind S) db :
  plain_segment t = true -> token <> [] -> lookup_lost (faults b) ->
  exists fs, thing token t (World b db) =
    (World (Behind (es_apply auth (Core (RRemoveThing token t)) (es b)) (to_make b) fs) db, inr BsThings).
Proof.
  intros Hseg Htok (f & fs & Hf & Hlost & Hfs).
  assert (Hget : exchange (view_thing_endpoint auth t token) b = (Behind (es b) (to_make b) fs, inr SdkFailed)).
  { assert (Hes : fst (view_thing_endpoint auth t token (es b)) = es b)
      by (unfold view_thing_endpoint, checked; rewrite Hseg; by destruct (check token t)).
    unfold exchange. rewrite Hf. destruct f; [done| |]; by rewrite ?Hes. }
  assert (Hdel : exists r fs', exchange (remove_thing_endpoint auth t token) (Behind (es b) (to_make b) fs) =
    (Behind (es_apply auth (Core (RRemoveThing token t)) (es b)) (to_make b) fs', r)).
  { unfold exchange. cbn [faults es to_make]. unfold remove_thing_endpoint, checked, check. rewrite Hseg.
    destruct token, t; try done. destruct fs as [|[] fs]; try done; by eexists _, _. }
  destruct Hdel as (r & fs' & Hdel). exists fs'. unfold thing. destruct t as [|y ys]; [done|]. set (t := y :: ys) in *.
  rewrite (bind_ok _ _ _ (World b db) t) by done.
  rewrite (bind_ok _ _ _ (World (Behind (es b) (to_make b) fs) db) (inr SdkFailed)).
  2:{ unfold call. cbn [remote sdk_thing_of here services_of things_sdk]. by rewrite Hget. }
  rewrite (bind_ok _ _ _ (World (Behind (es_apply auth (Core (RRemoveThing token t)) (es b)) (to_make b) fs') db) r); [done|].
  unfold call. cbn [remote sdk_delete_thing here services_of things_sdk repo]. by rewrite Hdel.
Qed.

(** C28: A user who has a thing adds a configuration for it.  The service finds or
    fetches the channels asked for, and then asks for the thing; if this request or
    its answer gets lost, the service answers with an error and saves nothing; and
    unless its next request is not delivered either, the thing of the user, in
    whatever form the identifier was written, is deleted. *)
Theorem lookup_failure_deletes range token o cfg channels u key (b b1 : behind S) db existing chs :
  auth token = Some o -> token <> [] -> ExternalID cfg <> [] -> ExternalKey cfg <> [] ->
  plain_segment (MFThing cfg) = true -> canon (MFThing cfg) = Some u ->
  things (tables (es_catalog (es b))) !! (u, o) = Some key ->
  ConfigRepository.ListExisting o channels db = inl existing ->
  connectionChannels range channels (toIDList existing) token (World b db) = (World b1 db, inl chs) ->
  lookup_lost (faults b1) ->
  exists b2, ask range (QAdd token cfg channels) (World b db) = (World b2 db, inr BsThings) /\
    things (tables (es_catalog (es b1))) !! (u, o) = Some key /\
    things (tables (es_catalog (es b2))) !! (u, o) = None.
Proof.
  intros Ha Htok Hid Hkey Hseg Hcan Hthing Hex Hch Hf.
  destruct (lost_lookup token (MFThing cfg) b1 db Hseg Htok Hf) as [fs Hlost].
  exists (Behind (es_apply auth (Core (RRemoveThing token (MFThing cfg))) (es b1)) (to_make b1) fs).
  split_and!; [|rewrite (fetch_keeps_tables _ _ _ _ _ _ _ Hch); exact Hthing|by eapply removed_thing].
  unfold endpoint, when_valid.
  assert (validate (QAdd token cfg channels) = None) as ->.
  { unfold validate. destruct token; [done|]. destruct (ExternalID cfg); [done|]. by destruct (ExternalKey cfg). }
  apply bind_error. unfold Bootstrap.Add. set (w := World b db).
  assert (Hids : toIDList (MFChannels (requested cfg channels)) = channels).
  { unfold toIDList, requested. cbn [MFChannels]. rewrite <- list_fmap_compose. apply list_fmap_id. }
  rewrite (bind_ok _ _ w w o) by (unfold identify; by rewrite Ha). rewrite Hids.
  rewrite (bind_ok _ _ w w existing) by (unfold query; by rewrite <- Hex).
  rewrite (bind_ok _ _ w (World b1 db) chs) by done. apply bind_error. exact Hlost.
Qed.

(** *** New connections *)

(** Whatever happens to a request, an exchange keeps what the endpoint keeps. *)
Lemma exchange_keeps {B} (P : event_store (S := S) -> Prop) (serve : event_store (S := S) -> event_store (S := S) * (B + sdk_error)) b :
  P (es b) -> (forall x, P x -> P (fst (serve x))) -> P (es (fst (exchange serve b))).
Proof.
  intros Hb Hs. unfold exchange. destruct (faults b) as [|[] fs]; try done; [|..];
    specialize (Hs _ Hb); try done; by destruct (serve (es b)) as [x r].
Qed.

Abbreviation there x := (connections (tables (es_catalog x))).

Lemma disconnect_serves t c token (x : event_store (S := S)) :
  plain t -> plain c ->
  there (fst (disconnect_endpoint auth t c token x)) ⊆ there x /\
  match snd (disconnect_endpoint auth t c token x) with
  | inl _ | inr SdkNotFound =>
      exists o, auth token = Some o /\ (c, t, o) ∉ there (fst (disconnect_endpoint auth t c token x))
  | inr _ => True
  end.
Proof.
  intros [Ht Pt] [Hc Pc]. unfold disconnect_endpoint. rewrite Ht, Hc. cbn [andb]. unfold checked, check_connection, check.
  destruct token as [|z zs]; [done|]. destruct c as [|yc yys]; [done|]. destruct t as [|yt yts]; [done|].
  set (tok := z :: zs). set (ch := yc :: yys) in *. set (th := yt :: yts) in *. unfold changed. cbn [fst snd].
  unfold es_apply, tables. cbn [es_catalog apply_change]. unfold serve_core. cbn [core Things.serve].
  unfold Disconnect, as_owner. destruct (auth tok) as [o|]; [|done].
  unfold disconnect_db, delete_connection.
  destruct (canon ch) as [u|] eqn:E1; [|done]. destruct (canon th) as [v|] eqn:E2; [|done].
  rewrite (Pc _ E1), (Pt _ E2). cbn [disconnect_cache on_cache Things.db].
  case_bool_decide as Hin; cbn [commit fst snd with_db Things.db connections].
  - split; [set_solver|]. exists o. set_solver.
  - split; [done|]. by exists o.
Qed.

Lemma disconnect_all_gone t chs token w w' :
  plain t -> Forall plain chs -> disconnect_all t chs token w = (w', inl tt) ->
  there (es (remote w')) ⊆ there (es (remote w)) /\
  forall c, c ∈ chs -> exists o, auth token = Some o /\ (c, t, o) ∉ there (es (remote w')).
Proof.
  intros Ht Hp. revert w. induction Hp as [|c chs Hc Hp IH]; intros w; cbn [disconnect_all].
  { intros [= <-]. split; [done|]. by intros ? ?%not_elem_of_nil. }
  intros (w1 & rr & E1 & E2)%bind_inv. apply call_inv in E1 as (b1 & Eb & ->).
  assert (Hb : there (es b1) ⊆ there (es (remote w)) /\
    ((rr = inl tt \/ rr = inr SdkNotFound) -> exists o, auth token = Some o /\ (c, t, o) ∉ there (es b1))).
  { cbn [sdk_disconnect here services_of things_sdk] in Eb. destruct (disconnect_serves t c token (es (remote w)) Ht Hc) as [Hs Hg].
    unfold exchange in Eb. destruct (faults (remote w)) as [|[] fs].
    - destruct (disconnect_endpoint _ _ _ _ _) as [x r]. injection Eb as <- <-. split; [done|].
      by intros [->| ->].
    - destruct (disconnect_endpoint _ _ _ _ _) as [x r]. injection Eb as <- <-. split; [done|].
      by intros [->| ->].
    - injection Eb as <- <-. split; [done|]. by intros [?|?].
    - injection Eb as <- <-. split; [done|]. by intros [?|?]. }
  destruct Hb as [Hb Hgone].
  assert (Hr : rr = inl tt \/ rr = inr SdkNotFound).
  { destruct rr as [[]|[]]; try done; [by left|by right]. }
  assert (E3 : disconnect_all t chs token (World b1 (repo w)) = (w', inl tt)).
  { by destruct Hr as [->| ->]. }
  destruct (IH _ E3) as [Hsub Hall]. cbn [remote] in Hsub. split; [by etrans|].
  intros c' [->|Hc']%elem_of_cons; [|by apply Hall].
  destruct (Hgone Hr) as (o & Ho & Hn). exists o. split; [done|]. set_solver.
Qed.

Lemma connect_serves t c token (x : event_store (S := S)) :
  plain t -> plain c -> forall c' o, (c', t, o) ∈ there (fst (connect_endpoint auth t c token x)) ->
  c' <> c -> (c', t, o) ∈ there x.
Proof.
  intros [Ht Pt] [Hc Pc] c' o. unfold connect_endpoint. rewrite Ht, Hc. cbn [andb]. unfold checked.
  destruct (check_connection _ _ _); [done|]. unfold changed. cbn [fst].
  unfold es_apply, tables. cbn [es_catalog apply_change]. unfold serve_core. cbn [core Things.serve].
  unfold Connect, as_owner. destruct (auth token) as [u|]; [|done].
  unfold connect_all. cbn [mbind list_bind fmap list_fmap app foldl bind_result].
  unfold insert_connection. cbn [fst snd]. destruct (canon c) as [v|] eqn:E1; [|done].
  rewrite (Pc _ E1). destruct (canon t) as [v'|]; [|done]. destruct (_ || _); [done|].
  case_bool_decide; [done|]. cbn [commit fst with_db Things.db connections].
  intros [[= ? ? ?]%elem_of_singleton|?]%elem_of_union Hne; [congruence|done].
Qed.

Lemma connect_each_others missing t chs token w :
  plain t -> Forall plain chs -> forall c' o, c' ∉ chs ->
  (c', t, o) ∈ there (es (remote (fst (connect_each missing t chs token w)))) -> (c', t, o) ∈ there (es (remote w)).
Proof.
  intros Ht Hp c' o. revert w. induction Hp as [|c chs Hc Hp IH]; intros w Hn; [done|]. cbn [connect_each].
  apply not_elem_of_cons in Hn as [Hne Hn].
  assert (Hb : forall b1 rr, sdk_connect t c token (remote w) = (b1, rr) -> (c', t, o) ∈ there (es b1) -> (c', t, o) ∈ there (es (remote w))).
  { intros b1 rr Eb. change b1 with (fst (b1, rr)). rewrite <- Eb. cbn [sdk_connect here services_of things_sdk].
    apply (exchange_keeps (fun x => (c', t, o) ∈ there x -> (c', t, o) ∈ there (es (remote w)))); [done|].
    intros x Hx Hin. apply Hx. by eapply connect_serves. }
  unfold bind at 1, call. destruct (sdk_connect t c token (remote w)) as [b1 rr] eqn:Eb. specialize (Hb _ _ eq_refl).
  destruct rr as [u|[]]; cbn [fst raise remote]; try done. intros Hin. apply Hb. by apply (IH (World b1 (repo w)) Hn).
Qed.

Definition same_there (w w' : world (behind S)) : Prop := there (es (remote w')) = there (es (remote w)).

#[local] Instance same_there_preorder : PreOrder same_there.
Proof. split; [done|]. intros w1 w2 w3. unfold same_there. congruence. Qed.

Lemma fetch_there ids key : moves same_there (fetch_channels ids key).
Proof.
  apply (moves_fetch same_there (fun B f => forall b : behind S, there (es (fst (f b))) = there (es b))).
  - intros B f Hf w. unfold call, same_there. specialize (Hf (remote w)). by destruct (f (remote w)).
  - intros i b. cbn [sdk_channel_of here services_of things_sdk].
    apply (exchange_keeps (fun x => there x = there (es b))); [done|]. intros x Hx. unfold view_channel_endpoint.
    destruct (plain_segment i); [|by rewrite other_channel_get]. by unfold checked; destruct (check key i).
Qed.

Lemma array_not_plain l : plain_segment (pq_array l) = false.
Proof. done. Qed.

(** The loops of [UpdateConnections] on an active configuration: what is not asked
    for any more is not connected afterwards. *)
Lemma loops_disconnect range id key old conns add rest w1 w2 w3 c o :
  ranges range -> update_list (list_to_set old) conns = (add, rest) ->
  plain id -> Forall plain old -> Forall plain conns -> auth key = Some o ->
  disconnect_all id (range rest) key w1 = (w2, inl tt) -> connect_each BsMalformed id add key w2 = (w3, inl tt) ->
  c ∈ old -> c ∉ conns -> (c, id, o) ∉ there (es (remote w3)).
Proof.
  intros Hr Eul Hp Hold Hconns Ha E2 E3 Hc Hn Hin. destruct (update_list_in _ _ _ _ Eul) as (Hrest & _ & Hadd).
  assert (Hadds : Forall plain add) by (apply Forall_forall; intros c' Hc'%Hadd; by eapply Forall_forall in Hconns).
  assert (Hrem : Forall plain (range rest)).
  { apply Forall_forall. intros c'. rewrite (Hr rest), elem_of_elements. intros Hc'%Hrest%elem_of_list_to_set.
    by eapply Forall_forall in Hold. }
  pose proof (connect_each_others BsMalformed id add key w2 Hp Hadds c o) as H3. rewrite E3 in H3. cbn [fst] in H3.
  apply H3 in Hin; [|by intros ?%Hadd].
  destruct (disconnect_all_gone _ _ _ _ _ Hp Hrem E2) as [_ Hgone].
  destruct (Hgone c) as (o' & Ho' & Hnot); [|congruence].
  rewrite (Hr rest), elem_of_elements. clear -Eul Hc Hn.
  assert (Hkeep : forall s, c ∈ s -> update_list s conns = (add, rest) -> c ∈ rest); [|by apply (Hkeep (list_to_set old)); [apply elem_of_list_to_set|]].
  clear Eul. revert add Hn. induction conns as [|c0 conns IH]; intros add Hn s Hs; cbn [update_list]; [by intros [= <- <-]|].
  apply not_elem_of_cons in Hn as [Hne Hn]. case_bool_decide.
  - apply (IH add Hn). set_solver.
  - destruct (update_list s conns) as [add' rest'] eqn:E. intros [= <- <-]. by apply (IH add' Hn s).
Qed.

(** C25: The channels of a configuration are those that were asked for, except when
    none are: then they stay what they were, although the thing of an active
    configuration has been disconnected from all of them. *)
Theorem connections_updated sy range key id conns w' a :
  reach sy -> ranges range -> Forall plain conns -> ask range (QUpdateConn key id conns) (sy_world sy) = (w', inl a) ->
  exists owner r, auth key = Some owner /\ configs (repo (sy_world sy)) !! (id, owner) = Some r /\
    configs (repo w') = configs (repo (sy_world sy)) /\
    (forall c, ((id, owner), (c, owner)) ∈ links (repo w') <->
       match conns with [] => ((id, owner), (c, owner)) ∈ links (repo (sy_world sy)) | _ :: _ => c ∈ conns end) /\
    (cr_state r = Active -> forall c, ((id, owner), (c, owner)) ∈ links (repo (sy_world sy)) -> c ∉ conns ->
       (c, id, owner) ∉ joins (remote w')).
Proof.
  intros Hreach Hr Hpc HA. pose proof (reach_ok auth lower int8in by_thing encKey _ Hreach) as Hs.
  destruct sy as [w seen]. cbn [sy_world sy_seen] in *. pose proof (so_store _ _ _ Hs) as Hst.
  unfold endpoint, when_valid in HA. destruct (validate _); [done|].
  apply bind_inv in HA as (w1 & [] & HU & [= -> _]).
  pose proof (UpdateConnections_cases auth range Hr key id conns w Hst) as Hcases. rewrite HU in Hcases.
  destruct Hcases as (owner & chs & Ha & Hf & [r Hrow] & Hu). exists owner, r.
  destruct (UpdateConnections_ok _ _ _ _ _ _ Hst Hf Hu) as (_ & HC & _ & HL).
  split_and!; [done|done|done| |].
  - intros c. destruct conns as [|c0 conns0]; [by rewrite HL|]. rewrite HL, elem_of_union, elem_of_links_of. cbn [fst snd].
    split; [|by left]. intros [(_ & _ & ?)|[Hin Hn]%elem_of_difference]; [done|]. exfalso. apply Hn.
    apply elem_of_filter. cbn [fst snd]. split; [|done]. split_and!; [done|done|].
    intros ->. destruct (so_links _ _ _ Hs _ _ Hin) as [Hseg _]. cbn [fst] in Hseg. by rewrite (array_not_plain (c0 :: conns0)) in Hseg.
  - intros Hact c Hl Hn. unfold UpdateConnections in HU.
    apply bind_inv in HU as (w2 & o & Hi & HU). unfold identify in Hi. rewrite Ha in Hi. injection Hi as <- <-.
    apply bind_inv in HU as (w2 & cfg & Hq & HU). injection Hq as <- Hq.
    destruct (RetrieveByID_inv _ _ _ _ (proj1 Hst) Hq) as (r' & Hr' & Hst' & Hid & Hch).
    assert (r' = r) as -> by congruence.
    unfold updateList in HU. destruct (update_list _ conns) as [add rest] eqn:Eul.
    apply bind_inv in HU as (w2 & existing & Hx & HU). injection Hx as <- _.
    apply bind_inv in HU as (w2 & chs' & Hfetch & HU). rewrite Hst', Hact in HU. cbn [Z.eqb Pos.eqb Active] in HU.
    apply bind_inv in HU as (w3 & [] & E2 & HU). apply bind_inv in HU as (w4 & [] & E3 & HU).
    assert (Hw4 : remote w' = remote w4).
    { unfold execute in HU. destruct (ConfigRepository.UpdateConnections _ _ _ _ _); [by injection HU as <-|done]. }
    rewrite Hw4. eapply (loops_disconnect range id key _ conns add rest w2 w3 w4 c owner Hr Eul); try done.
    + apply (so_configs _ _ _ Hs (id, owner)). by eexists.
    + apply Forall_forall. intros c' Hc'%Hch. by apply (so_links _ _ _ Hs) in Hc'.
    + by apply Hch.
Qed.

End System.

(** ** Witnesses *)

#[local] Existing Instance hex_uuid.
#[local] Existing Instance hex_uuid_ok.
#[local] Existing Instance coded_json.
#[local] Existing Instance coded_json_ok.

#[local] Instance coded_null : JsonNull coded_json.
Proof. intros m. change (js "null") with [110; 117; 108; 108]. unfold marshal, coded_json. discriminate. Qed.

#[local] Instance small_json : Json metadata := {|
  no_metadata := None;
  no_members := fun m => match m with None | Some [] => true | _ => false end;
  json_contains := fun _ _ => false;
  through_jsonb := fun m => m
|}.

#[local] Instance no_routes : OtherRoutes (S := keyspace) := {|
  other_thing := fun _ x => (x, inr SdkNotFound);
  other_channel := fun _ x => (x, inr SdkNotFound);
  other_change := fun _ _ x => (x, inr SdkNotFound)
|}.

#[local] Instance no_routes_ok : OtherRoutesOk no_routes.
Proof. done. Qed.

(** A cipher for keys of 16 bytes. *)
#[local] Instance xor_cipher : Aes := fun key =>
  if (length key =? 16)%nat then Some (fun b => (fun x => Z.lxor x 85) <$> b) else None.

#[local] Instance xor_cipher_ok : AesOk xor_cipher.
Proof.
  intros key E b. unfold new_cipher, xor_cipher. destruct (length key =? 16)%nat; [|done].
  intros [= <-] Hb. by rewrite length_fmap.
Qed.

Definition users (token : text) : option text :=
  if bool_decide (token = js "ta") then Some (js "alice")
  else if bool_decide (token = js "tb") then Some (js "bob") else None.

Definition in_order : range_order := elements.
Lemma in_order_ranges : ranges in_order.
Proof. intros s. reflexivity. Qed.

Definition no_lower (s : text) : text := s.
Definition no_int8 (s : text) : option Z := None.
Definition unsorted (l : list config) : list config := l.
Definition shared_key : bytes := replicate 16 7.

Lemma plain_hex id : plain_segment id = true -> canon id = Some id -> plain id.
Proof. intros Hs Hc. split; [done|]. intros u Hu. congruence. Qed.

(** *** Runs of the system *)

Inductive step := SRequest (q : bs_request) | SChange (ch : change (M := metadata)) | SRead.

Abbreviation sample_reach_system :=
  (bs_reach (S := keyspace) users no_lower no_int8 unsorted shared_key).

Definition take_step (sy : system) (s : step) : system :=
  let w := sy_world sy in
  let b := remote w in
  match s with
  | SRequest q => System (bs_serve (ST := services_of users) users in_order no_lower no_int8 unsorted shared_key q w) (sy_seen sy)
  | SChange ch => System (World (Behind (es_apply users ch (es b)) (to_make b) (faults b)) (repo w)) (sy_seen sy)
  | SRead =>
      match stream (es b) !! sy_seen sy with
      | Some e => System (World b (fst (bs_handle e (repo w)))) (S (sy_seen sy))
      | None => sy
      end
  end.

Definition step_ok (s : step) : Prop :=
  match s with SRequest q => plain_request q | SChange ch => plain_change ch | SRead => True end.

Lemma run_reach ss sy : sample_reach_system sy -> Forall step_ok ss -> sample_reach_system (foldl take_step sy ss).
Proof.
  intros Hr Hs. revert sy Hr. induction Hs as [|s ss Hs _ IH]; intros sy Hr; [done|]. apply IH.
  destruct sy as [[b db] seen]. destruct s as [q|ch|]; cbn [take_step sy_world sy_seen remote repo].
  - apply br_request; [done|apply in_order_ranges|done].
  - by apply br_change.
  - destruct (stream (es b) !! seen) as [e|] eqn:E; [by apply br_event|done].
Qed.

Definition first_system : system :=
  System (World (Behind (EventStore (Catalog fresh_service ∅ ∅) [] true) [] []) empty_store) 0.

Lemma first_reach : sample_reach_system first_system.
Proof. exact (br_init users no_lower no_int8 unsorted shared_key (EventStore (Catalog fresh_service ∅ ∅) [] true) eq_refl). Qed.

Definition asked (thing extid extkey : text) : config :=
  Config thing [] (js "n") [] [] [] [] [] extid extkey (js "x=1") Inactive.

Definition setup : list step := [
  SChange (NewThings (js "ta") [((js "ka", (js "a1", js "gen")), Info [] None)]);
  SChange (NewChannels (js "ta") [(js "c1", Info (js "cn") None)]);
  SChange (NewThings (js "tb") [((js "kb", (js "b1", js "gen")), Info [] None)]);
  SChange (NewChannels (js "tb") [(js "d1", Info [] None)]);
  SRequest (QAdd (js "ta") (asked (js "a1") (js "e1") (js "s1")) [js "c1"]);
  SRequest (QAdd (js "tb") (asked (js "b1") (js "e2") (js "s2")) [js "d1"]);
  SRequest (QState (js "ta") (js "a1") Active);
  SRequest (QState (js "tb") (js "b1") Active);
  SRead; SRead; SRead; SRead; SRead; SRead].

Definition running : system := foldl take_step first_system setup.

Example running_state :
  (fun row => (fst row, cr_state (snd row))) <$> map_to_list (configs (repo (sy_world running))) =
    [((js "a1", js "alice"), 1); ((js "b1", js "bob"), 1)] /\
  length (stream (es (remote (sy_world running)))) = 6%nat /\ sy_seen running = 6%nat.
Proof. vm_compute. auto. Qed.

Ltac plain_ids := apply plain_hex; vm_compute; reflexivity.

Lemma running_reach : sample_reach_system running.
Proof.
  apply run_reach; [apply first_reach|].
  repeat constructor; try (right; plain_ids); plain_ids.
Qed.

Lemma row_of (db : store) k n :
  cr_state <$> configs db !! k = Some n -> exists r, configs db !! k = Some r /\ cr_state r = n.
Proof. intros H. apply fmap_Some in H as (r & Hr & ->). by exists r. Qed.

Lemma active_connected_witness :
  (js "c1", js "a1", js "alice") ∈ connections (tables (es_catalog (es (remote (sy_world running))))) \/
  exists e, e ∈ drop 6 (stream (es (remote (sy_world running)))) /\ notice (js "c1") (js "a1") e.
Proof.
  destruct (row_of (repo (sy_world running)) (js "a1", js "alice") Active) as (r & Hr & Hact); [vm_compute; reflexivity|].
  apply (active_connected users no_lower no_int8 unsorted shared_key running (js "a1") (js "alice") r (js "c1")
    running_reach Hr Hact). vm_decide.
Defined.

Lemma disconnected_by_others_witness :
  exists ev b'', ChangeState (ST := services_of users) users (js "ta") (js "a1") Active
      (World (Behind (es_apply users (Core (RDisconnect (js "tb") (js "d1") (js "b1"))) (es (remote (sy_world running)))) [] [])
         (fst (bs_handle ev (repo (sy_world running))))) =
    (World b'' (fst (bs_handle ev (repo (sy_world running)))), inr BsThings).
Proof.
  destruct (row_of (repo (sy_world running)) (js "a1", js "alice") Active) as (r & Hr & Hact); [vm_compute; reflexivity|].
  destruct (disconnected_by_others users no_lower no_int8 unsorted shared_key running (js "a1") (js "alice") (js "ta") r
    (js "c1") (js "bob") (js "tb") (js "d1") (js "b1") running_reach) as (ev & _ & _ & _ & b'' & H).
  - vm_compute. reflexivity.
  - reflexivity.
  - exact Hr.
  - exact Hact.
  - vm_decide.
  - reflexivity.
  - discriminate.
  - vm_compute. reflexivity.
  - vm_compute. reflexivity.
  - vm_decide.
  - vm_decide.
  - exists ev, b''. exact H.
Defined.

(** The network fails once. *)
Definition failing : behind keyspace :=
  Behind (es (remote (sy_world running))) [] [Served; AnswerLost].

Lemma lookup_failure_deletes_witness :
  exists b', endpoint (ST := services_of users) users in_order no_lower no_int8 unsorted shared_key
      (QAdd (js "ta") (asked (js "a1") (js "e9") (js "s9")) [js "c1"]) (World failing empty_store) =
    (World b' empty_store, inr BsThings) /\
  things (tables (es_catalog (es failing))) !! (js "a1", js "alice") = Some (js "ka") /\
  things (tables (es_catalog (es b'))) !! (js "a1", js "alice") = None.
Proof.
  set (fetch := connectionChannels (ST := services_of users) in_order [js "c1"] [] (js "ta") (World failing empty_store)).
  assert (Hf : faults (remote (fst fetch)) = [AnswerLost]) by (vm_compute; reflexivity).
  assert (Hdb : repo (fst fetch) = empty_store) by (vm_compute; reflexivity).
  assert (Hok : match snd fetch with inl _ => True | inr _ => False end) by (vm_compute; exact I).
  destruct fetch as [[b1 db1] [chs|e]] eqn:E; [|destruct Hok]. cbn [fst remote repo] in Hf, Hdb. subst db1.
  destruct (lookup_failure_deletes users no_lower no_int8 unsorted shared_key in_order (js "ta") (js "alice")
    (asked (js "a1") (js "e9") (js "s9")) [js "c1"] (js "a1") (js "ka") failing b1 empty_store [] chs)
    as (b' & H & _ & Hn);
    [reflexivity|discriminate|discriminate|discriminate|reflexivity|vm_compute; reflexivity|vm_compute; reflexivity
    |reflexivity|exact E|..].
  - exists AnswerLost, []. rewrite Hf. split; [reflexivity|]. split; discriminate.
  - exists b'. split_and!; [exact H|vm_compute; reflexivity|exact Hn].
Defined.

Lemma connections_updated_witness :
  let w := fst (endpoint (ST := services_of users) users in_order no_lower no_int8 unsorted shared_key
                  (QUpdateConn (js "ta") (js "a1") []) (sy_world running)) in
  ((js "a1", js "alice"), (js "c1", js "alice")) ∈ links (repo w) /\
  (js "c1", js "a1", js "alice") ∉ connections (tables (es_catalog (es (remote w)))).
Proof.
  intros w.
  destruct (connections_updated users no_lower no_int8 unsorted shared_key running in_order (js "ta") (js "a1") [] w Done_
    running_reach in_order_ranges) as (o & r & Ho & Hr & _ & Hl & Hgone); [by constructor|vm_compute; reflexivity|].
  assert (o = js "alice") as -> by (vm_compute in Ho; injection Ho as <-; reflexivity).
  assert (Hin : ((js "a1", js "alice"), (js "c1", js "alice")) ∈ links (repo (sy_world running))) by vm_decide.
  split; [by apply Hl|]. apply Hgone; [|exact Hin|by apply not_elem_of_nil].
  destruct (row_of (repo (sy_world running)) (js "a1", js "alice") Active) as (r' & Hr' & Hact); [vm_compute; reflexivity|].
  by assert (r' = r) as <- by congruence.
Defined.

Lemma config_tenants_witness :
  tenant_rows (js "alice") (repo (sy_world running))
    (repo (fst (endpoint (ST := services_of users) users in_order no_lower no_int8 unsorted shared_key
                  (QRemove (js "tb") (js "a1")) (sy_world running)))).
Proof.
  refine (proj1 (config_tenants users in_order in_order_ranges no_lower no_int8 unsorted _ shared_key
    (QRemove (js "tb") (js "a1")) (sy_world running) _) (js "alice") _).
  - by intros l.
  - exact (so_store _ _ _ (reach_ok users no_lower no_int8 unsorted shared_key running running_reach)).
  - vm_compute. discriminate.
Defined.

(** *** A device *)

Definition before : world (behind keyspace) := sy_world (foldl take_step first_system (take 4 setup)).
Definition lamp_config : config := requested (asked (js "a1") (js "e1") (js "s1")) [js "c1"].
Definition added : world (behind keyspace) * (config + bs_error) :=
  Bootstrap.Add (ST := services_of users) users in_order (js "ta") lamp_config before.
Definition saved_config : config := match snd added with inl cfg => cfg | inr _ => lamp_config end.

Lemma added_bootstrapped_witness :
  exists given, Bootstrap shared_key (js "s1") (js "e1") false (fst added) = (fst added, inl given) /\
    MFThing given = js "a1" /\ MFKey given = js "ka" ++ replicate 34 SPACE /\ js "c1" ∈ toIDList (MFChannels given).
Proof.
  destruct (added_bootstrapped (ST := services_of users) users in_order (js "ta") lamp_config before (fst added) saved_config
    shared_key false (js "s1") in_order_ranges) as (given & Hg & Ht & _ & Hk & _ & _ & _ & _ & _ & _ & Hc).
  - apply empty_store_ok.
  - vm_compute. reflexivity.
  - vm_compute. reflexivity.
  - exists given. split_and!; [exact Hg| | |].
    + rewrite Ht. vm_compute. reflexivity.
    + assert (Hk' : char36 (MFKey saved_config) = Some (js "ka" ++ replicate 34 SPACE)) by (vm_compute; reflexivity). congruence.
    + apply Hc. vm_decide.
Defined.

Definition sample_iv : bytes := replicate 16 9.
Definition sent_key : bytes :=
  match encrypt shared_key sample_iv (utf8 (js "s1")) with inl b => b | inr _ => [] end.

