(* ===== verification/Interop.v ===== *)
(** * From HTTP to MQTT

    A message posted over HTTP, through the bytes on NATS, to the packet that the
    MQTT adapter hands to its clients.  The codec of the MQTT adapter works on
    bytes here, and reads what the Go codec writes. *)

From S2P Require Import Prelude JsString JsRegExp Topics Messages Utf8 GoCodec Subtopics GoAdapters.
From S2P Require Import Adapter AdapterSystem AdapterBridge.

Local Open Scope Z_scope.

(** ** Messages in the two languages *)

(** Strings are UTF-8 in Go. *)
Definition to_go (m : Message) : GoMessage := {|
  Channel := utf8 (m_channel m);
  Topic := utf8 (m_topic m);
  Subtopic := utf8 (m_subtopic m);
  Publisher := utf8 (m_publisher m);
  Devname := utf8 (m_devname m);
  Protocol := utf8 (m_protocol m);
  ContentType := utf8 (m_contentType m);
  Payload := m_payload m;
  XXX_unrecognized := []
|}.

(** A codec on bytes. *)
Class ByteCodec := {
  encode_bytes : msg_obj -> list Z;
  decode_bytes : list Z -> option Message
}.

#[export] Instance byte_codec (B : ByteCodec) : MessageCodec := {|
  wire := list Z;
  encode := encode_bytes;
  decode := decode_bytes
|}.

(** Documented behaviour of protobuf: its implementations read each other's
    bytes. *)
Class ByteCodecOk (B : ByteCodec) : Prop :=
  decode_marshal : forall m data, wf_message m = true -> Size (to_go m) < 2 ^ 63 ->
    Marshal (to_go m) = GoCodec.Done data -> decode_bytes data = Some m.

(** ** A codec that meets the interface *)

Definition of_go (g : GoMessage) : option Message :=
  ch ← from_utf8 (Channel g);
  topic ← from_utf8 (Topic g);
  st ← from_utf8 (Subtopic g);
  pub ← from_utf8 (Publisher g);
  dev ← from_utf8 (Devname g);
  proto ← from_utf8 (Protocol g);
  ct ← from_utf8 (ContentType g);
  Some (MkMessage ch topic st pub dev proto ct (Payload g)).

Definition go_byte_codec : ByteCodec := {|
  encode_bytes := fun o => message_bytes (to_go (message_of o));
  decode_bytes := fun data =>
    match Unmarshal data empty_message with GoCodec.Done g => of_go g | _ => None end
|}.

Lemma of_go_to_go m : wf_message m = true -> of_go (to_go m) = Some m.
Proof.
  destruct m as [ch topic st pub dev proto ct payload]. unfold wf_message, of_go. simpl.
  intros H. repeat apply andb_true_iff in H as [H ?].
  rewrite !utf8_round_trip by done. reflexivity.
Qed.

#[export] Instance go_byte_codec_ok : ByteCodecOk go_byte_codec.
Proof.
  intros m data Hwf Hs Hm. rewrite Marshal_bytes in Hm by done. injection Hm as <-. simpl.
  by rewrite Unmarshal_bytes, of_go_to_go.
Qed.

(** ** A message on its way *)

Lemma well_formed_elements_of rest :
  well_formed rest = true -> well_formed (join DOT (elements_of rest)) = true.
Proof.
  intros Hr. apply well_formed_join; [done|]. unfold elements_of, nonempty_parts.
  apply Forall_forall. intros e [_ He]%list_elem_of_filter.
  rewrite <- (join_split SLASH rest), replace_all_join in He by (done || apply split_elems_free).
  revert e He. apply Forall_forall. apply well_formed_split; [done|].
  apply well_formed_join; [done|]. by apply well_formed_split.
Qed.

Section Interop.
Context {B : ByteCodec} {HB : ByteCodecOk B}.
Variable instance_id : jsstr.
Variable CanAccessByKey : bytes -> bytes -> bytes + call_error.
Variable broker_publish : bytes -> bytes -> bool.

(** The identifiers of things are text. *)
Variable access_text : forall key ch t,
  CanAccessByKey key ch = inl t -> exists s, well_formed s = true /\ t = utf8 s.

(** The message that an accepted POST sends, as the MQTT adapter will read it. *)
Lemma http_accepts_text r url rest id ct payload m :
  http_accepts CanAccessByKey r m ->
  channelParts (RequestURI r) = Some url -> QueryUnescape url = Some (utf8 rest) ->
  route_id r = utf8 id -> Content_Type r = utf8 ct -> body r = Some payload ->
  exists pub, well_formed pub = true /\
    m = to_go (MkMessage id [] (join DOT (elements_of rest)) pub [] (js "http") ct payload).
Proof.
  intros (sub & st & payload' & t & Hsub & Hst & Hbody & Hacc & ->) Hurl Hu Hid Hct Hb.
  simplify_eq. rewrite (parseSubtopic_utf8 _ _ Hu), format_subtopic_utf8 in Hst.
  destruct (existsb invalid_element (elements_of rest)); [done|]. injection Hst as <-.
  destruct (access_text _ _ _ Hacc) as (pub & Hpub & ->). exists pub. split; [done|].
  unfold message, to_go. cbn [m_channel m_topic m_subtopic m_publisher m_devname m_protocol m_contentType m_payload].
  by rewrite Hid, Hct.
Qed.

(** C15: what is posted over HTTP reaches the MQTT clients: the bytes that go out on
    the subject of the channel and subtopic are decoded by the MQTT adapter,
    which hands aedes one packet with the same payload, on the topic of the same
    channel, subtopic and content type. *)
Theorem http_reaches_mqtt r url rest id ct payload (p : publication) w :
  p ∈ snd (http_post CanAccessByKey broker_publish r) ->
  channelParts (RequestURI r) = Some url -> QueryUnescape url = Some (utf8 rest) ->
  route_id r = utf8 id -> Content_Type r = utf8 ct -> body r = Some payload ->
  well_formed id = true -> well_formed rest = true -> well_formed ct = true ->
  (forall m, http_accepts CanAccessByKey r m -> Size m < 2 ^ 63) ->
  fst p = utf8 (channelTopic id (elements_of rest)) /\
  handle instance_id (EvNats (snd p)) w
  = Adapter.Done tt (react w (EvNats (snd p)) [AedesPublish {|
      op_cmd := js "publish";
      op_qos := 2;
      op_topic := outbound_topic id (join DOT (elements_of rest)) ct;
      op_payload := payload;
      op_retain := false |}]).
Proof.
  intros Hin Hurl Hu Hid Hct Hb Hwid Hwrest Hwct Hsize.
  destruct (http_post_cases CanAccessByKey broker_publish r) as [(m & Hm & Hpost)|(_ & Hno & _)];
    [|rewrite Hno in Hin; by apply elem_of_nil in Hin].
  rewrite Hpost in Hin. apply nats_publish_spec in Hin as (Hmar & Hsub & _).
  specialize (Hsize m Hm).
  destruct (http_accepts_text _ _ _ _ _ _ _ Hm Hurl Hu Hid Hct Hb) as (pub & Hpub & ->).
  split.
  - etransitivity; [exact Hsub|]. unfold to_go. cbn [Channel Subtopic m_channel m_subtopic].
    apply fmtSubject_utf8, nonempty_parts_Forall.
  - assert (Hdec : decode (snd p) =
      Some (MkMessage id [] (join DOT (elements_of rest)) pub [] (js "http") ct payload)).
    { apply decode_marshal; [|done|done]. unfold wf_message.
      cbn [m_channel m_topic m_subtopic m_publisher m_devname m_protocol m_contentType].
      by rewrite Hwid, Hpub, Hwct, well_formed_elements_of. }
    unfold handle. cbn [dispatch]. unfold onNatsMessage. by rewrite Hdec.
Qed.

End Interop.

(** ** Witness *)

#[local] Existing Instance go_byte_codec.

Definition granting (key ch : bytes) : bytes + call_error :=
  if bool_decide (key = js "k1") then inl (js "a1") else inr (StatusError true).

Lemma granting_text key ch t :
  granting key ch = inl t -> exists s, well_formed s = true /\ t = utf8 s.
Proof.
  unfold granting. destruct (bool_decide _); [|done]. intros [= <-]. exists (js "a1").
  split; vm_compute; reflexivity.
Qed.

(** A subtopic with an umlaut, escaped in the URL. *)
Definition posted : http_request := sample_post (js "/channels/c1/messages/k%C3%BCche/temp") (js "k1").

Lemma http_reaches_mqtt_witness :
  exists data,
    handle (js "mqtt-1") (EvNats data) init_world
    = Adapter.Done tt (react init_world (EvNats data) [AedesPublish {|
        op_cmd := js "publish"; op_qos := 2;
        op_topic := js "channels/c1/messages/k" ++ 252 :: js "che/temp";
        op_payload := [49; 50]; op_retain := false |}]).
Proof.
  destruct (snd (http_post granting (fun _ _ => true) posted)) as [|[subject data] out] eqn:E;
    [vm_compute in E; discriminate E|].
  exists data.
  refine (proj2 (http_reaches_mqtt (js "mqtt-1") granting (fun _ _ => true) granting_text posted
    (js "/k%C3%BCche/temp") (js "/k" ++ 252 :: js "che/temp") (js "c1") [] [49; 50] (subject, data) init_world
    _ _ _ _ _ _ _ _ _ _)).
  - rewrite E. left.
  - vm_compute; reflexivity.
  - vm_compute; reflexivity.
  - vm_compute; reflexivity.
  - reflexivity.
  - reflexivity.
  - vm_compute; reflexivity.
  - vm_compute; reflexivity.
  - reflexivity.
  - intros m (sub & st & pl & t & Hsub & Hst & Hb & Hacc & ->). vm_compute in Hsub.
    injection Hsub as <-. vm_compute in Hst. injection Hst as <-.
    injection Hb as <-. vm_compute in Hacc. injection Hacc as <-. vm_compute. reflexivity.
Defined.
