(* ===== verification/Startup.v ===== *)
(** * Start-up of the MQTT adapter

    The libraries that [mqtt/aedes/mqtt.js] sets up, in the order of the source,
    with the options it passes to each: which setting reaches which connection. *)

From S2P Require Import Prelude JsString JsNumber Messages Service.
From Stdlib Require Import SpecFloat.

Local Open Scope Z_scope.

Record redis_options := RedisOptions {
  ro_port : number;
  ro_host : jsstr;
  ro_password : jsstr;
  ro_db : number
}.

Inductive setup_call :=
| CreateLogger (name level : jsstr)
| LoadServices (path : jsstr) (options : list (jsstr * jsstr))   (* protoLoader.loadSync *)
| LoadMessages (path : jsstr)                            (* protobuf.Root().loadSync *)
| LookupType (name : jsstr)
| NatsConnect (servers : list jsstr) (preserveBuffers : bool)
| PersistenceRedis (o : redis_options) (packetTTL : number)
| EmitterRedis (o : redis_options)
| AedesNew (id : jsval) (concurrency : number)
| CreateSsl (root_certs : jsstr)
| CreateInsecure
| ThingsService (url : jsstr)
| RedisCreateClient (o : redis_options)
| ListenMqtt (port : number)
| ListenWs (port : number)
| AttachLogging (level : Z)
| LoggerLevel (level : jsstr)
| NatsSubscribe (subject queue : jsstr).

(** The Redis server of the broker, and the one of the event stream. *)
Definition broker_redis (c : config) : redis_options :=
  RedisOptions (redis_port c) (redis_host c) (redis_pass c) (redis_db c).
Definition event_redis (c : config) : redis_options :=
  RedisOptions (es_port c) (es_host c) (es_pass c) (es_db c).

(** [packetTTL] gives every packet the same lifetime. *)
Definition packetTTL {packet : Type} (c : config) (p : packet) : number := message_ttl c.

(** The credentials of the [things] client. *)
Definition credentials (c : config) : setup_call :=
  if client_tls c then CreateSsl (ca_certs c) else CreateInsecure.

Definition startMqtt (c : config) : setup_call := ListenMqtt (mqtt_port c).
Definition startWs (c : config) : setup_call := ListenWs (ws_port c).

Definition startup (c : config) : list setup_call := [
  CreateLogger (js "mqtt") (log_level c);
  LoadServices (schema_dir c ++ js "/authn.proto")
    [(js "keepCase", js "true"); (js "longs", js "String"); (js "enums", js "String");
     (js "defaults", js "true"); (js "oneofs", js "true")];
  LoadMessages (schema_dir c ++ js "/message.proto");
  LookupType (js "mainflux.Message");
  NatsConnect [nats_url c] true;
  PersistenceRedis (broker_redis c) (packetTTL c tt);
  EmitterRedis (broker_redis c);
  AedesNew (broker_id c) (concurrency c);
  credentials c;
  ThingsService (auth_url c);
  RedisCreateClient (event_redis c);
  startMqtt c;
  startWs c;
  AttachLogging 30;
  LoggerLevel (log_level c);
  NatsSubscribe (js "channel.>") (js "mqtts")
].

(** ** Which variable reaches what *)

(** The variables the README documents for each connection. *)
Definition variables (s : setup_call) : list jsstr :=
  match s with
  | CreateLogger _ _ | LoggerLevel _ => [js "MF_MQTT_ADAPTER_LOG_LEVEL"]
  | LoadServices _ _ | LoadMessages _ | LookupType _ | AttachLogging _ | NatsSubscribe _ _ => []
  | NatsConnect _ _ => [js "MF_NATS_URL"]
  | PersistenceRedis _ _ =>
      [js "MF_MQTT_ADAPTER_REDIS_PORT"; js "MF_MQTT_ADAPTER_REDIS_HOST"; js "MF_MQTT_ADAPTER_REDIS_PASS";
       js "MF_MQTT_ADAPTER_REDIS_DB"; js "MF_MQTT_ADAPTER_MESSAGE_TTL"]
  | EmitterRedis _ =>
      [js "MF_MQTT_ADAPTER_REDIS_PORT"; js "MF_MQTT_ADAPTER_REDIS_HOST"; js "MF_MQTT_ADAPTER_REDIS_PASS";
       js "MF_MQTT_ADAPTER_REDIS_DB"]
  | AedesNew _ _ => [js "MF_MQTT_INSTANCE_ID"; js "MF_MQTT_CONCURRENT_MESSAGES"]
  | CreateSsl _ | CreateInsecure => [js "MF_MQTT_ADAPTER_CLIENT_TLS"; js "MF_MQTT_ADAPTER_CA_CERTS"]
  | ThingsService _ => [js "MF_THINGS_URL"]
  | RedisCreateClient _ =>
      [js "MF_MQTT_ADAPTER_ES_PORT"; js "MF_MQTT_ADAPTER_ES_HOST"; js "MF_MQTT_ADAPTER_ES_PASS";
       js "MF_MQTT_ADAPTER_ES_DB"]
  | ListenMqtt _ => [js "MF_MQTT_ADAPTER_PORT"]
  | ListenWs _ => [js "MF_MQTT_ADAPTER_WS_PORT"]
  end.

Definition agree (vars : list jsstr) (env1 env2 : jsstr -> option jsstr) : Prop :=
  Forall (fun v => env1 v = env2 v) vars.

Lemma variables_credentials c :
  variables (credentials c) = [js "MF_MQTT_ADAPTER_CLIENT_TLS"; js "MF_MQTT_ADAPTER_CA_CERTS"].
Proof. unfold credentials. by destruct (client_tls c). Qed.

(** A call that reads the variables of the hypothesis only. *)
Ltac same_call :=
  unfold startMqtt, startWs, credentials, broker_redis, event_redis, packetTTL, broker_id, load_config;
  cbn [log_level instance_id event_stream mqtt_port ws_port nats_url redis_port redis_host redis_pass
       redis_db message_ttl es_port es_host es_pass es_db client_tls ca_certs concurrency auth_url schema_dir];
  repeat match goal with H : Forall _ (_ :: _) |- _ => apply Forall_cons in H as [? H] end;
  repeat match goal with H : _ = _ |- _ => rewrite H; clear H end;
  reflexivity.

Lemma startup_call env1 env2 arg k s :
  startup (load_config env1 arg) !! k = Some s -> agree (variables s) env1 env2 ->
  startup (load_config env2 arg) !! k = Some s.
Proof.
  unfold startup, agree. intros Hk Ha.
  do 16 (destruct k as [|k]; [injection Hk as <-; try rewrite variables_credentials in Ha;
    cbn [variables startMqtt startWs] in Ha; cbn [lookup list_lookup]; same_call|]).
  by destruct k.
Qed.

Lemma startup_tls env arg certs :
  CreateSsl certs ∈ startup (load_config env arg) <->
  env (js "MF_MQTT_ADAPTER_CLIENT_TLS") = Some (js "true") /\
  certs = setting (env (js "MF_MQTT_ADAPTER_CA_CERTS")) [].
Proof.
  assert (Hc : CreateSsl certs ∈ startup (load_config env arg) <->
    CreateSsl certs = credentials (load_config env arg)).
  { unfold startup. rewrite !elem_of_cons, elem_of_nil. unfold startMqtt, startWs. naive_solver. }
  rewrite Hc. unfold credentials, load_config. cbn [client_tls ca_certs].
  destruct (env (js "MF_MQTT_ADAPTER_CLIENT_TLS")) as [v|]; [|naive_solver].
  destruct (str_eqb v (js "true")) eqn:E.
  - apply str_eqb_eq in E as ->. naive_solver.
  - split; [done|]. intros [[= ->] _]. by rewrite str_eqb_refl in E.
Qed.

(** At start-up every library is set up from the variables documented for it
    and no others: environments that agree on them lead to the same call, so the
    Redis server of the broker is never confused with that of the event stream.
    The Things service is called with TLS exactly when the variable says [true],
    and what is passed as certificates is the text of the setting. *)
Theorem startup_variables env1 env2 arg :
  (forall k s, startup (load_config env1 arg) !! k = Some s -> agree (variables s) env1 env2 ->
     startup (load_config env2 arg) !! k = Some s) /\
  (forall certs, CreateSsl certs ∈ startup (load_config env1 arg) <->
     env1 (js "MF_MQTT_ADAPTER_CLIENT_TLS") = Some (js "true") /\
     certs = setting (env1 (js "MF_MQTT_ADAPTER_CA_CERTS")) []).
Proof. split; [intros k s; apply startup_call|intros certs; apply startup_tls]. Qed.
