(* ===== verification/Branding.v ===== *)
(** * The Grafana branding

    [docker/grafana/branding/Branding.tsx]: the components as functions from
    their properties and the theme to elements, and the choice of the login
    slogan.  [css] and [cx] of emotion, which make class names, are parameters. *)

From S2P Require Import Prelude JsString.
From Stdlib Require Import QArith Qround.

Local Open Scope Z_scope.

Inductive element :=
| Img (className : option jsstr) (src alt : jsstr)
| Div (className : jsstr) (children : list element).

Section Branding.
Variable css : jsstr -> jsstr.
Variable cx : jsstr -> option jsstr -> jsstr.

(** A theme is dark or light. *)
Variable isDark : bool.
Definition isLight : bool := negb isDark.

(** A line of a template literal: its indentation and text. *)
Definition line (indent : nat) (text : jsstr) : jsstr := 10 :: replicate indent 32 ++ text.

Definition LoginLogo (className : option jsstr) : element :=
  Img className (js "public/img/grafana_icon.svg") (js "ADO").

Definition background_url : jsstr :=
  js "public/img/login_background_" ++ js (if isDark then "dark" else "light") ++ js ".svg".

Definition LoginBackground (className : option jsstr) (children : list element) : element :=
  let background :=
    css (line 4 (js "background: url(" ++ background_url ++ js ");")
         ++ line 4 (js "background-size: cover;") ++ line 2 []) in
  Div (cx background className) children.

Definition MenuLogo (className : option jsstr) : element :=
  Img className (js "public/img/grafana_icon.svg") (js "ADO").

Definition LoginBoxBackground : jsstr :=
  css (line 4 (js "background: "
               ++ js (if isLight then "rgba(6, 30, 200, 0.1 )" else "rgba(18, 28, 41, 0.65)") ++ js ";")
       ++ line 4 (js "background-size: cover;") ++ line 2 []).

Definition AppTitle : jsstr := js "Grafana".
Definition LoginTitle : jsstr := js "Welcome to ADO".

Definition slogans : list jsstr := [js "Open Digital Aquaculture"; js "Open Digital Aquaculture"].

(** [random] is the result of [Math.random()]; doubling it is exact.  [None] is
    [undefined]. *)
Definition GetLoginSubTitle (random : Q) : option jsstr :=
  let count := Z.of_nat (length slogans) in
  let i := Qfloor (random * inject_Z count)%Q in
  if (i <? 0) then None else slogans !! Z.to_nat i.

(** The index is in range for every value of [Math.random()]. *)
Lemma login_subtitle_defined (random : Q) :
  (0 <= random < 1)%Q -> GetLoginSubTitle random = Some (js "Open Digital Aquaculture").
Proof.
  intros [H0 H1]. unfold GetLoginSubTitle. change (Z.of_nat (length slogans)) with 2.
  set (i := Qfloor (random * inject_Z 2)%Q).
  assert (Hlow : 0 <= i).
  { change 0 with (Qfloor 0). apply Qfloor_resp_le. apply Qmult_le_0_compat; [done|discriminate]. }
  assert (Hhigh : i < 2).
  { rewrite Zlt_Qlt. apply Qle_lt_trans with (random * inject_Z 2)%Q; [apply Qfloor_le|].
    exact (Qmult_lt_compat_r random 1 (inject_Z 2) eq_refl H1). }
  destruct (Z.ltb_spec i 0); [lia|]. assert (i = 0 \/ i = 1) as [->| ->] by lia; reflexivity.
Qed.

End Branding.
